(** * PhiFit: token ledger, side challenges, perfect weeks and leaderboards

    A shallow embedding of the server-side logic of the PhiFit fitness
    challenge application (TypeScript over Prisma), and the properties its
    specification states about it.

    The relational store is a record of tables (lists of rows, in insertion
    order).  A Prisma query is a filter over a table, a [create] appends a
    row, an [update] rewrites the rows with the given id, and a transaction
    whose callback throws leaves the store as it was.  Columns that no
    decision in the code reads (titles, rule texts, units, display strings,
    creation timestamps) are not carried. *)

From Stdlib Require Import ZArith QArith Qabs Lqa Lia Ascii String Floats.
From stdpp Require Import base decidable option list gmap strings pretty relations sorting.

Local Open Scope string_scope.
Local Open Scope list_scope.
Local Open Scope Z_scope.

(** ** Numbers

    Ledger deltas, stakes and task points are [Int] columns: [Z].  Submitted
    values, targets and money amounts sit in numeric columns; the content of
    such a column is a rational ([Q]).  What the code computes with is
    [Number(column)], a JavaScript number, that is an IEEE 754 double:
    [float], with the comparisons, [Math.abs] and the arithmetic of doubles. *)

Definition Qltb (x y : Q) : bool := negb (Qle_bool y x).

(** An integer as an unrounded binary floating-point datum. *)
Definition integerDatum (n : Z) : spec_float :=
  match n with
  | Z0 => S754_zero false
  | Zpos p => S754_finite false p 0
  | Zneg p => S754_finite true p 0
  end.

(** [Number(v)] for the content [v] of a numeric column: the double nearest
    to it, ties to even, infinite beyond the range of doubles. *)
Definition toNumber (v : Q) : float :=
  SF2Prim (SFdiv prec emax (integerDatum (Qnum v))
                           (integerDatum (Zpos (Qden v)))).

(** The rational that a finite double stands for. *)
Definition rationalOf (sign : bool) (mantissa : positive) (exponent : Z)
  : Q :=
  (inject_Z (if sign then Zneg mantissa else Zpos mantissa)
   * 2 ^ exponent)%Q.

(** How the runtime prints a finite number inside a template literal. *)
Class NumberFormat := showNumber : Q -> string.

(** [`${x}`] for a JavaScript number [x]. *)
Definition showFloat `{NumberFormat} (x : float) : string :=
  match Prim2SF x with
  | S754_nan => "NaN"
  | S754_infinity false => "Infinity"
  | S754_infinity true => "-Infinity"
  | S754_zero _ => showNumber 0%Q
  | S754_finite s m e => showNumber (rationalOf s m e)
  end.

(** The schema file is not among the sources.  A nullable numeric column
    comes back either as a JavaScript number, for which [v ? a : b] takes
    the [b] branch at zero, or as a Prisma [Decimal] object, which is truthy
    whatever its value.  [decimalColumns] says which; every statement below
    holds for both. *)
Class Schema := decimalColumns : bool.

Definition truthy `{Schema} (v : option Q) : bool :=
  match v with
  | None => false
  | Some x => if Qeq_bool x 0 then decimalColumns else true
  end.

(** [v ? Number(v) : null] *)
Definition numberOrNull `{Schema} (v : option Q) : option float :=
  if truthy v then toNumber <$> v else None.

(** A function that returns or throws. *)
Inductive Except (A : Type) :=
| Return (a : A)
| Throw (message : string).
Arguments Return {A} a.
Arguments Throw {A} message.

Fixpoint sumZ (l : list Z) : Z :=
  match l with
  | [] => 0
  | x :: r => x + sumZ r
  end.

(** ** Data model (the Prisma schema, as the code uses it) *)

Definition Id := string.
Definition Time := Z.

Inductive WeekStatus := UPCOMING | OPEN | LOCKED.

Inductive TokenReason :=
| PERFECT_WEEK_EARNED
| SIDE_CHALLENGE_STAKE
| SIDE_CHALLENGE_WIN
| SIDE_CHALLENGE_TIE_REFUND
| SIDE_CHALLENGE_VOID_REFUND.

Inductive SideChallengeStatus :=
| PROPOSED | ACCEPTED | PENDING_REVIEW | RESOLVED | DECLINED | VOID.

#[global] Instance WeekStatus_eq_dec : EqDecision WeekStatus.
Proof. solve_decision. Defined.
#[global] Instance TokenReason_eq_dec : EqDecision TokenReason.
Proof. solve_decision. Defined.
#[global] Instance SideChallengeStatus_eq_dec : EqDecision SideChallengeStatus.
Proof. solve_decision. Defined.

Record User := mkUser {
  u_id : Id;
  u_displayName : string;
}.

Record Challenge := mkChallenge {
  ch_id : Id;
  ch_organizerUserId : Id;
  ch_numberOfWeeks : Z;
  ch_buyInAmount : Q;
  ch_weeklyPrizeAmount : Q;
  ch_grandPrizeAmount : option Q;
  ch_weeklyPrizePercent : Q;
  ch_grandPrizePercent : Q;
}.

Record Participant := mkParticipant {
  p_challengeId : Id;
  p_userId : Id;
}.

Record TaskTemplate := mkTaskTemplate {
  tt_id : Id;
  tt_challengeId : Id;
  tt_points : Z;
  tt_active : bool;
}.

Record Week := mkWeek {
  w_id : Id;
  w_challengeId : Id;
  w_status : WeekStatus;
}.

Record Completion := mkCompletion {
  c_challengeId : Id;
  c_weekId : Id;
  c_taskTemplateId : Id;
  c_userId : Id;
}.

Record TokenLedger := mkTokenLedger {
  tl_id : Id;
  tl_challengeId : Id;
  tl_userId : Id;
  tl_weekId : option Id;
  tl_delta : Z;
  tl_reason : TokenReason;
  tl_relatedEntityId : option Id;
}.

Record SideChallenge := mkSideChallenge {
  sc_id : Id;
  sc_challengeId : Id;
  sc_weekId : Id;
  sc_createdByUserId : Id;
  sc_opponentUserId : Id;
  sc_status : SideChallengeStatus;
  sc_metricType : string;
  sc_targetValue : option Q;
  sc_stakeTokens : Z;
  sc_acceptedAt : option Time;
  sc_expiresAt : Time;
  sc_resolvedAt : option Time;
  sc_winnerUserId : option Id;
  sc_resolutionNote : option string;
}.

Record SideChallengeSubmission := mkSubmission {
  sub_sideChallengeId : Id;
  sub_userId : Id;
  sub_valueNumber : Q;
}.

Record DB := mkDB {
  users : list User;
  challenges : list Challenge;
  participants : list Participant;
  taskTemplates : list TaskTemplate;
  weeks : list Week;
  completions : list Completion;
  tokenLedger : list TokenLedger;
  sideChallenges : list SideChallenge;
  sideChallengeSubmissions : list SideChallengeSubmission;
}.

Definition with_tokenLedger (l : list TokenLedger) (db : DB) : DB :=
  mkDB (users db) (challenges db) (participants db) (taskTemplates db)
       (weeks db) (completions db) l (sideChallenges db)
       (sideChallengeSubmissions db).

Definition with_sideChallenges (l : list SideChallenge) (db : DB) : DB :=
  mkDB (users db) (challenges db) (participants db) (taskTemplates db)
       (weeks db) (completions db) (tokenLedger db) l
       (sideChallengeSubmissions db).

Definition with_submissions (l : list SideChallengeSubmission) (db : DB) : DB :=
  mkDB (users db) (challenges db) (participants db) (taskTemplates db)
       (weeks db) (completions db) (tokenLedger db) (sideChallenges db) l.

(** Row ids are [@default(cuid())] columns.  The store hands out an id that
    no row of the table has yet; here, a string longer than every id in use.
    Nothing in the code depends on the shape of an id. *)
Definition maxLength (ids : list Id) : nat :=
  foldr (fun s m => Nat.max (String.length s) m) O ids.

Fixpoint replicateChar (n : nat) : string :=
  match n with
  | O => EmptyString
  | S k => String "c"%char (replicateChar k)
  end.

Definition cuid (used : list Id) : Id := replicateChar (S (maxLength used)).

(** The data of a ledger row, before the store gives it an id. *)
Record LedgerData := mkLedgerData {
  ld_challengeId : Id;
  ld_userId : Id;
  ld_weekId : option Id;
  ld_delta : Z;
  ld_reason : TokenReason;
  ld_relatedEntityId : option Id;
}.

Definition ledgerRow (i : Id) (d : LedgerData) : TokenLedger :=
  mkTokenLedger i (ld_challengeId d) (ld_userId d) (ld_weekId d)
                (ld_delta d) (ld_reason d) (ld_relatedEntityId d).

(** [tokenLedger.create] *)
Definition ledgerCreate (d : LedgerData) (ledger : list TokenLedger)
  : list TokenLedger :=
  ledger ++ [ledgerRow (cuid (tl_id <$> ledger)) d].

(** [tokenLedger.createMany] *)
Definition ledgerCreateMany (ds : list LedgerData) (ledger : list TokenLedger)
  : list TokenLedger :=
  foldl (fun l d => ledgerCreate d l) ledger ds.

(** ** lib/tokens.ts *)

Module Tokens.

(** [getTokenBalance]: the sum of the deltas of the user's rows; Prisma's
    [_sum] is null on no rows, which [?? 0] turns into 0. *)
Definition getTokenBalance (db : DB) (challengeId userId : Id) : Z :=
  sumZ (tl_delta <$>
          filter (fun e => tl_challengeId e = challengeId
                           /\ tl_userId e = userId)
                 (tokenLedger db)).

(** The [Map<string, Set<string>>] that [detectPerfectWeeks] builds. *)
Definition addCompletion (m : gmap Id (gset Id)) (c : Completion)
  : gmap Id (gset Id) :=
  let m1 := match m !! c_userId c with
            | Some _ => m
            | None => <[c_userId c := ∅]> m
            end in
  match m1 !! c_userId c with
  | Some s => <[c_userId c := s ∪ {[c_taskTemplateId c]}]> m1
  | None => m1
  end.

Definition completionsByUser (cs : list Completion) : gmap Id (gset Id) :=
  foldl addCompletion ∅ cs.

Definition detectPerfectWeeks (db : DB) (challengeId weekId : Id)
  : list Id :=
  let activeTasks :=
    filter (fun t => tt_challengeId t = challengeId /\ tt_active t = true)
           (taskTemplates db) in
  let activeTaskCount := length activeTasks in
  if decide (activeTaskCount = O) then []
  else
    let participants :=
      filter (fun p => p_challengeId p = challengeId) (participants db) in
    let completions :=
      filter (fun c => c_weekId c = weekId) (completions db) in
    let byUser := completionsByUser completions in
    p_userId <$>
      filter (fun p => size <$> byUser !! p_userId p
                       = Some activeTaskCount)
             participants.

Definition perfectWeekData (challengeId weekId userId : Id) : LedgerData :=
  mkLedgerData challengeId userId (Some weekId) 1 PERFECT_WEEK_EARNED None.

Definition awardPerfectWeekTokens (db : DB) (challengeId weekId : Id)
    (userIds : list Id) : nat * DB :=
  if decide (length userIds = O) then (O, db)
  else
    (length userIds,
     with_tokenLedger
       (ledgerCreateMany (perfectWeekData challengeId weekId <$> userIds)
                         (tokenLedger db))
       db).

Definition isPerfectWeekEntry (challengeId weekId userId : Id)
    (e : TokenLedger) : Prop :=
  tl_challengeId e = challengeId /\ tl_weekId e = Some weekId
  /\ tl_userId e = userId /\ tl_reason e = PERFECT_WEEK_EARNED.

#[global] Instance isPerfectWeekEntry_dec c w u e :
  Decision (isPerfectWeekEntry c w u e).
Proof. unfold isPerfectWeekEntry. apply _. Defined.

(** [findFirst(...) !== null] *)
Definition hasReceivedPerfectWeekToken (db : DB)
    (challengeId weekId userId : Id) : bool :=
  match filter (isPerfectWeekEntry challengeId weekId userId)
               (tokenLedger db) with
  | [] => false
  | _ :: _ => true
  end.

Record AwardResult := mkAwardResult {
  awarded : nat;
  alreadyAwarded : nat;
}.

Definition awardPerfectWeekTokensSafe (db : DB) (challengeId weekId : Id)
  : AwardResult * DB :=
  let perfectWeekUserIds := detectPerfectWeeks db challengeId weekId in
  if decide (length perfectWeekUserIds = O) then (mkAwardResult O O, db)
  else
    let '(usersToAward, already) :=
      foldl (fun '(us, n) userId =>
               if hasReceivedPerfectWeekToken db challengeId weekId userId
               then (us, S n)
               else (us ++ [userId], n))
            ([], O) perfectWeekUserIds in
    let '(n, db') :=
      awardPerfectWeekTokens db challengeId weekId usersToAward in
    (mkAwardResult n already, db').

End Tokens.

(** ** lib/side-challenges.ts *)

Module SideChallenges.

Record Balance := mkBalance {
  total : Z;
  available : Z;
  staked : Z;
}.

Definition getAvailableBalance (db : DB) (challengeId userId : Id)
  : Balance :=
  let total := Tokens.getTokenBalance db challengeId userId in
  let stakedChallenges :=
    filter (fun c => sc_challengeId c = challengeId
                     /\ (sc_createdByUserId c = userId
                         \/ sc_opponentUserId c = userId)
                     /\ sc_status c ∈ [PROPOSED; ACCEPTED; PENDING_REVIEW])
           (sideChallenges db) in
  let staked :=
    foldl (fun staked challenge =>
             if decide (sc_createdByUserId challenge = userId)
             then staked + sc_stakeTokens challenge
             else if decide (sc_status challenge = ACCEPTED
                             \/ sc_status challenge = PENDING_REVIEW)
             then staked + sc_stakeTokens challenge
             else staked)
          0 stakedChallenges in
  mkBalance total (total - staked) staked.

Definition stakeSideChallengeTokens (tx : DB)
    (challengeId weekId sideChallengeId userId : Id) (amount : Z) : DB :=
  with_tokenLedger
    (ledgerCreate
       (mkLedgerData challengeId userId (Some weekId) (- amount)
                     SIDE_CHALLENGE_STAKE (Some sideChallengeId))
       (tokenLedger tx))
    tx.

Inductive WinnerTag := creator | opponent | tie.

Record WinnerCalculation := mkWinnerCalculation {
  winnerId : WinnerTag;
  reason : string;
  winnerUserId : option Id;
}.

Section WithNumberFormat.
Context `{NumberFormat}.

Definition calculateWinner (metricType : string) (targetValue : option float)
    (creatorValue opponentValue : float) (creatorUserId opponentUserId : Id)
  : Except WinnerCalculation :=
  if decide (metricType = "HIGHER_WINS") then
    if PrimFloat.ltb opponentValue creatorValue then
      Return (mkWinnerCalculation creator
                ("Higher value wins: " +:+ showFloat creatorValue
                 +:+ " > " +:+ showFloat opponentValue)
                (Some creatorUserId))
    else if PrimFloat.ltb creatorValue opponentValue then
      Return (mkWinnerCalculation opponent
                ("Higher value wins: " +:+ showFloat opponentValue
                 +:+ " > " +:+ showFloat creatorValue)
                (Some opponentUserId))
    else
      Return (mkWinnerCalculation tie
                ("Tie: Both achieved " +:+ showFloat creatorValue)
                None)
  else if decide (metricType = "LOWER_WINS") then
    if PrimFloat.ltb creatorValue opponentValue then
      Return (mkWinnerCalculation creator
                ("Lower value wins: " +:+ showFloat creatorValue
                 +:+ " < " +:+ showFloat opponentValue)
                (Some creatorUserId))
    else if PrimFloat.ltb opponentValue creatorValue then
      Return (mkWinnerCalculation opponent
                ("Lower value wins: " +:+ showFloat opponentValue
                 +:+ " < " +:+ showFloat creatorValue)
                (Some opponentUserId))
    else
      Return (mkWinnerCalculation tie
                ("Tie: Both achieved " +:+ showFloat creatorValue)
                None)
  else if decide (metricType = "TARGET_THRESHOLD") then
    match targetValue with
    | None =>
        Throw "Target value required for TARGET_THRESHOLD metric type"
    | Some targetValue =>
        let creatorDistance := PrimFloat.abs (PrimFloat.sub creatorValue targetValue) in
        let opponentDistance := PrimFloat.abs (PrimFloat.sub opponentValue targetValue) in
        if PrimFloat.ltb creatorDistance opponentDistance then
          Return (mkWinnerCalculation creator
                    ("Closest to target " +:+ showFloat targetValue
                     +:+ ": Creator " +:+ showFloat creatorValue
                     +:+ " (distance " +:+ showFloat creatorDistance
                     +:+ ") vs Opponent " +:+ showFloat opponentValue
                     +:+ " (distance " +:+ showFloat opponentDistance
                     +:+ ")")
                    (Some creatorUserId))
        else if PrimFloat.ltb opponentDistance creatorDistance then
          Return (mkWinnerCalculation opponent
                    ("Closest to target " +:+ showFloat targetValue
                     +:+ ": Opponent " +:+ showFloat opponentValue
                     +:+ " (distance " +:+ showFloat opponentDistance
                     +:+ ") vs Creator " +:+ showFloat creatorValue
                     +:+ " (distance " +:+ showFloat creatorDistance
                     +:+ ")")
                    (Some opponentUserId))
        else
          Return (mkWinnerCalculation tie
                    ("Tie: Both equally distant from target "
                     +:+ showFloat targetValue)
                    None)
    end
  else Throw ("Unknown metric type: " +:+ metricType).

End WithNumberFormat.

Definition resolveSideChallengeTokens (tx : DB)
    (challengeId weekId sideChallengeId : Id) (winnerId : option Id)
    (creatorUserId opponentUserId : Id) (stakeAmount : Z) : DB :=
  match winnerId with
  | None =>
      with_tokenLedger
        (ledgerCreateMany
           [mkLedgerData challengeId creatorUserId (Some weekId) stakeAmount
                         SIDE_CHALLENGE_TIE_REFUND (Some sideChallengeId);
            mkLedgerData challengeId opponentUserId (Some weekId) stakeAmount
                         SIDE_CHALLENGE_TIE_REFUND (Some sideChallengeId)]
           (tokenLedger tx))
        tx
  | Some winnerId =>
      with_tokenLedger
        (ledgerCreate
           (mkLedgerData challengeId winnerId (Some weekId)
                         (stakeAmount * 2)
                         SIDE_CHALLENGE_WIN (Some sideChallengeId))
           (tokenLedger tx))
        tx
  end.

Definition voidSideChallengeTokens (tx : DB)
    (challengeId weekId sideChallengeId creatorUserId opponentUserId : Id)
    (stakeAmount : Z) (wasAccepted : bool) : DB :=
  let refunds :=
    [mkLedgerData challengeId creatorUserId (Some weekId) stakeAmount
                  SIDE_CHALLENGE_VOID_REFUND (Some sideChallengeId)] in
  let refunds :=
    if wasAccepted
    then refunds ++
         [mkLedgerData challengeId opponentUserId (Some weekId) stakeAmount
                       SIDE_CHALLENGE_VOID_REFUND (Some sideChallengeId)]
    else refunds in
  with_tokenLedger (ledgerCreateMany refunds (tokenLedger tx)) tx.

(** What [getSideChallengeById] returns: the row, its target converted
    by [targetValue ? Number(targetValue) : null], and its submissions. *)
Record SideChallengeWithDetails := mkDetails {
  row : SideChallenge;
  targetValue : option float;
  submissions : list SideChallengeSubmission;
}.

Definition submissionsOf (db : DB) (sideChallengeId : Id)
  : list SideChallengeSubmission :=
  filter (fun s => sub_sideChallengeId s = sideChallengeId)
         (sideChallengeSubmissions db).

Definition getSideChallengeById `{Schema} (db : DB) (sideChallengeId : Id)
  : option SideChallengeWithDetails :=
  match head (filter (fun c => sc_id c = sideChallengeId)
                     (sideChallenges db)) with
  | None => None
  | Some challenge =>
      Some (mkDetails challenge (numberOrNull (sc_targetValue challenge))
                      (submissionsOf db sideChallengeId))
  end.

Record Validation := mkValidation {
  valid : bool;
  error : option string;
}.

Definition validateUserCanStake `{NumberFormat} (db : DB)
    (challengeId userId : Id) (stakeAmount : Z) : Validation :=
  if decide (stakeAmount <= 0) then
    mkValidation false (Some "Stake amount must be greater than 0")
  else
    let balance := getAvailableBalance db challengeId userId in
    if decide (available balance < stakeAmount) then
      mkValidation false
        (Some ("Insufficient tokens. You have "
               +:+ showNumber (inject_Z (available balance))
               +:+ " available ("
               +:+ showNumber (inject_Z (staked balance))
               +:+ " staked in other challenges)"))
    else mkValidation true None.

Definition validateWeekForSideChallenge (db : DB) (weekId : Id)
  : Validation :=
  match head (filter (fun w => w_id w = weekId) (weeks db)) with
  | None => mkValidation false (Some "Week not found")
  | Some week =>
      if decide (w_status week = LOCKED) then
        mkValidation false
          (Some "Cannot create side challenges for locked weeks")
      else mkValidation true None
  end.

Definition hasUserSubmitted (db : DB) (sideChallengeId userId : Id) : bool :=
  match head (filter (fun s => sub_sideChallengeId s = sideChallengeId
                               /\ sub_userId s = userId)
                     (sideChallengeSubmissions db)) with
  | Some _ => true
  | None => false
  end.

(** [sideChallenge.update({ where: { id }, data })] *)
Definition sideChallengeUpdate (id : Id)
    (data : SideChallenge -> SideChallenge) (tx : DB) : DB :=
  with_sideChallenges
    ((fun c => if decide (sc_id c = id) then data c else c)
       <$> sideChallenges tx)
    tx.

Definition setResolved (winner : option Id) (now : Time) (note : string)
    (c : SideChallenge) : SideChallenge :=
  mkSideChallenge (sc_id c) (sc_challengeId c) (sc_weekId c)
    (sc_createdByUserId c) (sc_opponentUserId c) RESOLVED
    (sc_metricType c) (sc_targetValue c) (sc_stakeTokens c)
    (sc_acceptedAt c) (sc_expiresAt c) (Some now) winner (Some note).

Definition setStatusNote (status : SideChallengeStatus) (note : string)
    (c : SideChallenge) : SideChallenge :=
  mkSideChallenge (sc_id c) (sc_challengeId c) (sc_weekId c)
    (sc_createdByUserId c) (sc_opponentUserId c) status
    (sc_metricType c) (sc_targetValue c) (sc_stakeTokens c)
    (sc_acceptedAt c) (sc_expiresAt c) (sc_resolvedAt c)
    (sc_winnerUserId c) (Some note).

Definition setAccepted (now : Time) (c : SideChallenge) : SideChallenge :=
  mkSideChallenge (sc_id c) (sc_challengeId c) (sc_weekId c)
    (sc_createdByUserId c) (sc_opponentUserId c) ACCEPTED
    (sc_metricType c) (sc_targetValue c) (sc_stakeTokens c)
    (Some now) (sc_expiresAt c) (sc_resolvedAt c)
    (sc_winnerUserId c) (sc_resolutionNote c).

Record CleanupResult := mkCleanupResult {
  resolved : nat;
  voided : nat;
}.

Section Cleanup.
Context `{NumberFormat} `{Schema}.

(** The body of the loop of [cleanupSideChallengesOnWeekLock], for one
    row of the query result (the challenge with its submissions).  An
    exception inside is caught by the loop's own [try] and leaves the
    counters and, the transaction being rolled back, the store as they
    were. *)
Definition cleanupOne (challengeId weekId : Id) (now : Time)
    (st : CleanupResult * DB)
    (challenge : SideChallenge * list SideChallengeSubmission)
  : CleanupResult * DB :=
  let '(counts, db) := st in
  let '(challenge, submissions) := challenge in
  if decide (sc_status challenge = PENDING_REVIEW
             /\ length submissions = 2%nat) then
    let creatorSubmission :=
      head (filter (fun s => sub_userId s = sc_createdByUserId challenge)
                   submissions) in
    let opponentSubmission :=
      head (filter (fun s => sub_userId s = sc_opponentUserId challenge)
                   submissions) in
    match creatorSubmission, opponentSubmission with
    | Some creatorSubmission, Some opponentSubmission =>
        match calculateWinner (sc_metricType challenge)
                (numberOrNull (sc_targetValue challenge))
                (toNumber (sub_valueNumber creatorSubmission))
                (toNumber (sub_valueNumber opponentSubmission))
                (sc_createdByUserId challenge)
                (sc_opponentUserId challenge) with
        | Throw _ => (counts, db)
        | Return result =>
            let tx :=
              sideChallengeUpdate (sc_id challenge)
                (setResolved (winnerUserId result) now
                   ("Auto-resolved on week lock: " +:+ reason result))
                db in
            let tx :=
              resolveSideChallengeTokens tx challengeId weekId
                (sc_id challenge) (winnerUserId result)
                (sc_createdByUserId challenge)
                (sc_opponentUserId challenge)
                (sc_stakeTokens challenge) in
            (mkCleanupResult (S (resolved counts)) (voided counts), tx)
        end
    | _, _ => (counts, db)
    end
  else
    let wasAccepted :=
      bool_decide (sc_status challenge = ACCEPTED)
      || bool_decide (sc_status challenge = PENDING_REVIEW) in
    let tx :=
      sideChallengeUpdate (sc_id challenge)
        (setStatusNote VOID
           "Voided due to week lock with incomplete submissions")
        db in
    let tx :=
      voidSideChallengeTokens tx challengeId weekId (sc_id challenge)
        (sc_createdByUserId challenge) (sc_opponentUserId challenge)
        (sc_stakeTokens challenge) wasAccepted in
    (mkCleanupResult (resolved counts) (S (voided counts)), tx).

Definition unfinished (db : DB) (challengeId weekId : Id)
  : list (SideChallenge * list SideChallengeSubmission) :=
  (fun c => (c, submissionsOf db (sc_id c)))
    <$> filter (fun c => sc_challengeId c = challengeId
                         /\ sc_weekId c = weekId
                         /\ sc_status c
                            ∈ [PROPOSED; ACCEPTED; PENDING_REVIEW])
               (sideChallenges db).

Definition cleanupSideChallengesOnWeekLock (db : DB)
    (challengeId weekId : Id) (now : Time) : CleanupResult * DB :=
  foldl (cleanupOne challengeId weekId now)
        (mkCleanupResult O O, db)
        (unfinished db challengeId weekId).

End Cleanup.

End SideChallenges.

(** ** lib/authorization.ts *)

Module Authorization.

Definition verifyOrganizer (db : DB) (challengeId userId : Id) : bool :=
  match head (filter (fun c => ch_id c = challengeId) (challenges db)) with
  | None => false
  | Some challenge => bool_decide (ch_organizerUserId challenge = userId)
  end.

Definition verifyParticipantAccess (db : DB) (challengeId userId : Id)
  : bool :=
  match head (filter (fun c => ch_id c = challengeId) (challenges db)) with
  | None => false
  | Some challenge =>
      if decide (ch_organizerUserId challenge = userId) then true
      else
        match head (filter (fun p => p_challengeId p = challengeId
                                     /\ p_userId p = userId)
                           (participants db)) with
        | Some _ => true
        | None => false
        end
  end.

End Authorization.

(** ** The route handlers under app/api/challenges/[challengeId]/weeks/[weekId]

    A handler takes the store, the clock, the session ([getSession()], null
    when nobody is signed in), the ids of the URL and the parsed body, and
    returns its response and the store it leaves. *)

Inductive JsonValue :=
| JNull
| JUndefined
| JBool (b : bool)
| JNumber (x : Q)
| JString (s : string)
| JObject.

Inductive Response (A : Type) :=
| ErrorJson (status : nat) (error : string)
| Json (status : nat) (body : A).
Arguments ErrorJson {A} status error.
Arguments Json {A} status body.

(** The white space and line terminators that [String.prototype.trim]
    strips, beyond the six ASCII ones: U+00A0, U+1680, U+2000 to U+200A,
    U+2028, U+2029, U+202F, U+205F, U+3000 and U+FEFF.  A string is the
    sequence of the bytes of its UTF-8 encoding. *)
Definition isSpace2 (a b : ascii) : bool :=
  (N_of_ascii a =? 194)%N && (N_of_ascii b =? 160)%N.

Definition isSpace3 (a b c : ascii) : bool :=
  let '(x, y, z) := (N_of_ascii a, N_of_ascii b, N_of_ascii c) in
  ((x =? 225) && (y =? 154) && (z =? 128))%N
  || ((x =? 226) && (y =? 128)
      && ((128 <=? z) && (z <=? 138) || (z =? 168) || (z =? 169)
          || (z =? 175)))%N
  || ((x =? 226) && (y =? 129) && (z =? 159))%N
  || ((x =? 227) && (y =? 128) && (z =? 128))%N
  || ((x =? 239) && (y =? 187) && (z =? 191))%N.

(** [s.trim().length === 0] *)
Fixpoint isBlank (s : string) : bool :=
  match s with
  | EmptyString => true
  | String a r =>
      if Ascii.is_space a then isBlank r
      else
        match r with
        | String b r1 =>
            if isSpace2 a b then isBlank r1
            else
              match r1 with
              | String c r2 => if isSpace3 a b c then isBlank r2 else false
              | EmptyString => false
              end
        | EmptyString => false
        end
  end.

Module Routes.
Import SideChallenges Authorization.

(** The fields of a proposal.  A string field that is missing or empty is
    the empty string, a missing or zero [stakeTokens] is 0: the handler
    tests them with [!field] only. *)
Record ProposeBody := mkProposeBody {
  pb_opponentUserId : string;
  pb_title : string;
  pb_rules : string;
  pb_metricType : string;
  pb_unit : string;
  pb_targetValue : option Q;
  pb_stakeTokens : Z;
  pb_expiresAt : option Time;
}.

Record SubmitResult := mkSubmitResult {
  sr_resolved : bool;
  sr_resolution : option WinnerCalculation;
}.

Section Handlers.
Context `{NumberFormat} `{Schema}.

(** POST side-challenges: propose *)
Definition POST_propose (db : DB) (now : Time) (session : option Id)
    (challengeId weekId : Id) (body : ProposeBody)
  : Response SideChallenge * DB :=
  match session with
  | None => (ErrorJson 401 "Unauthorized", db)
  | Some userId =>
    if decide (pb_opponentUserId body = "" \/ pb_title body = ""
               \/ pb_rules body = "" \/ pb_metricType body = ""
               \/ pb_unit body = "" \/ pb_stakeTokens body = 0) then
      (ErrorJson 400 "Missing required fields", db)
    else if decide (pb_metricType body
                    ∉ ["HIGHER_WINS"; "LOWER_WINS"; "TARGET_THRESHOLD"])
    then (ErrorJson 400 "Invalid metric type", db)
    else if decide (pb_metricType body = "TARGET_THRESHOLD"
                    /\ pb_targetValue body = None) then
      (ErrorJson 400
         "Target value required for TARGET_THRESHOLD metric type", db)
    else if negb (verifyParticipantAccess db challengeId userId) then
      (ErrorJson 403 "You must be a participant in this challenge", db)
    else if decide (pb_opponentUserId body = userId) then
      (ErrorJson 400 "Cannot challenge yourself", db)
    else if negb (verifyParticipantAccess db challengeId
                    (pb_opponentUserId body)) then
      (ErrorJson 400 "Opponent must be a participant in this challenge",
       db)
    else
      let weekValidation := validateWeekForSideChallenge db weekId in
      if negb (valid weekValidation) then
        (ErrorJson 400 (default "" (error weekValidation)), db)
      else
        let stakeValidation :=
          validateUserCanStake db challengeId userId
                               (pb_stakeTokens body) in
        if negb (valid stakeValidation) then
          (ErrorJson 400 (default "" (error stakeValidation)), db)
        else
          match
            head (filter
                    (fun c =>
                       sc_challengeId c = challengeId
                       /\ sc_weekId c = weekId
                       /\ sc_status c
                          ∈ [PROPOSED; ACCEPTED; PENDING_REVIEW]
                       /\ ((sc_createdByUserId c = userId
                            /\ sc_opponentUserId c
                               = pb_opponentUserId body)
                           \/ (sc_createdByUserId c
                               = pb_opponentUserId body
                               /\ sc_opponentUserId c = userId)))
                    (sideChallenges db))
          with
          | Some _ =>
              (ErrorJson 400
                 "You already have an active challenge with this participant this week",
               db)
          | None =>
              let expirationDate :=
                match pb_expiresAt body with
                | Some t => t
                | None => now + 48 * 60 * 60 * 1000
                end in
              let challenge :=
                mkSideChallenge
                  (cuid (sc_id <$> sideChallenges db))
                  challengeId weekId userId (pb_opponentUserId body)
                  PROPOSED (pb_metricType body) (pb_targetValue body)
                  (pb_stakeTokens body) None expirationDate None None
                  None in
              let tx :=
                with_sideChallenges (sideChallenges db ++ [challenge])
                                    db in
              let tx :=
                stakeSideChallengeTokens tx challengeId weekId
                  (sc_id challenge) userId (pb_stakeTokens body) in
              (Json 201 challenge, tx)
          end
  end.

(** POST side-challenges/[sideChallengeId]/accept *)
Definition POST_accept (db : DB) (now : Time) (session : option Id)
    (challengeId weekId sideChallengeId : Id) : Response unit * DB :=
  match session with
  | None => (ErrorJson 401 "Unauthorized", db)
  | Some userId =>
    match getSideChallengeById db sideChallengeId with
    | None => (ErrorJson 404 "Side challenge not found", db)
    | Some sideChallenge =>
      if decide (sc_opponentUserId (row sideChallenge) <> userId) then
        (ErrorJson 403 "Only the opponent can accept this challenge", db)
      else if decide (sc_status (row sideChallenge) <> PROPOSED) then
        (ErrorJson 400 "Challenge has already been responded to", db)
      else if decide (sc_expiresAt (row sideChallenge) < now) then
        (ErrorJson 400 "Challenge proposal has expired", db)
      else
        let stakeValidation :=
          validateUserCanStake db challengeId userId
            (sc_stakeTokens (row sideChallenge)) in
        if negb (valid stakeValidation) then
          (ErrorJson 400 (default "" (error stakeValidation)), db)
        else
          let tx :=
            sideChallengeUpdate sideChallengeId (setAccepted now) db in
          let tx :=
            stakeSideChallengeTokens tx challengeId weekId
              sideChallengeId userId
              (sc_stakeTokens (row sideChallenge)) in
          (Json 200 (), tx)
    end
  end.

(** POST side-challenges/[sideChallengeId]/decline *)
Definition POST_decline (db : DB) (session : option Id)
    (challengeId weekId sideChallengeId : Id) : Response unit * DB :=
  match session with
  | None => (ErrorJson 401 "Unauthorized", db)
  | Some userId =>
    match getSideChallengeById db sideChallengeId with
    | None => (ErrorJson 404 "Side challenge not found", db)
    | Some sideChallenge =>
      if decide (sc_opponentUserId (row sideChallenge) <> userId) then
        (ErrorJson 403 "Only the opponent can decline this challenge",
         db)
      else if decide (sc_status (row sideChallenge) <> PROPOSED) then
        (ErrorJson 400 "Challenge has already been responded to", db)
      else
        let tx :=
          sideChallengeUpdate sideChallengeId
            (setStatusNote DECLINED "Declined by opponent") db in
        let tx :=
          voidSideChallengeTokens tx challengeId weekId sideChallengeId
            (sc_createdByUserId (row sideChallenge))
            (sc_opponentUserId (row sideChallenge))
            (sc_stakeTokens (row sideChallenge)) false in
        (Json 200 (), tx)
    end
  end.

(** POST side-challenges/[sideChallengeId]/submit.  The transaction
    creates the submission, reads the submissions of the challenge back
    and, when there are two, resolves; [calculateWinner] throwing inside
    it rolls everything back and the handler answers 500. *)
Definition POST_submit (db : DB) (now : Time) (session : option Id)
    (challengeId weekId sideChallengeId : Id) (valueNumber : JsonValue)
  : Response SubmitResult * DB :=
  match session with
  | None => (ErrorJson 401 "Unauthorized", db)
  | Some userId =>
    match valueNumber with
    | JNull | JUndefined => (ErrorJson 400 "Value is required", db)
    | JBool _ | JString _ | JObject =>
        (ErrorJson 400 "Value must be a non-negative number", db)
    | JNumber valueNumber =>
      if Qltb valueNumber 0 then
        (ErrorJson 400 "Value must be a non-negative number", db)
      else
      match getSideChallengeById db sideChallengeId with
      | None => (ErrorJson 404 "Side challenge not found", db)
      | Some sideChallenge =>
        let isParticipant :=
          bool_decide (sc_createdByUserId (row sideChallenge) = userId)
          || bool_decide (sc_opponentUserId (row sideChallenge) = userId)
        in
        if negb isParticipant then
          (ErrorJson 403 "You are not a participant in this challenge",
           db)
        else if decide (sc_status (row sideChallenge) <> ACCEPTED) then
          (ErrorJson 400
             "Challenge must be accepted before submitting results", db)
        else if hasUserSubmitted db sideChallengeId userId then
          (ErrorJson 400 "You have already submitted your result", db)
        else
          let tx :=
            with_submissions
              (sideChallengeSubmissions db
               ++ [mkSubmission sideChallengeId userId valueNumber])
              db in
          let allSubmissions := submissionsOf tx sideChallengeId in
          if decide (length allSubmissions = 2%nat) then
            let creatorSubmission :=
              head (filter
                      (fun s => sub_userId s
                                = sc_createdByUserId (row sideChallenge))
                      allSubmissions) in
            let opponentSubmission :=
              head (filter
                      (fun s => sub_userId s
                                = sc_opponentUserId (row sideChallenge))
                      allSubmissions) in
            match creatorSubmission, opponentSubmission with
            | Some creatorSubmission, Some opponentSubmission =>
                match calculateWinner
                        (sc_metricType (row sideChallenge))
                        (targetValue sideChallenge)
                        (toNumber (sub_valueNumber creatorSubmission))
                        (toNumber (sub_valueNumber opponentSubmission))
                        (sc_createdByUserId (row sideChallenge))
                        (sc_opponentUserId (row sideChallenge)) with
                | Throw _ =>
                    (ErrorJson 500 "Failed to submit result", db)
                | Return resolution =>
                    let tx :=
                      sideChallengeUpdate sideChallengeId
                        (setResolved (winnerUserId resolution) now
                           ("Auto-resolved: " +:+ reason resolution))
                        tx in
                    let tx :=
                      resolveSideChallengeTokens tx challengeId weekId
                        sideChallengeId (winnerUserId resolution)
                        (sc_createdByUserId (row sideChallenge))
                        (sc_opponentUserId (row sideChallenge))
                        (sc_stakeTokens (row sideChallenge)) in
                    (Json 200 (mkSubmitResult true (Some resolution)),
                     tx)
                end
            | _, _ => (Json 200 (mkSubmitResult true None), tx)
            end
          else (Json 200 (mkSubmitResult false None), tx)
      end
    end
  end.

(** POST side-challenges/[sideChallengeId]/void (organizer only) *)
Definition POST_void (db : DB) (session : option Id)
    (challengeId weekId sideChallengeId : Id) (reason : JsonValue)
  : Response unit * DB :=
  match session with
  | None => (ErrorJson 401 "Unauthorized", db)
  | Some userId =>
    match reason with
    | JString reason =>
      if isBlank reason then
        (ErrorJson 400 "Void reason is required", db)
      else if negb (verifyOrganizer db challengeId userId) then
        (ErrorJson 403 "Only organizers can void challenges", db)
      else
        match getSideChallengeById db sideChallengeId with
        | None => (ErrorJson 404 "Side challenge not found", db)
        | Some sideChallenge =>
          if decide (sc_status (row sideChallenge) = RESOLVED) then
            (ErrorJson 400 "Cannot void a resolved challenge", db)
          else if decide (sc_status (row sideChallenge) = VOID) then
            (ErrorJson 400 "Challenge is already voided", db)
          else if decide (sc_status (row sideChallenge) = DECLINED) then
            (ErrorJson 400 "Challenge was already declined", db)
          else
            let wasAccepted :=
              bool_decide (sc_status (row sideChallenge) = ACCEPTED)
              || bool_decide
                   (sc_status (row sideChallenge) = PENDING_REVIEW) in
            let tx :=
              sideChallengeUpdate sideChallengeId
                (setStatusNote VOID ("Voided by organizer: " +:+ reason))
                db in
            let tx :=
              voidSideChallengeTokens tx challengeId weekId
                sideChallengeId
                (sc_createdByUserId (row sideChallenge))
                (sc_opponentUserId (row sideChallenge))
                (sc_stakeTokens (row sideChallenge)) wasAccepted in
            (Json 200 (), tx)
        end
    | _ => (ErrorJson 400 "Void reason is required", db)
    end
  end.

(** Modelled from the spec: the Prisma schema, which declares the foreign
    keys of the tables and what deleting a referenced row does to them, is
    not among the sources.  The specification has deletion of a competition
    cascade to all its descendants: its weeks, task templates, participants
    and side challenges, a side challenge taking its submissions with it,
    and the ledger entries and completions recorded for the competition.  A
    row belongs to the competition that its [challengeId] column names; the
    [relatedEntityId] of a ledger entry is a plain string and ties the entry
    to nothing. *)
Definition challengeDelete (challengeId : Id) (db : DB) : DB :=
  let deleted :=
    sc_id <$> filter (fun c => sc_challengeId c = challengeId)
                     (sideChallenges db) in
  mkDB (users db)
       (filter (fun c => ch_id c <> challengeId) (challenges db))
       (filter (fun p => p_challengeId p <> challengeId) (participants db))
       (filter (fun t => tt_challengeId t <> challengeId) (taskTemplates db))
       (filter (fun w => w_challengeId w <> challengeId) (weeks db))
       (filter (fun c => c_challengeId c <> challengeId) (completions db))
       (filter (fun e => tl_challengeId e <> challengeId) (tokenLedger db))
       (filter (fun c => sc_challengeId c <> challengeId)
               (sideChallenges db))
       (filter (fun s => sub_sideChallengeId s ∉ deleted)
               (sideChallengeSubmissions db)).

(** DELETE /api/challenges/[challengeId] (organizer only) *)
Definition DELETE_challenge (db : DB) (session : option Id)
    (challengeId : Id) : Response unit * DB :=
  match session with
  | None => (ErrorJson 401 "Unauthorized", db)
  | Some userId =>
    match head (filter (fun c => ch_id c = challengeId) (challenges db)) with
    | None => (ErrorJson 404 "Challenge not found", db)
    | Some challenge =>
      if decide (ch_organizerUserId challenge <> userId) then
        (ErrorJson 403 "Only organizer can delete challenge", db)
      else (Json 200 (), challengeDelete challengeId db)
    end
  end.

End Handlers.

(** [new Set(array)], in the order a JavaScript Set iterates: each value
    once, at its first occurrence. *)
Definition toSet (l : list Id) : list Id :=
  foldl (fun acc x => if decide (x ∈ acc) then acc else acc ++ [x]) [] l.

Record RecalculateResult := mkRecalculateResult {
  rr_awarded : nat;
  rr_revoked : nat;
  rr_unchanged : nat;
}.

(** POST admin/recalculate-tokens (organizer only, locked weeks only) *)
Definition POST_recalculate_tokens (db : DB) (session : option Id)
    (challengeId weekId : Id) : Response RecalculateResult * DB :=
  match session with
  | None => (ErrorJson 401 "Unauthorized", db)
  | Some userId =>
    if negb (verifyOrganizer db challengeId userId) then
      (ErrorJson 403 "Only organizers can recalculate tokens", db)
    else
      match head (filter (fun w => w_id w = weekId) (weeks db)) with
      | None => (ErrorJson 404 "Week not found", db)
      | Some week =>
        if decide (w_challengeId week <> challengeId) then
          (ErrorJson 404 "Week not found", db)
        else if decide (w_status week <> LOCKED) then
          (ErrorJson 400 "Can only recalculate tokens for locked weeks",
           db)
        else
          let qualifyingUserIds :=
            toSet (Tokens.detectPerfectWeeks db challengeId weekId) in
          let existingEntries :=
            filter (fun e => tl_challengeId e = challengeId
                             /\ tl_weekId e = Some weekId
                             /\ tl_reason e = PERFECT_WEEK_EARNED)
                   (tokenLedger db) in
          let existingUserIds : gset Id :=
            list_to_set (tl_userId <$> existingEntries) in
          let toAward :=
            filter (fun id => id ∉ existingUserIds) qualifyingUserIds in
          let toRevoke :=
            filter (fun e => tl_userId e ∉ qualifyingUserIds)
                   existingEntries in
          let unchanged :=
            (length existingEntries - length toRevoke)%nat in
          let db :=
            if decide (0 < length toAward)%nat then
              with_tokenLedger
                (ledgerCreateMany
                   ((fun userId =>
                       mkLedgerData challengeId userId (Some weekId) 1
                                    PERFECT_WEEK_EARNED None)
                      <$> toAward)
                   (tokenLedger db))
                db
            else db in
          let db :=
            if decide (0 < length toRevoke)%nat then
              with_tokenLedger
                (filter (fun e => tl_id e ∉ tl_id <$> toRevoke)
                        (tokenLedger db))
                db
            else db in
          (Json 200
             (mkRecalculateResult (length toAward) (length toRevoke)
                                  unchanged),
           db)
      end
  end.

End Routes.

(** ** lib/leaderboard.ts *)

Module Leaderboard.

Record ParticipantScore := mkParticipantScore {
  userId : Id;
  displayName : string;
  points : Z;
  rank : nat;
  tied : bool;
}.

Record PayoutSummary := mkPayoutSummary {
  totalPot : float;
  weeklyPayoutTotal : float;
  grandPrize : float;
  weeklyPrize : float;
  participantCount : nat;
}.

(** The relations that the queries [include]. *)
Definition userDisplayName (db : DB) (uid : Id) : string :=
  default "" (u_displayName <$> head (filter (fun u => u_id u = uid)
                                             (users db))).

Definition taskPoints (db : DB) (taskId : Id) : Z :=
  default 0 (tt_points <$> head (filter (fun t => tt_id t = taskId)
                                        (taskTemplates db))).

(** [Map<string, { displayName, points }>]: a JavaScript Map keeps its keys
    in insertion order, and [set] on a key it has keeps the key's place. *)
Record UserData := mkUserData {
  ud_displayName : string;
  ud_points : Z;
}.

Definition UserPoints := list (Id * UserData).

Definition mapGet (m : UserPoints) (k : Id) : option UserData :=
  snd <$> head (filter (fun e => fst e = k) m).

Definition mapHas (m : UserPoints) (k : Id) : bool :=
  bool_decide (k ∈ fst <$> m).

Definition mapSet (k : Id) (v : UserData) (m : UserPoints) : UserPoints :=
  if mapHas m k
  then (fun e => if decide (fst e = k) then (k, v) else e) <$> m
  else m ++ [(k, v)].

Definition addPoints (db : DB) (userPoints : UserPoints) (c : Completion)
  : UserPoints :=
  let current :=
    default (mkUserData (userDisplayName db (c_userId c)) 0)
            (mapGet userPoints (c_userId c)) in
  mapSet (c_userId c)
         (mkUserData (ud_displayName current)
                     (ud_points current + taskPoints db (c_taskTemplateId c)))
         userPoints.

Definition addParticipant (db : DB) (userPoints : UserPoints)
    (p : Participant) : UserPoints :=
  if mapHas userPoints (p_userId p) then userPoints
  else mapSet (p_userId p)
              (mkUserData (userDisplayName db (p_userId p)) 0)
              userPoints.

(** [.sort((a, b) => b.points - a.points)]: descending by points, and
    stable, as [Array.prototype.sort] is. *)
Fixpoint insertDesc (x : Id * UserData) (l : list (Id * UserData))
  : list (Id * UserData) :=
  match l with
  | [] => [x]
  | y :: r =>
      if decide (ud_points (snd y) <= ud_points (snd x))
      then x :: y :: r
      else y :: insertDesc x r
  end.

Definition sortDesc (l : list (Id * UserData)) : list (Id * UserData) :=
  foldr insertDesc [] l.

(** One turn of the ranking loop, at index [i], on the leaderboard built
    so far and [currentRank]. *)
Definition rankStep (sortedUsers : list (Id * UserData))
    (st : list ParticipantScore * nat) (i : nat)
  : list ParticipantScore * nat :=
  let '(leaderboard, currentRank) := st in
  match sortedUsers !! i with
  | None => st
  | Some user =>
      let pointsAt (j : nat) := (ud_points ∘ snd) <$> sortedUsers !! j in
      let tied :=
        (bool_decide (0 < i)%nat
         && bool_decide (Some (ud_points (snd user)) = pointsAt (i - 1)%nat))
        || (bool_decide (i < length sortedUsers - 1)%nat
            && bool_decide
                 (Some (ud_points (snd user)) = pointsAt (i + 1)%nat)) in
      let leaderboard :=
        leaderboard
        ++ [mkParticipantScore (fst user) (ud_displayName (snd user))
                               (ud_points (snd user)) currentRank tied] in
      let currentRank :=
        if bool_decide (i < length sortedUsers - 1)%nat
           && bool_decide
                (Some (ud_points (snd user)) <> pointsAt (i + 1)%nat)
        then (i + 2)%nat
        else currentRank in
      (leaderboard, currentRank)
  end.

Definition assignRanks (sortedUsers : list (Id * UserData))
  : list ParticipantScore :=
  fst (foldl (rankStep sortedUsers) ([], 1%nat)
             (seq 0 (length sortedUsers))).

Definition weeklyUserPoints (db : DB) (challengeId weekId : Id)
  : UserPoints :=
  let completions :=
    filter (fun c => c_challengeId c = challengeId /\ c_weekId c = weekId)
           (completions db) in
  let userPoints := foldl (addPoints db) [] completions in
  let participants :=
    filter (fun p => p_challengeId p = challengeId) (participants db) in
  foldl (addParticipant db) userPoints participants.

Definition getWeeklyLeaderboard (db : DB) (challengeId weekId : Id)
  : list ParticipantScore :=
  assignRanks (sortDesc (weeklyUserPoints db challengeId weekId)).

Definition getPayoutSummary `{Schema} (db : DB) (challengeId : Id)
  : Except PayoutSummary :=
  match head (filter (fun c => ch_id c = challengeId) (challenges db)) with
  | None => Throw "Challenge not found"
  | Some challenge =>
      let buyIn := toNumber (ch_buyInAmount challenge) in
      let weeklyPrize := toNumber (ch_weeklyPrizeAmount challenge) in
      let participantCount :=
        length (filter (fun p => p_challengeId p = challengeId)
                       (participants db)) in
      let totalPot :=
        PrimFloat.mul buyIn
          (toNumber (inject_Z (Z.of_nat participantCount))) in
      let weeklyPayoutTotal :=
        PrimFloat.mul weeklyPrize
          (toNumber (inject_Z (ch_numberOfWeeks challenge))) in
      let grandPrize :=
        if truthy (ch_grandPrizeAmount challenge)
        then toNumber (default 0%Q (ch_grandPrizeAmount challenge))
        else PrimFloat.sub totalPot weeklyPayoutTotal in
      Return (mkPayoutSummary totalPot weeklyPayoutTotal grandPrize
                              weeklyPrize participantCount)
  end.

End Leaderboard.

(** * Notions used by the statements *)

(** [embeds s t]: the text [t] occurs inside [s]. *)
Definition embeds (s t : string) : Prop :=
  exists pre post, s = pre +:+ t +:+ post.

Fixpoint infixb (t s : string) : bool :=
  String.prefix t s
  || match s with
     | EmptyString => false
     | String _ r => infixb t r
     end.

(** A number format for running examples: integers in decimal, anything else
    as a fraction. *)
Definition showDecimal (q : Q) : string :=
  let r := Qred q in
  if decide (Qden r = 1%positive) then pretty (Qnum r)
  else pretty (Qnum r) +:+ "/" +:+ pretty (Zpos (Qden r)).

(** A wager is still open while it is proposed, accepted or under review;
    the opponent has put up a stake once it has been accepted. *)
Definition stillOpen (s : SideChallengeStatus) : Prop :=
  s ∈ [PROPOSED; ACCEPTED; PENDING_REVIEW].

Definition acceptedStatus (s : SideChallengeStatus) : Prop :=
  s = ACCEPTED \/ s = PENDING_REVIEW.

(** The wagers of a competition in which the user has tokens committed: as
    creator from the proposal on, as opponent once accepted. *)
Definition committedWagers (db : DB) (challengeId userId : Id)
  : list SideChallenge :=
  filter (fun c => sc_challengeId c = challengeId
                   /\ stillOpen (sc_status c)
                   /\ (sc_createdByUserId c = userId
                       \/ (sc_opponentUserId c = userId
                           /\ acceptedStatus (sc_status c))))
         (sideChallenges db).

(** Ranks and tie flags as a function of the scores in leaderboard order:
    the first rank is 1; a score equal to the one before it keeps that rank,
    a different one takes its own position (previous index + 2). *)
Fixpoint rankAt (ps : list Z) (i : nat) : nat :=
  match i with
  | O => 1
  | S k => if decide (ps !! k = ps !! S k) then rankAt ps k else (k + 2)%nat
  end.

Definition tiedAt (ps : list Z) (i : nat) : bool :=
  bool_decide ((0 < i)%nat /\ ps !! i = ps !! (i - 1)%nat)
  || bool_decide (ps !! i = ps !! (i + 1)%nat).

Definition scoreRow (ps : list Z) (i : nat) (user : Id * Leaderboard.UserData)
  : Leaderboard.ParticipantScore :=
  Leaderboard.mkParticipantScore
    (fst user) (Leaderboard.ud_displayName (snd user))
    (Leaderboard.ud_points (snd user)) (rankAt ps i) (tiedAt ps i).

Definition pointsOf (l : list (Id * Leaderboard.UserData)) : list Z :=
  (Leaderboard.ud_points ∘ snd) <$> l.

(** Scores in descending order. *)
Definition descending (ps : list Z) : Prop :=
  forall i j x y, (i <= j)%nat -> ps !! i = Some x -> ps !! j = Some y ->
                  y <= x.

(** The data of a ledger row, its id left out. *)
Definition dataOf (e : TokenLedger) : LedgerData :=
  mkLedgerData (tl_challengeId e) (tl_userId e) (tl_weekId e) (tl_delta e)
               (tl_reason e) (tl_relatedEntityId e).

(** A perfect-week row of a (competition, week). *)
Definition perfectWeekRow (challengeId weekId : Id) (e : TokenLedger) : Prop :=
  tl_challengeId e = challengeId /\ tl_weekId e = Some weekId
  /\ tl_reason e = PERFECT_WEEK_EARNED.

(** The task templates a user has completions for in a week. *)
Definition completedTasks (db : DB) (weekId userId : Id) : gset Id :=
  list_to_set (c_taskTemplateId <$>
                 filter (fun x => c_weekId x = weekId /\ c_userId x = userId)
                        (completions db)).

Definition activeTasks (db : DB) (challengeId : Id) : list TaskTemplate :=
  filter (fun t => tt_challengeId t = challengeId /\ tt_active t = true)
         (taskTemplates db).

(** ** Wagers and their ledger rows *)

(** The ledger rows of a wager, as data, oldest first. *)
Definition wagerData (db : DB) (sideChallengeId : Id) : list LedgerData :=
  dataOf <$> filter (fun e => tl_relatedEntityId e = Some sideChallengeId)
                    (tokenLedger db).

(** Those of them that belong to a user, as (delta, reason). *)
Definition rowsOf (ds : list LedgerData) (userId : Id)
  : list (Z * TokenReason) :=
  (fun d => (ld_delta d, ld_reason d))
    <$> filter (fun d => ld_userId d = userId) ds.

Definition wagerRows (db : DB) (sideChallengeId userId : Id)
  : list (Z * TokenReason) :=
  rowsOf (wagerData db sideChallengeId) userId.

(** A party's net token change from a wager's own ledger rows. *)
Definition net (db : DB) (sideChallengeId userId : Id) : Z :=
  sumZ (fst <$> wagerRows db sideChallengeId userId).

Definition terminal (s : SideChallengeStatus) : Prop :=
  s = RESOLVED \/ s = DECLINED \/ s = VOID.

(** The ledger rows that settle a wager, and those that refund it. *)
Definition settlement (challengeId weekId sideChallengeId : Id)
    (winner : option Id) (creatorUserId opponentUserId : Id) (stake : Z)
  : list LedgerData :=
  match winner with
  | None =>
      [mkLedgerData challengeId creatorUserId (Some weekId) stake
                    SIDE_CHALLENGE_TIE_REFUND (Some sideChallengeId);
       mkLedgerData challengeId opponentUserId (Some weekId) stake
                    SIDE_CHALLENGE_TIE_REFUND (Some sideChallengeId)]
  | Some w =>
      [mkLedgerData challengeId w (Some weekId) (stake * 2)
                    SIDE_CHALLENGE_WIN (Some sideChallengeId)]
  end.

Definition refunds (challengeId weekId sideChallengeId : Id)
    (creatorUserId opponentUserId : Id) (stake : Z) (wasAccepted : bool)
  : list LedgerData :=
  mkLedgerData challengeId creatorUserId (Some weekId) stake
               SIDE_CHALLENGE_VOID_REFUND (Some sideChallengeId)
  :: (if wasAccepted
      then [mkLedgerData challengeId opponentUserId (Some weekId) stake
                         SIDE_CHALLENGE_VOID_REFUND (Some sideChallengeId)]
      else []).

(** A change that concerns one wager: its row is rewritten, ledger rows
    and submissions are appended. *)
Definition applyLocal (sideChallengeId : Id)
    (data : SideChallenge -> SideChallenge) (ds : list LedgerData)
    (ss : list SideChallengeSubmission) (db : DB) : DB :=
  with_tokenLedger (ledgerCreateMany ds (tokenLedger db))
    (with_submissions
       (foldl (fun l s => l ++ [s]) (sideChallengeSubmissions db) ss)
       (SideChallenges.sideChallengeUpdate sideChallengeId data db)).

(** ** The states the application can reach

    A step is one call of a handler or of a week-lock effect, with any
    arguments.  The wager handlers, the week lock, the perfect-week award,
    the recalculation and the deletion of a competition are the code that
    writes the ledger, the wagers or the submissions; [step_other] stands
    for the handlers that write none of these three tables (participants,
    tasks, completions, weeks, creating and editing a competition).  The
    application starts with these three tables empty. *)
Section Reachability.
Context `{NumberFormat} `{Schema}.

Inductive step : DB -> DB -> Prop :=
| step_propose db now session challengeId weekId body :
    step db (snd (Routes.POST_propose db now session challengeId weekId
                    body))
| step_accept db now session challengeId weekId sideChallengeId :
    step db (snd (Routes.POST_accept db now session challengeId weekId
                    sideChallengeId))
| step_decline db session challengeId weekId sideChallengeId :
    step db (snd (Routes.POST_decline db session challengeId weekId
                    sideChallengeId))
| step_submit db now session challengeId weekId sideChallengeId value :
    step db (snd (Routes.POST_submit db now session challengeId weekId
                    sideChallengeId value))
| step_void db session challengeId weekId sideChallengeId reason :
    step db (snd (Routes.POST_void db session challengeId weekId
                    sideChallengeId reason))
| step_week_lock db challengeId weekId now :
    step db (snd (SideChallenges.cleanupSideChallengesOnWeekLock db
                    challengeId weekId now))
| step_award db challengeId weekId :
    step db (snd (Tokens.awardPerfectWeekTokensSafe db challengeId weekId))
| step_recalculate db session challengeId weekId :
    step db (snd (Routes.POST_recalculate_tokens db session challengeId
                    weekId))
| step_delete_challenge db session challengeId :
    step db (snd (Routes.DELETE_challenge db session challengeId))
| step_other db db' :
    tokenLedger db' = tokenLedger db ->
    sideChallenges db' = sideChallenges db ->
    sideChallengeSubmissions db' = sideChallengeSubmissions db ->
    step db db'.

Definition initial (db : DB) : Prop :=
  tokenLedger db = [] /\ sideChallenges db = []
  /\ sideChallengeSubmissions db = [].

Definition reachable (db : DB) : Prop :=
  exists db0, initial db0 /\ rtc step db0 db.

(** A step that takes no competition away, and the states reached by such
    steps only. *)
Definition keepsCompetitions (db db' : DB) : Prop :=
  forall c, c ∈ ch_id <$> challenges db -> c ∈ ch_id <$> challenges db'.

Definition lastingStep (db db' : DB) : Prop :=
  step db db' /\ keepsCompetitions db db'.

Definition reachableLasting (db : DB) : Prop :=
  exists db0, initial db0 /\ rtc lastingStep db0 db.

End Reachability.

(** What holds of a wager's row, its parties' ledger rows and its
    submissions in every state reached without deleting a competition,
    status by status. *)
Definition wagerShape (c : SideChallenge)
    (creatorRows opponentRows : list (Z * TokenReason))
    (subs : list SideChallengeSubmission) : Prop :=
  let stake := (- sc_stakeTokens c, SIDE_CHALLENGE_STAKE) in
  let refund := (sc_stakeTokens c, SIDE_CHALLENGE_VOID_REFUND) in
  let tieRefund := (sc_stakeTokens c, SIDE_CHALLENGE_TIE_REFUND) in
  let win := (sc_stakeTokens c * 2, SIDE_CHALLENGE_WIN) in
  sc_createdByUserId c <> sc_opponentUserId c
  /\ match sc_status c with
     | PROPOSED =>
         sc_acceptedAt c = None /\ creatorRows = [stake]
         /\ opponentRows = [] /\ subs = []
     | ACCEPTED =>
         sc_acceptedAt c <> None /\ creatorRows = [stake]
         /\ opponentRows = [stake]
         /\ (subs = []
             \/ exists s, subs = [s]
                          /\ (sub_userId s = sc_createdByUserId c
                              \/ sub_userId s = sc_opponentUserId c))
     | PENDING_REVIEW => False
     | RESOLVED =>
         sc_acceptedAt c <> None
         /\ match sc_winnerUserId c with
            | Some w =>
                (w = sc_createdByUserId c /\ creatorRows = [stake; win]
                 /\ opponentRows = [stake])
                \/ (w = sc_opponentUserId c /\ creatorRows = [stake]
                    /\ opponentRows = [stake; win])
            | None =>
                creatorRows = [stake; tieRefund]
                /\ opponentRows = [stake; tieRefund]
            end
     | DECLINED =>
         sc_acceptedAt c = None /\ creatorRows = [stake; refund]
         /\ opponentRows = []
     | VOID =>
         (sc_acceptedAt c = None /\ creatorRows = [stake; refund]
          /\ opponentRows = [])
         \/ (sc_acceptedAt c <> None /\ creatorRows = [stake; refund]
             /\ opponentRows = [stake; refund])
     end.

Definition wagerInv (db : DB) (c : SideChallenge) : Prop :=
  wagerShape c
    (wagerRows db (sc_id c) (sc_createdByUserId c))
    (wagerRows db (sc_id c) (sc_opponentUserId c))
    (SideChallenges.submissionsOf db (sc_id c)).

Record Inv (db : DB) : Prop := mkInv {
  inv_wager_ids : NoDup (sc_id <$> sideChallenges db);
  inv_ledger_ids : NoDup (tl_id <$> tokenLedger db);
  inv_related : forall e i, e ∈ tokenLedger db ->
                  tl_relatedEntityId e = Some i ->
                  i ∈ sc_id <$> sideChallenges db;
  inv_perfect : forall e, e ∈ tokenLedger db ->
                  tl_reason e = PERFECT_WEEK_EARNED ->
                  tl_relatedEntityId e = None;
  inv_submissions : forall s, s ∈ sideChallengeSubmissions db ->
                      sub_sideChallengeId s ∈ sc_id <$> sideChallenges db;
  inv_values : forall s, s ∈ sideChallengeSubmissions db ->
                 (0 <= sub_valueNumber s)%Q;
  inv_wagers : forall c, c ∈ sideChallenges db -> wagerInv db c;
}.

(** What holds in every reachable state, deletions included. *)
Record Sane (db : DB) : Prop := mkSane {
  sane_wager_ids : NoDup (sc_id <$> sideChallenges db);
  sane_ledger_ids : NoDup (tl_id <$> tokenLedger db);
  sane_perfect : forall e, e ∈ tokenLedger db ->
                   tl_reason e = PERFECT_WEEK_EARNED ->
                   tl_relatedEntityId e = None;
  sane_values : forall s, s ∈ sideChallengeSubmissions db ->
                  (0 <= sub_valueNumber s)%Q;
  sane_status : forall c, c ∈ sideChallenges db ->
                  sc_status c <> PENDING_REVIEW;
  sane_parties : forall c, c ∈ sideChallenges db ->
                   sc_createdByUserId c <> sc_opponentUserId c;
}.

Definition stakeData (challengeId weekId sideChallengeId userId : Id)
    (stake : Z) : LedgerData :=
  mkLedgerData challengeId userId (Some weekId) (- stake)
               SIDE_CHALLENGE_STAKE (Some sideChallengeId).

(** Whether the opponent had put up a stake, as the manual Void handler
    computes it. *)
Definition wasAccepted (s : SideChallengeStatus) : bool :=
  bool_decide (s = ACCEPTED) || bool_decide (s = PENDING_REVIEW).

(** A submitted value the submit handler must refuse: missing, not a
    number, or negative. *)
Definition invalidValue (value : JsonValue) : Prop :=
  match value with
  | JNumber v => (v < 0)%Q
  | _ => True
  end.

(** The distance of a value from the target, [Math.abs(v - target)]. *)
Definition distance (v target : float) : float :=
  PrimFloat.abs (PrimFloat.sub v target).

Definition notBelow (a b : Id * Leaderboard.UserData) : Prop :=
  Leaderboard.ud_points (snd b) <= Leaderboard.ud_points (snd a).

(** The task templates among a list of completions that are a user's. *)
Definition tasksIn (cs : list Completion) (u : Id) : gset Id :=
  list_to_set (c_taskTemplateId <$> filter (fun x => c_userId x = u) cs).

(** Perfect-week rows of a (competition, week) whose user does not
    qualify, and those whose user does. *)
Definition revokedRow (db : DB) (challengeId weekId : Id) (e : TokenLedger)
  : Prop :=
  perfectWeekRow challengeId weekId e
  /\ tl_userId e ∉ Tokens.detectPerfectWeeks db challengeId weekId.

Definition keptRow (db : DB) (challengeId weekId : Id) (e : TokenLedger)
  : Prop :=
  perfectWeekRow challengeId weekId e
  /\ tl_userId e ∈ Tokens.detectPerfectWeeks db challengeId weekId.

#[global] Instance revokedRow_dec db c w e : Decision (revokedRow db c w e).
Proof. unfold revokedRow, perfectWeekRow. apply _. Defined.

#[global] Instance keptRow_dec db c w e : Decision (keptRow db c w e).
Proof. unfold keptRow, perfectWeekRow. apply _. Defined.

(** The user has no perfect-week row for the week yet. *)
Definition unrewarded (db : DB) (challengeId weekId u : Id) : Prop :=
  forall e, e ∈ tokenLedger db -> perfectWeekRow challengeId weekId e ->
            tl_userId e <> u.


(** What the store holds about one wager: the rows with its id and its
    ledger rows as data. *)
Definition wagerView (db : DB) (sideChallengeId : Id)
  : list SideChallenge * list LedgerData :=
  (filter (fun c => sc_id c = sideChallengeId) (sideChallenges db),
   wagerData db sideChallengeId).
(** * Stores used in the examples *)

(** The competition of the specification's example: buy-in 10, four
    participants, four weeks, 10 percent a week and 30 percent grand prize,
    with the per-week amount that 10 percent of the pool comes to (4) and no
    grand-prize amount. *)
Definition payoutExample : DB :=
  mkDB [] [mkChallenge "c1" "ann" 4 10 4 None 10 30]
       [mkParticipant "c1" "ann"; mkParticipant "c1" "bob";
        mkParticipant "c1" "cy"; mkParticipant "c1" "di"]
       [] [] [] [] [] [].

(** The same competition created with a grand-prize amount of 0, and one
    with a buy-in of 1.10 and three participants. *)
Definition payoutZeroExample : DB :=
  mkDB [] [mkChallenge "c1" "ann" 4 10 4 (Some 0%Q) 10 30]
       [mkParticipant "c1" "ann"; mkParticipant "c1" "bob";
        mkParticipant "c1" "cy"; mkParticipant "c1" "di"]
       [] [] [] [] [] [].

Definition payoutCentsExample : DB :=
  mkDB [] [mkChallenge "c1" "ann" 4 (11 # 10) 0 None 0 0]
       [mkParticipant "c1" "ann"; mkParticipant "c1" "bob";
        mkParticipant "c1" "cy"]
       [] [] [] [] [] [].

(** Four participants scoring 10, 10, 8 and 5 in week w1. *)
Definition leaderboardExample : DB :=
  mkDB [mkUser "ann" "Ann"; mkUser "bob" "Bob"; mkUser "cy" "Cy";
        mkUser "di" "Di"]
       [mkChallenge "c1" "ann" 4 10 4 None 10 30]
       [mkParticipant "c1" "ann"; mkParticipant "c1" "bob";
        mkParticipant "c1" "cy"; mkParticipant "c1" "di"]
       [mkTaskTemplate "t5" "c1" 5 true; mkTaskTemplate "t3" "c1" 3 true;
        mkTaskTemplate "t2" "c1" 2 true]
       [mkWeek "w1" "c1" LOCKED]
       [mkCompletion "c1" "w1" "t5" "di";
        mkCompletion "c1" "w1" "t5" "cy"; mkCompletion "c1" "w1" "t3" "cy";
        mkCompletion "c1" "w1" "t5" "ann"; mkCompletion "c1" "w1" "t3" "ann";
        mkCompletion "c1" "w1" "t2" "ann";
        mkCompletion "c1" "w1" "t2" "bob"; mkCompletion "c1" "w1" "t3" "bob";
        mkCompletion "c1" "w1" "t5" "bob"]
       [] [] [].

(** Task templates t1 and t2 are active, t3 has been switched off after
    the week.  Ann completed t1 and t3, Bob all three. *)
Definition perfectWeekExample : DB :=
  mkDB [mkUser "ann" "Ann"; mkUser "bob" "Bob"]
       [mkChallenge "c1" "ann" 4 10 4 None 10 30]
       [mkParticipant "c1" "ann"; mkParticipant "c1" "bob"]
       [mkTaskTemplate "t1" "c1" 5 true; mkTaskTemplate "t2" "c1" 5 true;
        mkTaskTemplate "t3" "c1" 5 false]
       [mkWeek "w1" "c1" LOCKED]
       [mkCompletion "c1" "w1" "t1" "ann"; mkCompletion "c1" "w1" "t3" "ann";
        mkCompletion "c1" "w1" "t1" "bob"; mkCompletion "c1" "w1" "t2" "bob";
        mkCompletion "c1" "w1" "t3" "bob"]
       [] [] [].

(** Week w1 is locked; the organizer has removed Ann's completion of the
    only active task after the lock, and added Bob's.  The ledger holds
    Ann's perfect-week row for w1, her perfect-week row for w0, and a stake
    of Bob's. *)
Definition recalculateExample : DB :=
  mkDB [mkUser "ann" "Ann"; mkUser "bob" "Bob"]
       [mkChallenge "c1" "ann" 4 10 4 None 10 30]
       [mkParticipant "c1" "ann"; mkParticipant "c1" "bob"]
       [mkTaskTemplate "t1" "c1" 5 true]
       [mkWeek "w0" "c1" LOCKED; mkWeek "w1" "c1" LOCKED]
       [mkCompletion "c1" "w0" "t1" "ann"; mkCompletion "c1" "w1" "t1" "bob"]
       [mkTokenLedger "l1" "c1" "ann" (Some "w0") 1 PERFECT_WEEK_EARNED None;
        mkTokenLedger "l2" "c1" "ann" (Some "w1") 1 PERFECT_WEEK_EARNED None;
        mkTokenLedger "l3" "c1" "bob" (Some "w1") (-1) SIDE_CHALLENGE_STAKE
                      (Some "s1")]
       [] [].

(** The instances the examples run with: decimal printing, and nullable
    numeric columns as JavaScript numbers. *)
Definition exampleFormat : NumberFormat := showDecimal.
Definition exampleSchema : Schema := false.

(** A wager from proposal to resolution.  Ann and Bob both had a perfect
    week w0, which earns each a token at the lock; in week w1 Ann proposes
    a HIGHER_WINS wager for 1 token, Bob accepts, Ann submits 1000 and Bob
    1500. *)
Definition lifecycleStart : DB :=
  mkDB [mkUser "ann" "Ann"; mkUser "bob" "Bob"]
       [mkChallenge "c1" "ann" 4 10 4 None 10 30]
       [mkParticipant "c1" "ann"; mkParticipant "c1" "bob"]
       [mkTaskTemplate "t1" "c1" 5 true]
       [mkWeek "w0" "c1" LOCKED; mkWeek "w1" "c1" OPEN]
       [mkCompletion "c1" "w0" "t1" "ann"; mkCompletion "c1" "w0" "t1" "bob"]
       [] [] [].

Definition lifecycleAwarded : DB :=
  snd (Tokens.awardPerfectWeekTokensSafe lifecycleStart "c1" "w0").

Definition lifecycleProposed : DB :=
  snd (Routes.POST_propose (H := exampleFormat) lifecycleAwarded 100
         (Some "ann") "c1" "w1"
         (Routes.mkProposeBody "bob" "Steps" "Most steps this week"
            "HIGHER_WINS" "steps" None 1 None)).

Definition lifecycleAccepted : DB :=
  snd (Routes.POST_accept (H := exampleFormat) (H0 := exampleSchema)
         lifecycleProposed 200 (Some "bob") "c1" "w1" "c").

Definition lifecycleSubmitted : DB :=
  snd (Routes.POST_submit (H := exampleFormat) (H0 := exampleSchema)
         lifecycleAccepted 300 (Some "ann") "c1" "w1" "c" (JNumber 1000)).

Definition lifecycleResolved : DB :=
  snd (Routes.POST_submit (H := exampleFormat) (H0 := exampleSchema)
         lifecycleSubmitted 400 (Some "bob") "c1" "w1" "c" (JNumber 1500)).

Definition resolvedWager : SideChallenge :=
  mkSideChallenge "c" "c1" "w1" "ann" "bob" RESOLVED "HIGHER_WINS" None 1
    (Some 200) 172800100 (Some 400) (Some "bob")
    (Some "Auto-resolved: Higher value wins: 1500 > 1000").

(** A week about to be locked with three wagers still open: s1 is under
    review with both values in, s2 is accepted with both values in, s3 is
    only proposed.  Each party has staked on the wagers they have joined. *)
Definition reviewedWager : SideChallenge :=
  mkSideChallenge "s1" "c1" "w1" "ann" "bob" PENDING_REVIEW "HIGHER_WINS"
    None 1 (Some 200) 1000 None None None.

Definition acceptedWager : SideChallenge :=
  mkSideChallenge "s2" "c1" "w1" "bob" "ann" ACCEPTED "LOWER_WINS" None 2
    (Some 210) 1000 None None None.

Definition proposedWager : SideChallenge :=
  mkSideChallenge "s3" "c1" "w1" "ann" "bob" PROPOSED "HIGHER_WINS" None 3
    None 1000 None None None.

Definition lockExample : DB :=
  mkDB [mkUser "ann" "Ann"; mkUser "bob" "Bob"]
       [mkChallenge "c1" "ann" 4 10 4 None 10 30]
       [mkParticipant "c1" "ann"; mkParticipant "c1" "bob"]
       [mkTaskTemplate "t1" "c1" 5 true]
       [mkWeek "w1" "c1" OPEN]
       []
       [mkTokenLedger "l1" "c1" "ann" (Some "w1") (-1) SIDE_CHALLENGE_STAKE
                      (Some "s1");
        mkTokenLedger "l2" "c1" "bob" (Some "w1") (-1) SIDE_CHALLENGE_STAKE
                      (Some "s1");
        mkTokenLedger "l3" "c1" "bob" (Some "w1") (-2) SIDE_CHALLENGE_STAKE
                      (Some "s2");
        mkTokenLedger "l4" "c1" "ann" (Some "w1") (-2) SIDE_CHALLENGE_STAKE
                      (Some "s2");
        mkTokenLedger "l5" "c1" "ann" (Some "w1") (-3) SIDE_CHALLENGE_STAKE
                      (Some "s3")]
       [reviewedWager; acceptedWager; proposedWager]
       [mkSubmission "s1" "ann" 1000; mkSubmission "s1" "bob" 1500;
        mkSubmission "s2" "bob" 30; mkSubmission "s2" "ann" 25].

Definition lockExampleAfter : DB :=
  snd (SideChallenges.cleanupSideChallengesOnWeekLock (H := exampleFormat)
         (H0 := exampleSchema) lockExample "c1" "w1" 500).


(** ** Balances and ledger data *)

(** What a list of new ledger rows adds to a user's balance in a
    competition. *)
Definition credit (ds : list LedgerData) (challengeId userId : Id) : Z :=
  sumZ (ld_delta <$> filter (fun d => ld_challengeId d = challengeId
                                      /\ ld_userId d = userId) ds).

(** What a wager commits of a user's tokens in a competition: its stake
    while it is open, for its creator from the proposal on and for its
    opponent once accepted. *)
Definition commits (challengeId userId : Id) (x : SideChallenge) : Prop :=
  sc_challengeId x = challengeId
  /\ stillOpen (sc_status x)
  /\ (sc_createdByUserId x = userId
      \/ (sc_opponentUserId x = userId /\ acceptedStatus (sc_status x))).

#[global] Instance commits_dec c u x : Decision (commits c u x).
Proof. unfold commits, stillOpen, acceptedStatus. apply _. Defined.

Definition weight (challengeId userId : Id) (x : SideChallenge) : Z :=
  if decide (commits challengeId userId x) then sc_stakeTokens x else 0.

(** The row that [findUnique({ where: { id } })] returns. *)
Definition findWager (db : DB) (sideChallengeId : Id)
  : option SideChallenge :=
  head (filter (fun x => sc_id x = sideChallengeId) (sideChallenges db)).

(** The proposal of the lifecycle example, as the handler returns it. *)
Definition lifecycleBody : Routes.ProposeBody :=
  Routes.mkProposeBody "bob" "Steps" "Most steps this week" "HIGHER_WINS"
    "steps" None 1 None.

Definition lifecycleWager : SideChallenge :=
  mkSideChallenge "c" "c1" "w1" "ann" "bob" PROPOSED "HIGHER_WINS" None 1
    None 172800100 None None None.


(** A wager is in [db'] what it was in [db]: the same row, the same ledger
    rows, the same submissions. *)
Definition sameWager (db db' : DB) (ch : SideChallenge) : Prop :=
  ch ∈ sideChallenges db'
  /\ wagerData db' (sc_id ch) = wagerData db (sc_id ch)
  /\ SideChallenges.submissionsOf db' (sc_id ch)
     = SideChallenges.submissionsOf db (sc_id ch).

(** The wagers of a week that the lock finds open. *)
Definition openInWeek (challengeId weekId : Id) (x : SideChallenge) : Prop :=
  sc_challengeId x = challengeId /\ sc_weekId x = weekId
  /\ stillOpen (sc_status x).

#[global] Instance openInWeek_dec c w x : Decision (openInWeek c w x).
Proof. unfold openInWeek, stillOpen. apply _. Defined.


(** ** lib/leaderboard.ts, the overall leaderboard and the winners *)

Module Standings.
Import Leaderboard.

(** [getOverallLeaderboard]: the completions of the LOCKED weeks of the
    competition, then the same map, sort and ranking loop as the weekly
    leaderboard. *)
Definition overallUserPoints (db : DB) (challengeId : Id) : UserPoints :=
  let weeks :=
    filter (fun w => w_challengeId w = challengeId /\ w_status w = LOCKED)
           (weeks db) in
  let completions :=
    filter (fun c => c_challengeId c = challengeId
                     /\ c_weekId c ∈ w_id <$> weeks)
           (completions db) in
  let userPoints := foldl (addPoints db) [] completions in
  let participants :=
    filter (fun p => p_challengeId p = challengeId) (participants db) in
  foldl (addParticipant db) userPoints participants.

Definition getOverallLeaderboard (db : DB) (challengeId : Id)
  : list ParticipantScore :=
  assignRanks (sortDesc (overallUserPoints db challengeId)).

Record WeeklyWinner := mkWeeklyWinner {
  ww_userId : Id;
  ww_displayName : string;
  ww_points : Z;
  ww_prizeAmount : Q;
}.

(** The body that [getWeeklyWinners] and [getOverallWinners] share, on the
    leaderboard each of them computes first. *)
Definition winnersOf (leaderboard : list ParticipantScore) (prize : Q)
  : list WeeklyWinner :=
  match leaderboard with
  | [] => []
  | top :: _ =>
      let topScore := points top in
      let winners := filter (fun p => points p = topScore) leaderboard in
      let prizePerWinner :=
        (prize / inject_Z (Z.of_nat (length winners)))%Q in
      (fun w => mkWeeklyWinner (userId w) (displayName w) (points w)
                               prizePerWinner) <$> winners
  end.

Definition getWeeklyWinners (db : DB) (challengeId weekId : Id)
    (weeklyPrizeAmount : Q) : list WeeklyWinner :=
  winnersOf (getWeeklyLeaderboard db challengeId weekId) weeklyPrizeAmount.

Definition getOverallWinners (db : DB) (challengeId : Id)
    (grandPrizeAmount : Q) : list WeeklyWinner :=
  winnersOf (getOverallLeaderboard db challengeId) grandPrizeAmount.

End Standings.

(** The points a list of completions earns a user. *)
Definition earned (db : DB) (cs : list Completion) (u : Id) : Z :=
  sumZ ((fun x => Leaderboard.taskPoints db (c_taskTemplateId x))
          <$> filter (fun x => c_userId x = u) cs).

(** The completions the weekly and the overall leaderboard count. *)
Definition weekCompletions (db : DB) (challengeId weekId : Id)
  : list Completion :=
  filter (fun c => c_challengeId c = challengeId /\ c_weekId c = weekId)
         (completions db).

Definition lockedWeek (db : DB) (challengeId weekId : Id) : Prop :=
  exists w, w ∈ weeks db /\ w_id w = weekId
            /\ w_challengeId w = challengeId /\ w_status w = LOCKED.

Definition lockedCompletions (db : DB) (challengeId : Id)
  : list Completion :=
  filter (fun c => c_challengeId c = challengeId
                   /\ c_weekId c
                      ∈ w_id <$> filter (fun w => w_challengeId w = challengeId
                                                  /\ w_status w = LOCKED)
                                        (weeks db))
         (completions db).

(** A user points map that tallies a list of completions. *)
Definition tallies (db : DB) (cs : list Completion)
    (m : Leaderboard.UserPoints) : Prop :=
  NoDup (fst <$> m)
  /\ (forall u, u ∈ c_userId <$> cs -> u ∈ fst <$> m)
  /\ forall u d, (u, d) ∈ m ->
       d = Leaderboard.mkUserData (Leaderboard.userDisplayName db u)
                                  (earned db cs u).


(** ** lib/tokens.ts, the balances of a whole competition *)

Module TokenBoard.

(** [tokenLedger.groupBy({ by: ["userId"], _sum: { delta: true } })]: one
    entry per user with a row, with the sum of the user's deltas.  The
    order of the groups does not matter below: the entries are put in a
    map under distinct keys. *)
Definition groupBy (rows : list TokenLedger) : list (Id * Z) :=
  (fun u => (u, sumZ (tl_delta <$> filter (fun e => tl_userId e = u) rows)))
    <$> Routes.toSet (tl_userId <$> rows).

(** [getTokenBalances].  The Map is only read by key ([get], [has]) and
    through [keys()] in an [in] filter, so a finite map is enough. *)
Definition getTokenBalances (db : DB) (challengeId : Id) : gmap Id Z :=
  let grouped :=
    groupBy (filter (fun e => tl_challengeId e = challengeId)
                    (tokenLedger db)) in
  let balanceMap :=
    foldl (fun m entry => <[fst entry := snd entry]> m) ∅ grouped in
  let allParticipants :=
    filter (fun p => p_challengeId p = challengeId) (participants db) in
  foldl (fun (m : gmap Id Z) p =>
           match m !! p_userId p with
           | Some _ => m
           | None => <[p_userId p := 0]> m
           end)
        balanceMap allParticipants.

Record TokenHolder := mkTokenHolder {
  th_userId : Id;
  th_displayName : string;
  th_balance : Z;
  th_rank : nat;
}.

(** [.sort((a, b) => b.balance - a.balance)], stable. *)
Fixpoint insertByBalance (x : TokenHolder) (l : list TokenHolder)
  : list TokenHolder :=
  match l with
  | [] => [x]
  | y :: r =>
      if decide (th_balance y <= th_balance x) then x :: y :: r
      else y :: insertByBalance x r
  end.

Definition sortByBalance (l : list TokenHolder) : list TokenHolder :=
  foldr insertByBalance [] l.

Definition withRank (r : nat) (h : TokenHolder) : TokenHolder :=
  mkTokenHolder (th_userId h) (th_displayName h) (th_balance h) r.

(** One turn of the loop that writes the ranks into the sorted array. *)
Definition rankTurn (st : list TokenHolder * nat) (i : nat)
  : list TokenHolder * nat :=
  let '(leaderboard, currentRank) := st in
  match leaderboard !! i with
  | None => st
  | Some row =>
      let currentRank :=
        if bool_decide (0 < i)%nat
           && match leaderboard !! (i - 1)%nat with
              | Some prev => bool_decide (th_balance row < th_balance prev)
              | None => false
              end
        then (i + 1)%nat
        else currentRank in
      (<[i := withRank currentRank row]> leaderboard, currentRank)
  end.

Definition assignTokenRanks (leaderboard : list TokenHolder)
  : list TokenHolder :=
  fst (foldl rankTurn (leaderboard, 1%nat) (seq 0 (length leaderboard))).

(** [array.slice(0, limit)] *)
Definition slice0 {A} (limit : Z) (l : list A) : list A :=
  let len := Z.of_nat (length l) in
  let final :=
    if decide (limit < 0) then Z.max (len + limit) 0 else Z.min limit len in
  take (Z.to_nat final) l.

(** [getTopTokenHolders(challengeId, limit = 10)] *)
Definition getTopTokenHolders (db : DB) (challengeId : Id)
    (limit : option Z) : list TokenHolder :=
  let limit := default 10 limit in
  let balances := getTokenBalances db challengeId in
  let users :=
    filter (fun u => is_Some (balances !! u_id u)) (users db) in
  let leaderboard :=
    (fun user => mkTokenHolder (u_id user) (u_displayName user)
                               (default 0 (balances !! u_id user)) O)
      <$> users in
  let leaderboard := sortByBalance leaderboard in
  slice0 limit (assignTokenRanks leaderboard).

End TokenBoard.

(** ** lib/authorization.ts, the organizer's view *)

Module Access.

Definition getChallengeAsOrganizer (db : DB) (challengeId userId : Id)
  : option Challenge :=
  match head (filter (fun c => ch_id c = challengeId) (challenges db)) with
  | None => None
  | Some challenge =>
      if decide (ch_organizerUserId challenge <> userId) then None
      else Some challenge
  end.

End Access.

(** The users with a say in a competition's balances: those with a ledger
    row in it and its participants. *)
Definition holdsTokens (db : DB) (challengeId u : Id) : Prop :=
  (exists e, e ∈ tokenLedger db /\ tl_challengeId e = challengeId
             /\ tl_userId e = u)
  \/ (exists p, p ∈ participants db /\ p_challengeId p = challengeId
                /\ p_userId p = u).

(** The users the token leaderboard ranks. *)
Definition tokenHolders (db : DB) (challengeId : Id) : list User :=
  filter (fun u => is_Some (TokenBoard.getTokenBalances db challengeId
                              !! u_id u))
         (users db).

(** The rank the loop of [getTopTokenHolders] gives the row at index [i]
    of a list of balances: 1 at the start, its own position where the
    balance drops, the rank before it otherwise. *)
Fixpoint tokenRankAt (bs : list Z) (i : nat) : nat :=
  match i with
  | O => 1
  | S k =>
      match bs !! S k, bs !! k with
      | Some b, Some prev =>
          if decide (b < prev) then S (S k) else tokenRankAt bs k
      | _, _ => tokenRankAt bs k
      end
  end.

Definition richerFirst (a b : TokenBoard.TokenHolder) : Prop :=
  TokenBoard.th_balance b <= TokenBoard.th_balance a.


(** ** The completion and week-lock handlers

    app/api/challenges/[challengeId]/weeks/[weekId]/completions and
    .../admin/completions, .../admin/lock *)

Definition with_completions (l : list Completion) (db : DB) : DB :=
  mkDB (users db) (challenges db) (participants db) (taskTemplates db)
       (weeks db) l (tokenLedger db) (sideChallenges db)
       (sideChallengeSubmissions db).

Definition with_weeks (l : list Week) (db : DB) : DB :=
  mkDB (users db) (challenges db) (participants db) (taskTemplates db)
       l (completions db) (tokenLedger db) (sideChallenges db)
       (sideChallengeSubmissions db).

Module WeekRoutes.
Import Authorization Tokens SideChallenges.

(** The unique key [weekId_taskTemplateId_userId] of a completion. *)
Definition completionKey (weekId taskTemplateId userId : Id)
    (x : Completion) : Prop :=
  c_weekId x = weekId /\ c_taskTemplateId x = taskTemplateId
  /\ c_userId x = userId.

#[global] Instance completionKey_dec w t u x :
  Decision (completionKey w t u x).
Proof. unfold completionKey. apply _. Defined.

(** [completion.upsert]: the row with the key if there is one (its update
    touches [completedAt], [source] and the edit columns only, none of
    which is carried here), a new row otherwise. *)
Definition completionUpsert (challengeId weekId taskTemplateId userId : Id)
    (db : DB) : Completion * DB :=
  match head (filter (completionKey weekId taskTemplateId userId)
                     (completions db)) with
  | Some x => (x, db)
  | None =>
      let x := mkCompletion challengeId weekId taskTemplateId userId in
      (x, with_completions (completions db ++ [x]) db)
  end.

(** [completion.delete]: throws when no row has the key. *)
Definition completionDelete (weekId taskTemplateId userId : Id) (db : DB)
  : Except DB :=
  match head (filter (completionKey weekId taskTemplateId userId)
                     (completions db)) with
  | None => Throw "Record to delete does not exist"
  | Some _ =>
      Return (with_completions
                (filter (fun x => ~ completionKey weekId taskTemplateId
                                     userId x)
                        (completions db))
                db)
  end.

Inductive ToggleBody :=
| Completed (completion : Completion)
| Removed.

(** POST completions: a participant toggles one of their own
    completions.  [taskTemplateId] is the empty string when the body has
    none, [completed] is the truthiness of the body's field. *)
Definition POST_completions (db : DB) (session : option Id)
    (challengeId weekId : Id) (taskTemplateId : string) (completed : bool)
  : Response ToggleBody * DB :=
  match session with
  | None => (ErrorJson 401 "Unauthorized", db)
  | Some userId =>
    if decide (taskTemplateId = "") then
      (ErrorJson 400 "taskTemplateId is required", db)
    else
    match head (filter (fun p => p_challengeId p = challengeId
                                 /\ p_userId p = userId)
                       (participants db)) with
    | None => (ErrorJson 403 "Access denied", db)
    | Some _ =>
      match head (filter (fun w => w_id w = weekId) (weeks db)) with
      | None => (ErrorJson 404 "Week not found", db)
      | Some week =>
        if decide (w_challengeId week <> challengeId) then
          (ErrorJson 404 "Week not found", db)
        else if decide (w_status week <> OPEN) then
          (ErrorJson 400 "Week is not open for completions", db)
        else
        match head (filter (fun t => tt_id t = taskTemplateId
                                     /\ tt_challengeId t = challengeId)
                           (taskTemplates db)) with
        | None => (ErrorJson 404 "Task not found or inactive", db)
        | Some task =>
          if negb (tt_active task) then
            (ErrorJson 404 "Task not found or inactive", db)
          else if completed then
            let '(completion, db') :=
              completionUpsert challengeId weekId taskTemplateId userId db in
            (Json 200 (Completed completion), db')
          else
            match completionDelete weekId taskTemplateId userId db with
            | Throw _ => (ErrorJson 500 "Failed to update completion", db)
            | Return db' => (Json 200 Removed, db')
            end
        end
      end
    end
  end.

(** POST admin/completions: the organizer toggles a completion of any
    participant. *)
Definition POST_admin_completions (db : DB) (session : option Id)
    (challengeId weekId : Id) (userId taskTemplateId : string)
    (completed : bool) : Response ToggleBody * DB :=
  match session with
  | None => (ErrorJson 401 "Unauthorized", db)
  | Some sessionUserId =>
    if decide (userId = "" \/ taskTemplateId = "") then
      (ErrorJson 400 "userId and taskTemplateId are required", db)
    else if negb (verifyOrganizer db challengeId sessionUserId) then
      (ErrorJson 403 "Only organizers can use admin endpoints", db)
    else
    match head (filter (fun w => w_id w = weekId) (weeks db)) with
    | None => (ErrorJson 404 "Week not found", db)
    | Some week =>
      if decide (w_challengeId week <> challengeId) then
        (ErrorJson 404 "Week not found", db)
      else
      match head (filter (fun p => p_challengeId p = challengeId
                                   /\ p_userId p = userId)
                         (participants db)) with
      | None =>
          (ErrorJson 404 "User is not a participant in this challenge", db)
      | Some _ =>
        match head (filter (fun t => tt_id t = taskTemplateId
                                     /\ tt_challengeId t = challengeId)
                           (taskTemplates db)) with
        | None => (ErrorJson 404 "Task not found or inactive", db)
        | Some task =>
          if negb (tt_active task) then
            (ErrorJson 404 "Task not found or inactive", db)
          else if completed then
            let '(completion, db') :=
              completionUpsert challengeId weekId taskTemplateId userId db in
            (Json 200 (Completed completion), db')
          else
            match completionDelete weekId taskTemplateId userId db with
            | Throw _ => (Json 200 Removed, db)
            | Return db' => (Json 200 Removed, db')
            end
        end
      end
    end
  end.

(** [week.update({ where: { id }, data: { status, lockedAt } })]; the
    [lockedAt] column is not carried. *)
Definition weekUpdate (id : Id) (status : WeekStatus) (db : DB) : DB :=
  with_weeks ((fun w => if decide (w_id w = id)
                        then mkWeek (w_id w) (w_challengeId w) status
                        else w) <$> weeks db)
             db.

Record LockBody := mkLockBody {
  lk_status : WeekStatus;
  lk_tokenAwards : option AwardResult;
  lk_sideChallengeCleanup : option CleanupResult;
}.

Section Lock.
Context `{NumberFormat} `{Schema}.

(** POST admin/lock: the organizer locks or unlocks a week; locking
    awards the perfect-week tokens and cleans up the week's wagers.  The
    message of the 400 answer is carried without the quotation marks it
    has around the two action names. *)
Definition POST_admin_lock (db : DB) (now : Time) (session : option Id)
    (challengeId weekId : Id) (action : string)
  : Response LockBody * DB :=
  match session with
  | None => (ErrorJson 401 "Unauthorized", db)
  | Some userId =>
    if decide (action <> "lock" /\ action <> "unlock") then
      (ErrorJson 400 "Action must be lock or unlock", db)
    else if negb (verifyOrganizer db challengeId userId) then
      (ErrorJson 403 "Only organizers can lock/unlock weeks", db)
    else
    match head (filter (fun w => w_id w = weekId) (weeks db)) with
    | None => (ErrorJson 404 "Week not found", db)
    | Some week =>
      if decide (w_challengeId week <> challengeId) then
        (ErrorJson 404 "Week not found", db)
      else
        let status := if decide (action = "lock") then LOCKED else OPEN in
        let db := weekUpdate weekId status db in
        if decide (action = "lock") then
          let '(tokenAwards, db) :=
            awardPerfectWeekTokensSafe db challengeId weekId in
          let '(sideChallengeCleanup, db) :=
            cleanupSideChallengesOnWeekLock db challengeId weekId now in
          (Json 200 (mkLockBody status (Some tokenAwards)
                                (Some sideChallengeCleanup)),
           db)
        else (Json 200 (mkLockBody status None None), db)
    end
  end.

End Lock.

End WeekRoutes.

(** Two stores with the same competitions, participants, tasks, weeks and
    completions. *)
Definition sameSetup (db db' : DB) : Prop :=
  users db' = users db /\ challenges db' = challenges db
  /\ participants db' = participants db
  /\ taskTemplates db' = taskTemplates db
  /\ weeks db' = weeks db /\ completions db' = completions db.


(** ** lib/rate-limit.ts

    The store is the module's [Map]; [Date.now()] is the argument [now],
    in milliseconds.  The two limits are read from the environment with
    [parseInt]; they are parameters here, and a setting that [parseInt]
    does not read as a number is not covered. *)

Module RateLimit.

Record RateLimitEntry := mkEntry {
  count : Z;
  resetAt : Z;
  lockedUntil : option Z;
}.

Record RateLimitResult := mkResult {
  allowed : bool;
  remaining : Z;
  result_resetAt : Z;
  result_lockedUntil : option Z;
}.

Definition LOCKOUT_MS : Z := 3600000.

(** [entry.lockedUntil] where the code tests its truthiness: a number
    other than 0. *)
Definition locked (entry : RateLimitEntry) : option Z :=
  match lockedUntil entry with
  | Some l => if decide (l = 0) then None else Some l
  | None => None
  end.

Section Limits.
Variables MAX_ATTEMPTS WINDOW_MS : Z.

Definition checkRateLimit (store : gmap string RateLimitEntry) (now : Z)
    (identifier : string)
  : RateLimitResult * gmap string RateLimitEntry :=
  let firstAttempt (store : gmap string RateLimitEntry) :=
    (mkResult true (MAX_ATTEMPTS - 1) (now + WINDOW_MS) None,
     <[identifier := mkEntry 1 (now + WINDOW_MS) None]> store) in
  match store !! identifier with
  | None => firstAttempt store
  | Some entry =>
    let store :=
      if decide (resetAt entry < now /\ locked entry = None)
      then delete identifier store else store in
    match locked entry with
    | Some l =>
      if decide (l > now) then (mkResult false 0 l (Some l), store)
      else (mkResult true (MAX_ATTEMPTS - 1) (now + WINDOW_MS) None,
            delete identifier store)
    | None =>
      if decide (resetAt entry < now) then firstAttempt store
      else
        let entry :=
          mkEntry (count entry + 1) (resetAt entry) (lockedUntil entry) in
        if decide (count entry > MAX_ATTEMPTS) then
          let entry :=
            mkEntry (count entry) (resetAt entry)
                    (Some (now + LOCKOUT_MS)) in
          (mkResult false 0 (now + LOCKOUT_MS) (Some (now + LOCKOUT_MS)),
           <[identifier := entry]> store)
        else
          (mkResult true (MAX_ATTEMPTS - count entry) (resetAt entry) None,
           <[identifier := entry]> store)
    end
  end.

(** The calls of [checkRateLimit] for one identifier at the given times,
    one after the other. *)
Fixpoint attempts (store : gmap string RateLimitEntry)
    (identifier : string) (times : list Z)
  : list RateLimitResult * gmap string RateLimitEntry :=
  match times with
  | [] => ([], store)
  | now :: times =>
      let '(r, store) := checkRateLimit store now identifier in
      let '(rs, store) := attempts store identifier times in
      (r :: rs, store)
  end.

End Limits.

Definition resetRateLimit (store : gmap string RateLimitEntry)
    (identifier : string) : gmap string RateLimitEntry :=
  delete identifier store.

(** The test of the periodic cleanup. *)
Definition expired (now : Z) (entry : RateLimitEntry) : Prop :=
  resetAt entry < now
  /\ match locked entry with
     | None => True
     | Some l => l < now
     end.

#[global] Instance expired_dec now entry : Decision (expired now entry).
Proof. unfold expired. destruct (locked entry); apply _. Defined.

(** The callback of [setInterval]. *)
Definition cleanup (now : Z) (store : gmap string RateLimitEntry)
  : gmap string RateLimitEntry :=
  filter (fun kv => ~ expired now (snd kv)) store.

End RateLimit.


(** ** The organizer's overview of a week

    app/api/challenges/[challengeId]/weeks/[weekId]/admin/overview *)

Module Overview.
Import Authorization Tokens Leaderboard.

Record Stats := mkStats {
  totalCompletions : nat;
  perfectWeeks : nat;
  averagePoints : Q;
}.

(** One turn of the loop that fills [pointsByUser]; [get(...) || 0] is 0
    for a user the map does not have. *)
Definition addUserPoints (db : DB) (pointsByUser : gmap Id Z)
    (completion : Completion) : gmap Id Z :=
  let current := default 0 (pointsByUser !! c_userId completion) in
  <[c_userId completion
    := current + taskPoints db (c_taskTemplateId completion)]> pointsByUser.

(** GET admin/overview.  Of the body, the [stats] are carried; its [week],
    [participants], [tasks] and [completions] are the rows of the four
    queries as they come.  The two maps are read through [values()] only,
    by a count and by a sum, neither of which depends on the order of the
    entries. *)
Definition GET_overview (db : DB) (session : option Id)
    (challengeId weekId : Id) : Response Stats :=
  match session with
  | None => ErrorJson 401 "Unauthorized"
  | Some userId =>
    if negb (verifyOrganizer db challengeId userId) then
      ErrorJson 403 "Only organizers can access admin overview"
    else
      let participants :=
        filter (fun p => p_challengeId p = challengeId) (participants db) in
      let tasks :=
        filter (fun t => tt_challengeId t = challengeId
                         /\ tt_active t = true)
               (taskTemplates db) in
      let completions :=
        filter (fun c => c_weekId c = weekId) (completions db) in
      let week := head (filter (fun w => w_id w = weekId) (weeks db)) in
      match week with
      | None => ErrorJson 404 "Week or participants not found"
      | Some _ =>
        if decide (length participants = O) then
          ErrorJson 404 "Week or participants not found"
        else
          let pointsByUser := foldl (addUserPoints db) ∅ completions in
          let completionsByUser := completionsByUser completions in
          let perfectWeekCount :=
            length (filter (fun taskSet : gset Id =>
                              size taskSet = length tasks)
                           (snd <$> map_to_list completionsByUser)) in
          Json 200
            (mkStats (length completions) perfectWeekCount
               (if decide (0 < length participants)%nat
                then (inject_Z (sumZ (snd <$> map_to_list pointsByUser))
                      / inject_Z (Z.of_nat (length participants)))%Q
                else 0%Q))
      end
  end.

End Overview.

(** ** Stores on which the ledger and the week lock go wrong *)

(** The store that two submit requests leave when they run at the same
    time: each transaction stores its value, reads back the one submission
    it can see and resolves nothing, so the wager stays ACCEPTED with both
    values in.  The organizer then locks the week. *)
Definition lifecycleBothSubmitted : DB :=
  with_submissions
    [mkSubmission "c" "ann" 1000; mkSubmission "c" "bob" 1500]
    lifecycleAccepted.

Definition lifecycleBothLock : Response WeekRoutes.LockBody * DB :=
  WeekRoutes.POST_admin_lock (H := exampleFormat) (H0 := exampleSchema)
    lifecycleBothSubmitted 500 (Some "ann") "c1" "w1" "lock".

(** Two competitions with a participant in common.  Ann organizes c1 and
    Cy organizes c2; Bob takes part in both and has had a perfect week in
    each, Ann one in c1.  In week w1 of c1 Ann proposes a wager for 1 token
    against Bob.  Bob accepts it through the URL of competition c2 and its
    week v1, so his stake is debited in the ledger of c2.  Cy deletes c2.
    Ann locks week w1 of c1. *)
Definition crossStart : DB :=
  mkDB [mkUser "ann" "Ann"; mkUser "bob" "Bob"; mkUser "cy" "Cy"]
       [mkChallenge "c1" "ann" 4 10 4 None 10 30;
        mkChallenge "c2" "cy" 4 10 4 None 10 30]
       [mkParticipant "c1" "ann"; mkParticipant "c1" "bob";
        mkParticipant "c2" "cy"; mkParticipant "c2" "bob"]
       [mkTaskTemplate "t1" "c1" 5 true; mkTaskTemplate "t2" "c2" 5 true]
       [mkWeek "w0" "c1" LOCKED; mkWeek "w1" "c1" OPEN;
        mkWeek "v0" "c2" LOCKED; mkWeek "v1" "c2" OPEN]
       [mkCompletion "c1" "w0" "t1" "ann"; mkCompletion "c1" "w0" "t1" "bob";
        mkCompletion "c2" "v0" "t2" "bob"]
       [] [] [].

Definition crossAwarded1 : DB :=
  snd (Tokens.awardPerfectWeekTokensSafe crossStart "c1" "w0").

Definition crossAwarded : DB :=
  snd (Tokens.awardPerfectWeekTokensSafe crossAwarded1 "c2" "v0").

Definition crossProposed : DB :=
  snd (Routes.POST_propose (H := exampleFormat) crossAwarded 100
         (Some "ann") "c1" "w1"
         (Routes.mkProposeBody "bob" "Steps" "Most steps this week"
            "HIGHER_WINS" "steps" None 1 None)).

Definition crossAccept : Response unit * DB :=
  Routes.POST_accept (H := exampleFormat) (H0 := exampleSchema)
    crossProposed 200 (Some "bob") "c2" "v1" "c".

Definition crossAccepted : DB := snd crossAccept.

(** The lock of week w1 of c1 right after the acceptance, c2 still there. *)
Definition crossLockedEarly : DB :=
  snd (WeekRoutes.POST_admin_lock (H := exampleFormat) (H0 := exampleSchema)
         crossAccepted 500 (Some "ann") "c1" "w1" "lock").

Definition crossDelete : Response unit * DB :=
  Routes.DELETE_challenge crossAccepted (Some "cy") "c2".

Definition crossDeleted : DB := snd crossDelete.

Definition crossLock : Response WeekRoutes.LockBody * DB :=
  WeekRoutes.POST_admin_lock (H := exampleFormat) (H0 := exampleSchema)
    crossDeleted 500 (Some "ann") "c1" "w1" "lock".

Definition crossLocked : DB := snd crossLock.
(** * Properties

    ** Arithmetic and list facts used throughout *)

Lemma Qltb_lt (x y : Q) : Qltb x y = true <-> (x < y)%Q.
Proof.
  unfold Qltb. rewrite negb_true_iff. split.
  - intros H. apply Qnot_le_lt. intros Hle.
    apply Qle_bool_iff in Hle. congruence.
  - intros H. destruct (Qle_bool y x) eqn:E; [|reflexivity].
    apply Qle_bool_iff in E. exfalso. eapply Qlt_not_le; eauto.
Qed.

Lemma Qltb_ge (x y : Q) : Qltb x y = false <-> (y <= x)%Q.
Proof.
  unfold Qltb. rewrite negb_false_iff. apply Qle_bool_iff.
Qed.

Lemma sumZ_app (l1 l2 : list Z) : sumZ (l1 ++ l2) = sumZ l1 + sumZ l2.
Proof. induction l1 as [|x l1 IH]; simpl; lia. Qed.

Lemma filter_all {A} (P : A -> Prop) `{forall x, Decision (P x)}
    (l : list A) :
  Forall P l -> filter P l = l.
Proof.
  induction 1 as [|x l Hx Hl IH]; [reflexivity|].
  rewrite filter_cons_True by assumption. congruence.
Qed.

Lemma filter_none {A} (P : A -> Prop) `{forall x, Decision (P x)}
    (l : list A) :
  Forall (fun x => ~ P x) l -> filter P l = [].
Proof.
  induction 1 as [|x l Hx Hl IH]; [reflexivity|].
  rewrite filter_cons_False by assumption. exact IH.
Qed.


(** A string of white space only is blank, also beyond ASCII: a no-break
    space (U+00A0), a line separator (U+2028), a byte order mark (U+FEFF),
    an ideographic space (U+3000). *)
Lemma isBlank_beyond_ascii :
  isBlank (String "194" (String "160" " ")) = true
  /\ isBlank (String "226" (String "128" (String "168" ""))) = true
  /\ isBlank (String "239" (String "187" (String "191" ""))) = true
  /\ isBlank (String "227" (String "128" (String "128" ""))) = true
  /\ isBlank (String "194" (String "161" "")) = false
  /\ isBlank " x " = false.
Proof. repeat split; reflexivity. Qed.
(** ** Winner computation *)

Lemma append_cons (a : ascii) (s t : string) :
  String a s +:+ t = String a (s +:+ t).
Proof. reflexivity. Qed.

Lemma append_nil (t : string) : "" +:+ t = t.
Proof. reflexivity. Qed.

Lemma prefix_spec (t s : string) :
  String.prefix t s = true <-> exists post, s = t +:+ post.
Proof.
  revert s. induction t as [|a t IH]; intros s.
  - split; [intros _; exists s; reflexivity | destruct s; reflexivity].
  - destruct s as [|b s]; simpl.
    + split; [discriminate | intros [post Hp]; discriminate].
    + destruct (Ascii.ascii_dec a b) as [->|Hne].
      * rewrite IH. split; intros [post Hp]; exists post.
        -- rewrite append_cons. congruence.
        -- rewrite append_cons in Hp. congruence.
      * split; [discriminate|].
        intros [post Hp]. rewrite append_cons in Hp. congruence.
Qed.

Lemma infixb_embeds (t s : string) : infixb t s = true <-> embeds s t.
Proof.
  induction s as [|b s IH]; cbn [infixb].
  - rewrite orb_false_r, prefix_spec. split.
    + intros [post Hp]. exists "", post. exact Hp.
    + intros (pre & post & Hp). destruct pre; [|discriminate].
      exists post. exact Hp.
  - rewrite orb_true_iff, IH, prefix_spec. split.
    + intros [[post Hp] | (pre & post & Hp)].
      * exists "", post. exact Hp.
      * exists (String b pre), post. rewrite append_cons. congruence.
    + intros (pre & post & Hp). destruct pre as [|a pre].
      * left. exists post. exact Hp.
      * right. exists pre, post. rewrite append_cons in Hp. congruence.
Qed.

Lemma embeds_here (pre t post : string) : embeds (pre +:+ t +:+ post) t.
Proof. exists pre, post. reflexivity. Qed.

Lemma embeds_end (pre t : string) : embeds (pre +:+ t) t.
Proof.
  exists pre, "". f_equal. induction t as [|a t IH]; [reflexivity|].
  rewrite append_cons. congruence.
Qed.

Lemma embeds_later (pre s t : string) : embeds s t -> embeds (pre +:+ s) t.
Proof.
  intros (p & q & ->). exists (pre +:+ p), q.
  induction pre as [|a pre IH]; [reflexivity|].
  rewrite !append_cons. congruence.
Qed.

(** Less-than on doubles is asymmetric and irreflexive. *)
Lemma SFcompare_antisym (x y : spec_float) :
  SFcompare y x = CompOpp <$> SFcompare x y.
Proof.
  destruct x as [s1|s1| |s1 m1 e1], y as [s2|s2| |s2 m2 e2];
    try reflexivity; try (destruct s1; reflexivity);
    try (destruct s2; reflexivity);
    try (destruct s1, s2; reflexivity).
  cbn [SFcompare fmap option_fmap option_map].
  change (PosDef.Pos.compare_cont Eq m2 m1) with (Pos.compare m2 m1).
  change (PosDef.Pos.compare_cont Eq m1 m2) with (Pos.compare m1 m2).
  rewrite (Z.compare_antisym e1 e2), (Pos.compare_antisym m1 m2).
  destruct s1, s2, (e1 ?= e2), (Pos.compare m1 m2); reflexivity.
Qed.

Lemma ltb_asym (x y : float) :
  PrimFloat.ltb x y = true -> PrimFloat.ltb y x = false.
Proof.
  rewrite !ltb_spec. unfold SFltb. rewrite (SFcompare_antisym (Prim2SF x)).
  destruct (SFcompare (Prim2SF x) (Prim2SF y)) as [[]|]; simpl; congruence.
Qed.

Lemma ltb_irrefl (x : float) : PrimFloat.ltb x x = false.
Proof.
  destruct (PrimFloat.ltb x x) eqn:E; [|reflexivity].
  rewrite (ltb_asym x x E) in E. discriminate.
Qed.

Section Winner.
Context `{NumberFormat}.
Import SideChallenges.

Ltac pick_metric :=
  unfold calculateWinner;
  repeat (case_decide; [try discriminate | try congruence]).

(** C3 (as amended).  [calculateWinner] is a function of the metric type,
    the target, the two values and the two user ids, the target and the
    values being double-precision numbers.  For HIGHER_WINS the strictly
    greater value wins, for LOWER_WINS the strictly smaller one, for
    TARGET_THRESHOLD the strictly smaller distance, the distance being
    [Math.abs(value - target)] as computed on doubles (the difference
    rounded to the nearest double); values (distances) of which neither is
    smaller than the other, equal ones in particular, are a tie.  A
    TARGET_THRESHOLD call without a target, or an unknown metric type,
    throws.  The result carries the winner's user id, null for a tie, and a
    reason text: it embeds both compared values when there is a winner, the
    creator's value for a HIGHER_WINS or LOWER_WINS tie, and only the target
    for a TARGET_THRESHOLD tie. *)
Theorem calculateWinner_spec (target : option float) (cv ov : float)
    (cu ou : Id) :
  (* HIGHER_WINS *)
  (PrimFloat.ltb ov cv = true ->
     calculateWinner "HIGHER_WINS" target cv ov cu ou
     = Return (mkWinnerCalculation creator
                 ("Higher value wins: " +:+ showFloat cv +:+ " > "
                  +:+ showFloat ov) (Some cu)))
  /\ (PrimFloat.ltb cv ov = true ->
     calculateWinner "HIGHER_WINS" target cv ov cu ou
     = Return (mkWinnerCalculation opponent
                 ("Higher value wins: " +:+ showFloat ov +:+ " > "
                  +:+ showFloat cv) (Some ou)))
  /\ ((cv = ov
       \/ (PrimFloat.ltb ov cv = false /\ PrimFloat.ltb cv ov = false)) ->
     calculateWinner "HIGHER_WINS" target cv ov cu ou
     = Return (mkWinnerCalculation tie
                 ("Tie: Both achieved " +:+ showFloat cv) None))
  (* LOWER_WINS *)
  /\ (PrimFloat.ltb cv ov = true ->
     calculateWinner "LOWER_WINS" target cv ov cu ou
     = Return (mkWinnerCalculation creator
                 ("Lower value wins: " +:+ showFloat cv +:+ " < "
                  +:+ showFloat ov) (Some cu)))
  /\ (PrimFloat.ltb ov cv = true ->
     calculateWinner "LOWER_WINS" target cv ov cu ou
     = Return (mkWinnerCalculation opponent
                 ("Lower value wins: " +:+ showFloat ov +:+ " < "
                  +:+ showFloat cv) (Some ou)))
  /\ ((cv = ov
       \/ (PrimFloat.ltb ov cv = false /\ PrimFloat.ltb cv ov = false)) ->
     calculateWinner "LOWER_WINS" target cv ov cu ou
     = Return (mkWinnerCalculation tie
                 ("Tie: Both achieved " +:+ showFloat cv) None))
  (* TARGET_THRESHOLD *)
  /\ (target = None ->
      calculateWinner "TARGET_THRESHOLD" target cv ov cu ou
      = Throw "Target value required for TARGET_THRESHOLD metric type")
  /\ (forall t, target = Some t ->
      (PrimFloat.ltb (distance cv t) (distance ov t) = true ->
         calculateWinner "TARGET_THRESHOLD" target cv ov cu ou
         = Return (mkWinnerCalculation creator
                     ("Closest to target " +:+ showFloat t
                      +:+ ": Creator " +:+ showFloat cv
                      +:+ " (distance " +:+ showFloat (distance cv t)
                      +:+ ") vs Opponent " +:+ showFloat ov
                      +:+ " (distance " +:+ showFloat (distance ov t)
                      +:+ ")") (Some cu)))
      /\ (PrimFloat.ltb (distance ov t) (distance cv t) = true ->
         calculateWinner "TARGET_THRESHOLD" target cv ov cu ou
         = Return (mkWinnerCalculation opponent
                     ("Closest to target " +:+ showFloat t
                      +:+ ": Opponent " +:+ showFloat ov
                      +:+ " (distance " +:+ showFloat (distance ov t)
                      +:+ ") vs Creator " +:+ showFloat cv
                      +:+ " (distance " +:+ showFloat (distance cv t)
                      +:+ ")") (Some ou)))
      /\ ((distance cv t = distance ov t
           \/ (PrimFloat.ltb (distance cv t) (distance ov t) = false
               /\ PrimFloat.ltb (distance ov t) (distance cv t) = false)) ->
         calculateWinner "TARGET_THRESHOLD" target cv ov cu ou
         = Return (mkWinnerCalculation tie
                     ("Tie: Both equally distant from target "
                      +:+ showFloat t) None)))
  (* any other metric type *)
  /\ (forall m, m <> "HIGHER_WINS" -> m <> "LOWER_WINS" ->
                m <> "TARGET_THRESHOLD" ->
      calculateWinner m target cv ov cu ou
      = Throw ("Unknown metric type: " +:+ m))
  (* what the reason text embeds *)
  /\ (forall m r, calculateWinner m target cv ov cu ou = Return r ->
      winnerUserId r
      = match winnerId r with
        | creator => Some cu
        | opponent => Some ou
        | tie => None
        end
      /\ (winnerId r <> tie ->
          embeds (reason r) (showFloat cv)
          /\ embeds (reason r) (showFloat ov))
      /\ (winnerId r = tie -> m <> "TARGET_THRESHOLD" ->
          embeds (reason r) (showFloat cv))
      /\ (winnerId r = tie -> m = "TARGET_THRESHOLD" ->
          exists t, target = Some t
                    /\ reason r = "Tie: Both equally distant from target "
                                  +:+ showFloat t)).
Proof.
  assert (Hneither : forall x y : float,
            x = y \/ (PrimFloat.ltb y x = false /\ PrimFloat.ltb x y = false)
            -> PrimFloat.ltb x y = false /\ PrimFloat.ltb y x = false).
  { intros x y [->|[? ?]]; [split; apply ltb_irrefl | split; assumption]. }
  unfold distance.
  repeat match goal with |- _ /\ _ => split end.
  - intros Hlt. pick_metric. rewrite Hlt. reflexivity.
  - intros Hlt. pick_metric. rewrite (ltb_asym _ _ Hlt), Hlt. reflexivity.
  - intros E. apply Hneither in E as [E1 E2]. pick_metric.
    rewrite E1, E2. reflexivity.
  - intros Hlt. pick_metric. rewrite Hlt. reflexivity.
  - intros Hlt. pick_metric. rewrite (ltb_asym _ _ Hlt), Hlt. reflexivity.
  - intros E. apply Hneither in E as [E1 E2]. pick_metric.
    rewrite E1, E2. reflexivity.
  - intros ->. pick_metric. reflexivity.
  - intros t ->. repeat split.
    + intros Hlt. pick_metric. rewrite Hlt. reflexivity.
    + intros Hlt. pick_metric. rewrite (ltb_asym _ _ Hlt), Hlt. reflexivity.
    + intros E. pick_metric.
      assert (E' : PrimFloat.ltb (PrimFloat.abs (PrimFloat.sub cv t))
                                 (PrimFloat.abs (PrimFloat.sub ov t)) = false
                   /\ PrimFloat.ltb (PrimFloat.abs (PrimFloat.sub ov t))
                                    (PrimFloat.abs (PrimFloat.sub cv t))
                      = false).
      { destruct E as [E|[E1 E2]]; [|split; assumption].
        rewrite E. split; apply ltb_irrefl. }
      destruct E' as [E1 E2]. rewrite E1, E2. reflexivity.
  - intros m H1 H2 H3. unfold calculateWinner.
    repeat case_decide; try contradiction. reflexivity.
  - intros m r Hr. unfold calculateWinner in Hr.
    repeat case_decide; subst;
      repeat match type of Hr with
             | context [PrimFloat.ltb ?a ?b] => destruct (PrimFloat.ltb a b)
             | context [match target with _ => _ end] => destruct target
             end;
      inversion Hr; subst; simpl;
      (split; [reflexivity|]);
      (split; [intros Hne; try contradiction;
               split; repeat first [apply embeds_here | apply embeds_end | apply embeds_later]
              |]);
      (split; [intros Ht Hm; try discriminate; try contradiction;
               repeat first [apply embeds_here | apply embeds_end | apply embeds_later]
              |]);
      intros Ht Hm; try discriminate; try contradiction;
      eexists; split; reflexivity.
Qed.

End Winner.
(** Two TARGET_THRESHOLD ties.  With target 5 and values 4 and 6 the reason
    text names the target and neither of the two values.  With target
    9007199254740994 and values 1 and 2, all three of them doubles, the
    value 2 is nearer to the target, yet both distances are computed as
    9007199254740992 and the result is a tie.  (Claim C3 as first stated
    has the smaller [abs(value - target)] win and every reason text embed
    the compared values.) *)
Lemma calculateWinner_target_threshold_ties :
  (exists r,
     SideChallenges.calculateWinner (H := showDecimal) "TARGET_THRESHOLD"
       (Some (toNumber 5)) (toNumber 4) (toNumber 6) "ann" "bob" = Return r
     /\ SideChallenges.winnerId r = SideChallenges.tie
     /\ SideChallenges.reason r = "Tie: Both equally distant from target 5"
     /\ ~ embeds (SideChallenges.reason r)
                 (showFloat (H := showDecimal) (toNumber 4))
     /\ ~ embeds (SideChallenges.reason r)
                 (showFloat (H := showDecimal) (toNumber 6)))
  /\ (exists r,
        SideChallenges.calculateWinner (H := showDecimal) "TARGET_THRESHOLD"
          (Some (toNumber 9007199254740994)) (toNumber 1) (toNumber 2)
          "ann" "bob" = Return r
        /\ SideChallenges.winnerId r = SideChallenges.tie
        /\ SideChallenges.winnerUserId r = None
        /\ Prim2SF (toNumber 9007199254740994)
           = S754_finite false 4503599627370497 1
        /\ (rationalOf false 4503599627370497 1 == 9007199254740994)%Q
        /\ Prim2SF (toNumber 1) = S754_finite false 4503599627370496 (-52)
        /\ (rationalOf false 4503599627370496 (-52) == 1)%Q
        /\ Prim2SF (toNumber 2) = S754_finite false 4503599627370496 (-51)
        /\ (rationalOf false 4503599627370496 (-51) == 2)%Q
        /\ (Qabs (2 - 9007199254740994) < Qabs (1 - 9007199254740994))%Q
        /\ showFloat (H := showDecimal)
             (distance (toNumber 1) (toNumber 9007199254740994))
           = "9007199254740992"
        /\ showFloat (H := showDecimal)
             (distance (toNumber 2) (toNumber 9007199254740994))
           = "9007199254740992").
Proof.
  split.
  - eexists. split; [vm_compute; reflexivity|].
    split; [reflexivity|]. split; [reflexivity|].
    split; intros Hc; apply infixb_embeds in Hc; vm_compute in Hc;
      discriminate Hc.
  - eexists. split; [vm_compute; reflexivity|].
    repeat split; vm_compute; reflexivity.
Qed.

Lemma calculateWinner_spec_witness :
  SideChallenges.calculateWinner (H := showDecimal) "HIGHER_WINS" None
    (toNumber 1500) (toNumber 1000) "ann" "bob"
  = Return (SideChallenges.mkWinnerCalculation SideChallenges.creator
              "Higher value wins: 1500 > 1000" (Some "ann")).
Proof.
  pose proof (calculateWinner_spec (H := showDecimal) None (toNumber 1500)
                (toNumber 1000) "ann" "bob") as (Hhigher & _).
  rewrite Hhigher; [reflexivity|]. reflexivity.
Defined.
(** ** Available balance *)

Lemma foldl_add_if {A} (P : A -> Prop) `{forall x, Decision (P x)}
    (f : A -> Z) (l : list A) (a : Z) :
  foldl (fun acc x => if decide (P x) then acc + f x else acc) a l
  = a + sumZ (f <$> filter P l).
Proof.
  revert a. induction l as [|x l IH]; intros a; simpl; [lia|].
  rewrite IH, filter_cons.
  destruct (decide (P x)); [rewrite fmap_cons|]; cbn [sumZ]; lia.
Qed.

Lemma foldl_pointwise {A B} (f g : B -> A -> B) (l : list A) (b : B) :
  (forall acc x, f acc x = g acc x) -> foldl f b l = foldl g b l.
Proof.
  intros Hfg. revert b. induction l as [|x l IH]; intros b; simpl;
    [reflexivity|]. rewrite Hfg. apply IH.
Qed.

(** C4.  [getAvailableBalance] returns {total, staked, available} with
    available = total - staked; total is the sum of the user's ledger deltas
    in the competition, and staked the sum of the stakes of the user's own
    still-open wagers, the creator's stake counting from the proposal and the
    opponent's only once the wager is accepted. *)
Theorem getAvailableBalance_spec (db : DB) (challengeId userId : Id) :
  let b := SideChallenges.getAvailableBalance db challengeId userId in
  SideChallenges.available b
  = SideChallenges.total b - SideChallenges.staked b
  /\ SideChallenges.total b
     = sumZ (tl_delta <$>
               filter (fun e => tl_challengeId e = challengeId
                                /\ tl_userId e = userId)
                      (tokenLedger db))
  /\ SideChallenges.staked b
     = sumZ (sc_stakeTokens <$> committedWagers db challengeId userId).
Proof.
  simpl. split; [reflexivity|]. split; [reflexivity|].
  set (open := filter _ (sideChallenges db)).
  transitivity
    (foldl (fun acc c =>
              if decide (sc_createdByUserId c = userId
                         \/ acceptedStatus (sc_status c))
              then acc + sc_stakeTokens c else acc) 0 open).
  - apply foldl_pointwise. intros acc c.
    unfold acceptedStatus.
    repeat case_decide; try reflexivity; exfalso; tauto.
  - rewrite foldl_add_if, Z.add_0_l. f_equal. f_equal.
    unfold open, committedWagers. rewrite list_filter_filter.
    apply list_filter_iff. intros c. unfold stillOpen, acceptedStatus.
    tauto.
Qed.
(** ** Payout summary *)

(** C6 (as amended).  For a competition that exists, [getPayoutSummary]
    returns, in double-precision arithmetic, totalPot = buyInAmount x
    participantCount and weeklyPayoutTotal = weeklyPrizeAmount x
    numberOfWeeks (the stored per-week amount; no percentage is read).
    grandPrize is the stored grandPrizeAmount when there is one and it is
    truthy (not zero, or of any value where the schema makes the column a
    Decimal), and otherwise totalPot - weeklyPayoutTotal: so a stored zero
    gives 0 with Decimal columns and the remainder with number columns. *)
Theorem getPayoutSummary_spec `{Schema} (db : DB) (challengeId : Id)
    (challenge : Challenge) :
  head (filter (fun c => ch_id c = challengeId) (challenges db))
  = Some challenge ->
  exists s,
    Leaderboard.getPayoutSummary db challengeId = Return s
    /\ Leaderboard.participantCount s
       = length (filter (fun p => p_challengeId p = challengeId)
                        (participants db))
    /\ Leaderboard.totalPot s
       = PrimFloat.mul (toNumber (ch_buyInAmount challenge))
           (toNumber (inject_Z (Z.of_nat (Leaderboard.participantCount s))))
    /\ Leaderboard.weeklyPrize s = toNumber (ch_weeklyPrizeAmount challenge)
    /\ Leaderboard.weeklyPayoutTotal s
       = PrimFloat.mul (toNumber (ch_weeklyPrizeAmount challenge))
           (toNumber (inject_Z (ch_numberOfWeeks challenge)))
    /\ (forall g, ch_grandPrizeAmount challenge = Some g -> ~ (g == 0)%Q ->
        Leaderboard.grandPrize s = toNumber g)
    /\ (forall g, ch_grandPrizeAmount challenge = Some g -> (g == 0)%Q ->
        Leaderboard.grandPrize s
        = if decimalColumns then toNumber g
          else PrimFloat.sub (Leaderboard.totalPot s)
                             (Leaderboard.weeklyPayoutTotal s))
    /\ (ch_grandPrizeAmount challenge = None ->
        Leaderboard.grandPrize s
        = PrimFloat.sub (Leaderboard.totalPot s)
                        (Leaderboard.weeklyPayoutTotal s)).
Proof.
  intros Hfind. unfold Leaderboard.getPayoutSummary. rewrite Hfind.
  eexists. split; [reflexivity|]. simpl.
  repeat split; try reflexivity.
  - intros g Hg Hnz. rewrite Hg. simpl.
    destruct (Qeq_bool g 0) eqn:E; [|reflexivity].
    apply Qeq_bool_iff in E. contradiction.
  - intros g Hg Hz. rewrite Hg. simpl.
    apply Qeq_bool_iff in Hz. rewrite Hz.
    destruct decimalColumns; reflexivity.
  - intros Hg. rewrite Hg. simpl. reflexivity.
Qed.

(** Claim C6 as first stated has grandPrize = grandPrizePercent/100 x
    totalPool = 12 in the specification's example; the code returns
    40 - 16 = 24, whichever way the schema stores amounts.  It has an
    amount that is present take precedence; a stored amount of 0 does so
    with Decimal columns only, with number columns the code returns the
    remainder 24.  And it has totalPool = buyInAmount x participantCount;
    for a buy-in of 1.10 and three participants the code returns the
    double 3.3000000000000003 (0x1.a666666666667p+1), which is not the
    double for 3.30 (0x1.a666666666666p+1). *)
Lemma getPayoutSummary_departs_from_claim :
  (exists s, Leaderboard.getPayoutSummary (H := true) payoutExample "c1"
             = Return s
             /\ Leaderboard.totalPot s = toNumber 40
             /\ Leaderboard.weeklyPayoutTotal s = toNumber 16
             /\ Leaderboard.grandPrize s = toNumber 24
             /\ Leaderboard.grandPrize s
                <> PrimFloat.mul (toNumber (30 / 100))
                                 (Leaderboard.totalPot s)
             /\ Leaderboard.grandPrize s <> toNumber 12)
  /\ (exists s, Leaderboard.getPayoutSummary (H := false) payoutExample "c1"
                = Return s
                /\ Leaderboard.grandPrize s = toNumber 24
                /\ Leaderboard.grandPrize s
                   <> PrimFloat.mul (toNumber (30 / 100))
                                    (Leaderboard.totalPot s)
                /\ Leaderboard.grandPrize s <> toNumber 12)
  /\ (exists s, Leaderboard.getPayoutSummary (H := false) payoutZeroExample
                  "c1" = Return s
                /\ Leaderboard.grandPrize s = toNumber 24
                /\ Leaderboard.grandPrize s <> toNumber 0)
  /\ (exists s, Leaderboard.getPayoutSummary (H := true) payoutZeroExample
                  "c1" = Return s
                /\ Leaderboard.grandPrize s = toNumber 0)
  /\ (exists s, Leaderboard.getPayoutSummary (H := false) payoutCentsExample
                  "c1" = Return s
                /\ Leaderboard.totalPot s = 0x1.a666666666667p+1%float
                /\ toNumber ((11 # 10) * 3) = 0x1.a666666666666p+1%float
                /\ Leaderboard.totalPot s <> toNumber ((11 # 10) * 3)).
Proof.
  repeat split; eexists; (split; [vm_compute; reflexivity|]); simpl;
    repeat split; try (vm_compute; reflexivity);
    intros Hc; vm_compute in Hc; discriminate Hc.
Qed.

Lemma getPayoutSummary_spec_witness :
  exists s,
    Leaderboard.getPayoutSummary (H := false) payoutExample "c1" = Return s
    /\ Leaderboard.totalPot s = toNumber 40
    /\ Leaderboard.weeklyPayoutTotal s = toNumber 16
    /\ Leaderboard.grandPrize s = toNumber 24.
Proof.
  destruct (getPayoutSummary_spec (H := false) payoutExample "c1"
              (mkChallenge "c1" "ann" 4 10 4 None 10 30) eq_refl)
    as (s & Hs & Hcount & Hpot & _ & Hweekly & _ & _ & Hgrand).
  exists s. split; [exact Hs|].
  assert (Hpot' : Leaderboard.totalPot s = toNumber 40).
  { rewrite Hpot, Hcount. vm_compute. reflexivity. }
  assert (Hweekly' : Leaderboard.weeklyPayoutTotal s = toNumber 16).
  { rewrite Hweekly. vm_compute. reflexivity. }
  split; [exact Hpot'|]. split; [exact Hweekly'|].
  rewrite (Hgrand eq_refl), Hpot', Hweekly'. vm_compute. reflexivity.
Defined.
(** ** Weekly leaderboard *)

Section Ranking.
Import Leaderboard.

(** The ranking loop, turn by turn: after [n] turns the leaderboard holds
    the first [n] rows and [currentRank] is the rank of row [n]. *)
Lemma rankStep_at (l : list (Id * UserData)) (n : nat) (user : Id * UserData)
    (lb : list ParticipantScore) :
  l !! n = Some user ->
  rankStep l (lb, rankAt (pointsOf l) n) n
  = (lb ++ [scoreRow (pointsOf l) n user],
     if decide (S n < length l)%nat then rankAt (pointsOf l) (S n)
     else rankAt (pointsOf l) n).
Proof.
  intros Hn. unfold rankStep. rewrite Hn.
  assert (Hlt : (n < length l)%nat) by (eapply lookup_lt_Some; eauto).
  assert (Hpn : pointsOf l !! n = Some (ud_points (snd user))).
  { unfold pointsOf. rewrite list_lookup_fmap, Hn. reflexivity. }
  assert (Hp : forall j, (ud_points ∘ snd) <$> l !! j = pointsOf l !! j).
  { intros j. unfold pointsOf. rewrite list_lookup_fmap. reflexivity. }
  rewrite !Hp. f_equal.
  - f_equal. unfold scoreRow. f_equal. f_equal.
    unfold tiedAt. rewrite Hpn.
    assert (Hlast : ~ (n < length l - 1)%nat ->
                    pointsOf l !! (n + 1)%nat = None).
    { intros Hge. apply lookup_ge_None. unfold pointsOf.
      rewrite length_fmap. lia. }
    repeat case_bool_decide; simpl; try reflexivity; exfalso;
      try tauto; try (rewrite Hlast in * by assumption; congruence).
  - cbn [rankAt]. rewrite Hpn, Nat.add_1_r.
    repeat case_bool_decide; repeat case_decide; simpl;
      try reflexivity; try lia; try congruence.
Qed.

Lemma rank_loop (l : list (Id * UserData)) (n : nat) :
  (n <= length l)%nat ->
  foldl (rankStep l) ([], 1%nat) (seq 0 n)
  = (imap (scoreRow (pointsOf l)) (take n l),
     if decide (n < length l)%nat then rankAt (pointsOf l) n
     else rankAt (pointsOf l) (n - 1)).
Proof.
  induction n as [|n IH]; intros Hn.
  - simpl. case_decide; reflexivity.
  - rewrite seq_S, foldl_app, IH by lia. cbn [foldl Nat.add].
    destruct (lookup_lt_is_Some_2 l n ltac:(lia)) as [user Huser].
    rewrite decide_True by lia.
    rewrite (rankStep_at l n user _ Huser).
    erewrite take_S_r by exact Huser.
    rewrite imap_app. simpl.
    rewrite length_take, Nat.min_l, Nat.add_0_r by lia.
    f_equal. rewrite Nat.sub_0_r. reflexivity.
Qed.

Lemma assignRanks_imap (l : list (Id * UserData)) :
  assignRanks l = imap (scoreRow (pointsOf l)) l.
Proof.
  unfold assignRanks. rewrite rank_loop by lia. simpl.
  rewrite take_ge by lia. reflexivity.
Qed.

Lemma assignRanks_lookup (l : list (Id * UserData)) (i : nat) :
  assignRanks l !! i = scoreRow (pointsOf l) i <$> l !! i.
Proof. rewrite assignRanks_imap. apply list_lookup_imap. Qed.

End Ranking.

Section Sorting.
Import Leaderboard.

Lemma insertDesc_perm (x : Id * UserData) (l : list (Id * UserData)) :
  insertDesc x l ≡ₚ x :: l.
Proof.
  induction l as [|y l IH]; simpl; [reflexivity|].
  case_decide; [reflexivity|]. rewrite IH. apply Permutation_swap.
Qed.

Lemma sortDesc_perm (l : list (Id * UserData)) : sortDesc l ≡ₚ l.
Proof.
  induction l as [|x l IH]; simpl; [reflexivity|].
  rewrite insertDesc_perm, IH. reflexivity.
Qed.

Lemma insertDesc_sorted (x : Id * UserData) (l : list (Id * UserData)) :
  StronglySorted notBelow l -> StronglySorted notBelow (insertDesc x l).
Proof.
  induction 1 as [|y l Hs IH Hall]; simpl.
  - repeat constructor.
  - case_decide as Hle.
    + constructor; [constructor; assumption|].
      constructor; [exact Hle|].
      eapply Forall_impl; [exact Hall|].
      unfold notBelow. intros z Hz. lia.
    + constructor; [exact IH|].
      rewrite insertDesc_perm. constructor; [|exact Hall].
      unfold notBelow. lia.
Qed.

Lemma sortDesc_sorted (l : list (Id * UserData)) :
  StronglySorted notBelow (sortDesc l).
Proof.
  induction l as [|x l IH]; simpl; [constructor|].
  apply insertDesc_sorted, IH.
Qed.

Lemma sorted_descending (l : list (Id * UserData)) :
  StronglySorted notBelow l -> descending (pointsOf l).
Proof.
  induction 1 as [|a l Hs IH Hall]; intros i j x y Hij Hi Hj.
  - destruct i; discriminate.
  - destruct i as [|i], j as [|j]; simpl in Hi, Hj.
    + simplify_eq. lia.
    + simplify_eq. unfold pointsOf in Hj.
      rewrite list_lookup_fmap in Hj.
      destruct (l !! j) as [b|] eqn:Hb; [|discriminate].
      simpl in Hj. simplify_eq.
      rewrite Forall_forall in Hall.
      apply (Hall b). eapply list_elem_of_lookup_2; eauto.
    + lia.
    + eapply IH; [|exact Hi|exact Hj]. lia.
Qed.

End Sorting.

Section RankFacts.

Lemma descending_prefix_above (ps : list Z) (k : nat) (p : Z) :
  descending ps -> (forall q, ps !! k = Some q -> p < q) ->
  (k < length ps)%nat ->
  filter (fun q => p < q) (take (S k) ps) = take (S k) ps.
Proof.
  intros Hd Hk Hlt.
  destruct (lookup_lt_is_Some_2 ps k Hlt) as [q Hq].
  apply filter_all. apply Forall_forall. intros x Hx.
  apply list_elem_of_lookup in Hx as [i Hi].
  apply lookup_take_Some in Hi as [Hi Hlt'].
  specialize (Hk q Hq). specialize (Hd i k x q ltac:(lia) Hi Hq). lia.
Qed.

Lemma descending_suffix_below (ps : list Z) (k : nat) (p : Z) :
  descending ps -> ps !! k = Some p ->
  filter (fun q => p < q) (drop k ps) = [].
Proof.
  intros Hd Hk. apply filter_none. apply Forall_forall. intros x Hx.
  apply list_elem_of_lookup in Hx as [i Hi].
  rewrite lookup_drop in Hi.
  specialize (Hd k (k + i)%nat p x ltac:(lia) Hk Hi). lia.
Qed.

(** Competition ranking: a row's rank is one more than the number of rows
    with a strictly greater score. *)
Lemma rankAt_competition (ps : list Z) (i : nat) (p : Z) :
  descending ps -> ps !! i = Some p ->
  rankAt ps i = S (length (filter (fun q => p < q) ps)).
Proof.
  intros Hd. revert p. induction i as [|i IH]; intros p Hp.
  - simpl. rewrite <- (drop_0 ps) at 1.
    rewrite (descending_suffix_below ps 0 p Hd Hp). reflexivity.
  - cbn [rankAt].
    assert (Hlt : (i < length ps)%nat).
    { apply lookup_lt_Some in Hp. lia. }
    destruct (lookup_lt_is_Some_2 ps i Hlt) as [q Hq].
    case_decide as Heq.
    + rewrite (IH q Hq). rewrite Hq, Hp in Heq. simplify_eq. reflexivity.
    + rewrite <- (take_drop (S i) ps) at 1.
      rewrite filter_app.
      rewrite (descending_prefix_above ps i p Hd); [| |exact Hlt].
      * rewrite (descending_suffix_below ps (S i) p Hd Hp).
        rewrite app_nil_r, length_take. apply lookup_lt_Some in Hp. lia.
      * intros q' Hq'. rewrite Hq in Hq'. simplify_eq.
        specialize (Hd i (S i) q' p ltac:(lia) Hq Hp).
        assert (q' <> p) by (rewrite Hq, Hp in Heq; congruence). lia.
Qed.

End RankFacts.

Section Inclusion.
Import Leaderboard.
Context (db : DB).

Lemma mapHas_keys (m : UserPoints) (k : Id) :
  mapHas m k = true <-> k ∈ fst <$> m.
Proof. unfold mapHas. apply bool_decide_eq_true. Qed.

Lemma mapSet_keys (m : UserPoints) (k : Id) (v : UserData) (k' : Id) :
  k' ∈ fst <$> mapSet k v m <-> k' ∈ fst <$> m \/ k' = k.
Proof.
  unfold mapSet. destruct (mapHas m k) eqn:Hhas.
  - apply mapHas_keys in Hhas.
    rewrite <- list_fmap_compose.
    assert (Hk : fst ∘ (fun e : Id * UserData =>
                          if decide (fst e = k) then (k, v) else e) <$> m
                 = fst <$> m).
    { apply list_fmap_ext. intros i e _. simpl.
      case_decide; simpl; congruence. }
    rewrite Hk. split; [tauto|]. intros [?| ->]; assumption.
  - rewrite fmap_app, elem_of_app. simpl. rewrite list_elem_of_singleton.
    reflexivity.
Qed.

Lemma addPoints_keys (m : UserPoints) (c : Completion) (k : Id) :
  k ∈ fst <$> addPoints db m c <-> k ∈ fst <$> m \/ k = c_userId c.
Proof. unfold addPoints. apply mapSet_keys. Qed.

Lemma addPoints_fold_keys (cs : list Completion) (m : UserPoints) (k : Id) :
  k ∈ fst <$> foldl (addPoints db) m cs ->
  k ∈ fst <$> m \/ k ∈ c_userId <$> cs.
Proof.
  revert m. induction cs as [|c cs IH]; intros m; simpl; [tauto|].
  intros Hk. apply IH in Hk as [Hk|Hk].
  - apply addPoints_keys in Hk as [Hk| ->]; [tauto|].
    right. left.
  - right. right. exact Hk.
Qed.

Lemma addParticipant_preserves (m : UserPoints) (p : Participant)
    (e : Id * UserData) :
  e ∈ m -> e ∈ addParticipant db m p.
Proof.
  intros He. unfold addParticipant, mapSet.
  destruct (mapHas m (p_userId p)); [exact He|].
  apply elem_of_app. left. exact He.
Qed.

Lemma addParticipant_fold_preserves (ps : list Participant) (m : UserPoints)
    (e : Id * UserData) :
  e ∈ m -> e ∈ foldl (addParticipant db) m ps.
Proof.
  revert m. induction ps as [|p ps IH]; intros m He; simpl; [exact He|].
  apply IH, addParticipant_preserves, He.
Qed.

Lemma addParticipant_keys (m : UserPoints) (p : Participant) (k : Id) :
  k ∈ fst <$> addParticipant db m p <-> k ∈ fst <$> m \/ k = p_userId p.
Proof.
  unfold addParticipant. destruct (mapHas m (p_userId p)) eqn:Hhas.
  - apply mapHas_keys in Hhas. split; [tauto|].
    intros [?| ->]; assumption.
  - apply mapSet_keys.
Qed.

Lemma addParticipant_fold_keys (ps : list Participant) (m : UserPoints)
    (p : Participant) :
  p ∈ ps -> p_userId p ∈ fst <$> foldl (addParticipant db) m ps.
Proof.
  revert m. induction ps as [|q ps IH]; intros m Hp;
    [inversion Hp|].
  simpl. apply elem_of_cons in Hp as [->|Hp]; [|apply IH, Hp].
  assert (Hq : p_userId q ∈ fst <$> addParticipant db m q).
  { apply addParticipant_keys. right. reflexivity. }
  apply list_elem_of_fmap in Hq as ([k d] & Hk & Hin). simpl in Hk.
  apply list_elem_of_fmap. exists (k, d). split; [exact Hk|].
  apply addParticipant_fold_preserves, Hin.
Qed.

Lemma addParticipant_fold_zero (ps : list Participant) (m : UserPoints)
    (p : Participant) :
  p ∈ ps -> p_userId p ∉ fst <$> m ->
  (p_userId p, mkUserData (userDisplayName db (p_userId p)) 0)
  ∈ foldl (addParticipant db) m ps.
Proof.
  revert m. induction ps as [|q ps IH]; intros m Hp Hnew;
    [inversion Hp|].
  simpl. destruct (decide (p_userId q = p_userId p)) as [Heq|Hne].
  - apply addParticipant_fold_preserves.
    unfold addParticipant, mapSet. rewrite Heq.
    destruct (mapHas m (p_userId p)) eqn:Hhas.
    + apply mapHas_keys in Hhas. contradiction.
    + apply elem_of_app. right. left.
  - apply elem_of_cons in Hp as [->|Hp]; [contradiction|].
    apply IH; [exact Hp|].
    rewrite addParticipant_keys. intros [?|?]; [contradiction|congruence].
Qed.

Lemma assignRanks_row (l : list (Id * UserData)) (u : Id) (d : UserData) :
  (u, d) ∈ l ->
  exists e, e ∈ assignRanks l /\ userId e = u /\ points e = ud_points d.
Proof.
  intros Hin. apply list_elem_of_lookup in Hin as [i Hi].
  exists (scoreRow (pointsOf l) i (u, d)). split; [|split; reflexivity].
  apply list_elem_of_lookup. exists i.
  rewrite assignRanks_lookup, Hi. reflexivity.
Qed.

End Inclusion.

Section Weekly.
Import Leaderboard.

Lemma leaderboard_points (l : list (Id * UserData)) :
  points <$> assignRanks l = pointsOf l.
Proof.
  apply list_eq. intros i.
  unfold pointsOf. rewrite !list_lookup_fmap, assignRanks_lookup.
  destruct (l !! i); reflexivity.
Qed.

Lemma leaderboard_rows (l : list (Id * UserData)) (i : nat)
    (e : ParticipantScore) :
  assignRanks l !! i = Some e ->
  (points <$> assignRanks l) !! i = Some (points e)
  /\ rank e = rankAt (points <$> assignRanks l) i
  /\ tied e = tiedAt (points <$> assignRanks l) i.
Proof.
  intros He. rewrite list_lookup_fmap, He. split; [reflexivity|].
  rewrite leaderboard_points.
  rewrite assignRanks_lookup in He.
  destruct (l !! i) as [user|]; [|discriminate].
  simpl in He. simplify_eq. split; reflexivity.
Qed.

(** C5.  The weekly leaderboard has a row for every participant of the
    competition, with 0 points for one without completions that week; it
    is in descending order of points; the first rank is 1, a row with the
    score of the row above shares its rank and a row with a different
    score has rank (previous index + 2), so equal scores share a rank and
    a rank is one more than the number of rows with a strictly greater
    score; a row is flagged tied exactly when its score equals the score
    of the row just above or just below; and scores [10, 10, 8, 5] get
    ranks [1, 1, 3, 4], the two rows of rank 1 being flagged tied. *)
Theorem weekly_leaderboard_ranking (db : DB) (challengeId weekId : Id) :
  let lb := getWeeklyLeaderboard db challengeId weekId in
  let ps := points <$> lb in
  (forall p, p ∈ participants db -> p_challengeId p = challengeId ->
     exists e, e ∈ lb /\ userId e = p_userId p)
  /\ (forall p, p ∈ participants db -> p_challengeId p = challengeId ->
      (forall x, x ∈ completions db -> c_challengeId x = challengeId ->
                 c_weekId x = weekId -> c_userId x <> p_userId p) ->
      exists e, e ∈ lb /\ userId e = p_userId p /\ points e = 0)
  /\ descending ps
  /\ (forall e, lb !! O = Some e -> rank e = 1%nat)
  /\ (forall i e e', lb !! i = Some e -> lb !! S i = Some e' ->
      (points e' = points e -> rank e' = rank e)
      /\ (points e' <> points e -> rank e' = (i + 2)%nat))
  /\ (forall e e', e ∈ lb -> e' ∈ lb -> points e = points e' ->
      rank e = rank e')
  /\ (forall e, e ∈ lb ->
      rank e = S (length (filter (fun q => points e < q) ps)))
  /\ (forall i e, lb !! i = Some e ->
      (tied e = true <->
       ((0 < i)%nat /\ exists e', lb !! (i - 1)%nat = Some e'
                                  /\ points e' = points e)
       \/ (exists e', lb !! (i + 1)%nat = Some e'
                      /\ points e' = points e)))
  /\ (ps = [10; 10; 8; 5] ->
      rank <$> lb = [1; 1; 3; 4]%nat
      /\ tied <$> lb = [true; true; false; false]).
Proof.
  intros lb ps.
  set (m := weeklyUserPoints db challengeId weekId).
  assert (Hlb : lb = assignRanks (sortDesc m)) by reflexivity.
  assert (Hdesc : descending ps).
  { unfold ps. rewrite Hlb, leaderboard_points.
    apply sorted_descending, sortDesc_sorted. }
  assert (Hrows : forall i e, lb !! i = Some e ->
            ps !! i = Some (points e) /\ rank e = rankAt ps i
            /\ tied e = tiedAt ps i).
  { intros i e He. rewrite Hlb in He. unfold ps. rewrite Hlb.
    apply leaderboard_rows, He. }
  assert (Hcomp : forall e, e ∈ lb ->
            rank e = S (length (filter (fun q => points e < q) ps))).
  { intros e He. apply list_elem_of_lookup in He as [i Hi].
    destruct (Hrows i e Hi) as (Hp & Hr & _).
    rewrite Hr. apply rankAt_competition; assumption. }
  assert (Hkey : forall u d, (u, d) ∈ m ->
            exists e, e ∈ lb /\ userId e = u /\ points e = ud_points d).
  { intros u d Hin. rewrite Hlb. apply assignRanks_row.
    rewrite sortDesc_perm. exact Hin. }
  repeat match goal with |- _ /\ _ => split end.
  - intros p Hp Hc.
    assert (Hin : p_userId p ∈ fst <$> m).
    { unfold m, weeklyUserPoints. apply addParticipant_fold_keys.
      apply list_elem_of_filter. split; assumption. }
    apply list_elem_of_fmap in Hin as ([u d] & Hu & Hin). simpl in Hu.
    destruct (Hkey u d Hin) as (e & He & Hid & _).
    exists e. split; [exact He|]. congruence.
  - intros p Hp Hc Hnone.
    destruct (Hkey (p_userId p)
                (mkUserData (userDisplayName db (p_userId p)) 0))
      as (e & He & Hid & Hpts).
    { unfold m, weeklyUserPoints. apply addParticipant_fold_zero.
      - apply list_elem_of_filter. split; assumption.
      - intros Hk. apply addPoints_fold_keys in Hk as [Hk|Hk].
        + inversion Hk.
        + apply list_elem_of_fmap in Hk as (x & Hx & Hin).
          apply list_elem_of_filter in Hin as [[Hxc Hxw] Hin].
          apply (Hnone x Hin Hxc Hxw). congruence. }
    exists e. split; [exact He|]. split; assumption.
  - exact Hdesc.
  - intros e He. destruct (Hrows O e He) as (_ & Hr & _).
    rewrite Hr. reflexivity.
  - intros i e e' He He'.
    destruct (Hrows i e He) as (Hp & Hr & _).
    destruct (Hrows (S i) e' He') as (Hp' & Hr' & _).
    rewrite Hr, Hr'. cbn [rankAt]. rewrite Hp, Hp'.
    split; intros Hpts; case_decide; simplify_eq; try reflexivity;
      congruence.
  - intros e e' He He' Hpts.
    rewrite (Hcomp e He), (Hcomp e' He'), Hpts. reflexivity.
  - exact Hcomp.
  - intros i e He. destruct (Hrows i e He) as (Hp & _ & Ht).
    rewrite Ht. unfold tiedAt.
    rewrite orb_true_iff, !bool_decide_eq_true, Hp.
    assert (Hnbr : forall j, Some (points e) = ps !! j <->
              exists e', lb !! j = Some e' /\ points e' = points e).
    { intros j. unfold ps. rewrite list_lookup_fmap.
      destruct (lb !! j) as [e'|]; simpl; split.
      - intros Heq. exists e'. split; congruence.
      - intros (e'' & Heq & Hpts). congruence.
      - discriminate.
      - intros (e'' & Heq & _). discriminate. }
    rewrite !Hnbr. reflexivity.
  - intros Hps.
    assert (Hlen : length lb = 4%nat).
    { rewrite <- (length_fmap points lb). fold ps. rewrite Hps.
      reflexivity. }
    destruct lb as [|e0 [|e1 [|e2 [|e3 [|e4 lb']]]]]; try discriminate.
    pose proof (Hrows 0%nat e0 eq_refl) as (_ & Hr0 & Ht0).
    pose proof (Hrows 1%nat e1 eq_refl) as (_ & Hr1 & Ht1).
    pose proof (Hrows 2%nat e2 eq_refl) as (_ & Hr2 & Ht2).
    pose proof (Hrows 3%nat e3 eq_refl) as (_ & Hr3 & Ht3).
    rewrite Hps in *. simpl.
    rewrite Hr0, Hr1, Hr2, Hr3, Ht0, Ht1, Ht2, Ht3.
    split; reflexivity.
Qed.

End Weekly.
Lemma weekly_leaderboard_ranking_witness :
  Leaderboard.rank <$> Leaderboard.getWeeklyLeaderboard leaderboardExample
                         "c1" "w1"
  = [1; 1; 3; 4]%nat
  /\ Leaderboard.tied <$> Leaderboard.getWeeklyLeaderboard leaderboardExample
                            "c1" "w1"
     = [true; true; false; false].
Proof.
  pose proof (weekly_leaderboard_ranking leaderboardExample "c1" "w1")
    as (_ & _ & _ & _ & _ & _ & _ & _ & Hexample).
  apply Hexample. vm_compute. reflexivity.
Defined.
(** ** The ledger table *)

Lemma length_replicateChar (n : nat) : String.length (replicateChar n) = n.
Proof. induction n as [|n IH]; simpl; congruence. Qed.

Lemma maxLength_ge (used : list Id) (s : Id) :
  s ∈ used -> (String.length s <= maxLength used)%nat.
Proof.
  induction used as [|x used IH]; intros Hs; [inversion Hs|].
  simpl. apply elem_of_cons in Hs as [->|Hs]; [lia|].
  specialize (IH Hs). lia.
Qed.

(** An id handed out by the store is not in use. *)
Lemma cuid_fresh (used : list Id) : cuid used ∉ used.
Proof.
  intros Hin. apply maxLength_ge in Hin.
  unfold cuid in Hin. rewrite length_replicateChar in Hin. lia.
Qed.

Lemma dataOf_ledgerRow (i : Id) (d : LedgerData) : dataOf (ledgerRow i d) = d.
Proof. destruct d; reflexivity. Qed.

Lemma ledgerCreateMany_nil (l : list TokenLedger) : ledgerCreateMany [] l = l.
Proof. reflexivity. Qed.

Lemma ledgerCreateMany_cons (d : LedgerData) (ds : list LedgerData)
    (l : list TokenLedger) :
  ledgerCreateMany (d :: ds) l = ledgerCreateMany ds (ledgerCreate d l).
Proof. reflexivity. Qed.

(** [createMany] appends one row per datum, in order, under fresh ids. *)
Lemma ledgerCreateMany_spec (ds : list LedgerData) (l : list TokenLedger) :
  exists rows,
    ledgerCreateMany ds l = l ++ rows
    /\ dataOf <$> rows = ds
    /\ (forall r, r ∈ rows -> tl_id r ∉ tl_id <$> l)
    /\ (NoDup (tl_id <$> l) -> NoDup (tl_id <$> (l ++ rows))).
Proof.
  revert l. induction ds as [|d ds IH]; intros l.
  - exists []. rewrite app_nil_r.
    split; [reflexivity|]. split; [reflexivity|].
    split; [intros r Hr; inversion Hr | intros Hl; exact Hl].
  - rewrite ledgerCreateMany_cons.
    destruct (IH (ledgerCreate d l)) as (rows & Heq & Hdata & Hfresh & Hnd).
    pose proof (cuid_fresh (tl_id <$> l)) as Hnew.
    exists (ledgerRow (cuid (tl_id <$> l)) d :: rows).
    rewrite Heq. unfold ledgerCreate in *. rewrite <- app_assoc. cbn [app].
    split; [reflexivity|]. split.
    { rewrite fmap_cons, dataOf_ledgerRow, Hdata. reflexivity. }
    split.
    + intros r Hr. apply elem_of_cons in Hr as [->|Hr]; [exact Hnew|].
      intros Hin. apply (Hfresh r Hr).
      rewrite fmap_app. apply elem_of_app. left. exact Hin.
    + intros Hl.
      replace (l ++ ledgerRow (cuid (tl_id <$> l)) d :: rows)
        with ((l ++ [ledgerRow (cuid (tl_id <$> l)) d]) ++ rows)
        by (rewrite <- app_assoc; reflexivity).
      apply Hnd. rewrite fmap_app. apply NoDup_app.
      split; [exact Hl|]. split.
      * intros x Hx Hx'. simpl in Hx'.
        apply list_elem_of_singleton in Hx'. subst x. contradiction.
      * simpl. apply NoDup_singleton.
Qed.

Lemma NoDup_fmap_eq {A B} (f : A -> B) (l : list A) (x y : A) :
  NoDup (f <$> l) -> x ∈ l -> y ∈ l -> f x = f y -> x = y.
Proof.
  induction l as [|a l IH]; intros Hnd Hx Hy Hf; [inversion Hx|].
  rewrite fmap_cons in Hnd. apply NoDup_cons in Hnd as [Ha Hnd].
  apply elem_of_cons in Hx as [->|Hx], Hy as [->|Hy].
  - reflexivity.
  - exfalso. apply Ha. rewrite Hf. apply list_elem_of_fmap. eauto.
  - exfalso. apply Ha. rewrite <- Hf. apply list_elem_of_fmap. eauto.
  - apply IH; assumption.
Qed.

Lemma filter_ext_in {A} (P Q : A -> Prop) `{forall x, Decision (P x)}
    `{forall x, Decision (Q x)} (l : list A) :
  (forall x, x ∈ l -> P x <-> Q x) -> filter P l = filter Q l.
Proof.
  induction l as [|a l IH]; intros Hpq; [reflexivity|].
  rewrite !filter_cons.
  assert (Ha : P a <-> Q a) by (apply Hpq; left).
  rewrite IH by (intros x Hx; apply Hpq; right; exact Hx).
  repeat case_decide; try reflexivity; tauto.
Qed.

Lemma NoDup_fmap_filter {A B} (f : A -> B) (P : A -> Prop)
    `{forall x, Decision (P x)} (l : list A) :
  NoDup (f <$> l) -> NoDup (f <$> filter P l).
Proof.
  intros Hnd. eapply sublist_NoDup; [exact Hnd|].
  apply fmap_sublist. apply sublist_filter.
Qed.
(** ** Perfect weeks *)

Section Detection.
Import Tokens.

Lemma addCompletion_lookup (m : gmap Id (gset Id)) (c : Completion) (u : Id) :
  addCompletion m c !! u
  = if decide (u = c_userId c)
    then Some (default ∅ (m !! u) ∪ {[c_taskTemplateId c]})
    else m !! u.
Proof.
  unfold addCompletion. case_decide as Hu.
  - subst u. destruct (m !! c_userId c) as [s|] eqn:Hm.
    + rewrite Hm, lookup_insert_eq. reflexivity.
    + rewrite lookup_insert_eq, lookup_insert_eq. reflexivity.
  - destruct (m !! c_userId c) as [s|] eqn:Hm.
    + rewrite Hm, lookup_insert_ne by congruence. reflexivity.
    + rewrite lookup_insert_eq, !lookup_insert_ne by congruence.
      reflexivity.
Qed.

Lemma tasksIn_nil (u : Id) : tasksIn [] u = ∅.
Proof. reflexivity. Qed.

Lemma tasksIn_cons (c : Completion) (cs : list Completion) (u : Id) :
  tasksIn (c :: cs) u
  = if decide (c_userId c = u)
    then {[c_taskTemplateId c]} ∪ tasksIn cs u
    else tasksIn cs u.
Proof.
  unfold tasksIn. rewrite filter_cons.
  case_decide; [rewrite fmap_cons, list_to_set_cons|]; reflexivity.
Qed.

Lemma completionsByUser_fold (cs : list Completion) (m : gmap Id (gset Id))
    (u : Id) :
  foldl addCompletion m cs !! u
  = match m !! u with
    | Some s => Some (s ∪ tasksIn cs u)
    | None => if decide (u ∈ c_userId <$> cs) then Some (tasksIn cs u)
              else None
    end.
Proof.
  revert m. induction cs as [|c cs IH]; intros m.
  - cbn [foldl]. rewrite tasksIn_nil.
    destruct (m !! u) as [s|]; [|reflexivity].
    rewrite (right_id_L ∅ (∪)). reflexivity.
  - cbn [foldl]. rewrite IH, addCompletion_lookup, tasksIn_cons, fmap_cons.
    destruct (decide (u = c_userId c)) as [->|Hne].
    + rewrite decide_True by reflexivity.
      rewrite (decide_True (P := c_userId c ∈ _)) by left.
      destruct (m !! c_userId c) as [s|]; cbn [default].
      * rewrite (assoc_L (∪)). reflexivity.
      * rewrite (left_id_L ∅ (∪)). reflexivity.
    + rewrite (decide_False (P := c_userId c = u)) by congruence.
      destruct (m !! u) as [s|]; [reflexivity|].
      repeat case_decide; try reflexivity; exfalso.
      * match goal with H : ¬ (_ ∈ _ :: _) |- _ => apply H end.
        right. assumption.
      * match goal with H : _ ∈ _ :: _ |- _ =>
          apply elem_of_cons in H as [?|?] end; [congruence|contradiction].
Qed.

Lemma completionsByUser_lookup (cs : list Completion) (u : Id) :
  completionsByUser cs !! u
  = if decide (u ∈ c_userId <$> cs) then Some (tasksIn cs u) else None.
Proof.
  unfold completionsByUser. rewrite completionsByUser_fold, lookup_empty.
  reflexivity.
Qed.

Lemma tasksIn_week (db : DB) (weekId u : Id) :
  tasksIn (filter (fun c => c_weekId c = weekId) (completions db)) u
  = completedTasks db weekId u.
Proof.
  unfold tasksIn, completedTasks. rewrite list_filter_filter.
  f_equal. f_equal. apply list_filter_iff. intros x. tauto.
Qed.

(** What the code decides: a participant is returned exactly when the
    number of distinct task templates they have completions for that week
    equals the number of active task templates, and nobody is when there
    is no active task template. *)
Lemma detectPerfectWeeks_criterion (db : DB) (challengeId weekId u : Id) :
  u ∈ detectPerfectWeeks db challengeId weekId
  <-> length (activeTasks db challengeId) <> O
      /\ (exists p, p ∈ participants db /\ p_challengeId p = challengeId
                    /\ p_userId p = u)
      /\ size (completedTasks db weekId u)
         = length (activeTasks db challengeId).
Proof.
  unfold detectPerfectWeeks. fold (activeTasks db challengeId).
  case_decide as Hz.
  - split; [intros Hin; inversion Hin | intros [Hne _]; contradiction].
  - rewrite list_elem_of_fmap. split.
    + intros (p & -> & Hp). apply list_elem_of_filter in Hp as [Hq Hp].
      apply list_elem_of_filter in Hp as [Hc Hp].
      split; [exact Hz|]. split; [exists p; auto|].
      rewrite completionsByUser_lookup, tasksIn_week in Hq.
      case_decide; simpl in Hq; congruence.
    + intros (_ & (p & Hp & Hc & <-) & Hsize).
      exists p. split; [reflexivity|].
      apply list_elem_of_filter. split.
      * rewrite completionsByUser_lookup, tasksIn_week.
        case_decide as Hany; simpl; [congruence|]. exfalso.
        assert (Hempty : completedTasks db weekId (p_userId p) = ∅).
        { unfold completedTasks. rewrite filter_none; [reflexivity|].
          apply Forall_forall. intros x Hx [Hw Hu]. apply Hany.
          apply list_elem_of_fmap. exists x. split; [congruence|].
          apply list_elem_of_filter. split; assumption. }
        rewrite Hempty, size_empty in Hsize. congruence.
      * apply list_elem_of_filter. split; assumption.
Qed.

Lemma detectPerfectWeeks_no_active_tasks (db : DB) (challengeId weekId : Id) :
  activeTasks db challengeId = [] ->
  detectPerfectWeeks db challengeId weekId = [].
Proof.
  intros Hnone. unfold detectPerfectWeeks.
  fold (activeTasks db challengeId). rewrite Hnone. reflexivity.
Qed.

Lemma detectPerfectWeeks_ledger (db : DB) (l : list TokenLedger)
    (challengeId weekId : Id) :
  detectPerfectWeeks (with_tokenLedger l db) challengeId weekId
  = detectPerfectWeeks db challengeId weekId.
Proof. reflexivity. Qed.

End Detection.

(** C8 (where the code departs from it).  With a switched-off task template
    among the week's completions, [detectPerfectWeeks] returns Ann, who has
    not completed the active template t2, and leaves out Bob, who has
    completed every active template: it compares the number of distinct
    completed templates (2 for Ann, 3 for Bob) with the number of active
    ones (2). *)
Theorem detectPerfectWeeks_counts_inactive_tasks :
  Tokens.detectPerfectWeeks perfectWeekExample "c1" "w1" = ["ann"]
  /\ (tt_id <$> activeTasks perfectWeekExample "c1") = ["t1"; "t2"]
  /\ ("t2" ∉ completedTasks perfectWeekExample "w1" "ann")
  /\ Forall (fun t => t ∈ completedTasks perfectWeekExample "w1" "bob")
            (tt_id <$> activeTasks perfectWeekExample "c1")
  /\ size (completedTasks perfectWeekExample "w1" "ann") = 2%nat
  /\ size (completedTasks perfectWeekExample "w1" "bob") = 3%nat.
Proof.
  split; [vm_compute; reflexivity|].
  split; [vm_compute; reflexivity|].
  split; [apply (bool_decide_unpack _); vm_compute; exact I|].
  split; [apply (bool_decide_unpack _); vm_compute; exact I|].
  split; vm_compute; reflexivity.
Qed.

Section Award.
Import Tokens.

Lemma award_split (db : DB) (challengeId weekId : Id) (us : list Id)
    (us0 : list Id) (n0 : nat) :
  foldl (fun '(us, n) userId =>
           if hasReceivedPerfectWeekToken db challengeId weekId userId
           then (us, S n)
           else (us ++ [userId], n))
        (us0, n0) us
  = (us0 ++ filter (fun u => hasReceivedPerfectWeekToken db challengeId
                               weekId u = false) us,
     (n0 + length (filter (fun u => hasReceivedPerfectWeekToken db
                                      challengeId weekId u = true) us))%nat).
Proof.
  revert us0 n0. induction us as [|u us IH]; intros us0 n0.
  - simpl. rewrite app_nil_r, Nat.add_0_r. reflexivity.
  - cbn [foldl]. rewrite !filter_cons.
    destruct (hasReceivedPerfectWeekToken db challengeId weekId u) eqn:Hu.
    + rewrite IH. rewrite decide_False by discriminate.
      rewrite decide_True by reflexivity. f_equal. simpl. lia.
    + rewrite IH. rewrite decide_True by reflexivity.
      rewrite decide_False by discriminate.
      rewrite <- app_assoc. reflexivity.
Qed.

Lemma hasReceived_iff (db : DB) (challengeId weekId u : Id) :
  hasReceivedPerfectWeekToken db challengeId weekId u = true
  <-> exists e, e ∈ tokenLedger db
                /\ isPerfectWeekEntry challengeId weekId u e.
Proof.
  unfold hasReceivedPerfectWeekToken.
  destruct (filter _ (tokenLedger db)) as [|e l] eqn:Hf.
  - split; [discriminate|]. intros (e & He & Hp). exfalso.
    eapply filter_nil_not_elem_of; eauto.
  - split; [|reflexivity]. intros _. exists e.
    assert (He : e ∈ filter (isPerfectWeekEntry challengeId weekId u)
                       (tokenLedger db)) by (rewrite Hf; left).
    apply list_elem_of_filter in He. tauto.
Qed.

(** One call appends perfect-week rows, for detected users, and nothing
    else. *)
Lemma awardPerfectWeekTokensSafe_effect (db : DB) (challengeId weekId : Id) :
  exists rows us,
    snd (awardPerfectWeekTokensSafe db challengeId weekId)
    = with_tokenLedger (tokenLedger db ++ rows) db
    /\ dataOf <$> rows = perfectWeekData challengeId weekId <$> us
    /\ (NoDup (tl_id <$> tokenLedger db) ->
        NoDup (tl_id <$> (tokenLedger db ++ rows))).
Proof.
  unfold awardPerfectWeekTokensSafe.
  assert (Hnone : exists rows us,
            db = with_tokenLedger (tokenLedger db ++ rows) db
            /\ dataOf <$> rows = perfectWeekData challengeId weekId <$> us
            /\ (NoDup (tl_id <$> tokenLedger db) ->
                NoDup (tl_id <$> (tokenLedger db ++ rows)))).
  { exists [], []. rewrite app_nil_r. destruct db. repeat split. auto. }
  case_decide; [exact Hnone|].
  rewrite award_split. cbn [app Nat.add].
  unfold awardPerfectWeekTokens. case_decide; [exact Hnone|].
  match goal with
  | |- context [ledgerCreateMany ?ds ?l] =>
      destruct (ledgerCreateMany_spec ds l) as (rows & Heq & Hdata & _ & Hnd)
  end.
  eexists rows, _. cbn [snd]. rewrite Heq.
  split; [reflexivity|]. split; [exact Hdata|exact Hnd].
Qed.

(** Two calls in a row. *)
Lemma awardPerfectWeekTokensSafe_twice (db : DB)
    (challengeId weekId : Id) :
  let first := awardPerfectWeekTokensSafe db challengeId weekId in
  let second := awardPerfectWeekTokensSafe (snd first) challengeId weekId in
  let qualifiers := detectPerfectWeeks db challengeId weekId in
  let fresh :=
    filter (fun u => hasReceivedPerfectWeekToken db challengeId weekId u
                     = false) qualifiers in
  awarded (fst first) = length fresh
  /\ (exists rows,
        snd first = with_tokenLedger (tokenLedger db ++ rows) db
        /\ dataOf <$> rows = perfectWeekData challengeId weekId <$> fresh)
  /\ awarded (fst second) = O
  /\ alreadyAwarded (fst second) = length qualifiers
  /\ snd second = snd first.
Proof.
  intros first second qualifiers fresh.
  assert (Hfirst :
    exists rows,
      first = (mkAwardResult (length fresh)
                 (length (filter (fun u => hasReceivedPerfectWeekToken db
                                   challengeId weekId u = true) qualifiers)),
               with_tokenLedger (tokenLedger db ++ rows) db)
      /\ dataOf <$> rows = perfectWeekData challengeId weekId <$> fresh).
  { unfold first, awardPerfectWeekTokensSafe. fold qualifiers.
    case_decide as Hz.
    - apply nil_length_inv in Hz. unfold fresh. rewrite Hz. simpl.
      exists []. rewrite app_nil_r. destruct db; split; reflexivity.
    - rewrite award_split. cbn [app Nat.add]. fold fresh.
      unfold awardPerfectWeekTokens. case_decide as Hf.
      + apply nil_length_inv in Hf. rewrite Hf. simpl.
        exists []. rewrite app_nil_r. destruct db; split; reflexivity.
      + destruct (ledgerCreateMany_spec
                    (perfectWeekData challengeId weekId <$> fresh)
                    (tokenLedger db)) as (rows & Heq & Hdata & _).
        exists rows. rewrite Heq. split; [reflexivity|exact Hdata]. }
  destruct Hfirst as (rows & Hfirst & Hdata).
  assert (Hhas : forall u, u ∈ qualifiers ->
            hasReceivedPerfectWeekToken (snd first) challengeId weekId u
            = true).
  { intros u Hu. rewrite Hfirst. cbn [snd]. apply hasReceived_iff.
    cbn [tokenLedger with_tokenLedger].
    destruct (hasReceivedPerfectWeekToken db challengeId weekId u) eqn:Hold.
    - apply hasReceived_iff in Hold as (e & He & Hp).
      exists e. split; [apply elem_of_app; left; exact He | exact Hp].
    - assert (Hin : perfectWeekData challengeId weekId u ∈ dataOf <$> rows).
      { rewrite Hdata. apply list_elem_of_fmap. exists u.
        split; [reflexivity|]. apply list_elem_of_filter. auto. }
      apply list_elem_of_fmap in Hin as (e & He & Hin).
      exists e. split; [apply elem_of_app; right; exact Hin|].
      unfold isPerfectWeekEntry. destruct e. simpl in *.
      unfold dataOf, perfectWeekData in He. simpl in He.
      inversion He. auto. }
  assert (Hsecond : second = (mkAwardResult O (length qualifiers), snd first)).
  { assert (Hd : detectPerfectWeeks (snd first) challengeId weekId
                 = qualifiers) by (rewrite Hfirst; reflexivity).
    unfold second, awardPerfectWeekTokensSafe. rewrite Hd.
    case_decide as Hz.
    - rewrite Hz. reflexivity.
    - rewrite award_split. cbn [app Nat.add].
      rewrite (filter_none (fun u => hasReceivedPerfectWeekToken (snd first)
                              challengeId weekId u = false)).
      + rewrite (filter_all (fun u => hasReceivedPerfectWeekToken (snd first)
                              challengeId weekId u = true)).
        * reflexivity.
        * apply Forall_forall. exact Hhas.
      + apply Forall_forall. intros u Hu. rewrite (Hhas u Hu). discriminate. }
  rewrite Hsecond, Hfirst. cbn [fst snd awarded alreadyAwarded].
  split; [reflexivity|]. split; [exists rows; auto|]. auto.
Qed.


End Award.
(** ** Recalculating perfect-week tokens *)

Section Recalculate.
Import Tokens Authorization Routes.

Lemma toSet_fold (l acc : list Id) :
  (forall x, x ∈ foldl (fun acc x => if decide (x ∈ acc) then acc
                                     else acc ++ [x]) acc l
             <-> x ∈ acc \/ x ∈ l)
  /\ (NoDup acc ->
      NoDup (foldl (fun acc x => if decide (x ∈ acc) then acc
                                 else acc ++ [x]) acc l)).
Proof.
  revert acc. induction l as [|a l IH]; intros acc.
  - simpl. split; [|auto]. intros x. split; [auto|].
    intros [?|Hx]; [assumption|inversion Hx].
  - cbn [foldl]. case_decide as Ha.
    + destruct (IH acc) as [Hin Hnd]. split; [|exact Hnd].
      intros x. rewrite Hin, elem_of_cons. split; [tauto|].
      intros [?|[->|?]]; tauto.
    + destruct (IH (acc ++ [a])) as [Hin Hnd]. split.
      * intros x. rewrite Hin, elem_of_app, !elem_of_cons, elem_of_nil.
        tauto.
      * intros Hacc. apply Hnd. apply NoDup_app.
        split; [exact Hacc|]. split; [|apply NoDup_singleton].
        intros x Hx Hx'. apply list_elem_of_singleton in Hx'. congruence.
Qed.

Lemma elem_of_toSet (l : list Id) (x : Id) : x ∈ toSet l <-> x ∈ l.
Proof.
  unfold toSet. destruct (toSet_fold l []) as [Hin _].
  rewrite Hin. split; [|auto]. intros [Hx|?]; [inversion Hx|assumption].
Qed.

Lemma NoDup_toSet (l : list Id) : NoDup (toSet l).
Proof. apply toSet_fold. constructor. Qed.

Lemma length_filter_split {A} (P : A -> Prop) `{forall x, Decision (P x)}
    (l : list A) :
  length l = (length (filter P l) + length (filter (fun x => ~ P x) l))%nat.
Proof.
  rewrite <- length_app. apply Permutation_length. symmetry.
  apply filter_app_complement.
Qed.

(** The effect of [recalculate-tokens] on a store with distinct ledger
    ids. *)
Lemma recalculate_tokens_effect (db : DB) (session : option Id)
    (challengeId weekId : Id) :
  NoDup (tl_id <$> tokenLedger db) ->
  let result := POST_recalculate_tokens db session challengeId weekId in
  let qualifiers := detectPerfectWeeks db challengeId weekId in
  snd result = with_tokenLedger (tokenLedger (snd result)) db
  /\ (forall st msg, fst result = ErrorJson st msg -> snd result = db)
  /\ (forall u wk,
        session = Some u -> verifyOrganizer db challengeId u = true ->
        head (filter (fun x => w_id x = weekId) (weeks db)) = Some wk ->
        w_challengeId wk = challengeId -> w_status wk = LOCKED ->
        exists r, fst result = Json 200 r)
  /\ (forall st r, fst result = Json st r ->
      exists news newly,
        tokenLedger (snd result)
        = filter (fun e => ~ revokedRow db challengeId weekId e)
                 (tokenLedger db) ++ news
        /\ dataOf <$> news
           = (fun u => mkLedgerData challengeId u (Some weekId) 1
                                    PERFECT_WEEK_EARNED None) <$> newly
        /\ NoDup newly
        /\ (forall u, u ∈ newly
                      <-> u ∈ qualifiers
                          /\ unrewarded db challengeId weekId u)
        /\ rr_awarded r = length newly
        /\ rr_revoked r
           = length (filter (revokedRow db challengeId weekId)
                            (tokenLedger db))
        /\ rr_unchanged r
           = length (filter (keptRow db challengeId weekId)
                            (tokenLedger db))
        /\ NoDup (tl_id <$> tokenLedger (snd result)))
  /\ (forall e, e ∈ tokenLedger db ->
                ~ revokedRow db challengeId weekId e ->
                e ∈ tokenLedger (snd result)).
Proof.
  intros Hids result qualifiers.
  set (existing := filter (fun e => tl_challengeId e = challengeId
                                    /\ tl_weekId e = Some weekId
                                    /\ tl_reason e = PERFECT_WEEK_EARNED)
                          (tokenLedger db)).
  set (toAward := filter (fun id => id ∉ (list_to_set (tl_userId <$> existing)
                                           : gset Id))
                         (toSet qualifiers)).
  set (toRevoke := filter (fun e => tl_userId e ∉ toSet qualifiers)
                          existing).
  set (data := fun u => mkLedgerData challengeId u (Some weekId) 1
                                     PERFECT_WEEK_EARNED None).
  (* the two writes *)
  destruct (ledgerCreateMany_spec (data <$> toAward) (tokenLedger db))
    as (news & Hcreate & Hdata & Hfresh & Hnd).
  specialize (Hnd Hids).
  assert (Hrevoked : forall e, e ∈ tokenLedger db ->
            (e ∈ toRevoke <-> revokedRow db challengeId weekId e)).
  { intros e He. unfold toRevoke, existing, revokedRow, perfectWeekRow.
    rewrite !list_elem_of_filter, elem_of_toSet. fold qualifiers. tauto. }
  assert (Hledger :
    filter (fun e => tl_id e ∉ tl_id <$> toRevoke) (tokenLedger db ++ news)
    = filter (fun e => ~ revokedRow db challengeId weekId e)
             (tokenLedger db) ++ news).
  { rewrite filter_app. f_equal.
    - apply filter_ext_in. intros e He. rewrite <- (Hrevoked e He).
      split.
      + intros Hid Hin. apply Hid. apply list_elem_of_fmap. eauto.
      + intros Hout Hid. apply Hout.
        apply list_elem_of_fmap in Hid as (e' & Heq & Hin').
        assert (He' : e' ∈ tokenLedger db).
        { unfold toRevoke, existing in Hin'.
          rewrite !list_elem_of_filter in Hin'. tauto. }
        rewrite (NoDup_fmap_eq tl_id (tokenLedger db) e e' Hids He He' Heq).
        exact Hin'.
    - apply filter_all. apply Forall_forall. intros r Hr Hid.
      apply (Hfresh r Hr).
      apply list_elem_of_fmap in Hid as (e' & Heq & Hin').
      apply list_elem_of_fmap. exists e'. split; [exact Heq|].
      unfold toRevoke, existing in Hin'.
      rewrite !list_elem_of_filter in Hin'. tauto. }
  assert (Hfinal :
    forall r, result = (Json 200 r, snd result) ->
      tokenLedger (snd result)
      = filter (fun e => ~ revokedRow db challengeId weekId e)
               (tokenLedger db) ++ news
      /\ r = mkRecalculateResult (length toAward) (length toRevoke)
               (length existing - length toRevoke)).
  { intros r Hr. unfold result, POST_recalculate_tokens in *.
    destruct session as [u|]; [|discriminate].
    destruct (verifyOrganizer db challengeId u); [|discriminate].
    destruct (head _) as [wk|]; [|discriminate].
    simpl in Hr |- *.
    fold qualifiers existing toAward toRevoke data in Hr |- *.
    destruct (decide (w_challengeId wk <> challengeId)); [discriminate|].
    destruct (decide (w_status wk <> LOCKED)); [discriminate|].
    destruct (decide (0 < length toAward)%nat);
      destruct (decide (0 < length toRevoke)%nat);
      cbn [snd tokenLedger with_tokenLedger] in Hr |- *;
      (split; [|inversion Hr; reflexivity]).
    - rewrite Hcreate. exact Hledger.
    - rewrite Hcreate, <- Hledger.
      assert (toRevoke = []) as -> by (apply nil_length_inv; lia).
      symmetry. apply filter_all. apply Forall_forall.
      intros e _ Hin. inversion Hin.
    - assert (HtoAward : toAward = []) by (apply nil_length_inv; lia).
      rewrite HtoAward in Hdata. apply fmap_nil_inv in Hdata.
      rewrite Hdata, app_nil_r in Hledger. rewrite Hledger, Hdata.
      reflexivity.
    - assert (HtoAward : toAward = []) by (apply nil_length_inv; lia).
      rewrite HtoAward in Hdata. apply fmap_nil_inv in Hdata.
      rewrite <- Hledger, Hdata, app_nil_r.
      assert (toRevoke = []) as -> by (apply nil_length_inv; lia).
      symmetry. apply filter_all. apply Forall_forall.
      intros e _ Hin. inversion Hin. }
  assert (Hshape : snd result = with_tokenLedger (tokenLedger (snd result)) db).
  { unfold result, POST_recalculate_tokens.
    destruct session as [u|]; [|destruct db; reflexivity].
    destruct (verifyOrganizer db challengeId u);
      [|destruct db; reflexivity].
    destruct (head _) as [wk|]; [|destruct db; reflexivity].
    simpl. repeat case_decide; destruct db; reflexivity. }
  assert (Herror : forall st msg, fst result = ErrorJson st msg ->
            snd result = db).
  { unfold result, POST_recalculate_tokens.
    destruct session as [u|]; [|reflexivity].
    destruct (verifyOrganizer db challengeId u); [|reflexivity].
    destruct (head _) as [wk|]; [|reflexivity].
    simpl. repeat case_decide; try reflexivity; discriminate. }
  assert (Hjson : forall st r, fst result = Json st r ->
            result = (Json 200 r, snd result)).
  { unfold result, POST_recalculate_tokens.
    destruct session as [u|]; [|discriminate].
    destruct (verifyOrganizer db challengeId u); [|discriminate].
    destruct (head _) as [wk|]; [|discriminate].
    simpl. repeat case_decide; try discriminate;
      intros st r Hr; inversion Hr; reflexivity. }
  split; [exact Hshape|]. split; [exact Herror|]. split.
  { intros u wk -> Horg Hwk Hc Hl.
    unfold result, POST_recalculate_tokens. rewrite Horg, Hwk. simpl.
    rewrite decide_False by (intros Hne; apply Hne; exact Hc).
    rewrite decide_False by (intros Hne; apply Hne; exact Hl).
    eexists. reflexivity. }
  split.
  { intros st r Hr. apply Hjson in Hr.
    destruct (Hfinal r Hr) as [Hl ->]. cbn [rr_awarded rr_revoked rr_unchanged].
    exists news, toAward. split; [exact Hl|]. split; [exact Hdata|].
    split; [apply NoDup_filter, NoDup_toSet|]. split.
    { intros u. unfold toAward, unrewarded.
      rewrite list_elem_of_filter, elem_of_toSet, elem_of_list_to_set.
      fold qualifiers. split.
      - intros [Hnot Hq]. split; [exact Hq|].
        intros e He Hpw Heq. apply Hnot. apply list_elem_of_fmap.
        exists e. split; [congruence|]. unfold existing.
        apply list_elem_of_filter. split; [exact Hpw|exact He].
      - intros [Hq Hun]. split; [|exact Hq].
        intros Hin. apply list_elem_of_fmap in Hin as (e & Heq & He).
        unfold existing in He. apply list_elem_of_filter in He as [Hpw He].
        apply (Hun e He Hpw). congruence. }
    split; [reflexivity|].
    assert (Hrev : toRevoke = filter (revokedRow db challengeId weekId)
                                     (tokenLedger db)).
    { unfold toRevoke, existing. rewrite list_filter_filter.
      apply list_filter_iff. intros e.
      unfold revokedRow, perfectWeekRow. rewrite elem_of_toSet.
      fold qualifiers. tauto. }
    assert (Hkept : filter (fun e => ~ (tl_userId e ∉ toSet qualifiers))
                           existing
                    = filter (keptRow db challengeId weekId)
                             (tokenLedger db)).
    { unfold existing. rewrite list_filter_filter.
      apply list_filter_iff. intros e.
      unfold keptRow, perfectWeekRow. rewrite elem_of_toSet.
      fold qualifiers. split.
      - intros [Hin Hpw]. split; [exact Hpw|].
        destruct (decide (tl_userId e ∈ qualifiers)); tauto.
      - intros [Hpw Hin]. split; [|exact Hpw]. tauto. }
    split; [rewrite Hrev; reflexivity|]. split.
    - rewrite <- Hkept.
      rewrite (length_filter_split
                 (fun e => tl_userId e ∉ toSet qualifiers) existing).
      fold toRevoke. lia.
    - rewrite Hl. rewrite <- Hledger. apply NoDup_fmap_filter, Hnd. }
  intros e He Hkeep.
  destruct (fst result) as [st msg|st r] eqn:Hres.
  - rewrite (Herror st msg eq_refl). exact He.
  - destruct (Hfinal r (Hjson st r eq_refl)) as [Hl _].
    rewrite Hl. apply elem_of_app. left.
    apply list_elem_of_filter. split; assumption.
Qed.

(** C9.  On a store whose ledger ids are distinct, [recalculate-tokens]
    touches the ledger table only; when it answers with an error it
    changes nothing, and the organizer of the competition gets an answer
    for a locked week of it.  When it answers, the ledger it leaves is the
    old ledger without the perfect-week rows of that (competition, week)
    whose user no longer qualifies, followed by one new +1 perfect-week
    row for each qualifying user who had none; the answer counts the new
    rows (awarded), the deleted rows (revoked) and the perfect-week rows
    that stayed (unchanged).  So every row with another reason, of another
    week or competition, or of a user who still qualifies, is still there
    and is the same row. *)
Theorem recalculate_tokens_frame (db : DB) (session : option Id)
    (challengeId weekId : Id) :
  NoDup (tl_id <$> tokenLedger db) ->
  let result := POST_recalculate_tokens db session challengeId weekId in
  let qualifiers := detectPerfectWeeks db challengeId weekId in
  snd result = with_tokenLedger (tokenLedger (snd result)) db
  /\ (forall st msg, fst result = ErrorJson st msg -> snd result = db)
  /\ (forall u wk,
        session = Some u -> verifyOrganizer db challengeId u = true ->
        head (filter (fun x => w_id x = weekId) (weeks db)) = Some wk ->
        w_challengeId wk = challengeId -> w_status wk = LOCKED ->
        exists r, fst result = Json 200 r)
  /\ (forall st r, fst result = Json st r ->
      exists news newly,
        tokenLedger (snd result)
        = filter (fun e => ~ revokedRow db challengeId weekId e)
                 (tokenLedger db) ++ news
        /\ dataOf <$> news
           = (fun u => mkLedgerData challengeId u (Some weekId) 1
                                    PERFECT_WEEK_EARNED None) <$> newly
        /\ NoDup newly
        /\ (forall u, u ∈ newly
                      <-> u ∈ qualifiers
                          /\ unrewarded db challengeId weekId u)
        /\ rr_awarded r = length newly
        /\ rr_revoked r
           = length (filter (revokedRow db challengeId weekId)
                            (tokenLedger db))
        /\ rr_unchanged r
           = length (filter (keptRow db challengeId weekId)
                            (tokenLedger db))
        /\ NoDup (tl_id <$> tokenLedger (snd result)))
  /\ (forall e, e ∈ tokenLedger db ->
                ~ revokedRow db challengeId weekId e ->
                e ∈ tokenLedger (snd result)).
Proof. apply recalculate_tokens_effect. Qed.

End Recalculate.
Lemma recalculate_tokens_frame_witness :
  NoDup (tl_id <$> tokenLedger recalculateExample)
  /\ mkTokenLedger "l1" "c1" "ann" (Some "w0") 1 PERFECT_WEEK_EARNED None
     ∈ tokenLedger (snd (Routes.POST_recalculate_tokens recalculateExample
                           (Some "ann") "c1" "w1"))
  /\ mkTokenLedger "l3" "c1" "bob" (Some "w1") (-1) SIDE_CHALLENGE_STAKE
                   (Some "s1")
     ∈ tokenLedger (snd (Routes.POST_recalculate_tokens recalculateExample
                           (Some "ann") "c1" "w1")).
Proof.
  assert (Hids : NoDup (tl_id <$> tokenLedger recalculateExample))
    by (apply (bool_decide_unpack _); vm_compute; exact I).
  pose proof (recalculate_tokens_frame recalculateExample (Some "ann")
                "c1" "w1" Hids) as (_ & _ & _ & _ & Hkept).
  split; [exact Hids|].
  split;
    (apply Hkept;
     [apply list_elem_of_In; simpl; tauto
     |intros [(_ & Hw & Hr) _]; discriminate]).
Defined.

Example recalculate_tokens_run :
  let result := Routes.POST_recalculate_tokens recalculateExample (Some "ann")
                  "c1" "w1" in
  fst result = Json 200 (Routes.mkRecalculateResult 1 1 0)
  /\ dataOf <$> tokenLedger (snd result)
     = [mkLedgerData "c1" "ann" (Some "w0") 1 PERFECT_WEEK_EARNED None;
        mkLedgerData "c1" "bob" (Some "w1") (-1) SIDE_CHALLENGE_STAKE
                     (Some "s1");
        mkLedgerData "c1" "bob" (Some "w1") 1 PERFECT_WEEK_EARNED None].
Proof. split; vm_compute; reflexivity. Qed.
(** ** Changes that concern one wager *)

Lemma head_filter_Some {A} (P : A -> Prop) `{forall x, Decision (P x)}
    (l : list A) (x : A) :
  head (filter P l) = Some x -> x ∈ l /\ P x.
Proof.
  intros Hh.
  assert (Hx : x ∈ filter P l).
  { destruct (filter P l) as [|y r]; [discriminate|].
    simpl in Hh. simplify_eq. left. }
  apply list_elem_of_filter in Hx. tauto.
Qed.

Lemma head_filter_None {A} (P : A -> Prop) `{forall x, Decision (P x)}
    (l : list A) :
  head (filter P l) = None -> forall x, x ∈ l -> ~ P x.
Proof.
  intros Hh x Hx Hp.
  assert (Hin : x ∈ filter P l) by (apply list_elem_of_filter; auto).
  destruct (filter P l); [inversion Hin|discriminate].
Qed.

Lemma filter_dataOf (P : LedgerData -> Prop) `{forall d, Decision (P d)}
    (l : list TokenLedger) :
  dataOf <$> filter (fun e => P (dataOf e)) l = filter P (dataOf <$> l).
Proof.
  induction l as [|e l IH]; [reflexivity|].
  rewrite fmap_cons, !filter_cons.
  case_decide; [rewrite fmap_cons|]; congruence.
Qed.

Lemma wagerData_ledger (l : list TokenLedger) (db : DB) (Y : Id) :
  wagerData (with_tokenLedger l db) Y
  = filter (fun d => ld_relatedEntityId d = Some Y) (dataOf <$> l).
Proof.
  unfold wagerData. cbn [tokenLedger with_tokenLedger].
  rewrite <- filter_dataOf. reflexivity.
Qed.

Lemma wagerData_alt (db : DB) (Y : Id) :
  wagerData db Y
  = filter (fun d => ld_relatedEntityId d = Some Y)
           (dataOf <$> tokenLedger db).
Proof. unfold wagerData. rewrite <- filter_dataOf. reflexivity. Qed.

Lemma rowsOf_app (a b : list LedgerData) (u : Id) :
  rowsOf (a ++ b) u = rowsOf a u ++ rowsOf b u.
Proof. unfold rowsOf. rewrite filter_app, fmap_app. reflexivity. Qed.

Lemma rowsOf_nil (u : Id) : rowsOf [] u = [].
Proof. reflexivity. Qed.

Lemma rowsOf_cons (d : LedgerData) (ds : list LedgerData) (u : Id) :
  rowsOf (d :: ds) u
  = if decide (ld_userId d = u) then (ld_delta d, ld_reason d) :: rowsOf ds u
    else rowsOf ds u.
Proof.
  unfold rowsOf. rewrite filter_cons.
  case_decide; [rewrite fmap_cons|]; reflexivity.
Qed.

Section Local.
Import SideChallenges.
Context (X : Id) (f : SideChallenge -> SideChallenge)
        (ds : list LedgerData) (ss : list SideChallengeSubmission).

Lemma sideChallenges_applyLocal (db : DB) :
  sideChallenges (applyLocal X f ds ss db)
  = (fun c => if decide (sc_id c = X) then f c else c)
      <$> sideChallenges db.
Proof. reflexivity. Qed.

Lemma submissions_applyLocal (db : DB) :
  sideChallengeSubmissions (applyLocal X f ds ss db)
  = sideChallengeSubmissions db ++ ss.
Proof.
  unfold applyLocal. cbn [sideChallengeSubmissions with_tokenLedger
                            with_submissions].
  generalize (sideChallengeSubmissions db). clear.
  induction ss as [|s ss' IH]; intros l; simpl.
  - rewrite app_nil_r. reflexivity.
  - rewrite IH, <- app_assoc. reflexivity.
Qed.

Lemma submissionsOf_applyLocal (db : DB) (Y : Id) :
  submissionsOf (applyLocal X f ds ss db) Y
  = submissionsOf db Y ++ filter (fun s => sub_sideChallengeId s = Y) ss.
Proof.
  unfold submissionsOf. rewrite submissions_applyLocal, filter_app.
  reflexivity.
Qed.

Lemma ledger_applyLocal (db : DB) :
  exists rows,
    tokenLedger (applyLocal X f ds ss db) = tokenLedger db ++ rows
    /\ dataOf <$> rows = ds
    /\ (NoDup (tl_id <$> tokenLedger db) ->
        NoDup (tl_id <$> (tokenLedger db ++ rows))).
Proof.
  destruct (ledgerCreateMany_spec ds (tokenLedger db))
    as (rows & Heq & Hdata & _ & Hnd).
  exists rows. split; [exact Heq|]. split; assumption.
Qed.

Lemma wagerData_applyLocal (db : DB) (Y : Id) :
  wagerData (applyLocal X f ds ss db) Y
  = wagerData db Y ++ filter (fun d => ld_relatedEntityId d = Some Y) ds.
Proof.
  destruct (ledger_applyLocal db) as (rows & Heq & Hdata & _).
  rewrite !wagerData_alt, Heq, fmap_app, filter_app, Hdata. reflexivity.
Qed.

Lemma other_tables_applyLocal (db : DB) :
  users (applyLocal X f ds ss db) = users db
  /\ challenges (applyLocal X f ds ss db) = challenges db
  /\ participants (applyLocal X f ds ss db) = participants db
  /\ taskTemplates (applyLocal X f ds ss db) = taskTemplates db
  /\ weeks (applyLocal X f ds ss db) = weeks db
  /\ completions (applyLocal X f ds ss db) = completions db.
Proof. repeat split. Qed.

Hypothesis f_id : forall c, sc_id (f c) = sc_id c.
Hypothesis ds_related :
  Forall (fun d => ld_relatedEntityId d = Some X
                   /\ ld_reason d <> PERFECT_WEEK_EARNED) ds.
Hypothesis ss_related :
  Forall (fun s => sub_sideChallengeId s = X /\ (0 <= sub_valueNumber s)%Q)
         ss.

Lemma ids_applyLocal (db : DB) :
  sc_id <$> sideChallenges (applyLocal X f ds ss db)
  = sc_id <$> sideChallenges db.
Proof.
  rewrite sideChallenges_applyLocal, <- list_fmap_compose.
  apply list_fmap_ext. intros i c _. simpl.
  case_decide; [apply f_id|reflexivity].
Qed.

Lemma ds_all (Y : Id) :
  filter (fun d => ld_relatedEntityId d = Some Y) ds
  = if decide (Y = X) then ds else [].
Proof.
  case_decide as HY.
  - subst Y. apply filter_all. eapply Forall_impl; [exact ds_related|].
    intros d [Hd _]. exact Hd.
  - apply filter_none. eapply Forall_impl; [exact ds_related|].
    intros d [Hd _] Hd'. congruence.
Qed.

Lemma ss_all (Y : Id) :
  filter (fun s => sub_sideChallengeId s = Y) ss
  = if decide (Y = X) then ss else [].
Proof.
  case_decide as HY.
  - subst Y. apply filter_all. eapply Forall_impl; [exact ss_related|].
    intros s [Hs _]. exact Hs.
  - apply filter_none. eapply Forall_impl; [exact ss_related|].
    intros s [Hs _] Hs'. congruence.
Qed.

(** The invariant survives a change to wager [X], if the changed row
    with its new ledger rows and submissions has the right shape. *)
Lemma Inv_applyLocal (db : DB) (c : SideChallenge) :
  Inv db -> c ∈ sideChallenges db -> sc_id c = X ->
  wagerShape (f c)
    (wagerRows db X (sc_createdByUserId (f c))
     ++ rowsOf ds (sc_createdByUserId (f c)))
    (wagerRows db X (sc_opponentUserId (f c))
     ++ rowsOf ds (sc_opponentUserId (f c)))
    (submissionsOf db X ++ ss) ->
  Inv (applyLocal X f ds ss db).
Proof.
  intros HI Hc HX Hshape.
  destruct (ledger_applyLocal db) as (rows & Hledger & Hdata & Hnd).
  assert (HXin : X ∈ sc_id <$> sideChallenges db).
  { apply list_elem_of_fmap. exists c. auto. }
  assert (Hrows : forall r, r ∈ rows ->
            tl_relatedEntityId r = Some X
            /\ tl_reason r <> PERFECT_WEEK_EARNED).
  { intros r Hr. rewrite Forall_forall in ds_related.
    apply (ds_related (dataOf r)). rewrite <- Hdata.
    apply list_elem_of_fmap. eauto. }
  constructor.
  - rewrite ids_applyLocal. apply HI.
  - rewrite Hledger. apply Hnd, HI.
  - intros e i He Hi. rewrite ids_applyLocal.
    rewrite Hledger in He. apply elem_of_app in He as [He|He].
    + eapply inv_related; eauto.
    + destruct (Hrows e He) as [HeX _]. congruence.
  - intros e He Hr. rewrite Hledger in He.
    apply elem_of_app in He as [He|He].
    + eapply inv_perfect; eauto.
    + destruct (Hrows e He) as [_ Hne]. contradiction.
  - intros s Hs. rewrite ids_applyLocal.
    rewrite submissions_applyLocal in Hs.
    apply elem_of_app in Hs as [Hs|Hs].
    + eapply inv_submissions; eauto.
    + rewrite Forall_forall in ss_related.
      destruct (ss_related s Hs) as [-> _]. exact HXin.
  - intros s Hs. rewrite submissions_applyLocal in Hs.
    apply elem_of_app in Hs as [Hs|Hs].
    + eapply inv_values; eauto.
    + rewrite Forall_forall in ss_related.
      destruct (ss_related s Hs) as [_ Hv]. exact Hv.
  - intros c' Hc'. rewrite sideChallenges_applyLocal in Hc'.
    apply list_elem_of_fmap in Hc' as (c0 & -> & Hc0).
    unfold wagerInv, wagerRows.
    case_decide as Hid.
    + assert (c0 = c) as ->.
      { eapply (NoDup_fmap_eq sc_id); eauto; [apply HI|congruence]. }
      rewrite f_id, HX.
      rewrite !wagerData_applyLocal, submissionsOf_applyLocal.
      rewrite ds_all, ss_all, !decide_True by reflexivity.
      rewrite !rowsOf_app. exact Hshape.
    + rewrite !wagerData_applyLocal, submissionsOf_applyLocal.
      rewrite ds_all, ss_all, !decide_False by exact Hid.
      rewrite !app_nil_r. apply (inv_wagers db HI c0 Hc0).
Qed.

End Local.
(** ** What each handler does to the store *)

Section RouteCases.
Context `{NumberFormat} `{Schema}.
Import SideChallenges Authorization Routes.

Lemma getSideChallengeById_Some (db : DB) (X : Id)
    (d : SideChallengeWithDetails) :
  getSideChallengeById db X = Some d ->
  row d ∈ sideChallenges db /\ sc_id (row d) = X
  /\ targetValue d = numberOrNull (sc_targetValue (row d))
  /\ submissions d = submissionsOf db X.
Proof.
  unfold getSideChallengeById.
  destruct (head _) as [c|] eqn:Hh; [|discriminate].
  intros Hd. simplify_eq. simpl.
  apply head_filter_Some in Hh as [Hin Hid]. auto.
Qed.

Lemma applyLocal_keep (X : Id) (ss : list SideChallengeSubmission)
    (db : DB) :
  applyLocal X (fun c => c) [] ss db
  = with_submissions (foldl (fun l s => l ++ [s])
                            (sideChallengeSubmissions db) ss) db.
Proof.
  unfold applyLocal, sideChallengeUpdate, with_submissions,
    with_tokenLedger, with_sideChallenges. simpl. f_equal.
  rewrite <- (list_fmap_id (sideChallenges db)) at 2.
  apply list_fmap_ext. intros i c _. case_decide; reflexivity.
Qed.

Lemma void_tokens_eq (tx : DB) (c w X cr op : Id) (S : Z) (b : bool) :
  voidSideChallengeTokens tx c w X cr op S b
  = with_tokenLedger
      (ledgerCreateMany (refunds c w X cr op S b) (tokenLedger tx)) tx.
Proof. destruct b; reflexivity. Qed.

Lemma resolve_tokens_eq (tx : DB) (c w X : Id) (winner : option Id)
    (cr op : Id) (S : Z) :
  resolveSideChallengeTokens tx c w X winner cr op S
  = with_tokenLedger
      (ledgerCreateMany (settlement c w X winner cr op S) (tokenLedger tx))
      tx.
Proof. destruct winner; reflexivity. Qed.

Lemma calculateWinner_winner (m : string) (t : option float) (cv ov : float)
    (cu ou : Id) (r : WinnerCalculation) :
  calculateWinner m t cv ov cu ou = Return r ->
  winnerUserId r = Some cu \/ winnerUserId r = Some ou
  \/ winnerUserId r = None.
Proof.
  unfold calculateWinner.
  repeat case_decide;
    repeat match goal with
           | |- context [PrimFloat.ltb ?a ?b] => destruct (PrimFloat.ltb a b)
           | |- context [match t with _ => _ end] => destruct t
           end;
    intros Hr; inversion Hr; simpl; auto.
Qed.

Lemma POST_accept_cases (db : DB) (now : Time) (session : option Id)
    (c w X : Id) :
  snd (POST_accept db now session c w X) = db
  \/ exists ch u,
       session = Some u /\ ch ∈ sideChallenges db /\ sc_id ch = X
       /\ sc_status ch = PROPOSED /\ sc_opponentUserId ch = u
       /\ snd (POST_accept db now session c w X)
          = applyLocal X (setAccepted now)
              [stakeData c w X u (sc_stakeTokens ch)] [] db.
Proof.
  unfold POST_accept. destruct session as [u|]; [|left; reflexivity].
  destruct (getSideChallengeById db X) as [d|] eqn:Hd;
    [|left; reflexivity].
  apply getSideChallengeById_Some in Hd as (Hin & Hid & _ & _).
  repeat (case_decide; [left; reflexivity|]).
  destruct (valid _); [|left; reflexivity].
  right. exists (row d), u.
  repeat split; try assumption; apply dec_stable; assumption.
Qed.

Lemma POST_decline_cases (db : DB) (session : option Id) (c w X : Id) :
  snd (POST_decline db session c w X) = db
  \/ exists ch u,
       session = Some u /\ ch ∈ sideChallenges db /\ sc_id ch = X
       /\ sc_status ch = PROPOSED /\ sc_opponentUserId ch = u
       /\ snd (POST_decline db session c w X)
          = applyLocal X (setStatusNote DECLINED "Declined by opponent")
              (refunds c w X (sc_createdByUserId ch) (sc_opponentUserId ch)
                       (sc_stakeTokens ch) false) [] db.
Proof.
  unfold POST_decline. destruct session as [u|]; [|left; reflexivity].
  destruct (getSideChallengeById db X) as [d|] eqn:Hd;
    [|left; reflexivity].
  apply getSideChallengeById_Some in Hd as (Hin & Hid & _ & _).
  repeat (case_decide; [left; reflexivity|]).
  right. exists (row d), u.
  repeat split; try assumption; apply dec_stable; assumption.
Qed.

Lemma POST_void_cases (db : DB) (session : option Id) (c w X : Id)
    (reason : JsonValue) :
  snd (POST_void db session c w X reason) = db
  \/ exists ch text,
       reason = JString text
       /\ ch ∈ sideChallenges db /\ sc_id ch = X
       /\ sc_status ch <> RESOLVED /\ sc_status ch <> VOID
       /\ sc_status ch <> DECLINED
       /\ snd (POST_void db session c w X reason)
          = applyLocal X
              (setStatusNote VOID ("Voided by organizer: " +:+ text))
              (refunds c w X (sc_createdByUserId ch) (sc_opponentUserId ch)
                       (sc_stakeTokens ch) (wasAccepted (sc_status ch)))
              [] db.
Proof.
  unfold POST_void. destruct session as [u|]; [|left; reflexivity].
  destruct reason as [| |b|x|text|]; try (left; reflexivity).
  destruct (isBlank text); [left; reflexivity|].
  destruct (verifyOrganizer db c u); [|left; reflexivity].
  destruct (getSideChallengeById db X) as [d|] eqn:Hd;
    [|left; reflexivity].
  apply getSideChallengeById_Some in Hd as (Hin & Hid & _ & _).
  simpl.
  repeat (case_decide; [left; reflexivity|]).
  right. exists (row d), text.
  repeat split; try assumption.
  simpl. rewrite void_tokens_eq. reflexivity.
Qed.

Lemma POST_submit_cases (db : DB) (now : Time) (session : option Id)
    (c w X : Id) (value : JsonValue) :
  snd (POST_submit db now session c w X value) = db
  \/ exists ch u v,
       session = Some u /\ value = JNumber v /\ (0 <= v)%Q
       /\ ch ∈ sideChallenges db /\ sc_id ch = X
       /\ sc_status ch = ACCEPTED
       /\ (u = sc_createdByUserId ch \/ u = sc_opponentUserId ch)
       /\ hasUserSubmitted db X u = false
       /\ let all := submissionsOf db X ++ [mkSubmission X u v] in
          (snd (POST_submit db now session c w X value)
           = applyLocal X (fun c => c) [] [mkSubmission X u v] db
           /\ (length all <> 2%nat
               \/ head (filter (fun s => sub_userId s
                                         = sc_createdByUserId ch) all)
                  = None
               \/ head (filter (fun s => sub_userId s
                                         = sc_opponentUserId ch) all)
                  = None))
          \/ (exists cs os r,
                length all = 2%nat
                /\ head (filter (fun s => sub_userId s
                                          = sc_createdByUserId ch) all)
                   = Some cs
                /\ head (filter (fun s => sub_userId s
                                          = sc_opponentUserId ch) all)
                   = Some os
                /\ calculateWinner (sc_metricType ch)
                     (numberOrNull (sc_targetValue ch))
                     (toNumber (sub_valueNumber cs))
                     (toNumber (sub_valueNumber os))
                     (sc_createdByUserId ch) (sc_opponentUserId ch)
                   = Return r
                /\ snd (POST_submit db now session c w X value)
                   = applyLocal X
                       (setResolved (winnerUserId r) now
                          ("Auto-resolved: " +:+ reason r))
                       (settlement c w X (winnerUserId r)
                          (sc_createdByUserId ch) (sc_opponentUserId ch)
                          (sc_stakeTokens ch))
                       [mkSubmission X u v] db).
Proof.
  unfold POST_submit. destruct session as [u|]; [|left; reflexivity].
  destruct value as [| |b|v|text|]; try (left; reflexivity).
  destruct (Qltb v 0) eqn:Hv; [left; reflexivity|].
  apply Qltb_ge in Hv.
  destruct (getSideChallengeById db X) as [d|] eqn:Hd;
    [|left; reflexivity].
  apply getSideChallengeById_Some in Hd as (Hin & Hid & Htarget & _).
  destruct (bool_decide (sc_createdByUserId (row d) = u)
            || bool_decide (sc_opponentUserId (row d) = u)) eqn:Hparty;
    [|left; reflexivity].
  cbn [negb].
  destruct (decide (sc_status (row d) <> ACCEPTED)) as [Hstatus|Hstatus];
    [left; reflexivity|].
  destruct (hasUserSubmitted db X u) eqn:Hsub; [left; reflexivity|].
  set (tx := with_submissions _ db).
  assert (Hall : submissionsOf tx X
                 = submissionsOf db X ++ [mkSubmission X u v]).
  { unfold submissionsOf, tx. cbn [sideChallengeSubmissions with_submissions].
    rewrite filter_app, filter_cons_True by reflexivity. reflexivity. }
  rewrite Hall.
  assert (Hkeep : tx = applyLocal X (fun c => c) [] [mkSubmission X u v] db).
  { rewrite applyLocal_keep. reflexivity. }
  assert (Hu : u = sc_createdByUserId (row d)
               \/ u = sc_opponentUserId (row d)).
  { apply orb_true_iff in Hparty as [Hp|Hp];
      apply bool_decide_eq_true in Hp; auto. }
  assert (Hacc : sc_status (row d) = ACCEPTED).
  { destruct (decide (sc_status (row d) = ACCEPTED)); tauto. }
  destruct (decide (length (submissionsOf db X ++ [mkSubmission X u v])
                    = 2%nat)) as [Hlen|Hlen].
  - destruct (head (filter (fun s => sub_userId s
                                     = sc_createdByUserId (row d)) _))
      as [cs|] eqn:Hcs.
    + destruct (head (filter (fun s => sub_userId s
                                       = sc_opponentUserId (row d)) _))
        as [os|] eqn:Hos.
      * rewrite Htarget.
        destruct (calculateWinner _ _ _ _ _ _) as [r|msg] eqn:Hr;
          [|left; reflexivity].
        right. exists (row d), u, v.
        repeat (split; [first [reflexivity | assumption]|]).
        right. exists cs, os, r.
        repeat (split; [first [reflexivity | assumption]|]).
        cbn [snd]. rewrite resolve_tokens_eq. reflexivity.
      * right. exists (row d), u, v.
        repeat (split; [first [reflexivity | assumption]|]).
        left. split; [exact Hkeep|]. right. right. exact Hos.
    + right. exists (row d), u, v.
      repeat (split; [first [reflexivity | assumption]|]).
      left. split; [exact Hkeep|]. right. left. exact Hcs.
  - right. exists (row d), u, v.
    repeat (split; [first [reflexivity | assumption]|]).
    left. split; [exact Hkeep|]. left. exact Hlen.
Qed.

Lemma POST_propose_cases (db : DB) (now : Time) (session : option Id)
    (c w : Id) (body : ProposeBody) :
  snd (POST_propose db now session c w body) = db
  \/ exists u expires,
       session = Some u /\ pb_opponentUserId body <> u
       /\ let challenge :=
            mkSideChallenge (cuid (sc_id <$> sideChallenges db)) c w u
              (pb_opponentUserId body) PROPOSED (pb_metricType body)
              (pb_targetValue body) (pb_stakeTokens body) None expires
              None None None in
          snd (POST_propose db now session c w body)
          = with_tokenLedger
              (ledgerCreateMany
                 [stakeData c w (sc_id challenge) u (pb_stakeTokens body)]
                 (tokenLedger db))
              (with_sideChallenges (sideChallenges db ++ [challenge]) db).
Proof.
  unfold POST_propose. destruct session as [u|]; [|left; reflexivity].
  repeat match goal with
         | |- snd (if ?b then _ else _) = _ \/ _ =>
             lazymatch b with
             | negb ?b' => destruct b' eqn:?
             | _ => destruct b
             end; cbn [negb]; try (left; reflexivity)
         | |- snd (let x := _ in _) = _ \/ _ => cbv zeta
         | |- snd (match ?x with _ => _ end) = _ \/ _ =>
             destruct x eqn:?; try (left; reflexivity)
         end.
  right. eexists u, _. split; [reflexivity|]. split; [assumption|].
  reflexivity.
Qed.

(** The three ways a turn of the week-lock loop can go. *)
Lemma cleanupOne_void (c w : Id) (now : Time) (counts : CleanupResult)
    (db : DB) (ch : SideChallenge) (subs : list SideChallengeSubmission) :
  ~ (sc_status ch = PENDING_REVIEW /\ length subs = 2%nat) ->
  cleanupOne c w now (counts, db) (ch, subs)
  = (mkCleanupResult (resolved counts) (S (voided counts)),
     applyLocal (sc_id ch)
       (setStatusNote VOID
          "Voided due to week lock with incomplete submissions")
       (refunds c w (sc_id ch) (sc_createdByUserId ch)
                (sc_opponentUserId ch) (sc_stakeTokens ch)
                (wasAccepted (sc_status ch)))
       [] db).
Proof.
  intros Hno. unfold cleanupOne. rewrite decide_False by exact Hno.
  rewrite void_tokens_eq. reflexivity.
Qed.

Lemma cleanupOne_resolve (c w : Id) (now : Time) (counts : CleanupResult)
    (db : DB) (ch : SideChallenge) (subs : list SideChallengeSubmission)
    (cs os : SideChallengeSubmission) (r : WinnerCalculation) :
  sc_status ch = PENDING_REVIEW -> length subs = 2%nat ->
  head (filter (fun s => sub_userId s = sc_createdByUserId ch) subs)
  = Some cs ->
  head (filter (fun s => sub_userId s = sc_opponentUserId ch) subs)
  = Some os ->
  calculateWinner (sc_metricType ch) (numberOrNull (sc_targetValue ch))
    (toNumber (sub_valueNumber cs))
    (toNumber (sub_valueNumber os))
    (sc_createdByUserId ch) (sc_opponentUserId ch) = Return r ->
  cleanupOne c w now (counts, db) (ch, subs)
  = (mkCleanupResult (S (resolved counts)) (voided counts),
     applyLocal (sc_id ch)
       (setResolved (winnerUserId r) now
          ("Auto-resolved on week lock: " +:+ reason r))
       (settlement c w (sc_id ch) (winnerUserId r) (sc_createdByUserId ch)
                   (sc_opponentUserId ch) (sc_stakeTokens ch))
       [] db).
Proof.
  intros Hs Hl Hcs Hos Hr. unfold cleanupOne.
  rewrite decide_True by auto. rewrite Hcs, Hos, Hr.
  rewrite resolve_tokens_eq. reflexivity.
Qed.

Lemma cleanupOne_skip (c w : Id) (now : Time) (counts : CleanupResult)
    (db : DB) (ch : SideChallenge) (subs : list SideChallengeSubmission) :
  sc_status ch = PENDING_REVIEW -> length subs = 2%nat ->
  (forall cs os r,
     head (filter (fun s => sub_userId s = sc_createdByUserId ch) subs)
     = Some cs ->
     head (filter (fun s => sub_userId s = sc_opponentUserId ch) subs)
     = Some os ->
     calculateWinner (sc_metricType ch) (numberOrNull (sc_targetValue ch))
       (toNumber (sub_valueNumber cs))
       (toNumber (sub_valueNumber os))
       (sc_createdByUserId ch) (sc_opponentUserId ch) <> Return r) ->
  cleanupOne c w now (counts, db) (ch, subs) = (counts, db).
Proof.
  intros Hs Hl Hno. unfold cleanupOne. rewrite decide_True by auto.
  destruct (head _) as [cs|] eqn:Hcs; [|reflexivity].
  destruct (head (filter (fun s => sub_userId s = sc_opponentUserId ch) _))
    as [os|] eqn:Hos; [|reflexivity].
  destruct (calculateWinner _ _ _ _ _ _) as [r|msg] eqn:Hr; [|reflexivity].
  exfalso. eapply Hno; eauto.
Qed.

End RouteCases.
(** ** The invariant of the states reached without deleting a competition *)

Section Invariant.
Context `{NumberFormat} `{Schema}.
Import SideChallenges Authorization Routes.

Lemma Inv_initial (db : DB) : initial db -> Inv db.
Proof.
  intros (Hl & Hc & Hs). constructor; rewrite ?Hl, ?Hc, ?Hs.
  - constructor.
  - constructor.
  - intros e i He. inversion He.
  - intros e He. inversion He.
  - intros s Hs'. inversion Hs'.
  - intros s Hs'. inversion Hs'.
  - intros c Hc'. inversion Hc'.
Qed.

(** Steps that leave the wagers, the submissions and the wagers' ledger
    rows alone. *)
Lemma Inv_frame (db db' : DB) :
  Inv db ->
  sideChallenges db' = sideChallenges db ->
  sideChallengeSubmissions db' = sideChallengeSubmissions db ->
  NoDup (tl_id <$> tokenLedger db') ->
  (forall e, e ∈ tokenLedger db' ->
             e ∈ tokenLedger db \/ tl_relatedEntityId e = None) ->
  (forall Y, wagerData db' Y = wagerData db Y) ->
  Inv db'.
Proof.
  intros HI Hc Hs Hnd Hrows Hdata. constructor; rewrite ?Hc, ?Hs.
  - apply HI.
  - exact Hnd.
  - intros e i He Hi. destruct (Hrows e He) as [Hold|Hnone].
    + eapply inv_related; eauto.
    + congruence.
  - intros e He Hr. destruct (Hrows e He) as [Hold|Hnone].
    + eapply inv_perfect; eauto.
    + exact Hnone.
  - apply HI.
  - apply HI.
  - intros c Hin. pose proof (inv_wagers db HI c Hin) as Hw.
    unfold wagerInv, wagerRows, submissionsOf in *.
    rewrite !Hdata, Hs. exact Hw.
Qed.

Lemma wagerData_fresh (db : DB) (Y : Id) :
  Inv db -> Y ∉ sc_id <$> sideChallenges db -> wagerData db Y = [].
Proof.
  intros HI HY. unfold wagerData. rewrite filter_none; [reflexivity|].
  apply Forall_forall. intros e He Hrel. apply HY.
  eapply inv_related; eauto.
Qed.

Lemma submissionsOf_fresh (db : DB) (Y : Id) :
  Inv db -> Y ∉ sc_id <$> sideChallenges db -> submissionsOf db Y = [].
Proof.
  intros HI HY. unfold submissionsOf. apply filter_none.
  apply Forall_forall. intros s Hs Hrel. apply HY. rewrite <- Hrel.
  eapply inv_submissions; eauto.
Qed.

Lemma Inv_propose (db : DB) (now : Time) (session : option Id) (c w : Id)
    (body : ProposeBody) :
  Inv db -> Inv (snd (POST_propose db now session c w body)).
Proof.
  intros HI.
  destruct (POST_propose_cases db now session c w body)
    as [->|(u & expires & _ & Hne & Heq)]; [exact HI|].
  cbv zeta in Heq. cbn [sc_id] in Heq. rewrite Heq. clear Heq.
  set (X := cuid (sc_id <$> sideChallenges db)).
  set (S := pb_stakeTokens body).
  set (ch := mkSideChallenge X c w u _ _ _ _ _ _ _ _ _ _).
  assert (HX : X ∉ sc_id <$> sideChallenges db) by apply cuid_fresh.
  destruct (ledgerCreateMany_spec [stakeData c w X u S] (tokenLedger db))
    as (rows & Hl & Hdata & _ & Hnd).
  assert (Hrows : forall r, r ∈ rows -> dataOf r = stakeData c w X u S).
  { intros r Hr.
    assert (Hin : dataOf r ∈ dataOf <$> rows)
      by (apply list_elem_of_fmap; eauto).
    rewrite Hdata in Hin. apply list_elem_of_singleton in Hin. exact Hin. }
  assert (Hwd : forall Y,
            wagerData (with_tokenLedger
                         (ledgerCreateMany [stakeData c w X u S]
                                           (tokenLedger db))
                         (with_sideChallenges (sideChallenges db ++ [ch])
                                              db)) Y
            = wagerData db Y
              ++ (if decide (Y = X) then [stakeData c w X u S] else [])).
  { intros Y. rewrite wagerData_ledger, Hl, fmap_app, filter_app, Hdata.
    rewrite <- wagerData_alt. f_equal. rewrite filter_cons, filter_nil.
    simpl. repeat case_decide; try reflexivity; congruence. }
  constructor; cbn [sideChallenges tokenLedger sideChallengeSubmissions
                      with_tokenLedger with_sideChallenges].
  - rewrite fmap_app. apply NoDup_app. split; [apply HI|].
    split; [|apply NoDup_singleton].
    intros x Hx Hx'. apply list_elem_of_singleton in Hx'. subst x.
    contradiction.
  - rewrite Hl. apply Hnd, HI.
  - intros e i He Hi. rewrite fmap_app, elem_of_app.
    rewrite Hl in He. apply elem_of_app in He as [He|He].
    + left. eapply inv_related; eauto.
    + right. apply Hrows in He. destruct e. simpl in *.
      unfold dataOf, stakeData in He. simpl in He. simplify_eq. left.
  - intros e He Hr. rewrite Hl in He. apply elem_of_app in He as [He|He].
    + eapply inv_perfect; eauto.
    + apply Hrows in He. destruct e. simpl in *.
      unfold dataOf, stakeData in He. simpl in He. simplify_eq.
  - intros s Hs. rewrite fmap_app, elem_of_app. left.
    eapply inv_submissions; eauto.
  - apply HI.
  - intros ch' Hch'. unfold wagerInv, wagerRows. rewrite !Hwd.
    unfold submissionsOf.
    cbn [sideChallengeSubmissions with_tokenLedger with_sideChallenges].
    fold (submissionsOf db (sc_id ch')).
    apply elem_of_app in Hch' as [Hch'|Hch'].
    + assert (sc_id ch' <> X).
      { intros Heq. apply HX. rewrite <- Heq.
        apply list_elem_of_fmap. eauto. }
      rewrite !decide_False by assumption. rewrite !app_nil_r.
      apply (inv_wagers db HI ch' Hch').
    + apply list_elem_of_singleton in Hch'. subst ch'.
      cbn [sc_id ch]. rewrite !decide_True by reflexivity.
      rewrite (wagerData_fresh db X HI HX).
      rewrite (submissionsOf_fresh db X HI HX).
      unfold wagerShape, ch. simpl.
      rewrite !rowsOf_cons, !rowsOf_nil. simpl.
      rewrite decide_True by reflexivity.
      rewrite decide_False by congruence.
      repeat split; congruence.
Qed.

Ltac row_fields :=
  cbn [setAccepted setResolved setStatusNote sc_id sc_status
       sc_createdByUserId sc_opponentUserId sc_stakeTokens sc_acceptedAt
       sc_winnerUserId] in *.

Ltac new_rows :=
  unfold refunds, settlement, stakeData, wasAccepted;
  repeat (case_bool_decide; try congruence); cbn [orb];
  rewrite ?rowsOf_cons, ?rowsOf_nil;
  cbn [ld_userId ld_delta ld_reason];
  repeat (case_decide; try congruence);
  rewrite ?app_nil_r; cbn [app].

Ltac related_rows :=
  unfold refunds, settlement, stakeData, wasAccepted;
  repeat match goal with
         | |- context [if ?b then _ else _] => destruct b
         | |- context [match ?w with Some _ => _ | None => _ end] =>
             destruct w
         end;
  repeat constructor; simpl; discriminate.

(** The shape of a wager in the store, with its id written [X]. *)
Lemma old_shape (db : DB) (ch : SideChallenge) (X : Id) :
  Inv db -> ch ∈ sideChallenges db -> sc_id ch = X ->
  wagerShape ch (wagerRows db X (sc_createdByUserId ch))
                (wagerRows db X (sc_opponentUserId ch))
                (submissionsOf db X).
Proof. intros HI Hin <-. apply (inv_wagers db HI ch Hin). Qed.

Lemma Inv_accept (db : DB) (now : Time) (session : option Id)
    (c w X : Id) :
  Inv db -> Inv (snd (POST_accept db now session c w X)).
Proof.
  intros HI.
  destruct (POST_accept_cases db now session c w X)
    as [->|(ch & u & _ & Hin & Hid & Hst & Hop & ->)]; [exact HI|].
  pose proof (old_shape db ch X HI Hin Hid) as [Hne Hw].
  rewrite Hst in Hw. destruct Hw as (Hacc & Hrc & Hro & Hsubs).
  eapply Inv_applyLocal with (c := ch);
    [intros ?; reflexivity | related_rows | constructor
    | exact HI | exact Hin | exact Hid | ].
  unfold wagerShape. row_fields.
  rewrite Hrc, Hro, Hsubs. subst u. new_rows.
  repeat split; auto; discriminate.
Qed.

Lemma Inv_decline (db : DB) (session : option Id) (c w X : Id) :
  Inv db -> Inv (snd (POST_decline db session c w X)).
Proof.
  intros HI.
  destruct (POST_decline_cases db session c w X)
    as [->|(ch & u & _ & Hin & Hid & Hst & Hop & ->)]; [exact HI|].
  pose proof (old_shape db ch X HI Hin Hid) as [Hne Hw].
  rewrite Hst in Hw. destruct Hw as (Hacc & Hrc & Hro & Hsubs).
  eapply Inv_applyLocal with (c := ch);
    [intros ?; reflexivity | related_rows | constructor
    | exact HI | exact Hin | exact Hid | ].
  unfold wagerShape. row_fields.
  rewrite Hrc, Hro. new_rows.
  repeat split; auto.
Qed.

Lemma Inv_void (db : DB) (session : option Id) (c w X : Id)
    (reason : JsonValue) :
  Inv db -> Inv (snd (POST_void db session c w X reason)).
Proof.
  intros HI.
  destruct (POST_void_cases db session c w X reason)
    as [->|(ch & text & _ & Hin & Hid & Hn1 & Hn2 & Hn3 & ->)];
    [exact HI|].
  pose proof (old_shape db ch X HI Hin Hid) as [Hne Hw].
  eapply Inv_applyLocal with (c := ch);
    [intros ?; reflexivity | related_rows | constructor
    | exact HI | exact Hin | exact Hid | ].
  unfold wagerShape. row_fields.
  destruct (sc_status ch) eqn:Hst; try contradiction.
  - destruct Hw as (Hacc & Hrc & Hro & Hsubs).
    rewrite Hrc, Hro. new_rows. split; [exact Hne|]. left. auto.
  - destruct Hw as (Hacc & Hrc & Hro & Hsubs).
    rewrite Hrc, Hro. new_rows. split; [exact Hne|]. right. auto.
Qed.

Lemma hasUserSubmitted_false (db : DB) (X u : Id)
    (s : SideChallengeSubmission) :
  hasUserSubmitted db X u = false -> s ∈ submissionsOf db X ->
  sub_userId s <> u.
Proof.
  unfold hasUserSubmitted, submissionsOf.
  destruct (head _) eqn:Hh; [discriminate|]. intros _ Hs Hu.
  apply list_elem_of_filter in Hs as [Hx Hs].
  exact (head_filter_None _ _ Hh s Hs (conj Hx Hu)).
Qed.

Lemma Inv_submit (db : DB) (now : Time) (session : option Id)
    (c w X : Id) (value : JsonValue) :
  Inv db -> Inv (snd (POST_submit db now session c w X value)).
Proof.
  intros HI.
  destruct (POST_submit_cases db now session c w X value)
    as [->|(ch & u & v & _ & _ & Hv & Hin & Hid & Hst & Hu & Hnew & Hcases)];
    [exact HI|].
  pose proof (old_shape db ch X HI Hin Hid) as [Hne Hw].
  rewrite Hst in Hw. destruct Hw as (Hacc & Hrc & Hro & Hsubs).
  assert (Hother : forall s, submissionsOf db X = [s] -> sub_userId s <> u).
  { intros s Hs. apply (hasUserSubmitted_false db X u s Hnew).
    rewrite Hs. left. }
  cbv zeta in Hcases.
  destruct Hcases as [[-> Hnot]|(cs & os & r & Hlen & Hcs & Hos & Hr & ->)].
  - eapply Inv_applyLocal with (c := ch);
      [intros ?; reflexivity | constructor
      | repeat constructor; assumption
      | exact HI | exact Hin | exact Hid | ].
    unfold wagerShape. rewrite Hst, Hrc, Hro. new_rows.
    split; [exact Hne|]. repeat (split; [auto|]).
    destruct Hsubs as [Hsubs|(s0 & Hsubs & Hs0)]; rewrite Hsubs in *.
    + right. eexists. split; [reflexivity|]. simpl. tauto.
    + exfalso. specialize (Hother s0 eq_refl).
      cbn [app length] in Hnot. rewrite !filter_cons, !filter_nil in Hnot.
      cbn [sub_userId] in Hnot.
      destruct Hnot as [Hnot|[Hnot|Hnot]]; [congruence| |];
        repeat case_decide; simpl in Hnot; try discriminate;
        destruct Hs0, Hu; congruence.
  - eapply Inv_applyLocal with (c := ch);
      [intros ?; reflexivity | related_rows
      | repeat constructor; assumption
      | exact HI | exact Hin | exact Hid | ].
    unfold wagerShape. row_fields. rewrite Hrc, Hro.
    split; [exact Hne|]. split; [exact Hacc|].
    destruct (calculateWinner_winner _ _ _ _ _ _ _ Hr) as [Hwin|[Hwin|Hwin]];
      rewrite Hwin; new_rows; auto.
Qed.

Lemma Inv_cleanup_fold (c w : Id) (now : Time)
    (items : list (SideChallenge * list SideChallengeSubmission)) :
  forall (counts : CleanupResult) (db : DB),
    Inv db ->
    NoDup ((sc_id ∘ fst) <$> items) ->
    Forall (fun it => fst it ∈ sideChallenges db
                      /\ snd it = submissionsOf db (sc_id (fst it))
                      /\ sc_status (fst it)
                         ∈ [PROPOSED; ACCEPTED; PENDING_REVIEW]) items ->
    Inv (snd (foldl (cleanupOne c w now) (counts, db) items)).
Proof.
  induction items as [|[ch subs] items IH]; intros counts db HI Hnd Hall;
    [exact HI|].
  rewrite fmap_cons in Hnd. apply NoDup_cons in Hnd as [Hfresh Hnd].
  apply Forall_cons in Hall as [(Hin & Hsubs & Hopen) Hall].
  cbn [fst snd compose] in *.
  pose proof (old_shape db ch (sc_id ch) HI Hin eq_refl) as [Hne Hw].
  cbn [foldl]. rewrite cleanupOne_void.
  2:{ intros [Hp _]. rewrite Hp in Hw. exact Hw. }
  apply IH; [|exact Hnd|].
  - eapply Inv_applyLocal with (c := ch);
      [intros ?; reflexivity | related_rows | constructor
      | exact HI | exact Hin | reflexivity | ].
    unfold wagerShape. row_fields.
    assert (Hopen' : sc_status ch = PROPOSED \/ sc_status ch = ACCEPTED
                     \/ sc_status ch = PENDING_REVIEW).
    { rewrite !elem_of_cons, elem_of_nil in Hopen. tauto. }
    destruct (sc_status ch) eqn:Hst; try contradiction;
      try (exfalso; destruct Hopen' as [?|[?|?]]; discriminate).
    + destruct Hw as (Hacc & Hrc & Hro & _).
      rewrite Hrc, Hro. new_rows. split; [exact Hne|]. left. auto.
    + destruct Hw as (Hacc & Hrc & Hro & _).
      rewrite Hrc, Hro. new_rows. split; [exact Hne|]. right. auto.
  - rewrite Forall_forall in Hall |- *. intros [ch' subs'] Hit.
    destruct (Hall _ Hit) as (Hin' & Hsubs' & Hopen'). cbn [fst snd] in *.
    assert (Hid : sc_id ch' <> sc_id ch).
    { intros Heq. apply Hfresh. rewrite <- Heq.
      apply list_elem_of_fmap. exists (ch', subs'). auto. }
    split; [|split; [|exact Hopen']].
    + rewrite sideChallenges_applyLocal. apply list_elem_of_fmap.
      exists ch'. rewrite decide_False by exact Hid. auto.
    + rewrite submissionsOf_applyLocal, filter_nil, app_nil_r.
      exact Hsubs'.
Qed.

Lemma Inv_cleanup (db : DB) (c w : Id) (now : Time) :
  Inv db -> Inv (snd (cleanupSideChallengesOnWeekLock db c w now)).
Proof.
  intros HI. unfold cleanupSideChallengesOnWeekLock.
  apply Inv_cleanup_fold; [exact HI| |].
  - unfold unfinished. rewrite <- list_fmap_compose.
    apply (NoDup_fmap_filter sc_id). apply HI.
  - unfold unfinished. apply Forall_forall. intros it Hit.
    apply list_elem_of_fmap in Hit as (ch & -> & Hch).
    apply list_elem_of_filter in Hch as [(_ & _ & Hopen) Hin].
    cbn [fst snd]. auto.
Qed.

Lemma Inv_award (db : DB) (c w : Id) :
  Inv db -> Inv (snd (Tokens.awardPerfectWeekTokensSafe db c w)).
Proof.
  intros HI.
  destruct (awardPerfectWeekTokensSafe_effect db c w)
    as (rows & us & -> & Hdata & Hnd).
  assert (Hrows : forall r, r ∈ rows -> tl_relatedEntityId r = None).
  { intros r Hr.
    assert (Hin : dataOf r ∈ dataOf <$> rows)
      by (apply list_elem_of_fmap; eauto).
    rewrite Hdata in Hin. apply list_elem_of_fmap in Hin as (u & Hu & _).
    destruct r. unfold dataOf, Tokens.perfectWeekData in Hu.
    simpl in *. congruence. }
  apply (Inv_frame db); try reflexivity; try assumption.
  - apply Hnd, HI.
  - intros e He. cbn [tokenLedger with_tokenLedger] in He.
    apply elem_of_app in He as [He|He]; auto.
  - intros Y. unfold wagerData. cbn [tokenLedger with_tokenLedger].
    rewrite filter_app, fmap_app.
    rewrite (filter_none _ rows), app_nil_r; [reflexivity|].
    apply Forall_forall. intros r Hr. rewrite (Hrows r Hr). discriminate.
Qed.

Lemma Inv_recalculate (db : DB) (session : option Id) (c w : Id) :
  Inv db -> Inv (snd (POST_recalculate_tokens db session c w)).
Proof.
  intros HI.
  destruct (recalculate_tokens_effect db session c w (inv_ledger_ids db HI))
    as (Hshape & Herror & _ & Hjson & _).
  destruct (fst (POST_recalculate_tokens db session c w))
    as [st msg|st r] eqn:Hres.
  { rewrite (Herror st msg eq_refl). exact HI. }
  destruct (Hjson st r eq_refl)
    as (news & newly & Hl & Hdata & _ & _ & _ & _ & _ & Hnd).
  assert (Hnews : forall e, e ∈ news -> tl_relatedEntityId e = None).
  { intros e He.
    assert (Hin : dataOf e ∈ dataOf <$> news)
      by (apply list_elem_of_fmap; eauto).
    rewrite Hdata in Hin. apply list_elem_of_fmap in Hin as (u & Hu & _).
    destruct e. unfold dataOf in Hu. simpl in *. congruence. }
  apply (Inv_frame db); try assumption.
  - rewrite Hshape. reflexivity.
  - rewrite Hshape. reflexivity.
  - intros e He. rewrite Hl in He. apply elem_of_app in He as [He|He].
    + left. apply list_elem_of_filter in He. tauto.
    + right. auto.
  - intros Y. unfold wagerData. rewrite Hl, filter_app, fmap_app.
    rewrite (filter_none _ news), app_nil_r.
    + rewrite list_filter_filter. f_equal.
      apply filter_ext_in. intros e He. split; [tauto|].
      intros Hrel. split; [exact Hrel|]. intros [(_ & _ & Hr) _].
      rewrite (inv_perfect db HI e He Hr) in Hrel. discriminate.
    + apply Forall_forall. intros e He. rewrite (Hnews e He). discriminate.
Qed.

(** Deleting a competition either fails and writes nothing, or takes the
    competition away with what belongs to it. *)
Lemma DELETE_challenge_cases (db : DB) (session : option Id) (c : Id) :
  snd (DELETE_challenge db session c) = db
  \/ (c ∈ ch_id <$> challenges db
      /\ snd (DELETE_challenge db session c) = challengeDelete c db).
Proof.
  unfold DELETE_challenge. destruct session as [u|]; [|left; reflexivity].
  destruct (head _) as [ch|] eqn:Hh; [|left; reflexivity].
  case_decide; [left; reflexivity|].
  right. apply head_filter_Some in Hh as [Hin Hid].
  split; [|reflexivity]. apply list_elem_of_fmap. eauto.
Qed.

Lemma challengeDelete_gone (c : Id) (db : DB) :
  c ∉ ch_id <$> challenges (challengeDelete c db).
Proof.
  intros Hin. apply list_elem_of_fmap in Hin as (ch & Hid & Hin).
  cbn [challenges challengeDelete] in Hin.
  apply list_elem_of_filter in Hin as [Hne _]. congruence.
Qed.

Lemma DELETE_challenge_lasting (db : DB) (session : option Id) (c : Id) :
  keepsCompetitions db (snd (DELETE_challenge db session c)) ->
  snd (DELETE_challenge db session c) = db.
Proof.
  intros Hkeep.
  destruct (DELETE_challenge_cases db session c) as [Heq|[Hin Heq]];
    [exact Heq|].
  exfalso. apply (challengeDelete_gone c db). rewrite <- Heq.
  apply Hkeep. exact Hin.
Qed.

Lemma Inv_lastingStep (db db' : DB) : lastingStep db db' -> Inv db -> Inv db'.
Proof.
  intros [Hstep Hkeep] HI. destruct Hstep.
  - apply Inv_propose, HI.
  - apply Inv_accept, HI.
  - apply Inv_decline, HI.
  - apply Inv_submit, HI.
  - apply Inv_void, HI.
  - apply Inv_cleanup, HI.
  - apply Inv_award, HI.
  - apply Inv_recalculate, HI.
  - rewrite DELETE_challenge_lasting by exact Hkeep. exact HI.
  - apply (Inv_frame db); try assumption.
    + match goal with Hl : tokenLedger _ = _ |- _ => rewrite Hl end.
      apply HI.
    + intros e He. left. congruence.
    + intros Y. unfold wagerData. congruence.
Qed.

Lemma Inv_rtc (db db' : DB) : rtc lastingStep db db' -> Inv db -> Inv db'.
Proof.
  induction 1 as [|x y z Hxy Hyz IH]; intros HI; [exact HI|].
  apply IH. eapply Inv_lastingStep; eauto.
Qed.

Lemma Inv_reachable (db : DB) : reachableLasting db -> Inv db.
Proof.
  intros (db0 & Hinit & Hsteps). apply Inv_initial in Hinit.
  eapply Inv_rtc; eauto.
Qed.

Lemma reachableLasting_reachable (db : DB) :
  reachableLasting db -> reachable db.
Proof.
  intros (db0 & Hinit & Hsteps). exists db0. split; [exact Hinit|].
  clear Hinit.
  induction Hsteps as [|x y z [Hxy _] Hyz IH]; [apply rtc_refl|].
  apply rtc_l with y; [exact Hxy | exact IH].
Qed.

(** ** What holds in every reachable state *)

Lemma Inv_Sane (db : DB) : Inv db -> Sane db.
Proof.
  intros HI. constructor; try apply HI.
  intros c Hc Hp. pose proof (inv_wagers db HI c Hc) as [_ Hsh].
  rewrite Hp in Hsh. exact Hsh.
Qed.

Lemma Sane_initial (db : DB) : initial db -> Sane db.
Proof. intros Hinit. apply Inv_Sane, Inv_initial, Hinit. Qed.

Lemma Sane_applyLocal (X : Id) (f : SideChallenge -> SideChallenge)
    (ds : list LedgerData) (ss : list SideChallengeSubmission) (db : DB) :
  (forall c, sc_id (f c) = sc_id c
             /\ sc_createdByUserId (f c) = sc_createdByUserId c
             /\ sc_opponentUserId (f c) = sc_opponentUserId c
             /\ (sc_status c <> PENDING_REVIEW ->
                 sc_status (f c) <> PENDING_REVIEW)) ->
  Forall (fun d => ld_relatedEntityId d = Some X
                   /\ ld_reason d <> PERFECT_WEEK_EARNED) ds ->
  Forall (fun s => (0 <= sub_valueNumber s)%Q) ss ->
  Sane db -> Sane (applyLocal X f ds ss db).
Proof.
  intros Hf Hds Hss HS.
  destruct (ledger_applyLocal X f ds ss db) as (rows & Hledger & Hdata & Hnd).
  assert (Hwagers : forall c', c' ∈ sideChallenges (applyLocal X f ds ss db) ->
            exists c, c ∈ sideChallenges db /\ (c' = c \/ c' = f c)).
  { intros c' Hc'. rewrite sideChallenges_applyLocal in Hc'.
    apply list_elem_of_fmap in Hc' as (c & -> & Hc). exists c.
    split; [exact Hc|]. case_decide; auto. }
  constructor.
  - assert (E : sc_id <$> sideChallenges (applyLocal X f ds ss db)
                 = sc_id <$> sideChallenges db).
    { rewrite sideChallenges_applyLocal, <- list_fmap_compose.
      apply list_fmap_ext. intros i c _. simpl.
      case_decide; [apply Hf | reflexivity]. }
    rewrite E. apply HS.
  - rewrite Hledger. apply Hnd, HS.
  - intros e He Hr. rewrite Hledger in He.
    apply elem_of_app in He as [He|He]; [eapply sane_perfect; eauto|].
    exfalso. rewrite Forall_forall in Hds.
    destruct (Hds (dataOf e)) as [_ Hne].
    + rewrite <- Hdata. apply list_elem_of_fmap. eauto.
    + apply Hne. destruct e. exact Hr.
  - intros s Hs. rewrite submissions_applyLocal in Hs.
    apply elem_of_app in Hs as [Hs|Hs]; [eapply sane_values; eauto|].
    rewrite Forall_forall in Hss. apply Hss, Hs.
  - intros c' Hc'. destruct (Hwagers c' Hc') as (c & Hc & [->| ->]).
    + apply (sane_status db HS c Hc).
    + apply Hf, (sane_status db HS c Hc).
  - intros c' Hc'. destruct (Hwagers c' Hc') as (c & Hc & [->| ->]).
    + apply (sane_parties db HS c Hc).
    + destruct (Hf c) as (_ & -> & -> & _). apply (sane_parties db HS c Hc).
Qed.

(** Steps that leave the wagers and the submissions alone and give the
    ledger no perfect-week row that names a wager. *)
Lemma Sane_frame (db db' : DB) :
  Sane db ->
  sideChallenges db' = sideChallenges db ->
  sideChallengeSubmissions db' = sideChallengeSubmissions db ->
  NoDup (tl_id <$> tokenLedger db') ->
  (forall e, e ∈ tokenLedger db' ->
             e ∈ tokenLedger db \/ tl_relatedEntityId e = None) ->
  Sane db'.
Proof.
  intros HS Hc Hs Hnd Hrows. constructor; rewrite ?Hc, ?Hs; try apply HS.
  - exact Hnd.
  - intros e He Hr. destruct (Hrows e He) as [Hold|Hnone];
      [eapply sane_perfect; eauto | exact Hnone].
Qed.

Ltac kept_fields :=
  intros ?; cbn [setAccepted setResolved setStatusNote sc_id sc_status
                 sc_createdByUserId sc_opponentUserId];
  repeat split; try discriminate; auto.

Lemma Sane_propose (db : DB) (now : Time) (session : option Id) (c w : Id)
    (body : ProposeBody) :
  Sane db -> Sane (snd (POST_propose db now session c w body)).
Proof.
  intros HS.
  destruct (POST_propose_cases db now session c w body)
    as [->|(u & expires & _ & Hne & Heq)]; [exact HS|].
  cbv zeta in Heq. cbn [sc_id] in Heq. rewrite Heq. clear Heq.
  set (X := cuid (sc_id <$> sideChallenges db)).
  destruct (ledgerCreateMany_spec [stakeData c w X u (pb_stakeTokens body)]
              (tokenLedger db)) as (rows & Hl & Hdata & _ & Hnd).
  constructor; cbn [sideChallenges tokenLedger sideChallengeSubmissions
                      with_tokenLedger with_sideChallenges].
  - rewrite fmap_app. apply NoDup_app. split; [apply HS|].
    split; [|apply NoDup_singleton].
    intros x Hx Hx'. apply list_elem_of_singleton in Hx'. subst x.
    exact (cuid_fresh _ Hx).
  - rewrite Hl. apply Hnd, HS.
  - intros e He Hr. rewrite Hl in He. apply elem_of_app in He as [He|He];
      [eapply sane_perfect; eauto|].
    assert (Hin : dataOf e ∈ dataOf <$> rows)
      by (apply list_elem_of_fmap; eauto).
    rewrite Hdata in Hin. apply list_elem_of_singleton in Hin.
    destruct e. unfold dataOf, stakeData in Hin. simpl in *. simplify_eq.
  - apply HS.
  - intros ch Hch. apply elem_of_app in Hch as [Hch|Hch];
      [apply (sane_status db HS ch Hch)|].
    apply list_elem_of_singleton in Hch. subst ch. discriminate.
  - intros ch Hch. apply elem_of_app in Hch as [Hch|Hch];
      [apply (sane_parties db HS ch Hch)|].
    apply list_elem_of_singleton in Hch. subst ch. simpl. congruence.
Qed.

Lemma Sane_accept (db : DB) (now : Time) (session : option Id)
    (c w X : Id) :
  Sane db -> Sane (snd (POST_accept db now session c w X)).
Proof.
  intros HS.
  destruct (POST_accept_cases db now session c w X)
    as [->|(ch & u & _ & _ & _ & _ & _ & ->)]; [exact HS|].
  apply Sane_applyLocal; [kept_fields | related_rows | constructor
                         | exact HS].
Qed.

Lemma Sane_decline (db : DB) (session : option Id) (c w X : Id) :
  Sane db -> Sane (snd (POST_decline db session c w X)).
Proof.
  intros HS.
  destruct (POST_decline_cases db session c w X)
    as [->|(ch & u & _ & _ & _ & _ & _ & ->)]; [exact HS|].
  apply Sane_applyLocal; [kept_fields | related_rows | constructor
                         | exact HS].
Qed.

Lemma Sane_void (db : DB) (session : option Id) (c w X : Id)
    (reason : JsonValue) :
  Sane db -> Sane (snd (POST_void db session c w X reason)).
Proof.
  intros HS.
  destruct (POST_void_cases db session c w X reason)
    as [->|(ch & text & _ & _ & _ & _ & _ & _ & ->)]; [exact HS|].
  apply Sane_applyLocal; [kept_fields | related_rows | constructor
                         | exact HS].
Qed.

Lemma Sane_submit (db : DB) (now : Time) (session : option Id)
    (c w X : Id) (value : JsonValue) :
  Sane db -> Sane (snd (POST_submit db now session c w X value)).
Proof.
  intros HS.
  destruct (POST_submit_cases db now session c w X value)
    as [->|(ch & u & v & _ & _ & Hv & _ & _ & _ & _ & _ & Hcases)];
    [exact HS|].
  cbv zeta in Hcases.
  destruct Hcases as [[-> _]|(cs & os & r & _ & _ & _ & _ & ->)].
  - apply Sane_applyLocal; [kept_fields | constructor
                           | repeat constructor; exact Hv | exact HS].
  - apply Sane_applyLocal; [kept_fields | related_rows
                           | repeat constructor; exact Hv | exact HS].
Qed.

Lemma Sane_cleanupOne (c w : Id) (now : Time) (counts : CleanupResult)
    (db : DB) (ch : SideChallenge) (subs : list SideChallengeSubmission) :
  Sane db -> Sane (snd (cleanupOne c w now (counts, db) (ch, subs))).
Proof.
  intros HS.
  destruct (decide (sc_status ch = PENDING_REVIEW
                    /\ length subs = 2%nat)) as [[Hs Hl]|Hno].
  - destruct (head (filter (fun s => sub_userId s = sc_createdByUserId ch)
                           subs)) as [cs|] eqn:Hcs;
      [destruct (head (filter
                         (fun s => sub_userId s = sc_opponentUserId ch)
                         subs)) as [os|] eqn:Hos;
       [destruct (calculateWinner (sc_metricType ch)
                    (numberOrNull (sc_targetValue ch))
                    (toNumber (sub_valueNumber cs))
                    (toNumber (sub_valueNumber os))
                    (sc_createdByUserId ch) (sc_opponentUserId ch))
          as [r|msg] eqn:Hr|]|].
    + rewrite (cleanupOne_resolve c w now counts db ch subs cs os r)
        by assumption.
      apply Sane_applyLocal; [kept_fields | related_rows | constructor
                             | exact HS].
    + rewrite (cleanupOne_skip c w now counts db ch subs);
        [exact HS|assumption..|].
      intros cs' os' r' Hcs' Hos' Hr'. congruence.
    + rewrite (cleanupOne_skip c w now counts db ch subs);
        [exact HS|assumption..|].
      intros cs' os' r' Hcs' Hos' Hr'. congruence.
    + rewrite (cleanupOne_skip c w now counts db ch subs);
        [exact HS|assumption..|].
      intros cs' os' r' Hcs' Hos' Hr'. congruence.
  - rewrite cleanupOne_void by exact Hno.
    apply Sane_applyLocal; [kept_fields | related_rows | constructor
                           | exact HS].
Qed.

Lemma Sane_cleanup_fold (c w : Id) (now : Time)
    (items : list (SideChallenge * list SideChallengeSubmission)) :
  forall (counts : CleanupResult) (db : DB),
    Sane db -> Sane (snd (foldl (cleanupOne c w now) (counts, db) items)).
Proof.
  induction items as [|[ch subs] items IH]; intros counts db HS;
    [exact HS|].
  cbn [foldl].
  destruct (cleanupOne c w now (counts, db) (ch, subs)) as [k dbk] eqn:E.
  apply IH. change dbk with (snd (k, dbk)). rewrite <- E.
  apply Sane_cleanupOne, HS.
Qed.

Lemma Sane_cleanup (db : DB) (c w : Id) (now : Time) :
  Sane db -> Sane (snd (cleanupSideChallengesOnWeekLock db c w now)).
Proof. apply Sane_cleanup_fold. Qed.

Lemma Sane_award (db : DB) (c w : Id) :
  Sane db -> Sane (snd (Tokens.awardPerfectWeekTokensSafe db c w)).
Proof.
  intros HS.
  destruct (awardPerfectWeekTokensSafe_effect db c w)
    as (rows & us & -> & Hdata & Hnd).
  apply (Sane_frame db); try reflexivity; try assumption.
  - apply Hnd, HS.
  - intros e He. cbn [tokenLedger with_tokenLedger] in He.
    apply elem_of_app in He as [He|He]; [auto|]. right.
    assert (Hin : dataOf e ∈ dataOf <$> rows)
      by (apply list_elem_of_fmap; eauto).
    rewrite Hdata in Hin. apply list_elem_of_fmap in Hin as (u & Hu & _).
    destruct e. unfold dataOf, Tokens.perfectWeekData in Hu.
    simpl in *. congruence.
Qed.

Lemma Sane_recalculate (db : DB) (session : option Id) (c w : Id) :
  Sane db -> Sane (snd (POST_recalculate_tokens db session c w)).
Proof.
  intros HS.
  destruct (recalculate_tokens_effect db session c w (sane_ledger_ids db HS))
    as (Hshape & Herror & _ & Hjson & _).
  destruct (fst (POST_recalculate_tokens db session c w))
    as [st msg|st r] eqn:Hres.
  { rewrite (Herror st msg eq_refl). exact HS. }
  destruct (Hjson st r eq_refl)
    as (news & newly & Hl & Hdata & _ & _ & _ & _ & _ & Hnd).
  apply (Sane_frame db); try assumption.
  - rewrite Hshape. reflexivity.
  - rewrite Hshape. reflexivity.
  - intros e He. rewrite Hl in He. apply elem_of_app in He as [He|He].
    + left. apply list_elem_of_filter in He. tauto.
    + right.
      assert (Hin : dataOf e ∈ dataOf <$> news)
        by (apply list_elem_of_fmap; eauto).
      rewrite Hdata in Hin. apply list_elem_of_fmap in Hin as (u & Hu & _).
      destruct e. unfold dataOf in Hu. simpl in *. congruence.
Qed.

Lemma Sane_challengeDelete (c : Id) (db : DB) :
  Sane db -> Sane (challengeDelete c db).
Proof.
  intros HS.
  constructor; cbn [sideChallenges tokenLedger sideChallengeSubmissions
                      challengeDelete].
  - apply (NoDup_fmap_filter sc_id), HS.
  - apply (NoDup_fmap_filter tl_id), HS.
  - intros e He. apply list_elem_of_filter in He as [_ He].
    apply (sane_perfect db HS e He).
  - intros s Hs. apply list_elem_of_filter in Hs as [_ Hs].
    apply (sane_values db HS s Hs).
  - intros x Hx. apply list_elem_of_filter in Hx as [_ Hx].
    apply (sane_status db HS x Hx).
  - intros x Hx. apply list_elem_of_filter in Hx as [_ Hx].
    apply (sane_parties db HS x Hx).
Qed.

Lemma Sane_step (db db' : DB) : step db db' -> Sane db -> Sane db'.
Proof.
  intros Hstep HS. destruct Hstep.
  - apply Sane_propose, HS.
  - apply Sane_accept, HS.
  - apply Sane_decline, HS.
  - apply Sane_submit, HS.
  - apply Sane_void, HS.
  - apply Sane_cleanup, HS.
  - apply Sane_award, HS.
  - apply Sane_recalculate, HS.
  - destruct (DELETE_challenge_cases db session challengeId)
      as [->|[_ ->]]; [exact HS | apply Sane_challengeDelete, HS].
  - apply (Sane_frame db); try assumption.
    + match goal with Hl : tokenLedger _ = _ |- _ => rewrite Hl end.
      apply HS.
    + intros e He. left. congruence.
Qed.

Lemma Sane_reachable (db : DB) : reachable db -> Sane db.
Proof.
  intros (db0 & Hinit & Hsteps). apply Sane_initial in Hinit.
  induction Hsteps as [|x y z Hxy Hyz IH]; [exact Hinit|].
  apply IH. eapply Sane_step; eauto.
Qed.

End Invariant.
(** ** Token conservation and stored values *)

Section Conservation.
Context `{NumberFormat} `{Schema}.
Import SideChallenges Routes.

(** X29.  Conservation while no competition is deleted.  In every state
    reached without deleting a competition, for every wager in a terminal
    state, with stake S, the ledger rows that name the wager (in whichever
    competition's ledger the handlers wrote them) give: resolved with a
    winner, the winner is one of the two parties and has the stake debit
    and one +2S win credit, net +S, and the other party has the stake
    debit only, net -S; resolved as a tie, each party has the stake debit
    and one +S tie refund, net 0; declined, or voided before acceptance,
    the creator has the stake debit and one +S refund, net 0, and the
    opponent has no row at all; voided after acceptance, each party has
    the stake debit and one +S refund, net 0. *)
Theorem conservation_without_deletion (db : DB) (ch : SideChallenge) :
  reachableLasting db -> ch ∈ sideChallenges db ->
  terminal (sc_status ch) ->
  let S := sc_stakeTokens ch in
  let rows := wagerRows db (sc_id ch) in
  let net := net db (sc_id ch) in
  let stake := (- S, SIDE_CHALLENGE_STAKE) in
  (forall winner, sc_status ch = RESOLVED ->
     sc_winnerUserId ch = Some winner ->
     exists loser,
       ((winner = sc_createdByUserId ch /\ loser = sc_opponentUserId ch)
        \/ (winner = sc_opponentUserId ch /\ loser = sc_createdByUserId ch))
       /\ rows winner = [stake; (S * 2, SIDE_CHALLENGE_WIN)]
       /\ net winner = S
       /\ rows loser = [stake]
       /\ net loser = - S)
  /\ (sc_status ch = RESOLVED -> sc_winnerUserId ch = None ->
      rows (sc_createdByUserId ch)
      = [stake; (S, SIDE_CHALLENGE_TIE_REFUND)]
      /\ rows (sc_opponentUserId ch)
         = [stake; (S, SIDE_CHALLENGE_TIE_REFUND)]
      /\ net (sc_createdByUserId ch) = 0
      /\ net (sc_opponentUserId ch) = 0)
  /\ (sc_status ch = DECLINED
      \/ (sc_status ch = VOID /\ sc_acceptedAt ch = None) ->
      rows (sc_createdByUserId ch)
      = [stake; (S, SIDE_CHALLENGE_VOID_REFUND)]
      /\ rows (sc_opponentUserId ch) = []
      /\ net (sc_createdByUserId ch) = 0
      /\ net (sc_opponentUserId ch) = 0)
  /\ (sc_status ch = VOID -> sc_acceptedAt ch <> None ->
      rows (sc_createdByUserId ch)
      = [stake; (S, SIDE_CHALLENGE_VOID_REFUND)]
      /\ rows (sc_opponentUserId ch)
         = [stake; (S, SIDE_CHALLENGE_VOID_REFUND)]
      /\ net (sc_createdByUserId ch) = 0
      /\ net (sc_opponentUserId ch) = 0).
Proof.
  intros Hreach Hin _ S rows net0 stake.
  pose proof (inv_wagers db (Inv_reachable db Hreach) ch Hin) as [Hne Hw].
  fold (rows (sc_createdByUserId ch)) in Hw.
  fold (rows (sc_opponentUserId ch)) in Hw.
  assert (Hnet : forall u, net0 u = sumZ (fst <$> rows u)) by reflexivity.
  repeat match goal with |- _ /\ _ => split end.
  - intros winner Hst Hwin. rewrite Hst, Hwin in Hw.
    destruct Hw as (_ & [(-> & Hrc & Hro)|(-> & Hrc & Hro)]).
    + exists (sc_opponentUserId ch). rewrite !Hnet, Hrc, Hro.
      repeat split; auto; simpl; lia.
    + exists (sc_createdByUserId ch). rewrite !Hnet, Hrc, Hro.
      repeat split; auto; simpl; lia.
  - intros Hst Hwin. rewrite Hst, Hwin in Hw.
    destruct Hw as (_ & Hrc & Hro). rewrite !Hnet, Hrc, Hro.
    repeat split; simpl; lia.
  - intros [Hst|[Hst Hacc]]; rewrite Hst in Hw.
    + destruct Hw as (_ & Hrc & Hro). rewrite !Hnet, Hrc, Hro.
      repeat split; simpl; lia.
    + destruct Hw as [(_ & Hrc & Hro)|(Hacc' & _)]; [|contradiction].
      rewrite !Hnet, Hrc, Hro. repeat split; simpl; lia.
  - intros Hst Hacc. rewrite Hst in Hw.
    destruct Hw as [(Hacc' & _)|(_ & Hrc & Hro)]; [contradiction|].
    rewrite !Hnet, Hrc, Hro. repeat split; simpl; lia.
Qed.

(** C10.  The submit handler answers a request whose value is missing,
    not a number or negative without writing anything, with status 400
    when somebody is signed in (401 otherwise); so in every reachable
    state every stored submission has a value that is a number and not
    negative, and these stored values are all that the winner computation
    is ever given. *)
Theorem submit_rejects_invalid_values :
  (forall db now session c w X value,
     invalidValue value ->
     snd (POST_submit db now session c w X value) = db
     /\ (session = None ->
         fst (POST_submit db now session c w X value)
         = ErrorJson 401 "Unauthorized")
     /\ (session <> None ->
         fst (POST_submit db now session c w X value)
         = ErrorJson 400
             (match value with
              | JNull | JUndefined => "Value is required"
              | _ => "Value must be a non-negative number"
              end)))
  /\ (forall db, reachable db ->
      forall s, s ∈ sideChallengeSubmissions db ->
                (0 <= sub_valueNumber s)%Q)
  /\ (forall db X, reachable db ->
      forall s, s ∈ submissionsOf db X -> (0 <= sub_valueNumber s)%Q).
Proof.
  split; [|split].
  - intros db now session c w X value Hbad. unfold POST_submit.
    destruct session as [u|].
    + destruct value as [| |b|v|text|];
        try (split; [reflexivity|];
             split; [discriminate | intros _; reflexivity]).
      simpl in Hbad. apply Qltb_lt in Hbad. rewrite Hbad.
      split; [reflexivity|].
      split; [discriminate | intros _; reflexivity].
    + split; [reflexivity|].
      split; [reflexivity | intros Hc; contradiction].
  - intros db Hreach s Hs.
    apply (sane_values db (Sane_reachable db Hreach) s Hs).
  - intros db X Hreach s Hs. unfold submissionsOf in Hs.
    apply list_elem_of_filter in Hs as [_ Hs].
    apply (sane_values db (Sane_reachable db Hreach) s Hs).
Qed.

End Conservation.
Lemma keepsCompetitions_same (db db' : DB) :
  challenges db' = challenges db -> keepsCompetitions db db'.
Proof. intros Heq c Hc. rewrite Heq. exact Hc. Qed.

Lemma lifecycleAccepted_lasting :
  reachableLasting (H := exampleFormat) (H0 := exampleSchema)
    lifecycleAccepted.
Proof.
  exists lifecycleStart. split; [split; [reflexivity | split; reflexivity]|].
  apply (rtc_l _ _ lifecycleAwarded).
  { split; [exact (step_award lifecycleStart "c1" "w0")|].
    apply keepsCompetitions_same. vm_compute. reflexivity. }
  apply (rtc_l _ _ lifecycleProposed).
  { split; [exact (step_propose lifecycleAwarded 100 (Some "ann") "c1" "w1"
                     (Routes.mkProposeBody "bob" "Steps"
                        "Most steps this week" "HIGHER_WINS" "steps" None 1
                        None))|].
    apply keepsCompetitions_same. vm_compute. reflexivity. }
  apply rtc_once.
  split; [exact (step_accept lifecycleProposed 200 (Some "bob") "c1" "w1"
                   "c")|].
  apply keepsCompetitions_same. vm_compute. reflexivity.
Defined.

Lemma lifecycleResolved_lasting :
  reachableLasting (H := exampleFormat) (H0 := exampleSchema)
    lifecycleResolved.
Proof.
  destruct lifecycleAccepted_lasting as (db0 & Hinit & Hsteps).
  exists db0. split; [exact Hinit|].
  transitivity lifecycleAccepted; [exact Hsteps|].
  apply (rtc_l _ _ lifecycleSubmitted).
  { split; [exact (step_submit lifecycleAccepted 300 (Some "ann") "c1" "w1"
                     "c" (JNumber 1000))|].
    apply keepsCompetitions_same. vm_compute. reflexivity. }
  apply rtc_once.
  split; [exact (step_submit lifecycleSubmitted 400 (Some "bob") "c1" "w1"
                   "c" (JNumber 1500))|].
  apply keepsCompetitions_same. vm_compute. reflexivity.
Defined.

Lemma lifecycleResolved_reachable :
  reachable (H := exampleFormat) (H0 := exampleSchema) lifecycleResolved.
Proof. exact (reachableLasting_reachable _ lifecycleResolved_lasting). Defined.

Lemma conservation_without_deletion_witness :
  net lifecycleResolved "c" "bob" = 1 /\ net lifecycleResolved "c" "ann" = -1.
Proof.
  assert (Hin : resolvedWager ∈ sideChallenges lifecycleResolved)
    by (apply list_elem_of_In; vm_compute; left; reflexivity).
  assert (Hterminal : terminal (sc_status resolvedWager))
    by (left; reflexivity).
  destruct (conservation_without_deletion (H := exampleFormat)
              (H0 := exampleSchema) lifecycleResolved resolvedWager
              lifecycleResolved_lasting Hin Hterminal)
    as (Hwinner & _).
  destruct (Hwinner "bob" eq_refl eq_refl)
    as (loser & [[Hc _]|[_ ->]] & _ & Hnet & _ & Hloss);
    [discriminate Hc|].
  split; [exact Hnet | exact Hloss].
Defined.

Lemma submit_rejects_invalid_values_witness :
  snd (Routes.POST_submit (H := exampleFormat) (H0 := exampleSchema)
         lifecycleSubmitted 400 (Some "bob") "c1" "w1" "c"
         (JNumber (-5)))
  = lifecycleSubmitted
  /\ fst (Routes.POST_submit (H := exampleFormat) (H0 := exampleSchema)
            lifecycleSubmitted 400 (Some "bob") "c1" "w1" "c"
            (JNumber (-5)))
     = ErrorJson 400 "Value must be a non-negative number"
  /\ Forall (fun s => (0 <= sub_valueNumber s)%Q)
            (sideChallengeSubmissions lifecycleResolved).
Proof.
  destruct (submit_rejects_invalid_values (H := exampleFormat)
              (H0 := exampleSchema)) as (Hreject & Hstored & _).
  destruct (Hreject lifecycleSubmitted 400 (Some "bob") "c1" "w1" "c"
              (JNumber (-5)) eq_refl) as (Hdb & _ & Hstatus).
  split; [exact Hdb|]. split; [apply Hstatus; discriminate|].
  apply Forall_forall. apply Hstored. exact lifecycleResolved_reachable.
Defined.
(** ** Week-lock cleanup, wager by wager *)

Lemma filter_id_update (X Y : Id) (f : SideChallenge -> SideChallenge)
    (l : list SideChallenge) :
  (forall x, sc_id (f x) = sc_id x) ->
  filter (fun x => sc_id x = Y)
         ((fun x => if decide (sc_id x = X) then f x else x) <$> l)
  = if decide (Y = X) then f <$> filter (fun x => sc_id x = Y) l
    else filter (fun x => sc_id x = Y) l.
Proof.
  intros Hf. induction l as [|a l IH]; [destruct (decide (Y = X)); reflexivity|].
  rewrite fmap_cons, !filter_cons, IH.
  destruct (decide (sc_id a = X)) as [Ha|Ha].
  - rewrite Hf. destruct (decide (sc_id a = Y)) as [Hy|Hy];
      destruct (decide (Y = X)) as [Hyx|Hyx]; try reflexivity.
    congruence.
  - destruct (decide (sc_id a = Y)) as [Hy|Hy];
      destruct (decide (Y = X)) as [Hyx|Hyx]; try reflexivity.
    congruence.
Qed.

Lemma wagerView_applyLocal (X Y : Id) (f : SideChallenge -> SideChallenge)
    (ds : list LedgerData) (ss : list SideChallengeSubmission) (db : DB) :
  (forall x, sc_id (f x) = sc_id x) ->
  Forall (fun d => ld_relatedEntityId d = Some X) ds ->
  wagerView (applyLocal X f ds ss db) Y
  = if decide (Y = X)
    then (f <$> fst (wagerView db Y), snd (wagerView db Y) ++ ds)
    else wagerView db Y.
Proof.
  intros Hf Hds. unfold wagerView.
  rewrite sideChallenges_applyLocal, wagerData_applyLocal.
  rewrite filter_id_update by exact Hf.
  destruct (decide (Y = X)) as [->|HY]; cbn [fst snd].
  - rewrite (filter_all _ ds) by exact Hds. reflexivity.
  - rewrite (filter_none _ ds), app_nil_r; [reflexivity|].
    eapply Forall_impl; [exact Hds|]. intros d Hd Hd'. congruence.
Qed.

Lemma filter_key_unique {A B} `{EqDecision B} (f : A -> B) (l : list A)
    (x : A) :
  NoDup (f <$> l) -> x ∈ l -> filter (fun y => f y = f x) l = [x].
Proof.
  induction l as [|a l IH]; intros Hnd Hx; [inversion Hx|].
  rewrite fmap_cons in Hnd. apply NoDup_cons in Hnd as [Ha Hnd].
  apply elem_of_cons in Hx as [->|Hx].
  - rewrite filter_cons_True by reflexivity. f_equal.
    apply filter_none. apply Forall_forall. intros y Hy Heq.
    apply Ha. rewrite <- Heq. apply list_elem_of_fmap. eauto.
  - rewrite filter_cons_False; [apply IH; assumption|].
    intros Heq. apply Ha. rewrite Heq. apply list_elem_of_fmap. eauto.
Qed.

Lemma refunds_related (c w X cr op : Id) (S : Z) (b : bool) :
  Forall (fun d => ld_relatedEntityId d = Some X) (refunds c w X cr op S b).
Proof. unfold refunds. destruct b; repeat constructor. Qed.

Lemma settlement_related (c w X : Id) (winner : option Id) (cr op : Id)
    (S : Z) :
  Forall (fun d => ld_relatedEntityId d = Some X)
         (settlement c w X winner cr op S).
Proof. unfold settlement. destruct winner; repeat constructor. Qed.

Section CleanupByWager.
Context `{NumberFormat} `{Schema}.
Import SideChallenges Routes.

(** One turn of the loop either leaves the store alone or is a change
    that concerns the wager of the turn only, determined by the row and
    the submissions read before the loop. *)
Lemma cleanupOne_shape (c w : Id) (now : Time) (ch : SideChallenge)
    (subs : list SideChallengeSubmission) :
  exists o : option ((SideChallenge -> SideChallenge) * list LedgerData),
    (forall counts db,
       snd (cleanupOne c w now (counts, db) (ch, subs))
       = match o with
         | Some (f, ds) => applyLocal (sc_id ch) f ds [] db
         | None => db
         end)
    /\ (forall f ds, o = Some (f, ds) ->
        (forall x, sc_id (f x) = sc_id x)
        /\ Forall (fun d => ld_relatedEntityId d = Some (sc_id ch)) ds).
Proof.
  destruct (decide (sc_status ch = PENDING_REVIEW
                    /\ length subs = 2%nat)) as [[Hs Hl]|Hno].
  - destruct (head (filter (fun s => sub_userId s = sc_createdByUserId ch)
                           subs)) as [cs|] eqn:Hcs;
      [destruct (head (filter
                         (fun s => sub_userId s = sc_opponentUserId ch)
                         subs)) as [os|] eqn:Hos;
       [destruct (calculateWinner (sc_metricType ch)
                    (numberOrNull (sc_targetValue ch))
                    (toNumber (sub_valueNumber cs))
                    (toNumber (sub_valueNumber os))
                    (sc_createdByUserId ch) (sc_opponentUserId ch))
          as [r|msg] eqn:Hr|]|].
    + eexists (Some (_, _)). split.
      * intros counts db.
        rewrite (cleanupOne_resolve c w now counts db ch subs cs os r)
          by assumption.
        reflexivity.
      * intros f ds Heq. simplify_eq.
        split; [reflexivity | apply settlement_related].
    + exists None. split; [|discriminate].
      intros counts db.
      rewrite (cleanupOne_skip c w now counts db ch subs);
        [reflexivity|assumption..|].
      intros cs' os' r' Hcs' Hos' Hr'. congruence.
    + exists None. split; [|discriminate].
      intros counts db.
      rewrite (cleanupOne_skip c w now counts db ch subs);
        [reflexivity|assumption..|].
      intros cs' os' r' Hcs' Hos' Hr'. congruence.
    + exists None. split; [|discriminate].
      intros counts db.
      rewrite (cleanupOne_skip c w now counts db ch subs);
        [reflexivity|assumption..|].
      intros cs' os' r' Hcs' Hos' Hr'. congruence.
  - eexists (Some (_, _)). split.
    + intros counts db. rewrite cleanupOne_void by exact Hno. reflexivity.
    + intros f ds Heq. simplify_eq.
      split; [reflexivity | apply refunds_related].
Qed.

(** After the whole loop, what the store holds about a wager is what the
    wager's own turn, taken on the store as it was before the loop,
    leaves; a wager without a turn is as before. *)
Lemma cleanup_fold_view (c w : Id) (now : Time)
    (items : list (SideChallenge * list SideChallengeSubmission)) :
  NoDup ((sc_id ∘ fst) <$> items) ->
  forall counts db,
    (forall Y, (Y ∉ (sc_id ∘ fst) <$> items) ->
       wagerView (snd (foldl (cleanupOne c w now) (counts, db) items)) Y
       = wagerView db Y)
    /\ (forall ch subs, (ch, subs) ∈ items ->
        wagerView (snd (foldl (cleanupOne c w now) (counts, db) items))
                  (sc_id ch)
        = wagerView (snd (cleanupOne c w now (counts, db) (ch, subs)))
                    (sc_id ch)).
Proof.
  induction items as [|[ch0 subs0] items IH]; intros Hnd counts db.
  - split; [reflexivity|]. intros ch subs Hin. inversion Hin.
  - rewrite fmap_cons in Hnd. apply NoDup_cons in Hnd as [Hfresh Hnd].
    cbn [compose fst] in Hfresh. cbn [foldl].
    destruct (cleanupOne_shape c w now ch0 subs0) as (o & Ho & Hprops).
    assert (Hframe : forall Y, Y <> sc_id ch0 ->
              wagerView (snd (cleanupOne c w now (counts, db)
                                (ch0, subs0))) Y
              = wagerView db Y).
    { intros Y HY. rewrite Ho. destruct o as [[f ds]|]; [|reflexivity].
      destruct (Hprops f ds eq_refl) as [Hf Hds].
      rewrite wagerView_applyLocal by assumption.
      rewrite decide_False by exact HY. reflexivity. }
    destruct (cleanupOne c w now (counts, db) (ch0, subs0))
      as [counts1 db1] eqn:Hstep.
    cbn [snd] in Hframe.
    destruct (IH Hnd counts1 db1) as [IHout IHin].
    split.
    + intros Y HY. rewrite fmap_cons in HY.
      apply not_elem_of_cons in HY as [HY0 HY].
      rewrite IHout by exact HY. apply Hframe. exact HY0.
    + intros ch subs Hin. apply elem_of_cons in Hin as [Heq|Hin].
      * simplify_eq. rewrite IHout by exact Hfresh.
        rewrite Hstep. reflexivity.
      * rewrite (IHin ch subs) by exact Hin.
        assert (Hne : sc_id ch <> sc_id ch0).
        { intros Heq. apply Hfresh. rewrite <- Heq.
          apply list_elem_of_fmap. exists (ch, subs). auto. }
        destruct (cleanupOne_shape c w now ch subs) as (o' & Ho' & Hprops').
        rewrite !Ho'. destruct o' as [[f ds]|]; [|apply Hframe; exact Hne].
        destruct (Hprops' f ds eq_refl) as [Hf Hds].
        rewrite !wagerView_applyLocal by assumption.
        rewrite !decide_True by reflexivity.
        rewrite Hframe by exact Hne. reflexivity.
Qed.

Lemma cleanup_view (db : DB) (c w : Id) (now : Time) (ch : SideChallenge) :
  NoDup (sc_id <$> sideChallenges db) ->
  ch ∈ sideChallenges db ->
  sc_challengeId ch = c -> sc_weekId ch = w -> stillOpen (sc_status ch) ->
  wagerView (snd (cleanupSideChallengesOnWeekLock db c w now)) (sc_id ch)
  = wagerView (snd (cleanupOne c w now (mkCleanupResult O O, db)
                      (ch, submissionsOf db (sc_id ch))))
              (sc_id ch).
Proof.
  intros Hnd Hin Hc Hw Hopen. unfold cleanupSideChallengesOnWeekLock.
  apply cleanup_fold_view.
  - unfold unfinished. rewrite <- list_fmap_compose.
    apply (NoDup_fmap_filter sc_id). exact Hnd.
  - unfold unfinished. apply list_elem_of_fmap. exists ch.
    split; [reflexivity|]. apply list_elem_of_filter. auto.
Qed.

Lemma wagerView_unique (db : DB) (ch : SideChallenge) :
  NoDup (sc_id <$> sideChallenges db) -> ch ∈ sideChallenges db ->
  wagerView db (sc_id ch) = ([ch], wagerData db (sc_id ch)).
Proof.
  intros Hnd Hin. unfold wagerView.
  rewrite (filter_key_unique sc_id) by assumption. reflexivity.
Qed.

Lemma POST_void_ok (db : DB) (session : option Id) (c w X : Id)
    (reason : JsonValue) :
  fst (POST_void db session c w X reason) = Json 200 () ->
  exists ch text,
    reason = JString text
    /\ ch ∈ sideChallenges db /\ sc_id ch = X
    /\ snd (POST_void db session c w X reason)
       = applyLocal X
           (setStatusNote VOID ("Voided by organizer: " +:+ text))
           (refunds c w X (sc_createdByUserId ch) (sc_opponentUserId ch)
                    (sc_stakeTokens ch) (wasAccepted (sc_status ch)))
           [] db.
Proof.
  unfold POST_void. destruct session as [u|]; [|discriminate].
  destruct reason as [| |b|x|text|]; try discriminate.
  destruct (isBlank text); [discriminate|].
  destruct (Authorization.verifyOrganizer db c u); [|discriminate].
  destruct (getSideChallengeById db X) as [d|] eqn:Hd; [|discriminate].
  apply getSideChallengeById_Some in Hd as (Hin & Hid & _ & _).
  simpl.
  repeat (case_decide; [discriminate|]).
  intros _. exists (row d), text.
  repeat split; try assumption.
  rewrite void_tokens_eq. reflexivity.
Qed.

End CleanupByWager.
Section WeekLock.
Context `{NumberFormat} `{Schema}.
Import SideChallenges Routes.

(** X30.  The week-lock cleanup, wager by wager.  When it runs for a
    competition and a week on a store whose wager ids are distinct, then
    for every wager of that week whose status is PROPOSED, ACCEPTED or
    PENDING_REVIEW, with the submissions it has before the cleanup:
    - if its status is PENDING_REVIEW, it has exactly two submissions,
      one of each party among them, and the winner computation returns,
      the wager ends RESOLVED with that winner, the time of the cleanup
      and the note [Auto-resolved on week lock: ] followed by the reason,
      and its ledger rows gain the settlement rows;
    - if its status is not PENDING_REVIEW or it does not have exactly two
      submissions, so in particular whenever it is ACCEPTED, whatever has
      been submitted, the wager ends VOID with the note of the week lock
      and its ledger rows gain the refunds: one for the creator, and one
      for the opponent exactly when the status was ACCEPTED or
      PENDING_REVIEW, which are the rows a successful manual void by the
      organizer leaves on the same store;
    - otherwise (PENDING_REVIEW with two submissions of which a party's
      is missing, or with a winner computation that throws) the wager and
      its ledger rows are left as they were. *)
Theorem cleanup_on_week_lock (db : DB) (c w : Id) (now : Time)
    (ch : SideChallenge) :
  NoDup (sc_id <$> sideChallenges db) ->
  ch ∈ sideChallenges db ->
  sc_challengeId ch = c -> sc_weekId ch = w -> stillOpen (sc_status ch) ->
  let db' := snd (cleanupSideChallengesOnWeekLock db c w now) in
  let X := sc_id ch in
  let subs := submissionsOf db X in
  let creatorSubmission :=
    head (filter (fun s => sub_userId s = sc_createdByUserId ch) subs) in
  let opponentSubmission :=
    head (filter (fun s => sub_userId s = sc_opponentUserId ch) subs) in
  let winner cs os :=
    calculateWinner (sc_metricType ch) (numberOrNull (sc_targetValue ch))
      (toNumber (sub_valueNumber cs))
      (toNumber (sub_valueNumber os))
      (sc_createdByUserId ch) (sc_opponentUserId ch) in
  (forall cs os r,
     sc_status ch = PENDING_REVIEW -> length subs = 2%nat ->
     creatorSubmission = Some cs -> opponentSubmission = Some os ->
     winner cs os = Return r ->
     wagerView db' X
     = ([setResolved (winnerUserId r) now
           ("Auto-resolved on week lock: " +:+ reason r) ch],
        wagerData db X
        ++ settlement c w X (winnerUserId r) (sc_createdByUserId ch)
             (sc_opponentUserId ch) (sc_stakeTokens ch)))
  /\ (~ (sc_status ch = PENDING_REVIEW /\ length subs = 2%nat) ->
      wagerView db' X
      = ([setStatusNote VOID
            "Voided due to week lock with incomplete submissions" ch],
         wagerData db X
         ++ refunds c w X (sc_createdByUserId ch) (sc_opponentUserId ch)
              (sc_stakeTokens ch) (wasAccepted (sc_status ch)))
      /\ forall session reason,
           fst (POST_void db session c w X reason) = Json 200 () ->
           wagerData (snd (POST_void db session c w X reason)) X
           = wagerData db' X)
  /\ (sc_status ch = PENDING_REVIEW -> length subs = 2%nat ->
      (forall cs os r,
         creatorSubmission = Some cs -> opponentSubmission = Some os ->
         winner cs os <> Return r) ->
      wagerView db' X = ([ch], wagerData db X)).
Proof.
  intros Hnd Hin Hc Hw Hopen db' X subs creatorSubmission
    opponentSubmission winner.
  assert (Hview : wagerView db' X
                  = wagerView (snd (cleanupOne c w now
                                      (mkCleanupResult O O, db) (ch, subs)))
                              X)
    by (apply cleanup_view; assumption).
  pose proof (wagerView_unique db ch Hnd Hin) as Hold. fold X in Hold.
  split; [|split].
  - intros cs os r Hs Hl Hcs Hos Hr. rewrite Hview.
    rewrite (cleanupOne_resolve c w now _ db ch subs cs os r)
      by assumption.
    cbn [snd]. fold X.
    rewrite wagerView_applyLocal;
      [|reflexivity|apply settlement_related].
    rewrite decide_True by reflexivity. rewrite Hold. reflexivity.
  - intros Hno.
    assert (Hvoid : wagerView db' X
              = ([setStatusNote VOID
                    "Voided due to week lock with incomplete submissions"
                    ch],
                 wagerData db X
                 ++ refunds c w X (sc_createdByUserId ch)
                      (sc_opponentUserId ch) (sc_stakeTokens ch)
                      (wasAccepted (sc_status ch)))).
    { rewrite Hview. rewrite cleanupOne_void by exact Hno.
      cbn [snd]. fold X.
      rewrite wagerView_applyLocal;
        [|reflexivity|apply refunds_related].
      rewrite decide_True by reflexivity. rewrite Hold. reflexivity. }
    split; [exact Hvoid|].
    intros session text Hok.
    apply POST_void_ok in Hok as (ch' & reason & _ & Hin' & Hid & Heq).
    assert (ch' = ch)
      by (apply (NoDup_fmap_eq sc_id (sideChallenges db)); assumption).
    subst ch'. rewrite Heq.
    change (wagerData db' X) with (snd (wagerView db' X)).
    rewrite Hvoid. cbn [snd].
    rewrite wagerData_applyLocal.
    rewrite (filter_all _ (refunds _ _ _ _ _ _ _))
      by apply refunds_related.
    reflexivity.
  - intros Hs Hl Hno. rewrite Hview.
    rewrite (cleanupOne_skip c w now _ db ch subs) by assumption.
    exact Hold.
Qed.

End WeekLock.
Lemma cleanup_on_week_lock_witness :
  wagerView lockExampleAfter "s1"
  = ([mkSideChallenge "s1" "c1" "w1" "ann" "bob" RESOLVED "HIGHER_WINS" None
        1 (Some 200) 1000 (Some 500) (Some "bob")
        (Some "Auto-resolved on week lock: Higher value wins: 1500 > 1000")],
     [mkLedgerData "c1" "ann" (Some "w1") (-1) SIDE_CHALLENGE_STAKE
                   (Some "s1");
      mkLedgerData "c1" "bob" (Some "w1") (-1) SIDE_CHALLENGE_STAKE
                   (Some "s1");
      mkLedgerData "c1" "bob" (Some "w1") 2 SIDE_CHALLENGE_WIN (Some "s1")])
  /\ wagerView lockExampleAfter "s3"
     = ([mkSideChallenge "s3" "c1" "w1" "ann" "bob" VOID "HIGHER_WINS" None 3
           None 1000 None None
           (Some "Voided due to week lock with incomplete submissions")],
        [mkLedgerData "c1" "ann" (Some "w1") (-3) SIDE_CHALLENGE_STAKE
                      (Some "s3");
         mkLedgerData "c1" "ann" (Some "w1") 3 SIDE_CHALLENGE_VOID_REFUND
                      (Some "s3")])
  /\ wagerData (snd (Routes.POST_void (H0 := exampleSchema) lockExample
                       (Some "ann") "c1" "w1" "s3" (JString "stale")))
               "s3"
     = wagerData lockExampleAfter "s3".
Proof.
  assert (Hids : NoDup (sc_id <$> sideChallenges lockExample))
    by (apply (bool_decide_unpack _); vm_compute; exact I).
  assert (Hin1 : reviewedWager ∈ sideChallenges lockExample)
    by (apply list_elem_of_In; simpl; tauto).
  assert (Hin3 : proposedWager ∈ sideChallenges lockExample)
    by (apply list_elem_of_In; simpl; tauto).
  assert (Hopen1 : stillOpen (sc_status reviewedWager))
    by (apply (bool_decide_unpack _); vm_compute; exact I).
  assert (Hopen3 : stillOpen (sc_status proposedWager))
    by (apply (bool_decide_unpack _); vm_compute; exact I).
  destruct (cleanup_on_week_lock (H := exampleFormat) (H0 := exampleSchema)
              lockExample "c1" "w1" 500 reviewedWager Hids Hin1 eq_refl
              eq_refl Hopen1) as (Hresolve & _).
  destruct (cleanup_on_week_lock (H := exampleFormat) (H0 := exampleSchema)
              lockExample "c1" "w1" 500 proposedWager Hids Hin3 eq_refl
              eq_refl Hopen3) as (_ & Hvoid & _).
  split.
  { exact (Hresolve (mkSubmission "s1" "ann" 1000)
             (mkSubmission "s1" "bob" 1500)
             (SideChallenges.mkWinnerCalculation SideChallenges.opponent
                "Higher value wins: 1500 > 1000" (Some "bob"))
             eq_refl eq_refl eq_refl eq_refl eq_refl). }
  destruct Hvoid as [Hview Hmanual]; [intros [Hs _]; discriminate Hs|].
  split; [exact Hview|].
  apply Hmanual. reflexivity.
Defined.

(** ** The wager handlers: errors, roles and balances *)

Lemma getTokenBalance_data (db : DB) (c u : Id) :
  Tokens.getTokenBalance db c u = credit (dataOf <$> tokenLedger db) c u.
Proof.
  unfold Tokens.getTokenBalance, credit.
  rewrite <- (filter_dataOf (fun d => ld_challengeId d = c
                                      /\ ld_userId d = u)).
  rewrite <- list_fmap_compose. reflexivity.
Qed.

Lemma credit_app (a b : list LedgerData) (c u : Id) :
  credit (a ++ b) c u = credit a c u + credit b c u.
Proof. unfold credit. rewrite filter_app, fmap_app, sumZ_app. reflexivity. Qed.

Lemma getTokenBalance_applyLocal (X : Id) (f : SideChallenge -> SideChallenge)
    (ds : list LedgerData) (ss : list SideChallengeSubmission) (db : DB)
    (c u : Id) :
  Tokens.getTokenBalance (applyLocal X f ds ss db) c u
  = Tokens.getTokenBalance db c u + credit ds c u.
Proof.
  destruct (ledger_applyLocal X f ds ss db) as (rows & Heq & Hdata & _).
  rewrite !getTokenBalance_data, Heq, fmap_app, credit_app, Hdata.
  reflexivity.
Qed.

Lemma staked_committed (db : DB) (c u : Id) :
  SideChallenges.staked (SideChallenges.getAvailableBalance db c u)
  = sumZ (sc_stakeTokens <$> committedWagers db c u).
Proof.
  simpl. set (open := filter _ (sideChallenges db)).
  transitivity
    (foldl (fun acc x =>
              if decide (sc_createdByUserId x = u
                         \/ acceptedStatus (sc_status x))
              then acc + sc_stakeTokens x else acc) 0 open).
  - apply foldl_pointwise. intros acc x. unfold acceptedStatus.
    repeat case_decide; try reflexivity; exfalso; tauto.
  - rewrite foldl_add_if, Z.add_0_l. f_equal. f_equal.
    unfold open, committedWagers. rewrite list_filter_filter.
    apply list_filter_iff. intros x. unfold stillOpen, acceptedStatus.
    tauto.
Qed.

Lemma balance_eq (db db' : DB) (c u : Id) :
  Tokens.getTokenBalance db' c u = Tokens.getTokenBalance db c u ->
  sumZ (sc_stakeTokens <$> committedWagers db' c u)
  = sumZ (sc_stakeTokens <$> committedWagers db c u) ->
  SideChallenges.getAvailableBalance db' c u
  = SideChallenges.getAvailableBalance db c u.
Proof.
  intros Ht Hs. rewrite <- !staked_committed in Hs.
  unfold SideChallenges.getAvailableBalance in *. cbn [SideChallenges.staked] in Hs.
  rewrite Ht, Hs. reflexivity.
Qed.

Lemma sumZ_filter_weight {A} (P : A -> Prop) `{forall x, Decision (P x)}
    (f : A -> Z) (l : list A) :
  sumZ (f <$> filter P l) = sumZ ((fun x => if decide (P x) then f x else 0) <$> l).
Proof.
  induction l as [|x l IH]; [reflexivity|].
  rewrite filter_cons, fmap_cons. cbn [sumZ].
  destruct (decide (P x)); [rewrite fmap_cons; cbn [sumZ]|]; lia.
Qed.

Lemma staked_weight (db : DB) (c u : Id) :
  SideChallenges.staked (SideChallenges.getAvailableBalance db c u)
  = sumZ (weight c u <$> sideChallenges db).
Proof.
  rewrite staked_committed. unfold committedWagers.
  rewrite sumZ_filter_weight. reflexivity.
Qed.

Lemma sumZ_update (X : Id) (f : SideChallenge -> SideChallenge)
    (g : SideChallenge -> Z) (l : list SideChallenge) :
  sumZ (g <$> ((fun x => if decide (sc_id x = X) then f x else x) <$> l))
  = sumZ (g <$> l)
    + sumZ ((fun x => g (f x) - g x) <$> filter (fun x => sc_id x = X) l).
Proof.
  induction l as [|x l IH]; [reflexivity|].
  rewrite !fmap_cons, filter_cons. cbn [sumZ]. rewrite IH.
  destruct (decide (sc_id x = X)); [rewrite fmap_cons; cbn [sumZ]|]; lia.
Qed.

Lemma balance_applyLocal (X : Id) (f : SideChallenge -> SideChallenge)
    (ds : list LedgerData) (ss : list SideChallengeSubmission) (db : DB)
    (c u : Id) :
  let b := SideChallenges.getAvailableBalance db c u in
  let b' := SideChallenges.getAvailableBalance (applyLocal X f ds ss db) c u in
  SideChallenges.total b' = SideChallenges.total b + credit ds c u
  /\ SideChallenges.staked b'
     = SideChallenges.staked b
       + sumZ ((fun x => weight c u (f x) - weight c u x)
                 <$> filter (fun x => sc_id x = X) (sideChallenges db))
  /\ SideChallenges.available b'
     = SideChallenges.total b' - SideChallenges.staked b'.
Proof.
  intros b b'.
  split; [apply getTokenBalance_applyLocal|].
  split; [|reflexivity].
  unfold b, b'. rewrite !staked_weight, sideChallenges_applyLocal.
  apply sumZ_update.
Qed.

Lemma balance_total_staked (b b' : SideChallenges.Balance) :
  SideChallenges.available b
  = SideChallenges.total b - SideChallenges.staked b ->
  SideChallenges.available b'
  = SideChallenges.total b' - SideChallenges.staked b' ->
  SideChallenges.total b' = SideChallenges.total b ->
  SideChallenges.staked b' = SideChallenges.staked b ->
  b' = b.
Proof.
  destruct b, b'. simpl. intros. f_equal; lia.
Qed.

Lemma weight_terminal (c u : Id) (x : SideChallenge) :
  terminal (sc_status x) -> weight c u x = 0.
Proof.
  intros Ht. unfold weight. rewrite decide_False; [reflexivity|].
  intros (_ & Hopen & _). unfold stillOpen in Hopen.
  rewrite !elem_of_cons, elem_of_nil in Hopen.
  destruct Ht as [Ht|[Ht|Ht]]; rewrite Ht in Hopen;
    destruct Hopen as [?|[?|[?|[]]]]; discriminate.
Qed.

Lemma rows_propose (l : list SideChallenge) (ch : SideChallenge) :
  sc_id ch = cuid (sc_id <$> l) ->
  filter (fun x => sc_id x = sc_id ch) (l ++ [ch]) = [ch].
Proof.
  intros Hid. rewrite filter_app, filter_cons_True by reflexivity.
  rewrite filter_none; [reflexivity|].
  apply Forall_forall. intros x Hx Heq.
  apply (cuid_fresh (sc_id <$> l)). rewrite <- Hid, <- Heq.
  apply list_elem_of_fmap. eauto.
Qed.

Lemma rows_applyLocal (X : Id) (f : SideChallenge -> SideChallenge)
    (ds : list LedgerData) (ss : list SideChallengeSubmission) (db : DB)
    (l : list SideChallenge) :
  (forall x, sc_id (f x) = sc_id x) ->
  filter (fun x => sc_id x = X) (sideChallenges db) = l ->
  filter (fun x => sc_id x = X) (sideChallenges (applyLocal X f ds ss db))
  = f <$> l.
Proof.
  intros Hf Hl. rewrite sideChallenges_applyLocal, filter_id_update
    by exact Hf.
  rewrite decide_True by reflexivity. rewrite Hl. reflexivity.
Qed.

Lemma balance_local_unique (X : Id) (f : SideChallenge -> SideChallenge)
    (ds : list LedgerData) (ss : list SideChallengeSubmission) (db : DB)
    (ch : SideChallenge) (c u : Id) :
  filter (fun x => sc_id x = X) (sideChallenges db) = [ch] ->
  let b := SideChallenges.getAvailableBalance db c u in
  let b' := SideChallenges.getAvailableBalance (applyLocal X f ds ss db) c u in
  SideChallenges.total b' = SideChallenges.total b + credit ds c u
  /\ SideChallenges.staked b'
     = SideChallenges.staked b + weight c u (f ch) - weight c u ch.
Proof.
  intros Hrow b b'.
  destruct (balance_applyLocal X f ds ss db c u) as (Ht & Hs & _).
  split; [exact Ht|]. fold b b' in Hs. rewrite Hs, Hrow. simpl. lia.
Qed.

Section HandlerFacts.
Context `{NumberFormat} `{Schema}.
Import SideChallenges Authorization Routes.

Ltac walk :=
  repeat match goal with
         | |- context [match ?x with _ => _ end] =>
             lazymatch x with
             | negb ?b => destruct b eqn:?
             | _ => destruct x eqn:?
             end; cbn [negb fst snd]
         | |- _ => progress cbv zeta
         end;
  try reflexivity; try discriminate.

(** X1.  A handler that answers with an error has written nothing: the
    store after propose, accept, decline, submit or void is the store
    before whenever the response is an error response, whatever its
    status. *)
Theorem error_response_writes_nothing (db : DB) (now : Time)
    (session : option Id) (c w X : Id) (body : ProposeBody)
    (value reason : JsonValue) :
  (forall st e, fst (POST_propose db now session c w body) = ErrorJson st e ->
     snd (POST_propose db now session c w body) = db)
  /\ (forall st e, fst (POST_accept db now session c w X) = ErrorJson st e ->
      snd (POST_accept db now session c w X) = db)
  /\ (forall st e, fst (POST_decline db session c w X) = ErrorJson st e ->
      snd (POST_decline db session c w X) = db)
  /\ (forall st e,
        fst (POST_submit db now session c w X value) = ErrorJson st e ->
        snd (POST_submit db now session c w X value) = db)
  /\ (forall st e, fst (POST_void db session c w X reason) = ErrorJson st e ->
      snd (POST_void db session c w X reason) = db).
Proof.
  repeat match goal with |- _ /\ _ => split end; intros st e.
  - unfold POST_propose. walk.
  - unfold POST_accept. walk.
  - unfold POST_decline. walk.
  - unfold POST_submit. walk.
  - unfold POST_void. walk.
Qed.

Lemma validateUserCanStake_valid (db : DB) (c u : Id) (S : Z) :
  valid (validateUserCanStake db c u S) = true
  <-> 0 < S <= available (getAvailableBalance db c u).
Proof.
  unfold validateUserCanStake.
  repeat case_decide; cbn [valid]; split; intros Hv;
    try discriminate; try reflexivity; lia.
Qed.

Lemma validateWeek_valid (db : DB) (w : Id) :
  valid (validateWeekForSideChallenge db w) = true
  <-> exists week, head (filter (fun x => w_id x = w) (weeks db)) = Some week
                   /\ w_status week <> LOCKED.
Proof.
  unfold validateWeekForSideChallenge.
  destruct (head _) as [week|]; [case_decide|]; cbn [valid]; split;
    try discriminate; try (intros (week' & Heq & Hst); simplify_eq);
    try reflexivity; try contradiction.
  intros _. exists week. auto.
Qed.

Lemma POST_propose_ok (db : DB) (now : Time) (session : option Id)
    (c w : Id) (body : ProposeBody) (ch : SideChallenge) :
  fst (POST_propose db now session c w body) = Json 201 ch ->
  exists u,
    session = Some u
    /\ ch = mkSideChallenge (cuid (sc_id <$> sideChallenges db)) c w u
              (pb_opponentUserId body) PROPOSED (pb_metricType body)
              (pb_targetValue body) (pb_stakeTokens body) None
              (default (now + 48 * 60 * 60 * 1000) (pb_expiresAt body))
              None None None
    /\ snd (POST_propose db now session c w body)
       = with_tokenLedger
           (ledgerCreateMany
              [stakeData c w (sc_id ch) u (pb_stakeTokens body)]
              (tokenLedger db))
           (with_sideChallenges (sideChallenges db ++ [ch]) db)
    /\ verifyParticipantAccess db c u = true
    /\ verifyParticipantAccess db c (pb_opponentUserId body) = true
    /\ pb_opponentUserId body <> u
    /\ valid (validateWeekForSideChallenge db w) = true
    /\ valid (validateUserCanStake db c u (pb_stakeTokens body)) = true.
Proof.
  unfold POST_propose. destruct session as [u|]; [|discriminate].
  destruct (decide (_ \/ _)); [discriminate|].
  destruct (decide (_ ∉ _)); [discriminate|].
  destruct (decide (_ /\ _)); [discriminate|].
  destruct (verifyParticipantAccess db c u) eqn:Hu; [|discriminate].
  destruct (decide (pb_opponentUserId body = u)) as [|Hne]; [discriminate|].
  destruct (verifyParticipantAccess db c (pb_opponentUserId body)) eqn:Ho;
    [|discriminate].
  cbn [negb]. cbv zeta.
  destruct (valid (validateWeekForSideChallenge db w)) eqn:Hw;
    [|discriminate].
  destruct (valid (validateUserCanStake db c u (pb_stakeTokens body)))
    eqn:Hs; [|discriminate].
  cbn [negb]. destruct (head _); [discriminate|].
  cbn [fst snd]. intros Hok. inversion Hok as [Hch]. clear Hok.
  exists u. split; [reflexivity|].
  split; [destruct (pb_expiresAt body); reflexivity|].
  split; [destruct (pb_expiresAt body); reflexivity|]. auto.
Qed.

Lemma balance_propose (db : DB) (ch : SideChallenge) (ds : list LedgerData)
    (c u : Id) :
  let db' := with_tokenLedger (ledgerCreateMany ds (tokenLedger db))
               (with_sideChallenges (sideChallenges db ++ [ch]) db) in
  total (getAvailableBalance db' c u)
  = total (getAvailableBalance db c u) + credit ds c u
  /\ staked (getAvailableBalance db' c u)
     = staked (getAvailableBalance db c u) + weight c u ch.
Proof.
  intros db'. split.
  - cbn [getAvailableBalance total]. rewrite !getTokenBalance_data.
    unfold db'. cbn [tokenLedger with_tokenLedger].
    destruct (ledgerCreateMany_spec ds (tokenLedger db))
      as (rows & -> & Hdata & _).
    rewrite fmap_app, credit_app, Hdata. reflexivity.
  - rewrite !staked_weight. unfold db'.
    cbn [sideChallenges with_tokenLedger with_sideChallenges].
    rewrite fmap_app, sumZ_app. simpl. lia.
Qed.

(** X2.  A proposal that is answered 201 was made by a participant with
    a positive stake S within their available balance; it appends one
    PROPOSED wager from the proposer against the named opponent, with a
    new id, and one ledger row that debits the proposer S.  The
    proposer's balance total falls by S and their staked amount rises by
    S, so their available balance falls by 2 S; every other balance, of
    another user or in another competition, is as before. *)
Theorem propose_commits_the_stake (db : DB) (now : Time) (u c w : Id)
    (body : ProposeBody) (ch : SideChallenge) :
  fst (POST_propose db now (Some u) c w body) = Json 201 ch ->
  let db' := snd (POST_propose db now (Some u) c w body) in
  let S := pb_stakeTokens body in
  let before := getAvailableBalance db c u in
  let after := getAvailableBalance db' c u in
  0 < S <= available before
  /\ sideChallenges db' = sideChallenges db ++ [ch]
  /\ (sc_id ch ∉ sc_id <$> sideChallenges db)
  /\ (sc_status ch = PROPOSED /\ sc_challengeId ch = c /\ sc_weekId ch = w
      /\ sc_createdByUserId ch = u
      /\ sc_opponentUserId ch = pb_opponentUserId body
      /\ sc_opponentUserId ch <> u /\ sc_stakeTokens ch = S)
  /\ (dataOf <$> tokenLedger db')
     = (dataOf <$> tokenLedger db) ++ [stakeData c w (sc_id ch) u S]
  /\ total after = total before - S
  /\ staked after = staked before + S
  /\ available after = available before - 2 * S
  /\ (forall c' v, c' <> c \/ v <> u ->
      getAvailableBalance db' c' v = getAvailableBalance db c' v).
Proof.
  intros Hok. cbv zeta.
  apply POST_propose_ok in Hok
    as (u' & Hu & Hch & Hdb & _ & _ & Hne & _ & Hstake).
  simplify_eq. apply validateUserCanStake_valid in Hstake.
  set (ch := mkSideChallenge _ _ _ _ _ _ _ _ _ _ _ _ _ _) in *.
  set (S := pb_stakeTokens body) in *.
  assert (Hw : weight c u' ch = S).
  { unfold weight. rewrite decide_True; [reflexivity|].
    split; [reflexivity|]. split; [|left; reflexivity].
    unfold stillOpen. simpl. left. }
  assert (Hc : credit [stakeData c w (sc_id ch) u' S] c u' = - S).
  { unfold credit. rewrite filter_cons_True by (split; reflexivity).
    simpl. lia. }
  destruct (balance_propose db ch [stakeData c w (sc_id ch) u' S] c u')
    as [Htotal Hstaked].
  rewrite Hdb. rewrite Hw in Hstaked. rewrite Hc in Htotal.
  split; [exact Hstake|]. split; [reflexivity|].
  split; [apply cuid_fresh|].
  split; [repeat split; exact Hne|].
  split.
  { cbn [tokenLedger with_tokenLedger].
    destruct (ledgerCreateMany_spec [stakeData c w (sc_id ch) u' S]
                (tokenLedger db)) as (rows & -> & Hdata & _).
    rewrite fmap_app, Hdata. reflexivity. }
  split; [lia|]. split; [lia|].
  split.
  { change (available ?b) with (total b - staked b). lia. }
  intros c' v Hother.
  destruct (balance_propose db ch [stakeData c w (sc_id ch) u' S] c' v)
    as [Ht Hs].
  apply balance_total_staked; try reflexivity.
  - rewrite Ht. unfold credit.
    rewrite filter_cons_False; [simpl; lia|].
    simpl. intros [? ?]. destruct Hother; congruence.
  - rewrite Hs. unfold weight. rewrite decide_False; [lia|].
    intros (Hcc & _ & [Hcr|[Hop Hacc]]).
    + simpl in Hcc, Hcr. destruct Hother; congruence.
    + destruct Hacc as [Hacc|Hacc]; discriminate Hacc.
Qed.

Lemma getSideChallengeById_row (db : DB) (X : Id) :
  getSideChallengeById db X
  = (fun ch => mkDetails ch (numberOrNull (sc_targetValue ch))
                         (submissionsOf db X)) <$> findWager db X.
Proof.
  unfold getSideChallengeById, findWager. destruct (head _); reflexivity.
Qed.

Lemma findWager_Some (db : DB) (X : Id) (ch : SideChallenge) :
  findWager db X = Some ch -> ch ∈ sideChallenges db /\ sc_id ch = X.
Proof.
  unfold findWager. intros Hh. apply head_filter_Some in Hh. exact Hh.
Qed.

Lemma findWager_applyLocal (X Y : Id) (f : SideChallenge -> SideChallenge)
    (ds : list LedgerData) (ss : list SideChallengeSubmission) (db : DB) :
  (forall x, sc_id (f x) = sc_id x) ->
  findWager (applyLocal X f ds ss db) Y
  = if decide (Y = X) then f <$> findWager db Y else findWager db Y.
Proof.
  intros Hf. unfold findWager.
  rewrite sideChallenges_applyLocal, filter_id_update by exact Hf.
  destruct (decide (Y = X)); [|reflexivity].
  destruct (filter _ (sideChallenges db)); reflexivity.
Qed.

Lemma POST_accept_ok (db : DB) (now : Time) (session : option Id)
    (c w X : Id) :
  fst (POST_accept db now session c w X) = Json 200 () ->
  exists ch u,
    session = Some u /\ findWager db X = Some ch
    /\ sc_opponentUserId ch = u /\ sc_status ch = PROPOSED
    /\ now <= sc_expiresAt ch
    /\ 0 < sc_stakeTokens ch <= available (getAvailableBalance db c u)
    /\ snd (POST_accept db now session c w X)
       = applyLocal X (setAccepted now)
           [stakeData c w X u (sc_stakeTokens ch)] [] db.
Proof.
  unfold POST_accept. destruct session as [u|]; [|discriminate].
  rewrite getSideChallengeById_row.
  destruct (findWager db X) as [ch|] eqn:Hch; [|discriminate].
  cbn [fmap option_fmap option_map row].
  destruct (decide (sc_opponentUserId ch <> u)) as [|Ho]; [discriminate|].
  destruct (decide (sc_status ch <> PROPOSED)) as [|Hs]; [discriminate|].
  destruct (decide (sc_expiresAt ch < now)) as [|He]; [discriminate|].
  destruct (valid _) eqn:Hv; [|discriminate].
  intros _. exists ch, u.
  apply validateUserCanStake_valid in Hv.
  apply dec_stable in Ho, Hs.
  repeat split; try assumption; try lia; reflexivity.
Qed.

Lemma POST_decline_ok (db : DB) (session : option Id) (c w X : Id) :
  fst (POST_decline db session c w X) = Json 200 () ->
  exists ch u,
    session = Some u /\ findWager db X = Some ch
    /\ sc_opponentUserId ch = u /\ sc_status ch = PROPOSED
    /\ snd (POST_decline db session c w X)
       = applyLocal X (setStatusNote DECLINED "Declined by opponent")
           (refunds c w X (sc_createdByUserId ch) (sc_opponentUserId ch)
                    (sc_stakeTokens ch) false)
           [] db.
Proof.
  unfold POST_decline. destruct session as [u|]; [|discriminate].
  rewrite getSideChallengeById_row.
  destruct (findWager db X) as [ch|] eqn:Hch; [|discriminate].
  cbn [fmap option_fmap option_map row].
  destruct (decide (sc_opponentUserId ch <> u)) as [|Ho]; [discriminate|].
  destruct (decide (sc_status ch <> PROPOSED)) as [|Hs]; [discriminate|].
  intros _. exists ch, u. apply dec_stable in Ho, Hs.
  repeat split; assumption.
Qed.

Lemma POST_void_success (db : DB) (session : option Id) (c w X : Id)
    (reason : JsonValue) :
  fst (POST_void db session c w X reason) = Json 200 () ->
  exists ch u text,
    session = Some u /\ reason = JString text /\ isBlank text = false
    /\ verifyOrganizer db c u = true
    /\ findWager db X = Some ch /\ ~ terminal (sc_status ch)
    /\ snd (POST_void db session c w X reason)
       = applyLocal X
           (setStatusNote VOID ("Voided by organizer: " +:+ text))
           (refunds c w X (sc_createdByUserId ch) (sc_opponentUserId ch)
                    (sc_stakeTokens ch) (wasAccepted (sc_status ch)))
           [] db.
Proof.
  unfold POST_void. destruct session as [u|]; [|discriminate].
  destruct reason as [| |b|x|text|]; try discriminate.
  destruct (isBlank text) eqn:Hb; [discriminate|].
  destruct (verifyOrganizer db c u) eqn:Hv; [|discriminate].
  cbn [negb]. rewrite getSideChallengeById_row.
  destruct (findWager db X) as [ch|] eqn:Hch; [|discriminate].
  cbn [fmap option_fmap option_map row].
  destruct (decide (sc_status ch = RESOLVED)) as [|H1]; [discriminate|].
  destruct (decide (sc_status ch = VOID)) as [|H2]; [discriminate|].
  destruct (decide (sc_status ch = DECLINED)) as [|H3]; [discriminate|].
  intros _. exists ch, u, text.
  repeat split; try assumption.
  all: try (unfold terminal; tauto).
  all: cbn [fst snd]; rewrite void_tokens_eq; reflexivity.
Qed.

Lemma POST_submit_ok (db : DB) (now : Time) (session : option Id)
    (c w X : Id) (value : JsonValue) (result : SubmitResult) :
  fst (POST_submit db now session c w X value) = Json 200 result ->
  exists ch u v f ds,
    session = Some u /\ value = JNumber v /\ (0 <= v)%Q
    /\ findWager db X = Some ch
    /\ (u = sc_createdByUserId ch \/ u = sc_opponentUserId ch)
    /\ sc_status ch = ACCEPTED
    /\ hasUserSubmitted db X u = false
    /\ snd (POST_submit db now session c w X value)
       = applyLocal X f ds [mkSubmission X u v] db
    /\ ((f = (fun x => x) /\ ds = [] /\ sr_resolution result = None)
        \/ exists r,
             sr_resolution result = Some r
             /\ f = setResolved (winnerUserId r) now
                      ("Auto-resolved: " +:+ reason r)
             /\ ds = settlement c w X (winnerUserId r)
                       (sc_createdByUserId ch) (sc_opponentUserId ch)
                       (sc_stakeTokens ch)).
Proof.
  unfold POST_submit. destruct session as [u|]; [|discriminate].
  destruct value as [| |b|v|text|]; try discriminate.
  destruct (Qltb v 0) eqn:Hv; [discriminate|].
  apply Qltb_ge in Hv.
  rewrite getSideChallengeById_row.
  destruct (findWager db X) as [ch|] eqn:Hch; [|discriminate].
  cbn [fmap option_fmap option_map row targetValue].
  destruct (bool_decide (sc_createdByUserId ch = u)
            || bool_decide (sc_opponentUserId ch = u)) eqn:Hparty;
    [|discriminate].
  cbn [negb].
  destruct (decide (sc_status ch <> ACCEPTED)) as [|Hstatus];
    [discriminate|].
  destruct (hasUserSubmitted db X u) eqn:Hsub; [discriminate|].
  set (tx := with_submissions _ db).
  assert (Hkeep : tx = applyLocal X (fun c => c) [] [mkSubmission X u v] db).
  { rewrite applyLocal_keep. reflexivity. }
  assert (Hu : u = sc_createdByUserId ch \/ u = sc_opponentUserId ch).
  { apply orb_true_iff in Hparty as [Hp|Hp];
      apply bool_decide_eq_true in Hp; auto. }
  apply dec_stable in Hstatus.
  assert (Hfirst : forall res : SubmitResult,
            sr_resolution res = None ->
            exists ch' u' v' f ds,
              Some u = Some u' /\ JNumber v = JNumber v' /\ (0 <= v')%Q
              /\ Some ch = Some ch'
              /\ (u' = sc_createdByUserId ch' \/ u' = sc_opponentUserId ch')
              /\ sc_status ch' = ACCEPTED
              /\ hasUserSubmitted db X u' = false
              /\ tx = applyLocal X f ds [mkSubmission X u' v'] db
              /\ ((f = (fun x => x) /\ ds = [] /\ sr_resolution res = None)
                  \/ exists r,
                       sr_resolution res = Some r
                       /\ f = setResolved (winnerUserId r) now
                                ("Auto-resolved: " +:+ reason r)
                       /\ ds = settlement c w X (winnerUserId r)
                                 (sc_createdByUserId ch')
                                 (sc_opponentUserId ch')
                                 (sc_stakeTokens ch'))).
  { intros res Hres. exists ch, u, v, (fun x => x), [].
    repeat (split; [first [reflexivity | assumption]|]).
    left. auto. }
  destruct (decide (length (submissionsOf tx X) = 2%nat)) as [Hlen|Hlen].
  - destruct (head (filter (fun s => sub_userId s = sc_createdByUserId ch)
                           (submissionsOf tx X))) as [cs|];
      [destruct (head (filter (fun s => sub_userId s = sc_opponentUserId ch)
                              (submissionsOf tx X))) as [os|]|].
    + destruct (calculateWinner _ _ _ _ _ _) as [r|msg] eqn:Hr;
        [|discriminate].
      cbn [fst snd]. intros Hok. inversion Hok. subst result.
      exists ch, u, v,
        (setResolved (winnerUserId r) now ("Auto-resolved: " +:+ reason r)),
        (settlement c w X (winnerUserId r) (sc_createdByUserId ch)
           (sc_opponentUserId ch) (sc_stakeTokens ch)).
      repeat (split; [first [reflexivity | assumption]|]).
      split.
      * rewrite resolve_tokens_eq. reflexivity.
      * right. exists r. auto.
    + cbn [fst snd]. intros Hok. inversion Hok. apply Hfirst. reflexivity.
    + cbn [fst snd]. intros Hok. inversion Hok. apply Hfirst. reflexivity.
  - cbn [fst snd]. intros Hok. inversion Hok. apply Hfirst. reflexivity.
Qed.

(** X3.  Who may do what, and when.  An accept or a decline that is
    answered 200 came from the opponent of a wager that was PROPOSED (and,
    for an accept, had not expired); a submit that is answered 200 came
    from one of the two parties of an ACCEPTED wager who had not submitted
    before; a void that is answered 200 came from the organizer of the
    competition in the URL, for a wager that was not yet RESOLVED, DECLINED
    or VOID. *)
Theorem success_requires_role (db : DB) (now : Time) (session : option Id)
    (c w X : Id) (value reason : JsonValue) :
  (fst (POST_accept db now session c w X) = Json 200 () ->
     exists ch, findWager db X = Some ch
                /\ session = Some (sc_opponentUserId ch)
                /\ sc_status ch = PROPOSED /\ now <= sc_expiresAt ch)
  /\ (fst (POST_decline db session c w X) = Json 200 () ->
      exists ch, findWager db X = Some ch
                 /\ session = Some (sc_opponentUserId ch)
                 /\ sc_status ch = PROPOSED)
  /\ (forall result,
        fst (POST_submit db now session c w X value) = Json 200 result ->
        exists ch u, findWager db X = Some ch /\ session = Some u
                     /\ (u = sc_createdByUserId ch
                         \/ u = sc_opponentUserId ch)
                     /\ sc_status ch = ACCEPTED
                     /\ hasUserSubmitted db X u = false)
  /\ (fst (POST_void db session c w X reason) = Json 200 () ->
      exists ch u, findWager db X = Some ch /\ session = Some u
                   /\ verifyOrganizer db c u = true
                   /\ ~ terminal (sc_status ch)).
Proof.
  repeat match goal with |- _ /\ _ => split end.
  - intros Hok.
    apply POST_accept_ok in Hok as (ch & u & -> & Hch & <- & Hs & He & _).
    exists ch. auto.
  - intros Hok.
    apply POST_decline_ok in Hok as (ch & u & -> & Hch & <- & Hs & _).
    exists ch. auto.
  - intros result Hok.
    apply POST_submit_ok in Hok
      as (ch & u & v & f & ds & -> & _ & _ & Hch & Hu & Hs & Hsub & _).
    exists ch, u. auto.
  - intros Hok.
    apply POST_void_success in Hok
      as (ch & u & text & -> & _ & _ & Hv & Hch & Ht & _).
    exists ch, u. auto.
Qed.

Ltac sum_rows :=
  unfold credit, refunds, settlement, stakeData;
  rewrite ?filter_cons, ?filter_nil;
  cbn [ld_challengeId ld_userId ld_delta];
  repeat case_decide; cbn [fmap list_fmap sumZ ld_delta]; try lia.

(** X4.  A proposal that the opponent declines costs nobody anything:
    after a proposal answered 201 and, later, a decline of that wager
    answered 200 under the same competition, the wager is DECLINED and
    every balance of every user (total, staked and available, in every
    competition) is what it was before the proposal. *)
Theorem propose_then_decline_restores_balances (db : DB) (now : Time)
    (u o c w w2 : Id) (body : ProposeBody) (ch : SideChallenge) :
  fst (POST_propose db now (Some u) c w body) = Json 201 ch ->
  let db1 := snd (POST_propose db now (Some u) c w body) in
  fst (POST_decline db1 (Some o) c w2 (sc_id ch)) = Json 200 () ->
  let db2 := snd (POST_decline db1 (Some o) c w2 (sc_id ch)) in
  findWager db2 (sc_id ch)
  = Some (setStatusNote DECLINED "Declined by opponent" ch)
  /\ forall c' v, getAvailableBalance db2 c' v = getAvailableBalance db c' v.
Proof.
  intros Hp. cbv zeta.
  apply POST_propose_ok in Hp
    as (u' & Hu & Hch & Hdb1 & _ & _ & _ & _ & _).
  injection Hu as <-.
  set (db1 := snd (POST_propose db now (Some u) c w body)) in *.
  intros Hd.
  assert (Hrow : filter (fun x => sc_id x = sc_id ch) (sideChallenges db1)
                 = [ch]).
  { rewrite Hdb1. apply rows_propose. rewrite Hch. reflexivity. }
  apply POST_decline_ok in Hd as (ch' & o' & Ho & Hfind & _ & _ & Hdb2).
  set (db2 := snd (POST_decline db1 (Some o) c w2 (sc_id ch))) in *.
  assert (ch' = ch).
  { unfold findWager in Hfind. rewrite Hrow in Hfind.
    injection Hfind as <-. reflexivity. }
  subst ch'. split.
  - rewrite Hdb2, findWager_applyLocal by reflexivity.
    rewrite decide_True by reflexivity. rewrite Hfind. reflexivity.
  - intros c' v.
    destruct (balance_propose db ch
                [stakeData c w (sc_id ch) u (pb_stakeTokens body)] c' v)
      as [Ht1 Hs1].
    rewrite <- Hdb1 in Ht1, Hs1.
    destruct (balance_local_unique (sc_id ch)
                (setStatusNote DECLINED "Declined by opponent")
                (refunds c w2 (sc_id ch) (sc_createdByUserId ch)
                   (sc_opponentUserId ch) (sc_stakeTokens ch) false)
                [] db1 ch c' v Hrow) as [Ht2 Hs2].
    rewrite <- Hdb2 in Ht2, Hs2.
    apply balance_total_staked; try reflexivity.
    + assert (Hcr : sc_createdByUserId ch = u) by (rewrite Hch; reflexivity).
      assert (Hst : sc_stakeTokens ch = pb_stakeTokens body)
        by (rewrite Hch; reflexivity).
      rewrite Ht2, Ht1, Hcr, Hst. sum_rows.
    + rewrite Hs2, Hs1.
      rewrite (weight_terminal c' v (setStatusNote DECLINED _ ch));
        [lia|]. right. left. reflexivity.
Qed.

(** X5.  Voiding an accepted wager refunds both sides in full: after a
    proposal answered 201, an accept of that wager answered 200 and a void
    of it by the organizer answered 200, all under the same competition,
    the wager is VOID and every balance of every user is what it was
    before the proposal. *)
Theorem accept_then_void_restores_balances (db : DB) (now now2 : Time)
    (u o g c w w2 w3 : Id) (body : ProposeBody) (ch : SideChallenge)
    (reason : JsonValue) :
  fst (POST_propose db now (Some u) c w body) = Json 201 ch ->
  let db1 := snd (POST_propose db now (Some u) c w body) in
  fst (POST_accept db1 now2 (Some o) c w2 (sc_id ch)) = Json 200 () ->
  let db2 := snd (POST_accept db1 now2 (Some o) c w2 (sc_id ch)) in
  fst (POST_void db2 (Some g) c w3 (sc_id ch) reason) = Json 200 () ->
  let db3 := snd (POST_void db2 (Some g) c w3 (sc_id ch) reason) in
  (exists row, findWager db3 (sc_id ch) = Some row /\ sc_status row = VOID
               /\ sc_acceptedAt row = Some now2)
  /\ total (getAvailableBalance db2 c o)
     = total (getAvailableBalance db c o) - pb_stakeTokens body
  /\ forall c' v, getAvailableBalance db3 c' v = getAvailableBalance db c' v.
Proof.
  intros Hp. cbv zeta.
  apply POST_propose_ok in Hp
    as (u' & Hu & Hch & Hdb1 & _ & _ & Hne & _ & _).
  injection Hu as <-.
  set (db1 := snd (POST_propose db now (Some u) c w body)) in *.
  intros Ha.
  assert (Hrow1 : filter (fun x => sc_id x = sc_id ch) (sideChallenges db1)
                  = [ch]).
  { rewrite Hdb1. apply rows_propose. rewrite Hch. reflexivity. }
  apply POST_accept_ok in Ha
    as (ch1 & o' & Ho & Hfind1 & Hopp & _ & _ & _ & Hdb2).
  injection Ho as <-.
  set (db2 := snd (POST_accept db1 now2 (Some o) c w2 (sc_id ch))) in *.
  assert (ch1 = ch).
  { unfold findWager in Hfind1. rewrite Hrow1 in Hfind1.
    injection Hfind1 as <-. reflexivity. }
  subst ch1.
  assert (Hrow2 : filter (fun x => sc_id x = sc_id ch) (sideChallenges db2)
                  = [setAccepted now2 ch]).
  { rewrite Hdb2. erewrite rows_applyLocal; [|reflexivity|exact Hrow1].
    reflexivity. }
  intros Hv.
  apply POST_void_success in Hv
    as (ch2 & g' & text & _ & _ & _ & _ & Hfind2 & _ & Hdb3).
  set (db3 := snd (POST_void db2 (Some g) c w3 (sc_id ch) reason)) in *.
  assert (ch2 = setAccepted now2 ch).
  { unfold findWager in Hfind2. rewrite Hrow2 in Hfind2.
    injection Hfind2 as <-. reflexivity. }
  subst ch2.
  assert (Hcr : sc_createdByUserId ch = u) by (rewrite Hch; reflexivity).
  assert (Hop : sc_opponentUserId ch = pb_opponentUserId body)
    by (rewrite Hch; reflexivity).
  assert (Hst : sc_stakeTokens ch = pb_stakeTokens body)
    by (rewrite Hch; reflexivity).
  assert (Hbal : forall c' v,
            total (getAvailableBalance db2 c' v)
            = total (getAvailableBalance db c' v)
              + credit [stakeData c w (sc_id ch) u (pb_stakeTokens body);
                        stakeData c w2 (sc_id ch) o (pb_stakeTokens body)]
                       c' v
            /\ staked (getAvailableBalance db2 c' v)
               = staked (getAvailableBalance db c' v)
                 + weight c' v (setAccepted now2 ch)).
  { intros c' v.
    destruct (balance_propose db ch
                [stakeData c w (sc_id ch) u (pb_stakeTokens body)] c' v)
      as [Ht1 Hs1].
    rewrite <- Hdb1 in Ht1, Hs1.
    destruct (balance_local_unique (sc_id ch) (setAccepted now2)
                [stakeData c w2 (sc_id ch) o (sc_stakeTokens ch)]
                [] db1 ch c' v Hrow1) as [Ht2 Hs2].
    rewrite <- Hdb2 in Ht2, Hs2. rewrite Hst in Ht2.
    split; [|lia]. rewrite Ht2, Ht1.
    change [?a; ?b] with ([a] ++ [b]). rewrite credit_app. lia. }
  split; [|split].
  - eexists. split.
    + rewrite Hdb3, findWager_applyLocal by reflexivity.
      rewrite decide_True by reflexivity. rewrite Hfind2. reflexivity.
    + split; reflexivity.
  - destruct (Hbal c o) as [Ht _]. rewrite Ht.
    rewrite <- Hopp, Hop in *. sum_rows; exfalso; intuition congruence.
  - intros c' v. destruct (Hbal c' v) as [Ht2 Hs2].
    destruct (balance_local_unique (sc_id ch)
                (setStatusNote VOID ("Voided by organizer: " +:+ text))
                (refunds c w3 (sc_id ch)
                   (sc_createdByUserId (setAccepted now2 ch))
                   (sc_opponentUserId (setAccepted now2 ch))
                   (sc_stakeTokens (setAccepted now2 ch))
                   (wasAccepted (sc_status (setAccepted now2 ch))))
                [] db2 (setAccepted now2 ch) c' v Hrow2) as [Ht3 Hs3].
    rewrite <- Hdb3 in Ht3, Hs3.
    apply balance_total_staked; try reflexivity.
    + rewrite Ht3, Ht2.
      cbn [setAccepted sc_createdByUserId sc_opponentUserId sc_stakeTokens
           sc_status].
      change (wasAccepted ACCEPTED) with true.
      rewrite Hcr, Hst, <- Hopp. sum_rows.
    + rewrite Hs3, Hs2.
      rewrite (weight_terminal c' v (setStatusNote VOID _ _));
        [lia|]. right. right. reflexivity.
Qed.







End HandlerFacts.

Lemma lifecycle_proposal :
  fst (Routes.POST_propose (H := exampleFormat) lifecycleAwarded 100
         (Some "ann") "c1" "w1" lifecycleBody)
  = Json 201 lifecycleWager.
Proof. vm_compute. reflexivity. Defined.

Lemma propose_commits_the_stake_witness :
  SideChallenges.available
    (SideChallenges.getAvailableBalance lifecycleProposed "c1" "ann")
  = SideChallenges.available
      (SideChallenges.getAvailableBalance lifecycleAwarded "c1" "ann")
    - 2 * 1.
Proof.
  destruct (propose_commits_the_stake (H := exampleFormat) lifecycleAwarded
              100 "ann" "c1" "w1" lifecycleBody lifecycleWager
              lifecycle_proposal)
    as (_ & _ & _ & _ & _ & _ & _ & Hav & _).
  exact Hav.
Defined.

Lemma propose_then_decline_restores_balances_witness :
  SideChallenges.getAvailableBalance
    (snd (Routes.POST_decline (H0 := exampleSchema) lifecycleProposed
            (Some "bob") "c1" "w1" "c"))
    "c1" "ann"
  = SideChallenges.getAvailableBalance lifecycleAwarded "c1" "ann".
Proof.
  assert (Hd : fst (Routes.POST_decline (H0 := exampleSchema)
                      lifecycleProposed (Some "bob") "c1" "w1" "c")
               = Json 200 ()) by (vm_compute; reflexivity).
  destruct (propose_then_decline_restores_balances (H := exampleFormat)
              (H0 := exampleSchema) lifecycleAwarded 100 "ann" "bob" "c1"
              "w1" "w1" lifecycleBody lifecycleWager lifecycle_proposal Hd)
    as [_ Hbal].
  exact (Hbal "c1" "ann").
Defined.

Lemma accept_then_void_restores_balances_witness :
  SideChallenges.getAvailableBalance
    (snd (Routes.POST_void (H0 := exampleSchema) lifecycleAccepted
            (Some "ann") "c1" "w1" "c" (JString "called off")))
    "c1" "bob"
  = SideChallenges.getAvailableBalance lifecycleAwarded "c1" "bob".
Proof.
  assert (Ha : fst (Routes.POST_accept (H := exampleFormat)
                      (H0 := exampleSchema) lifecycleProposed 200
                      (Some "bob") "c1" "w1" "c")
               = Json 200 ()) by (vm_compute; reflexivity).
  assert (Hv : fst (Routes.POST_void (H0 := exampleSchema) lifecycleAccepted
                      (Some "ann") "c1" "w1" "c" (JString "called off"))
               = Json 200 ()) by (vm_compute; reflexivity).
  destruct (accept_then_void_restores_balances (H := exampleFormat)
              (H0 := exampleSchema) lifecycleAwarded 100 200 "ann" "bob"
              "ann" "c1" "w1" "w1" "w1" lifecycleBody lifecycleWager
              (JString "called off") lifecycle_proposal Ha Hv)
    as (_ & _ & Hbal).
  exact (Hbal "c1" "bob").
Defined.

(** ** What no step undoes *)

Section Lasting.
Context `{NumberFormat} `{Schema}.
Import SideChallenges Authorization Routes.

Lemma applyLocal_tables (X : Id) (f : SideChallenge -> SideChallenge)
    (ds : list LedgerData) (ss : list SideChallengeSubmission) (db : DB) :
  (forall x, sc_id (f x) = sc_id x) ->
  (exists rows, tokenLedger (applyLocal X f ds ss db)
                = tokenLedger db ++ rows
                /\ dataOf <$> rows = ds)
  /\ sideChallengeSubmissions (applyLocal X f ds ss db)
     = sideChallengeSubmissions db ++ ss
  /\ (sc_id <$> sideChallenges (applyLocal X f ds ss db))
     = sc_id <$> sideChallenges db.
Proof.
  intros Hf. split; [|split].
  - destruct (ledger_applyLocal X f ds ss db) as (rows & Heq & Hdata & _).
    exists rows. auto.
  - apply submissions_applyLocal.
  - rewrite sideChallenges_applyLocal, <- list_fmap_compose.
    apply list_fmap_ext. intros i x _. simpl.
    case_decide; [apply Hf | reflexivity].
Qed.

Lemma cleanup_fold_tables (c w : Id) (now : Time)
    (items : list (SideChallenge * list SideChallengeSubmission)) :
  forall counts db,
    let db' := snd (foldl (cleanupOne c w now) (counts, db) items) in
    (exists rows, tokenLedger db' = tokenLedger db ++ rows)
    /\ sideChallengeSubmissions db' = sideChallengeSubmissions db
    /\ (sc_id <$> sideChallenges db') = sc_id <$> sideChallenges db.
Proof.
  induction items as [|[ch subs] items IH]; intros counts db.
  - simpl. split; [exists []; rewrite app_nil_r; reflexivity|]. auto.
  - cbn [foldl].
    destruct (cleanupOne_shape c w now ch subs) as (o & Ho & Hprops).
    specialize (Ho counts db).
    destruct (cleanupOne c w now (counts, db) (ch, subs)) as [counts1 db1].
    cbn [snd] in Ho.
    specialize (IH counts1 db1). cbv zeta in IH.
    destruct IH as ((rows & Hl) & Hs & Hids).
    assert (Hstep : (exists rows1, tokenLedger db1 = tokenLedger db ++ rows1)
                    /\ sideChallengeSubmissions db1
                       = sideChallengeSubmissions db
                    /\ (sc_id <$> sideChallenges db1)
                       = sc_id <$> sideChallenges db).
    { rewrite Ho. destruct o as [[f ds]|].
      - destruct (Hprops f ds eq_refl) as [Hf _].
        destruct (applyLocal_tables (sc_id ch) f ds [] db Hf)
          as ((rows1 & Hl1 & _) & Hs1 & Hids1).
        rewrite app_nil_r in Hs1. split; [eauto|]. auto.
      - split; [exists []; rewrite app_nil_r; reflexivity|]. auto. }
    destruct Hstep as ((rows1 & Hl1) & Hs1 & Hids1).
    split; [|split].
    + exists (rows1 ++ rows). rewrite Hl, Hl1, app_assoc. reflexivity.
    + congruence.
    + congruence.
Qed.

(** X7.  The wager handlers, the week-lock cleanup and the perfect-week
    award only ever add to the ledger: after a call of any of them, the
    ledger is the ledger before followed by the new rows, so no row is
    deleted, reordered or rewritten. *)
Theorem ledger_is_append_only (db : DB) (now : Time) (session : option Id)
    (c w X : Id) (body : ProposeBody) (value reason : JsonValue) :
  let grows db' := exists rows, tokenLedger db' = tokenLedger db ++ rows in
  grows (snd (POST_propose db now session c w body))
  /\ grows (snd (POST_accept db now session c w X))
  /\ grows (snd (POST_decline db session c w X))
  /\ grows (snd (POST_submit db now session c w X value))
  /\ grows (snd (POST_void db session c w X reason))
  /\ grows (snd (cleanupSideChallengesOnWeekLock db c w now))
  /\ grows (snd (Tokens.awardPerfectWeekTokensSafe db c w)).
Proof.
  intros grows.
  assert (Hsame : grows db) by (exists []; rewrite app_nil_r; reflexivity).
  assert (Hlocal : forall Y f ds ss, grows (applyLocal Y f ds ss db)).
  { intros Y f ds ss.
    destruct (ledger_applyLocal Y f ds ss db) as (rows & Heq & _).
    exists rows. exact Heq. }
  repeat match goal with |- _ /\ _ => split end.
  - destruct (POST_propose_cases db now session c w body)
      as [->|(u & expires & _ & _ & ->)]; [exact Hsame|].
    cbn [tokenLedger with_tokenLedger].
    match goal with
    | |- context [ledgerCreateMany ?ds ?l] =>
        destruct (ledgerCreateMany_spec ds l) as (rows & Heq & _)
    end.
    exists rows. exact Heq.
  - destruct (POST_accept_cases db now session c w X)
      as [->|(ch & u & _ & _ & _ & _ & _ & ->)]; [exact Hsame|apply Hlocal].
  - destruct (POST_decline_cases db session c w X) as [->|Hd];
      [exact Hsame|].
    destruct Hd as (ch & u & Hd).
    repeat match type of Hd with _ /\ _ => destruct Hd as [_ Hd] end.
    rewrite Hd. apply Hlocal.
  - destruct (POST_submit_cases db now session c w X value)
      as [->|(ch & u & v & _ & _ & _ & _ & _ & _ & _ & _ & Hs)];
      [exact Hsame|].
    cbv zeta in Hs.
    destruct Hs as [[-> _]|(cs & os & r & _ & _ & _ & _ & ->)];
      apply Hlocal.
  - destruct (POST_void_cases db session c w X reason) as [->|Hv];
      [exact Hsame|].
    destruct Hv as (ch & text & Hv).
    repeat match type of Hv with _ /\ _ => destruct Hv as [_ Hv] end.
    rewrite Hv. apply Hlocal.
  - unfold cleanupSideChallengesOnWeekLock.
    apply (cleanup_fold_tables c w now).
  - destruct (awardPerfectWeekTokensSafe_effect db c w)
      as (rows & us & -> & _).
    exists rows. reflexivity.
Qed.

Lemma sameWager_refl (db : DB) (ch : SideChallenge) :
  ch ∈ sideChallenges db -> sameWager db db ch.
Proof. intros Hin. split; [exact Hin|]. split; reflexivity. Qed.

Lemma sameWager_trans (db1 db2 db3 : DB) (ch : SideChallenge) :
  sameWager db1 db2 ch -> sameWager db2 db3 ch -> sameWager db1 db3 ch.
Proof.
  intros (_ & Hd1 & Hs1) (Hin & Hd2 & Hs2).
  split; [exact Hin|]. split; congruence.
Qed.

Lemma sameWager_applyLocal (X : Id) (f : SideChallenge -> SideChallenge)
    (ds : list LedgerData) (ss : list SideChallengeSubmission) (db : DB)
    (ch : SideChallenge) :
  ch ∈ sideChallenges db -> sc_id ch <> X ->
  Forall (fun d => ld_relatedEntityId d = Some X) ds ->
  Forall (fun s => sub_sideChallengeId s = X) ss ->
  sameWager db (applyLocal X f ds ss db) ch.
Proof.
  intros Hin Hne Hds Hss. split; [|split].
  - rewrite sideChallenges_applyLocal. apply list_elem_of_fmap.
    exists ch. rewrite decide_False by exact Hne. auto.
  - rewrite wagerData_applyLocal, filter_none, app_nil_r; [reflexivity|].
    eapply Forall_impl; [exact Hds|]. intros d Hd Hd'. congruence.
  - rewrite submissionsOf_applyLocal, filter_none, app_nil_r; [reflexivity|].
    eapply Forall_impl; [exact Hss|]. intros x Hx Hx'. congruence.
Qed.

Lemma sameWager_tables (db db' : DB) (ch : SideChallenge) :
  ch ∈ sideChallenges db ->
  sideChallenges db' = sideChallenges db ->
  sideChallengeSubmissions db' = sideChallengeSubmissions db ->
  wagerData db' (sc_id ch) = wagerData db (sc_id ch) ->
  sameWager db db' ch.
Proof.
  intros Hin Hc Hs Hd. split; [rewrite Hc; exact Hin|].
  split; [exact Hd|]. unfold submissionsOf. rewrite Hs. reflexivity.
Qed.

Lemma recalculate_wagers (db : DB) (session : option Id) (c w : Id) :
  Sane db ->
  let db' := snd (POST_recalculate_tokens db session c w) in
  sideChallenges db' = sideChallenges db
  /\ sideChallengeSubmissions db' = sideChallengeSubmissions db
  /\ forall Y, wagerData db' Y = wagerData db Y.
Proof.
  intros HI db'.
  destruct (recalculate_tokens_effect db session c w (sane_ledger_ids db HI))
    as (Hshape & Herror & _ & Hjson & _).
  fold db' in Hshape.
  split; [rewrite Hshape; reflexivity|].
  split; [rewrite Hshape; reflexivity|].
  destruct (fst (POST_recalculate_tokens db session c w))
    as [st msg|st r] eqn:Hres.
  { unfold db'. rewrite (Herror st msg eq_refl). reflexivity. }
  destruct (Hjson st r eq_refl)
    as (news & newly & Hl & Hdata & _ & _ & _ & _ & _ & Hnd).
  assert (Hnews : forall e, e ∈ news -> tl_relatedEntityId e = None).
  { intros e He.
    assert (Hin : dataOf e ∈ dataOf <$> news)
      by (apply list_elem_of_fmap; eauto).
    rewrite Hdata in Hin. apply list_elem_of_fmap in Hin as (u & Hu & _).
    destruct e. unfold dataOf in Hu. simpl in *. congruence. }
  intros Y. unfold wagerData, db'. rewrite Hl, filter_app, fmap_app.
  rewrite (filter_none _ news), app_nil_r.
  - rewrite list_filter_filter. f_equal.
    apply filter_ext_in. intros e He. split; [tauto|].
    intros Hrel. split; [exact Hrel|]. intros [(_ & _ & Hr) _].
    rewrite (sane_perfect db HI e He Hr) in Hrel. discriminate.
  - apply Forall_forall. intros e He. rewrite (Hnews e He). discriminate.
Qed.

Lemma terminal_not_open (s : SideChallengeStatus) :
  terminal s -> ~ stillOpen s.
Proof.
  unfold stillOpen. rewrite !elem_of_cons, elem_of_nil.
  intros [Ht|[Ht|Ht]] [Ho|[Ho|[Ho|Ho]]]; try exact Ho;
    rewrite Ht in Ho; discriminate.
Qed.

Lemma terminal_step (db db' : DB) (ch : SideChallenge) :
  Sane db -> lastingStep db db' -> ch ∈ sideChallenges db ->
  terminal (sc_status ch) -> sameWager db db' ch.
Proof.
  intros HI [Hstep Hkeep] Hin Hterm.
  pose proof (sane_wager_ids db HI) as Hids.
  assert (Hother : forall ch0 X, ch0 ∈ sideChallenges db -> sc_id ch0 = X ->
            ~ terminal (sc_status ch0) -> sc_id ch <> X).
  { intros ch0 X Hin0 Hid0 Hopen Heq. apply Hopen.
    rewrite (NoDup_fmap_eq sc_id (sideChallenges db) ch0 ch); try assumption.
    congruence. }
  assert (Hsame : sameWager db db ch) by (apply sameWager_refl; exact Hin).
  destruct Hstep as [db now session c w body|db now session c w X
                    |db session c w X|db now session c w X value
                    |db session c w X reason|db c w now|db c w
                    |db session c w|db session c|db db' Hl Hc Hs].
  - destruct (POST_propose_cases db now session c w body)
      as [->|(u & expires & _ & _ & ->)]; [exact Hsame|].
    split; [|split].
    + cbn [sideChallenges with_tokenLedger with_sideChallenges].
      apply elem_of_app. left. exact Hin.
    + rewrite wagerData_ledger.
      match goal with
      | |- context [ledgerCreateMany ?ds ?l] =>
          destruct (ledgerCreateMany_spec ds l) as (rows & -> & Hdata & _)
      end.
      rewrite fmap_app, filter_app, Hdata, wagerData_alt.
      rewrite filter_cons_False, filter_nil, app_nil_r; [reflexivity|].
      cbn [stakeData ld_relatedEntityId sc_id]. intros Heq.
      apply (cuid_fresh (sc_id <$> sideChallenges db)).
      injection Heq as ->. apply list_elem_of_fmap. eauto.
    + reflexivity.
  - destruct (POST_accept_cases db now session c w X)
      as [->|(ch0 & u & _ & Hin0 & Hid0 & Hst0 & _ & ->)]; [exact Hsame|].
    apply sameWager_applyLocal; try assumption.
    + apply (Hother ch0 X Hin0 Hid0). rewrite Hst0.
      intros [?|[?|?]]; discriminate.
    + repeat constructor.
    + constructor.
  - destruct (POST_decline_cases db session c w X)
      as [->|(ch0 & u & _ & Hin0 & Hid0 & Hst0 & _ & ->)]; [exact Hsame|].
    apply sameWager_applyLocal; try assumption.
    + apply (Hother ch0 X Hin0 Hid0). rewrite Hst0.
      intros [?|[?|?]]; discriminate.
    + apply refunds_related.
    + constructor.
  - destruct (POST_submit_cases db now session c w X value)
      as [->|(ch0 & u & v & _ & _ & _ & Hin0 & Hid0 & Hst0 & _ & _ & Hs)];
      [exact Hsame|].
    cbv zeta in Hs.
    assert (Hne : sc_id ch <> X).
    { apply (Hother ch0 X Hin0 Hid0). rewrite Hst0.
      intros [?|[?|?]]; discriminate. }
    destruct Hs as [[-> _]|(cs & os & r & _ & _ & _ & _ & ->)];
      apply sameWager_applyLocal; try assumption;
      try (repeat constructor); apply settlement_related.
  - destruct (POST_void_cases db session c w X reason) as [->|Hv];
      [exact Hsame|].
    destruct Hv as (ch0 & text & _ & Hin0 & Hid0 & H1 & H2 & H3 & ->).
    apply sameWager_applyLocal; try assumption.
    + apply (Hother ch0 X Hin0 Hid0). unfold terminal. tauto.
    + apply refunds_related.
    + constructor.
  - unfold cleanupSideChallengesOnWeekLock.
    assert (Hnd : NoDup ((sc_id ∘ fst) <$> unfinished db c w)).
    { unfold unfinished. rewrite <- list_fmap_compose.
      apply (NoDup_fmap_filter sc_id). exact Hids. }
    destruct (cleanup_fold_view c w now (unfinished db c w) Hnd
                (mkCleanupResult O O) db) as [Hout _].
    assert (Hfree : sc_id ch ∉ (sc_id ∘ fst) <$> unfinished db c w).
    { intros Hmem. apply list_elem_of_fmap in Hmem as ([ch1 s1] & Hid1 & Hm).
      unfold unfinished in Hm.
      apply list_elem_of_fmap in Hm as (ch2 & Heq & Hm). simplify_eq.
      apply list_elem_of_filter in Hm as [(_ & _ & Hopen) Hin2].
      cbn [compose fst] in Hid1.
      rewrite (NoDup_fmap_eq sc_id (sideChallenges db) ch ch2) in Hterm
        by assumption.
      exact (terminal_not_open _ Hterm Hopen). }
    specialize (Hout (sc_id ch) Hfree).
    destruct (cleanup_fold_tables c w now (unfinished db c w)
                (mkCleanupResult O O) db) as (_ & Hsubs & _).
    unfold wagerView in Hout. injection Hout as Hrows Hdata.
    split; [|split].
    + assert (Hm : ch ∈ filter (fun x => sc_id x = sc_id ch)
                                (sideChallenges db))
        by (apply list_elem_of_filter; auto).
      rewrite <- Hrows in Hm. apply list_elem_of_filter in Hm. tauto.
    + exact Hdata.
    + unfold submissionsOf. rewrite Hsubs. reflexivity.
  - destruct (awardPerfectWeekTokensSafe_effect db c w)
      as (rows & us & -> & Hdata & _).
    apply sameWager_tables; try reflexivity; try assumption.
    unfold wagerData. cbn [tokenLedger with_tokenLedger].
    rewrite filter_app, fmap_app.
    rewrite (filter_none _ rows), app_nil_r; [reflexivity|].
    apply Forall_forall. intros r Hr Hrel.
    assert (Hd : dataOf r ∈ dataOf <$> rows)
      by (apply list_elem_of_fmap; eauto).
    rewrite Hdata in Hd. apply list_elem_of_fmap in Hd as (u & Hu & _).
    destruct r. unfold dataOf, Tokens.perfectWeekData in Hu.
    simpl in *. congruence.
  - destruct (recalculate_wagers db session c w HI) as (Hc & Hs & Hd).
    apply sameWager_tables; auto.
  - rewrite DELETE_challenge_lasting by exact Hkeep. exact Hsame.
  - apply sameWager_tables; try assumption.
    unfold wagerData. rewrite Hl. reflexivity.
Qed.

(** X8.  A settled wager stays settled while no competition is deleted.
    Once a wager is RESOLVED, DECLINED or VOID in a reachable state, then
    in every state reached from there by handler calls, locks, awards and
    recalculations that take no competition away, its row, its ledger rows
    and its submissions are exactly what they were: nothing is paid or
    refunded twice, and its status, winner and note never change. *)
Theorem settled_wager_is_final (db db' : DB) (ch : SideChallenge) :
  reachable db -> rtc lastingStep db db' -> ch ∈ sideChallenges db ->
  terminal (sc_status ch) ->
  ch ∈ sideChallenges db'
  /\ wagerData db' (sc_id ch) = wagerData db (sc_id ch)
  /\ submissionsOf db' (sc_id ch) = submissionsOf db (sc_id ch).
Proof.
  intros Hreach Hsteps Hin Hterm. apply Sane_reachable in Hreach.
  change (sameWager db db' ch).
  induction Hsteps as [db|db db1 db2 Hstep Hsteps IH].
  - apply sameWager_refl. exact Hin.
  - pose proof (terminal_step db db1 ch Hreach Hstep Hin Hterm) as H1.
    eapply sameWager_trans; [exact H1|].
    apply IH; [eapply Sane_step; [apply Hstep | exact Hreach]|apply H1].
Qed.


Lemma not_open_terminal (s : SideChallengeStatus) :
  ~ stillOpen s -> terminal s.
Proof.
  unfold stillOpen, terminal. rewrite !elem_of_cons, elem_of_nil.
  destruct s; intros Hno; auto; exfalso; apply Hno; auto.
Qed.

Lemma cleanup_rows (db : DB) (c w : Id) (now : Time) (ch : SideChallenge) :
  Sane db -> ch ∈ sideChallenges db ->
  let db' := snd (cleanupSideChallengesOnWeekLock db c w now) in
  wagerView db' (sc_id ch)
  = if decide (openInWeek c w ch)
    then ([setStatusNote VOID
             "Voided due to week lock with incomplete submissions" ch],
          wagerData db (sc_id ch)
          ++ refunds c w (sc_id ch) (sc_createdByUserId ch)
               (sc_opponentUserId ch) (sc_stakeTokens ch)
               (wasAccepted (sc_status ch)))
    else ([ch], wagerData db (sc_id ch)).
Proof.
  intros HI Hin db'. pose proof (sane_wager_ids db HI) as Hids.
  destruct (decide (openInWeek c w ch)) as [(Hc & Hw & Hopen)|Hno].
  - unfold db'. rewrite cleanup_view by assumption.
    rewrite cleanupOne_void.
    + cbn [snd].
      rewrite wagerView_applyLocal; [|reflexivity|apply refunds_related].
      rewrite decide_True by reflexivity.
      rewrite wagerView_unique by assumption. reflexivity.
    + intros [Hp _]. exact (sane_status db HI ch Hin Hp).
  - unfold db', cleanupSideChallengesOnWeekLock.
    assert (Hnd : NoDup ((sc_id ∘ fst) <$> unfinished db c w)).
    { unfold unfinished. rewrite <- list_fmap_compose.
      apply (NoDup_fmap_filter sc_id). exact Hids. }
    destruct (cleanup_fold_view c w now (unfinished db c w) Hnd
                (mkCleanupResult O O) db) as [Hout _].
    rewrite Hout; [apply wagerView_unique; assumption|].
    intros Hmem. apply list_elem_of_fmap in Hmem as ([ch1 s1] & Hid1 & Hm).
    unfold unfinished in Hm.
    apply list_elem_of_fmap in Hm as (ch2 & Heq & Hm). simplify_eq.
    apply list_elem_of_filter in Hm as [Hopen Hin2].
    cbn [compose fst] in Hid1.
    rewrite <- (NoDup_fmap_eq sc_id (sideChallenges db) ch ch2) in Hopen
      by assumption.
    apply Hno. exact Hopen.
Qed.

Lemma cleanup_terminal (db : DB) (c w : Id) (now : Time) :
  Sane db ->
  forall ch, ch ∈ sideChallenges (snd (cleanupSideChallengesOnWeekLock db c w
                                         now)) ->
    sc_challengeId ch = c -> sc_weekId ch = w -> terminal (sc_status ch).
Proof.
  intros HI ch' Hin' Hc Hw.
  assert (Hid : sc_id ch' ∈ sc_id <$> sideChallenges db).
  { destruct (cleanup_fold_tables c w now (unfinished db c w)
                (mkCleanupResult O O) db) as (_ & _ & Hids).
    unfold cleanupSideChallengesOnWeekLock in Hin'. rewrite <- Hids.
    apply list_elem_of_fmap. eauto. }
  apply list_elem_of_fmap in Hid as (ch & Hid & Hin).
  pose proof (cleanup_rows db c w now ch HI Hin) as Hv.
  cbv zeta in Hv.
  assert (Hm : ch' ∈ fst (wagerView
                            (snd (cleanupSideChallengesOnWeekLock db c w now))
                            (sc_id ch))).
  { unfold wagerView. cbn [fst]. apply list_elem_of_filter. auto. }
  rewrite Hv in Hm.
  destruct (decide (openInWeek c w ch)) as [Hopen|Hno]; cbn [fst] in Hm;
    apply list_elem_of_singleton in Hm; subst ch'.
  - right. right. reflexivity.
  - apply not_open_terminal. intros Hopen. apply Hno.
    split; [exact Hc|]. split; [exact Hw | exact Hopen].
Qed.


(** X10.  What is held while a wager is open.  In every state reached
    without deleting a competition a wager is between two different users
    and is never PENDING_REVIEW; a PROPOSED wager has exactly one ledger
    row that names it, the creator's stake debit, no acceptance time and
    no submission; an ACCEPTED wager has exactly the two stake debits, one
    per party, and at most one submission, made by one of the two
    parties. *)
Theorem open_wager_escrow (db : DB) (ch : SideChallenge) :
  reachableLasting db -> ch ∈ sideChallenges db ->
  let X := sc_id ch in
  let stake := (- sc_stakeTokens ch, SIDE_CHALLENGE_STAKE) in
  sc_createdByUserId ch <> sc_opponentUserId ch
  /\ sc_status ch <> PENDING_REVIEW
  /\ (sc_status ch = PROPOSED ->
      sc_acceptedAt ch = None
      /\ wagerRows db X (sc_createdByUserId ch) = [stake]
      /\ wagerRows db X (sc_opponentUserId ch) = []
      /\ submissionsOf db X = [])
  /\ (sc_status ch = ACCEPTED ->
      sc_acceptedAt ch <> None
      /\ wagerRows db X (sc_createdByUserId ch) = [stake]
      /\ wagerRows db X (sc_opponentUserId ch) = [stake]
      /\ (length (submissionsOf db X) <= 1)%nat
      /\ forall s, s ∈ submissionsOf db X ->
           sub_userId s = sc_createdByUserId ch
           \/ sub_userId s = sc_opponentUserId ch).
Proof.
  intros Hreach Hin X stake.
  pose proof (inv_wagers db (Inv_reachable db Hreach) ch Hin) as [Hne Hsh].
  fold X in Hsh. split; [exact Hne|]. split; [|split].
  - intros Hp. rewrite Hp in Hsh. exact Hsh.
  - intros Hs. rewrite Hs in Hsh. exact Hsh.
  - intros Hs. rewrite Hs in Hsh.
    destruct Hsh as (Hacc & Hrc & Hro & Hsubs).
    repeat (split; [assumption|]).
    destruct Hsubs as [->|(s & -> & Hparty)].
    + split; [simpl; lia|]. intros s Hs'. inversion Hs'.
    + split; [simpl; lia|]. intros s' Hs'.
      apply list_elem_of_singleton in Hs'. subst s'. exact Hparty.
Qed.

End Lasting.

Lemma lifecycleAccepted_reachable :
  reachable (H := exampleFormat) (H0 := exampleSchema) lifecycleAccepted.
Proof. exact (reachableLasting_reachable _ lifecycleAccepted_lasting). Defined.

Lemma settled_wager_is_final_witness :
  let later :=
    snd (SideChallenges.cleanupSideChallengesOnWeekLock
           (H := exampleFormat) (H0 := exampleSchema)
           lifecycleResolved "c1" "w1" 500) in
  resolvedWager ∈ sideChallenges later
  /\ wagerData later "c" = wagerData lifecycleResolved "c"
  /\ SideChallenges.submissionsOf later "c"
     = SideChallenges.submissionsOf lifecycleResolved "c".
Proof.
  apply (settled_wager_is_final (H := exampleFormat) (H0 := exampleSchema)
           lifecycleResolved _ resolvedWager lifecycleResolved_reachable).
  - apply rtc_once. split; [apply step_week_lock|].
    apply keepsCompetitions_same. vm_compute. reflexivity.
  - apply list_elem_of_In. vm_compute. left. reflexivity.
  - left. reflexivity.
Defined.


Lemma open_wager_escrow_witness :
  wagerRows lifecycleAccepted "c" "ann" = [(-1, SIDE_CHALLENGE_STAKE)]
  /\ wagerRows lifecycleAccepted "c" "bob" = [(-1, SIDE_CHALLENGE_STAKE)].
Proof.
  assert (Hin : SideChallenges.setAccepted 200
                  (mkSideChallenge "c" "c1" "w1" "ann" "bob" PROPOSED
                     "HIGHER_WINS" None 1 None 172800100 None None None)
                ∈ sideChallenges lifecycleAccepted)
    by (apply list_elem_of_In; vm_compute; left; reflexivity).
  destruct (open_wager_escrow (H := exampleFormat) (H0 := exampleSchema)
              lifecycleAccepted _ lifecycleAccepted_lasting Hin)
    as (_ & _ & _ & Hacc).
  destruct (Hacc eq_refl) as (_ & Hc & Ho & _).
  split; [exact Hc | exact Ho].
Defined.

(** ** Leaderboards: whose rows, with what points *)

Section Tally.
Import Leaderboard.
Context (db : DB).

Lemma earned_snoc (cs : list Completion) (c : Completion) (u : Id) :
  earned db (cs ++ [c]) u
  = earned db cs u
    + if decide (c_userId c = u) then taskPoints db (c_taskTemplateId c)
      else 0.
Proof.
  unfold earned. rewrite filter_app, fmap_app, sumZ_app, filter_cons.
  case_decide; simpl; lia.
Qed.

Lemma earned_none (cs : list Completion) (u : Id) :
  (u ∉ c_userId <$> cs) -> earned db cs u = 0.
Proof.
  intros Hno. unfold earned. rewrite filter_none; [reflexivity|].
  apply Forall_forall. intros x Hx Hu. apply Hno.
  apply list_elem_of_fmap. eauto.
Qed.

Lemma mapGet_tallied (cs : list Completion) (m : UserPoints) (u : Id) :
  tallies db cs m ->
  mapGet m u
  = if mapHas m u
    then Some (mkUserData (userDisplayName db u) (earned db cs u))
    else None.
Proof.
  intros (_ & _ & Hval). unfold mapGet.
  destruct (mapHas m u) eqn:Hhas.
  - apply mapHas_keys in Hhas.
    apply list_elem_of_fmap in Hhas as ([k d] & Hk & Hin). simpl in Hk.
    subst k.
    destruct (head (filter (fun e => fst e = u) m)) as [[k' d']|] eqn:Hh.
    + apply head_filter_Some in Hh as [Hin' Hk']. simpl in Hk'. subst k'.
      simpl. f_equal. apply Hval. exact Hin'.
    + exfalso. eapply head_filter_None; [exact Hh|exact Hin|reflexivity].
  - destruct (head (filter (fun e => fst e = u) m)) as [[k' d']|] eqn:Hh;
      [|reflexivity].
    apply head_filter_Some in Hh as [Hin' Hk']. simpl in Hk'. subst k'.
    assert (Hhas' : mapHas m u = true).
    { apply mapHas_keys. apply list_elem_of_fmap. exists (u, d'). auto. }
    congruence.
Qed.

Lemma addPoints_tallies (cs : list Completion) (m : UserPoints)
    (c : Completion) :
  tallies db cs m -> tallies db (cs ++ [c]) (addPoints db m c).
Proof.
  intros Ht. pose proof (mapGet_tallied cs m (c_userId c) Ht) as Hget.
  destruct Ht as (Hnd & Hkeys & Hval).
  unfold addPoints. rewrite Hget. unfold mapSet.
  destruct (mapHas m (c_userId c)) eqn:Hhas;
    cbn [default from_option id ud_displayName ud_points].
  - assert (Hk : fst <$> ((fun e : Id * UserData =>
                             if decide (fst e = c_userId c)
                             then (c_userId c,
                                   mkUserData
                                     (userDisplayName db (c_userId c))
                                     (earned db cs (c_userId c)
                                      + taskPoints db (c_taskTemplateId c)))
                             else e) <$> m)
                 = fst <$> m).
    { rewrite <- list_fmap_compose. apply list_fmap_ext.
      intros i e _. simpl. case_decide; simpl; congruence. }
    split; [rewrite Hk; exact Hnd|]. split.
    + intros u Hu. rewrite Hk. rewrite fmap_app, elem_of_app in Hu.
      destruct Hu as [Hu|Hu]; [apply Hkeys, Hu|].
      apply list_elem_of_singleton in Hu. subst u.
      apply mapHas_keys. exact Hhas.
    + intros u d Hin. apply list_elem_of_fmap in Hin as ([k d0] & Heq & Hin).
      rewrite earned_snoc. simpl in Heq.
      destruct (decide (k = c_userId c)) as [->|Hne].
      * injection Heq as -> ->. rewrite decide_True by reflexivity.
        reflexivity.
      * injection Heq as -> ->. rewrite decide_False by congruence.
        rewrite Z.add_0_r. apply Hval. exact Hin.
  - assert (Hnew : c_userId c ∉ fst <$> m).
    { intros Hin. apply mapHas_keys in Hin. congruence. }
    split; [|split].
    + rewrite fmap_app. apply NoDup_app. split; [exact Hnd|].
      split; [|apply NoDup_singleton].
      intros k Hk Hk'. apply list_elem_of_singleton in Hk'. simpl in Hk'.
      subst k. contradiction.
    + intros u Hu. rewrite fmap_app, elem_of_app.
      rewrite fmap_app, elem_of_app in Hu.
      destruct Hu as [Hu|Hu]; [left; apply Hkeys, Hu | right; exact Hu].
    + intros u d Hin. rewrite earned_snoc.
      apply elem_of_app in Hin as [Hin|Hin].
      * rewrite decide_False, Z.add_0_r; [apply Hval, Hin|].
        intros Heq. apply Hnew. rewrite Heq.
        apply list_elem_of_fmap. exists (u, d). auto.
      * apply list_elem_of_singleton in Hin. injection Hin as -> ->.
        rewrite decide_True by reflexivity.
        rewrite (earned_none cs (c_userId c)); [reflexivity|].
        intros Hin. apply Hnew, Hkeys, Hin.
Qed.

Lemma addPoints_fold_tallies (cs pre : list Completion) (m : UserPoints) :
  tallies db pre m -> tallies db (pre ++ cs) (foldl (addPoints db) m cs).
Proof.
  revert pre m. induction cs as [|c cs IH]; intros pre m Ht.
  - rewrite app_nil_r. exact Ht.
  - cbn [foldl]. replace (pre ++ c :: cs) with ((pre ++ [c]) ++ cs)
      by (rewrite <- app_assoc; reflexivity).
    apply IH, addPoints_tallies, Ht.
Qed.

Lemma addParticipant_tallies (cs : list Completion) (m : UserPoints)
    (p : Participant) :
  tallies db cs m -> tallies db cs (addParticipant db m p).
Proof.
  intros (Hnd & Hkeys & Hval). unfold addParticipant, mapSet.
  destruct (mapHas m (p_userId p)) eqn:Hhas; [repeat split; assumption|].
  assert (Hnew : p_userId p ∉ fst <$> m).
  { intros Hin. apply mapHas_keys in Hin. congruence. }
  split; [|split].
  - rewrite fmap_app. apply NoDup_app. split; [exact Hnd|].
    split; [|apply NoDup_singleton].
    intros k Hk Hk'. apply list_elem_of_singleton in Hk'. simpl in Hk'.
    subst k. contradiction.
  - intros u Hu. rewrite fmap_app, elem_of_app. left. apply Hkeys, Hu.
  - intros u d Hin. apply elem_of_app in Hin as [Hin|Hin];
      [apply Hval, Hin|].
    apply list_elem_of_singleton in Hin. injection Hin as -> ->.
    rewrite (earned_none cs (p_userId p)); [reflexivity|].
    intros Hin. apply Hnew, Hkeys, Hin.
Qed.

Lemma addParticipant_fold_tallies (cs : list Completion)
    (ps : list Participant) (m : UserPoints) :
  tallies db cs m -> tallies db cs (foldl (addParticipant db) m ps).
Proof.
  revert m. induction ps as [|p ps IH]; intros m Ht; [exact Ht|].
  cbn [foldl]. apply IH, addParticipant_tallies, Ht.
Qed.

Lemma addParticipant_fold_only (ps : list Participant) (m : UserPoints)
    (k : Id) :
  k ∈ fst <$> foldl (addParticipant db) m ps ->
  k ∈ fst <$> m \/ k ∈ p_userId <$> ps.
Proof.
  revert m. induction ps as [|p ps IH]; intros m; simpl; [tauto|].
  intros Hk. apply IH in Hk as [Hk|Hk].
  - apply addParticipant_keys in Hk as [Hk| ->]; [tauto|]. right. left.
  - right. right. exact Hk.
Qed.

(** The map both leaderboards build from a list of completions and a
    list of participants. *)
Lemma board_tallies (cs : list Completion) (ps : list Participant) :
  let m := foldl (addParticipant db) (foldl (addPoints db) [] cs) ps in
  tallies db cs m
  /\ forall u, u ∈ fst <$> m
               <-> u ∈ c_userId <$> cs \/ u ∈ p_userId <$> ps.
Proof.
  intros m.
  assert (H0 : tallies db [] []).
  { split; [constructor|]. split; [intros u Hu; inversion Hu|].
    intros u d Hin. inversion Hin. }
  pose proof (addPoints_fold_tallies cs [] [] H0) as H1. simpl in H1.
  pose proof (addParticipant_fold_tallies cs ps _ H1) as H2.
  split; [exact H2|]. intros u. split.
  - intros Hu. apply addParticipant_fold_only in Hu as [Hu|Hu]; [|tauto].
    apply addPoints_fold_keys in Hu as [Hu|Hu]; [inversion Hu|tauto].
  - intros [Hu|Hu].
    + destruct H2 as (_ & Hkeys & _). apply Hkeys, Hu.
    + apply list_elem_of_fmap in Hu as (p & -> & Hp).
      apply addParticipant_fold_keys. exact Hp.
Qed.

End Tally.

Section Boards.
Import Leaderboard Standings.

Lemma assignRanks_users (l : list (Id * UserData)) :
  userId <$> assignRanks l = fst <$> l.
Proof.
  apply list_eq. intros i.
  rewrite !list_lookup_fmap, assignRanks_lookup.
  destruct (l !! i); reflexivity.
Qed.

Lemma assignRanks_member (l : list (Id * UserData)) (e : ParticipantScore) :
  e ∈ assignRanks l ->
  (userId e, mkUserData (displayName e) (points e)) ∈ l.
Proof.
  intros He. apply list_elem_of_lookup in He as [i Hi].
  rewrite assignRanks_lookup in Hi.
  destruct (l !! i) as [[u d]|] eqn:Hl; [|discriminate].
  simpl in Hi. injection Hi as <-. simpl. destruct d.
  eapply list_elem_of_lookup_2. exact Hl.
Qed.

(** The rows of a leaderboard built from a tallied map. *)
Lemma board_rows (db : DB) (cs : list Completion) (m : UserPoints) :
  tallies db cs m ->
  let lb := assignRanks (sortDesc m) in
  NoDup (userId <$> lb)
  /\ (forall u, u ∈ userId <$> lb <-> u ∈ fst <$> m)
  /\ (forall e, e ∈ lb ->
        points e = earned db cs (userId e)
        /\ displayName e = userDisplayName db (userId e))
  /\ descending (points <$> lb)
  /\ (forall e, e ∈ lb ->
        rank e = S (length (filter (fun q => points e < q)
                                   (points <$> lb))))
  /\ (forall e, head lb = Some e -> rank e = 1%nat).
Proof.
  intros (Hnd & _ & Hval) lb.
  assert (Husers : userId <$> lb ≡ₚ fst <$> m).
  { unfold lb. rewrite assignRanks_users, sortDesc_perm. reflexivity. }
  assert (Hdesc : descending (points <$> lb)).
  { unfold lb. rewrite leaderboard_points.
    apply sorted_descending, sortDesc_sorted. }
  split; [rewrite Husers; exact Hnd|].
  split; [intros u; rewrite Husers; reflexivity|].
  split.
  { intros e He. apply assignRanks_member in He.
    rewrite sortDesc_perm in He. apply Hval in He.
    injection He as Hn Hp. auto. }
  split; [exact Hdesc|]. split.
  - intros e He. apply list_elem_of_lookup in He as [i Hi].
    destruct (leaderboard_rows (sortDesc m) i e Hi) as (Hp & Hr & _).
    rewrite Hr. apply rankAt_competition; assumption.
  - intros e He.
    assert (Hi : lb !! O = Some e) by (destruct lb; simpl in *; congruence).
    destruct (leaderboard_rows (sortDesc m) O e Hi) as (_ & Hr & _).
    rewrite Hr. reflexivity.
Qed.

(** X11.  The weekly leaderboard lists every user once: exactly the
    participants of the competition and the users with a completion in
    the week; each row carries the user's display name and, as points, the
    sum of the points of the task templates of the user's completions of
    that competition and week (a template that no longer exists counting
    0). *)
Theorem weekly_leaderboard_points (db : DB) (challengeId weekId : Id) :
  let lb := getWeeklyLeaderboard db challengeId weekId in
  let cs := weekCompletions db challengeId weekId in
  NoDup (userId <$> lb)
  /\ (forall u, u ∈ userId <$> lb
                <-> (exists x, x ∈ cs /\ c_userId x = u)
                    \/ exists p, p ∈ participants db
                                 /\ p_challengeId p = challengeId
                                 /\ p_userId p = u)
  /\ forall e, e ∈ lb ->
       points e = earned db cs (userId e)
       /\ displayName e = userDisplayName db (userId e).
Proof.
  intros lb cs.
  destruct (board_tallies db cs
              (filter (fun p => p_challengeId p = challengeId)
                      (participants db))) as [Ht Hkeys].
  destruct (board_rows db cs _ Ht) as (Hnd & Hu & Hrows & _).
  split; [exact Hnd|]. split; [|exact Hrows].
  intros u. unfold lb, getWeeklyLeaderboard, weeklyUserPoints.
  fold (weekCompletions db challengeId weekId). fold cs.
  rewrite Hu, Hkeys, !list_elem_of_fmap.
  split; intros [(x & Hx1 & Hx2)|(p & Hp1 & Hp2)].
  - left. eauto.
  - right. apply list_elem_of_filter in Hp2 as [Hc Hp2]. eauto.
  - left. eauto.
  - right. destruct Hp2 as [Hc Hp2]. exists p.
    split; [congruence|]. apply list_elem_of_filter. tauto.
Qed.

(** X12.  The overall leaderboard counts the completions of LOCKED weeks
    only.  It lists every user once: the participants of the competition
    and the users with a completion in one of its locked weeks; a row's
    points are the sum of the points of the task templates of the user's
    completions in locked weeks of the competition, so a completion in an
    OPEN or UPCOMING week adds nothing; rows are in descending order of
    points, the first row has rank 1 and a row's rank is one more than the
    number of rows with strictly more points. *)
Theorem overall_leaderboard_counts_locked_weeks (db : DB)
    (challengeId : Id) :
  let lb := getOverallLeaderboard db challengeId in
  let cs := lockedCompletions db challengeId in
  (forall x, x ∈ cs <-> x ∈ completions db /\ c_challengeId x = challengeId
                        /\ lockedWeek db challengeId (c_weekId x))
  /\ NoDup (userId <$> lb)
  /\ (forall u, u ∈ userId <$> lb
                <-> (exists x, x ∈ cs /\ c_userId x = u)
                    \/ exists p, p ∈ participants db
                                 /\ p_challengeId p = challengeId
                                 /\ p_userId p = u)
  /\ (forall e, e ∈ lb ->
        points e = earned db cs (userId e)
        /\ displayName e = userDisplayName db (userId e))
  /\ descending (points <$> lb)
  /\ (forall e, head lb = Some e -> rank e = 1%nat)
  /\ (forall e, e ∈ lb ->
        rank e = S (length (filter (fun q => points e < q)
                                   (points <$> lb)))).
Proof.
  intros lb cs.
  destruct (board_tallies db cs
              (filter (fun p => p_challengeId p = challengeId)
                      (participants db))) as [Ht Hkeys].
  destruct (board_rows db cs _ Ht) as (Hnd & Hu & Hrows & Hdesc & Hrank & H1).
  split.
  { intros x. unfold cs, lockedCompletions, lockedWeek.
    rewrite list_elem_of_filter, list_elem_of_fmap. split.
    - intros [[Hc (wk & Hid & Hwk)] Hin].
      apply list_elem_of_filter in Hwk as [[Hwc Hws] Hwk].
      split; [exact Hin|]. split; [exact Hc|]. exists wk. auto.
    - intros (Hin & Hc & wk & Hwk & Hid & Hwc & Hws).
      split; [|exact Hin]. split; [exact Hc|]. exists wk.
      split; [congruence|]. apply list_elem_of_filter. auto. }
  split; [exact Hnd|]. split.
  { intros u. unfold lb, getOverallLeaderboard, overallUserPoints.
    fold (lockedCompletions db challengeId). fold cs.
    rewrite Hu, Hkeys, !list_elem_of_fmap.
    split; intros [(x & Hx1 & Hx2)|(p & Hp1 & Hp2)].
    - left. eauto.
    - right. apply list_elem_of_filter in Hp2 as [Hc Hp2]. eauto.
    - left. eauto.
    - right. destruct Hp2 as [Hc Hp2]. exists p.
      split; [congruence|]. apply list_elem_of_filter. tauto. }
  split; [exact Hrows|]. split; [exact Hdesc|]. split; assumption.
Qed.

Lemma winnersOf_ranked (lb : list ParticipantScore) (prize : Q) :
  descending (points <$> lb) ->
  (forall e, e ∈ lb ->
     rank e = S (length (filter (fun q => points e < q) (points <$> lb)))) ->
  let ws := winnersOf lb prize in
  (ws = [] <-> lb = [])
  /\ (ww_userId <$> ws)
     = userId <$> filter (fun e => rank e = 1%nat) lb
  /\ (forall x, x ∈ ws ->
        ww_prizeAmount x = (prize / inject_Z (Z.of_nat (length ws)))%Q)
  /\ (forall x e, x ∈ ws -> e ∈ lb -> points e <= ww_points x).
Proof.
  intros Hdesc Hrank ws. destruct lb as [|top rest] eqn:Hlb.
  { simpl. split; [tauto|]. split; [reflexivity|].
    split; [intros x Hx; inversion Hx | intros x e Hx; inversion Hx]. }
  rewrite <- Hlb in *.
  assert (Htop : forall e, e ∈ lb -> points e <= points top).
  { intros e He. apply list_elem_of_lookup in He as [i Hi].
    apply (Hdesc O i (points top) (points e)); [lia| |].
    - rewrite Hlb. reflexivity.
    - rewrite list_lookup_fmap, Hi. reflexivity. }
  assert (Hin : top ∈ lb) by (rewrite Hlb; left).
  assert (Hfirst : forall e, e ∈ lb ->
            points e = points top <-> rank e = 1%nat).
  { intros e He. rewrite (Hrank e He). split.
    - intros Heq. rewrite filter_none; [reflexivity|].
      apply Forall_forall. intros q Hq.
      apply list_elem_of_fmap in Hq as (e' & -> & He').
      specialize (Htop e' He'). lia.
    - intros Hone.
      assert (Hnil : filter (fun q => points e < q) (points <$> lb) = []).
      { apply nil_length_inv. lia. }
      specialize (Htop e He).
      destruct (decide (points e < points top)) as [Hlt|]; [|lia].
      assert (Hm : points top ∈ filter (fun q => points e < q)
                                       (points <$> lb)).
      { apply list_elem_of_filter. split; [exact Hlt|].
        apply list_elem_of_fmap. eauto. }
      rewrite Hnil in Hm. inversion Hm. }
  assert (Hws : ws = (fun w => mkWeeklyWinner (userId w) (displayName w)
                                 (points w)
                                 (prize / inject_Z
                                            (Z.of_nat
                                               (length
                                                  (filter
                                                     (fun p => points p
                                                               = points top)
                                                     lb)))))
                     <$> filter (fun p => points p = points top) lb).
  { unfold ws, winnersOf. rewrite Hlb. reflexivity. }
  assert (Hlen : length ws
                 = length (filter (fun p => points p = points top) lb)).
  { rewrite Hws, length_fmap. reflexivity. }
  split; [|split; [|split]].
  - split; [|rewrite Hlb; discriminate].
    intros Hnil. exfalso. rewrite Hws in Hnil.
    apply fmap_nil_inv in Hnil.
    assert (Hm : top ∈ filter (fun p => points p = points top) lb)
      by (apply list_elem_of_filter; auto).
    rewrite Hnil in Hm. inversion Hm.
  - rewrite Hws, <- list_fmap_compose.
    rewrite (filter_ext_in (fun p => points p = points top)
               (fun e => rank e = 1%nat) lb Hfirst).
    apply list_fmap_ext. reflexivity.
  - intros x Hx. rewrite Hlen. rewrite Hws in Hx.
    apply list_elem_of_fmap in Hx as (e & -> & _). reflexivity.
  - intros x e Hx He. rewrite Hws in Hx.
    apply list_elem_of_fmap in Hx as (e' & -> & He').
    apply list_elem_of_filter in He' as [Heq _]. simpl. rewrite Heq.
    apply Htop, He.
Qed.

(** X13.  The winners of a week, and of the competition, are exactly the
    rows of rank 1 of the weekly, respectively overall, leaderboard, in
    leaderboard order; there is none only when the leaderboard is empty;
    nobody on the leaderboard has more points than a winner; and each
    winner's prize is the prize amount divided by the number of winners. *)
Theorem winners_are_the_first_rank (db : DB) (challengeId weekId : Id)
    (prize : Q) :
  let weekly := getWeeklyLeaderboard db challengeId weekId in
  let overall := getOverallLeaderboard db challengeId in
  let ww := getWeeklyWinners db challengeId weekId prize in
  let ow := getOverallWinners db challengeId prize in
  ((ww = [] <-> weekly = [])
   /\ (ww_userId <$> ww)
      = userId <$> filter (fun e => rank e = 1%nat) weekly
   /\ (forall x, x ∈ ww ->
         ww_prizeAmount x = (prize / inject_Z (Z.of_nat (length ww)))%Q)
   /\ (forall x e, x ∈ ww -> e ∈ weekly -> points e <= ww_points x))
  /\ ((ow = [] <-> overall = [])
      /\ (ww_userId <$> ow)
         = userId <$> filter (fun e => rank e = 1%nat) overall
      /\ (forall x, x ∈ ow ->
            ww_prizeAmount x = (prize / inject_Z (Z.of_nat (length ow)))%Q)
      /\ (forall x e, x ∈ ow -> e ∈ overall -> points e <= ww_points x)).
Proof.
  intros weekly overall ww ow. split.
  - destruct (board_tallies db (weekCompletions db challengeId weekId)
                (filter (fun p => p_challengeId p = challengeId)
                        (participants db))) as [Ht _].
    destruct (board_rows db _ _ Ht) as (_ & _ & _ & Hdesc & Hrank & _).
    apply (winnersOf_ranked weekly prize Hdesc Hrank).
  - destruct (board_tallies db (lockedCompletions db challengeId)
                (filter (fun p => p_challengeId p = challengeId)
                        (participants db))) as [Ht _].
    destruct (board_rows db _ _ Ht) as (_ & _ & _ & Hdesc & Hrank & _).
    apply (winnersOf_ranked overall prize Hdesc Hrank).
Qed.

End Boards.

(** ** Balances of a competition *)

Section Balances.
Import TokenBoard.

Lemma groupBy_lookup (rows : list TokenLedger) (m0 : gmap Id Z) (u : Id) :
  foldl (fun m entry => <[fst entry := snd entry]> m) m0 (groupBy rows) !! u
  = if decide (u ∈ tl_userId <$> rows)
    then Some (sumZ (tl_delta <$> filter (fun e => tl_userId e = u) rows))
    else m0 !! u.
Proof.
  unfold groupBy.
  assert (Hgen : forall (us : list Id) (m : gmap Id Z),
            foldl (fun m entry => <[fst entry := snd entry]> m) m
                  ((fun u => (u, sumZ (tl_delta <$>
                                         filter (fun e => tl_userId e = u)
                                                rows))) <$> us) !! u
            = if decide (u ∈ us)
              then Some (sumZ (tl_delta <$>
                                 filter (fun e => tl_userId e = u) rows))
              else m !! u).
  { induction us as [|v us IH]; intros m.
    - cbn [fmap list_fmap foldl].
      destruct (decide (u ∈ [])) as [Hin|]; [inversion Hin|reflexivity].
    - rewrite fmap_cons. cbn [foldl fst snd]. rewrite IH.
      destruct (decide (u ∈ us)) as [Hin|Hno].
      + rewrite decide_True by (right; exact Hin). reflexivity.
      + destruct (decide (u = v)) as [->|Hne].
        * rewrite decide_True by left. rewrite lookup_insert_eq.
          reflexivity.
        * rewrite decide_False.
          -- rewrite lookup_insert_ne by congruence. reflexivity.
          -- intros Hin. apply elem_of_cons in Hin as [?|?]; contradiction. }
  rewrite Hgen.
  destruct (decide (u ∈ Routes.toSet (tl_userId <$> rows))) as [Hin|Hno];
    [rewrite decide_True by (apply elem_of_toSet; exact Hin)
    |rewrite decide_False by (intros Hin; apply Hno, elem_of_toSet, Hin)];
    reflexivity.
Qed.

Lemma participants_lookup (ps : list Participant) (m0 : gmap Id Z) (u : Id) :
  foldl (fun (m : gmap Id Z) p =>
           match m !! p_userId p with
           | Some _ => m
           | None => <[p_userId p := 0]> m
           end) m0 ps !! u
  = match m0 !! u with
    | Some b => Some b
    | None => if decide (u ∈ p_userId <$> ps) then Some 0 else None
    end.
Proof.
  revert m0. induction ps as [|p ps IH]; intros m0.
  - cbn [foldl fmap list_fmap]. destruct (m0 !! u); [reflexivity|].
    destruct (decide (u ∈ [])) as [Hin|]; [inversion Hin|reflexivity].
  - cbn [foldl]. rewrite IH. rewrite fmap_cons.
    destruct (m0 !! p_userId p) as [b|] eqn:Hp.
    + destruct (m0 !! u) as [b'|] eqn:Hu; [reflexivity|].
      destruct (decide (u = p_userId p)) as [->|Hne]; [congruence|].
      destruct (decide (u ∈ p_userId <$> ps)) as [Hin|Hno].
      * rewrite decide_True by (right; exact Hin). reflexivity.
      * rewrite decide_False; [reflexivity|].
        intros Hin. apply elem_of_cons in Hin as [?|?]; contradiction.
    + destruct (decide (u = p_userId p)) as [->|Hne].
      * rewrite lookup_insert_eq, Hp. rewrite decide_True by left.
        reflexivity.
      * rewrite lookup_insert_ne by congruence.
        destruct (m0 !! u); [reflexivity|].
        destruct (decide (u ∈ p_userId <$> ps)) as [Hin|Hno].
        -- rewrite decide_True by (right; exact Hin). reflexivity.
        -- rewrite decide_False; [reflexivity|].
           intros Hin. apply elem_of_cons in Hin as [?|?]; contradiction.
Qed.

Lemma getTokenBalances_lookup (db : DB) (challengeId : Id) :
  let balances := getTokenBalances db challengeId in
  (forall u, is_Some (balances !! u) <-> holdsTokens db challengeId u)
  /\ (forall u b, balances !! u = Some b ->
        b = Tokens.getTokenBalance db challengeId u)
  /\ (forall p, p ∈ participants db -> p_challengeId p = challengeId ->
        (forall e, e ∈ tokenLedger db -> tl_challengeId e = challengeId ->
                   tl_userId e <> p_userId p) ->
        balances !! p_userId p = Some 0).
Proof.
  intros balances.
  set (rows := filter (fun e => tl_challengeId e = challengeId)
                      (tokenLedger db)).
  set (ps := filter (fun p => p_challengeId p = challengeId)
                    (participants db)).
  assert (Hsum : forall u,
            sumZ (tl_delta <$> filter (fun e => tl_userId e = u) rows)
            = Tokens.getTokenBalance db challengeId u).
  { intros u. unfold rows, Tokens.getTokenBalance.
    rewrite list_filter_filter. f_equal. f_equal.
    apply list_filter_iff. intros e. tauto. }
  assert (Hrow : forall u, u ∈ tl_userId <$> rows
                           <-> exists e, e ∈ tokenLedger db
                                         /\ tl_challengeId e = challengeId
                                         /\ tl_userId e = u).
  { intros u. rewrite list_elem_of_fmap. unfold rows. split.
    - intros (e & -> & He). apply list_elem_of_filter in He.
      exists e. tauto.
    - intros (e & He & Hc & <-). exists e. split; [reflexivity|].
      apply list_elem_of_filter. auto. }
  assert (Hpart : forall u, u ∈ p_userId <$> ps
                            <-> exists p, p ∈ participants db
                                          /\ p_challengeId p = challengeId
                                          /\ p_userId p = u).
  { intros u. rewrite list_elem_of_fmap. unfold ps. split.
    - intros (p & -> & Hp). apply list_elem_of_filter in Hp.
      exists p. tauto.
    - intros (p & Hp & Hc & <-). exists p. split; [reflexivity|].
      apply list_elem_of_filter. auto. }
  assert (Hlook : forall u,
            balances !! u
            = if decide (u ∈ tl_userId <$> rows)
              then Some (Tokens.getTokenBalance db challengeId u)
              else if decide (u ∈ p_userId <$> ps) then Some 0 else None).
  { intros u. unfold balances, getTokenBalances. fold rows ps.
    rewrite participants_lookup, groupBy_lookup, Hsum, lookup_empty.
    destruct (decide (u ∈ tl_userId <$> rows)); reflexivity. }
  assert (Hzero : forall u, (u ∉ tl_userId <$> rows) ->
                            Tokens.getTokenBalance db challengeId u = 0).
  { intros u Hno. rewrite <- Hsum. rewrite filter_none; [reflexivity|].
    apply Forall_forall. intros e He Hu. apply Hno.
    apply list_elem_of_fmap. eauto. }
  split; [|split].
  - intros u. rewrite Hlook. unfold holdsTokens.
    rewrite <- Hrow, <- Hpart.
    repeat case_decide; split; intros Hx;
      try (eexists; reflexivity); try tauto.
    destruct Hx as [? ?]. discriminate.
  - intros u b. rewrite Hlook.
    repeat case_decide; intros Hb; simplify_eq; [reflexivity|].
    symmetry. apply Hzero. assumption.
  - intros p Hp Hc Hno. rewrite Hlook.
    rewrite decide_False.
    + rewrite decide_True; [reflexivity|]. apply Hpart. eauto.
    + intros Hin. apply Hrow in Hin as (e & He & Hec & Heu).
      exact (Hno e He Hec Heu).
Qed.

(** X14.  [getTokenBalances] agrees with [getTokenBalance]: the map has
    an entry for exactly the users with a ledger row in the competition
    and the competition's participants, and the entry of a user is the
    user's balance, the sum of their deltas in the competition; a
    participant without any row has 0. *)
Theorem getTokenBalances_agree (db : DB) (challengeId : Id) :
  let balances := getTokenBalances db challengeId in
  (forall u, is_Some (balances !! u) <-> holdsTokens db challengeId u)
  /\ (forall u b, balances !! u = Some b ->
        b = Tokens.getTokenBalance db challengeId u)
  /\ (forall p, p ∈ participants db -> p_challengeId p = challengeId ->
        (forall e, e ∈ tokenLedger db -> tl_challengeId e = challengeId ->
                   tl_userId e <> p_userId p) ->
        balances !! p_userId p = Some 0).
Proof. exact (getTokenBalances_lookup db challengeId). Qed.

End Balances.

(** ** The token leaderboard *)

Section TopHolders.
Import TokenBoard.

Lemma insertByBalance_perm (x : TokenHolder) (l : list TokenHolder) :
  insertByBalance x l ≡ₚ x :: l.
Proof.
  induction l as [|y l IH]; simpl; [reflexivity|].
  case_decide; [reflexivity|]. rewrite IH. apply Permutation_swap.
Qed.

Lemma sortByBalance_perm (l : list TokenHolder) : sortByBalance l ≡ₚ l.
Proof.
  induction l as [|x l IH]; simpl; [reflexivity|].
  rewrite insertByBalance_perm, IH. reflexivity.
Qed.

Lemma insertByBalance_sorted (x : TokenHolder) (l : list TokenHolder) :
  StronglySorted richerFirst l ->
  StronglySorted richerFirst (insertByBalance x l).
Proof.
  induction 1 as [|y l Hs IH Hall]; simpl.
  - repeat constructor.
  - case_decide as Hle.
    + constructor; [constructor; assumption|].
      constructor; [exact Hle|].
      eapply Forall_impl; [exact Hall|].
      unfold richerFirst. intros z Hz. lia.
    + constructor; [exact IH|].
      rewrite insertByBalance_perm. constructor; [|exact Hall].
      unfold richerFirst. lia.
Qed.

Lemma sortByBalance_sorted (l : list TokenHolder) :
  StronglySorted richerFirst (sortByBalance l).
Proof.
  induction l as [|x l IH]; simpl; [constructor|].
  apply insertByBalance_sorted, IH.
Qed.

Lemma sorted_balances_descending (l : list TokenHolder) :
  StronglySorted richerFirst l -> descending (th_balance <$> l).
Proof.
  induction 1 as [|a l Hs IH Hall]; intros i j x y Hij Hi Hj.
  - destruct i; discriminate.
  - destruct i as [|i], j as [|j]; simpl in Hi, Hj.
    + simplify_eq. lia.
    + simplify_eq. rewrite list_lookup_fmap in Hj.
      destruct (l !! j) as [b|] eqn:Hb; [|discriminate].
      simpl in Hj. simplify_eq.
      rewrite Forall_forall in Hall.
      apply (Hall b). eapply list_elem_of_lookup_2; eauto.
    + lia.
    + eapply IH; [|exact Hi|exact Hj]. lia.
Qed.

Lemma tokenRankAt_rankAt (bs : list Z) (i : nat) :
  descending bs -> (i < length bs)%nat -> tokenRankAt bs i = rankAt bs i.
Proof.
  intros Hd. induction i as [|i IH]; intros Hlt; [reflexivity|].
  cbn [tokenRankAt rankAt].
  destruct (lookup_lt_is_Some_2 bs (S i) Hlt) as [b Hb].
  destruct (lookup_lt_is_Some_2 bs i ltac:(lia)) as [prev Hprev].
  rewrite Hb, Hprev, IH by lia.
  pose proof (Hd i (S i) prev b ltac:(lia) Hprev Hb).
  repeat case_decide; simplify_eq; try lia; try reflexivity.
  exfalso. assert (b = prev) by lia. congruence.
Qed.

(** The loop, turn by turn: after [n] turns the first [n] rows carry their
    ranks, the others are untouched, and [currentRank] is the rank of row
    [n - 1]. *)
Lemma rankTurn_loop (lb : list TokenHolder) (n : nat) :
  (n <= length lb)%nat ->
  foldl rankTurn (lb, 1%nat) (seq 0 n)
  = (imap (fun i h => withRank (tokenRankAt (th_balance <$> lb) i) h)
          (take n lb) ++ drop n lb,
     tokenRankAt (th_balance <$> lb) (n - 1)).
Proof.
  set (bs := th_balance <$> lb).
  induction n as [|n IH]; intros Hn.
  - simpl. rewrite drop_0. reflexivity.
  - rewrite seq_S, foldl_app, IH by lia. cbn [foldl Nat.add].
    destruct (lookup_lt_is_Some_2 lb n ltac:(lia)) as [row Hrow].
    set (done := imap (fun i h => withRank (tokenRankAt bs i) h)
                      (take n lb)).
    assert (Hlen : length done = n).
    { unfold done. rewrite length_imap, length_take. lia. }
    assert (Hat : (done ++ drop n lb) !! n = Some row).
    { rewrite lookup_app_r by lia. rewrite Hlen, Nat.sub_diag.
      rewrite lookup_drop, Nat.add_0_r. exact Hrow. }
    unfold rankTurn. rewrite Hat.
    assert (Hrank :
              (if bool_decide (0 < n)%nat
                  && match (done ++ drop n lb) !! (n - 1)%nat with
                     | Some prev =>
                         bool_decide (th_balance row < th_balance prev)
                     | None => false
                     end
               then (n + 1)%nat
               else tokenRankAt bs (n - 1))
              = tokenRankAt bs n).
    { destruct n as [|k]; [reflexivity|].
      rewrite bool_decide_eq_true_2 by lia. cbn [andb].
      replace (S k - 1)%nat with k by lia.
      destruct (lookup_lt_is_Some_2 lb k ltac:(lia)) as [prev Hprev].
      assert (Hk : (done ++ drop (S k) lb) !! k
                   = Some (withRank (tokenRankAt bs k) prev)).
      { rewrite lookup_app_l by lia. unfold done.
        rewrite list_lookup_imap, lookup_take_lt by lia.
        rewrite Hprev. reflexivity. }
      rewrite Hk. cbn [tokenRankAt withRank th_balance].
      unfold bs. rewrite !list_lookup_fmap, Hrow, Hprev. simpl.
      case_bool_decide; case_decide; try lia; try reflexivity. }
    rewrite Hrank. f_equal.
    + erewrite take_S_r by exact Hrow. rewrite imap_app. simpl.
      rewrite length_take, Nat.min_l, Nat.add_0_r by lia.
      fold done. rewrite <- app_assoc. simpl.
      rewrite insert_app_r_alt by lia. rewrite Hlen, Nat.sub_diag.
      f_equal. rewrite (drop_S lb row n Hrow). reflexivity.
    + f_equal. lia.
Qed.

Lemma assignTokenRanks_imap (lb : list TokenHolder) :
  assignTokenRanks lb
  = imap (fun i h => withRank (tokenRankAt (th_balance <$> lb) i) h) lb.
Proof.
  unfold assignTokenRanks. rewrite rankTurn_loop by lia. simpl.
  rewrite take_ge, drop_ge, app_nil_r by lia. reflexivity.
Qed.

Lemma slice0_spec {A} (limit : Z) (l : list A) :
  0 <= limit -> slice0 limit l = take (Z.to_nat limit) l.
Proof.
  intros Hl. unfold slice0. rewrite decide_False by lia.
  destruct (decide (limit <= Z.of_nat (length l))).
  - rewrite Z.min_l by lia. reflexivity.
  - rewrite Z.min_r by lia. rewrite Nat2Z.id.
    rewrite !take_ge by lia. reflexivity.
Qed.

Lemma slice0_prefix {A} (limit : Z) (l : list A) :
  exists n, slice0 limit l = take n l.
Proof. unfold slice0. eexists. reflexivity. Qed.

(** X15.  The token leaderboard ranks the users of the user table that
    have a ledger row in the competition or take part in it, each with
    their balance.  The rows returned are in descending order of balance;
    a row's rank is one more than the number of ranked users with a
    strictly greater balance, counted over all of them and not only over
    the rows returned; with a limit that is not negative (10 when none is
    given) the result has min(limit, number of ranked users) rows, and
    with a limit of at least their number every ranked user has a row. *)
Theorem top_token_holders_ranking (db : DB) (challengeId : Id)
    (limit : option Z) :
  let holders := tokenHolders db challengeId in
  let top := getTopTokenHolders db challengeId limit in
  let n := default 10 limit in
  (forall r, r ∈ top ->
     th_balance r = Tokens.getTokenBalance db challengeId (th_userId r)
     /\ holdsTokens db challengeId (th_userId r)
     /\ exists u, u ∈ users db /\ u_id u = th_userId r
                  /\ u_displayName u = th_displayName r)
  /\ (forall i j r r', (i <= j)%nat -> top !! i = Some r ->
        top !! j = Some r' -> th_balance r' <= th_balance r)
  /\ (forall r, r ∈ top ->
        th_rank r
        = S (length (filter
                       (fun u => th_balance r
                                 < Tokens.getTokenBalance db challengeId
                                     (u_id u))
                       holders)))
  /\ (0 <= n -> length top = Nat.min (Z.to_nat n) (length holders))
  /\ (Z.of_nat (length holders) <= n ->
      forall u, u ∈ holders -> exists r, r ∈ top /\ th_userId r = u_id u).
Proof.
  intros holders top n.
  set (balances := getTokenBalances db challengeId).
  destruct (getTokenBalances_lookup db challengeId) as (Hkeys & Hvals & _).
  fold balances in Hkeys, Hvals.
  set (rows := (fun user => mkTokenHolder (u_id user) (u_displayName user)
                              (default 0 (balances !! u_id user)) O)
                 <$> holders).
  set (sorted := sortByBalance rows).
  set (bs := th_balance <$> sorted).
  assert (Htop : top = slice0 n (assignTokenRanks sorted)) by reflexivity.
  assert (Hbal : forall u, u ∈ holders ->
            default 0 (balances !! u_id u)
            = Tokens.getTokenBalance db challengeId (u_id u)).
  { intros u Hu. apply list_elem_of_filter in Hu as [[b Hb] _].
    fold balances in Hb. rewrite Hb. simpl. apply Hvals. exact Hb. }
  assert (Hdesc : descending bs).
  { apply sorted_balances_descending, sortByBalance_sorted. }
  assert (Hsorted : forall h, h ∈ sorted ->
            exists u, u ∈ holders /\ th_userId h = u_id u
                      /\ th_displayName h = u_displayName u
                      /\ th_balance h
                         = Tokens.getTokenBalance db challengeId (u_id u)).
  { intros h Hh. unfold sorted in Hh. rewrite sortByBalance_perm in Hh.
    apply list_elem_of_fmap in Hh as (u & -> & Hu).
    exists u. repeat split; [exact Hu|]. simpl. apply Hbal, Hu. }
  assert (Hfull : forall i r, assignTokenRanks sorted !! i = Some r ->
            exists h, sorted !! i = Some h
                      /\ r = withRank (tokenRankAt bs i) h).
  { intros i r Hr. rewrite assignTokenRanks_imap, list_lookup_imap in Hr.
    destruct (sorted !! i) as [h|]; [|discriminate].
    simpl in Hr. injection Hr as <-. eauto. }
  pose proof Htop as Htop0.
  assert (Hlenfull : length (assignTokenRanks sorted) = length holders).
  { rewrite assignTokenRanks_imap, length_imap. unfold sorted.
    rewrite sortByBalance_perm. unfold rows. apply length_fmap. }
  destruct (slice0_prefix n (assignTokenRanks sorted)) as [k Hk].
  rewrite Hk in Htop.
  assert (Hrow : forall i r, top !! i = Some r ->
            exists h, sorted !! i = Some h
                      /\ r = withRank (tokenRankAt bs i) h).
  { intros i r Hr. rewrite Htop in Hr.
    apply lookup_take_Some in Hr as [Hr _]. apply Hfull, Hr. }
  assert (Hcount : forall b,
            length (filter (fun q => b < q) bs)
            = length (filter
                        (fun u => b < Tokens.getTokenBalance db challengeId
                                        (u_id u))
                        holders)).
  { intros b. unfold bs, sorted. rewrite sortByBalance_perm.
    unfold rows. rewrite <- list_fmap_compose.
    clear -Hbal. induction holders as [|u l IH]; [reflexivity|].
    rewrite fmap_cons, !filter_cons. cbn [compose th_balance].
    rewrite (Hbal u) by left.
    assert (IH' := IH (fun v Hv => Hbal v (list_elem_of_further _ _ _ Hv))).
    case_decide; simpl; rewrite IH'; reflexivity. }
  repeat match goal with |- _ /\ _ => split end.
  - intros r Hr. apply list_elem_of_lookup in Hr as [i Hi].
    destruct (Hrow i r Hi) as (h & Hh & ->).
    destruct (Hsorted h (list_elem_of_lookup_2 _ _ _ Hh))
      as (u & Hu & Hid & Hname & Hb).
    cbn [withRank th_balance th_userId th_displayName].
    rewrite Hid. split; [exact Hb|]. split.
    + apply Hkeys. apply list_elem_of_filter in Hu. tauto.
    + exists u. apply list_elem_of_filter in Hu. split; [tauto|]. auto.
  - intros i j r r' Hij Hi Hj.
    destruct (Hrow i r Hi) as (h & Hh & ->).
    destruct (Hrow j r' Hj) as (h' & Hh' & ->).
    cbn [withRank th_balance].
    apply (Hdesc i j); [exact Hij| |]; unfold bs;
      rewrite list_lookup_fmap; [rewrite Hh|rewrite Hh']; reflexivity.
  - intros r Hr. apply list_elem_of_lookup in Hr as [i Hi].
    destruct (Hrow i r Hi) as (h & Hh & ->).
    cbn [withRank th_balance th_rank].
    assert (Hb : bs !! i = Some (th_balance h)).
    { unfold bs. rewrite list_lookup_fmap, Hh. reflexivity. }
    rewrite tokenRankAt_rankAt;
      [|exact Hdesc|eapply lookup_lt_Some; exact Hb].
    rewrite (rankAt_competition bs i (th_balance h) Hdesc Hb).
    rewrite Hcount. reflexivity.
  - intros Hn. rewrite Htop0, slice0_spec by exact Hn.
    rewrite length_take, Hlenfull. reflexivity.
  - intros Hn u Hu.
    assert (Hall : top = assignTokenRanks sorted).
    { rewrite Htop0, slice0_spec by lia. apply take_ge.
      rewrite Hlenfull. lia. }
    assert (Hm : mkTokenHolder (u_id u) (u_displayName u)
                   (default 0 (balances !! u_id u)) O ∈ sorted).
    { unfold sorted. rewrite sortByBalance_perm.
      apply list_elem_of_fmap. exists u. auto. }
    apply list_elem_of_lookup in Hm as [i Hi].
    exists (withRank (tokenRankAt bs i)
              (mkTokenHolder (u_id u) (u_displayName u)
                 (default 0 (balances !! u_id u)) O)).
    split; [|reflexivity].
    rewrite Hall. apply list_elem_of_lookup. exists i.
    rewrite assignTokenRanks_imap, list_lookup_imap, Hi. reflexivity.
Qed.

End TopHolders.

(** ** Who has access *)

Section AccessFacts.
Import Authorization Access.

(** X16.  The organizer of a competition always has participant access
    to it, whether or not the participants table lists them; participant
    access is held exactly by the organizer and by the users with a
    participant row for the competition; [getChallengeAsOrganizer] returns
    the competition exactly when [verifyOrganizer] says yes; and for a
    competition that does not exist all three say no. *)
Theorem organizer_has_access (db : DB) (challengeId userId : Id) :
  let found :=
    head (filter (fun c => ch_id c = challengeId) (challenges db)) in
  (verifyOrganizer db challengeId userId = true ->
   verifyParticipantAccess db challengeId userId = true)
  /\ (verifyParticipantAccess db challengeId userId = true
      <-> exists ch, found = Some ch
                     /\ (ch_organizerUserId ch = userId
                         \/ exists p, p ∈ participants db
                                      /\ p_challengeId p = challengeId
                                      /\ p_userId p = userId))
  /\ (forall ch, getChallengeAsOrganizer db challengeId userId = Some ch
                 <-> found = Some ch
                     /\ verifyOrganizer db challengeId userId = true)
  /\ (found = None ->
      verifyOrganizer db challengeId userId = false
      /\ verifyParticipantAccess db challengeId userId = false
      /\ getChallengeAsOrganizer db challengeId userId = None).
Proof.
  intros found.
  unfold verifyOrganizer, verifyParticipantAccess, getChallengeAsOrganizer.
  fold found. destruct found as [ch|].
  - split; [|split; [|split]].
    + intros Ho. apply bool_decide_eq_true in Ho.
      rewrite decide_True by exact Ho. reflexivity.
    + destruct (decide (ch_organizerUserId ch = userId)) as [Ho|Hno].
      * split; [|reflexivity]. intros _. exists ch. auto.
      * destruct (head (filter _ (participants db))) as [p|] eqn:Hp.
        -- split; [|reflexivity]. intros _. exists ch.
           split; [reflexivity|]. right.
           apply head_filter_Some in Hp as [Hin [Hc Hu]]. eauto.
        -- split; [discriminate|].
           intros (ch' & Heq & [Ho|(p & Hin & Hc & Hu)]); simplify_eq;
             try contradiction.
           exfalso. eapply head_filter_None; [exact Hp|exact Hin|].
           simpl. auto.
    + intros ch'. rewrite bool_decide_eq_true.
      destruct (decide (ch_organizerUserId ch <> userId)) as [Hno|Ho].
      * split; [discriminate|]. intros [_ Ho]. contradiction.
      * apply dec_stable in Ho. split.
        -- intros Heq. simplify_eq. auto.
        -- intros [Heq _]. exact Heq.
    + discriminate.
  - split; [discriminate|]. split; [|split].
    + split; [discriminate|]. intros (ch & Heq & _). discriminate.
    + intros ch. split; [discriminate|]. intros [Heq _]. discriminate.
    + auto.
Qed.

End AccessFacts.

(** ** Completions *)

Section Completions.
Import Authorization WeekRoutes Leaderboard.

Lemma with_completions_same (db : DB) :
  with_completions (completions db) db = db.
Proof. destruct db. reflexivity. Qed.

Lemma POST_completions_ok (db : DB) (session : option Id) (c w : Id)
    (t : string) (completed : bool) (body : ToggleBody) :
  fst (POST_completions db session c w t completed) = Json 200 body ->
  exists u p wk task,
    session = Some u /\ t <> ""
    /\ head (filter (fun p => p_challengeId p = c /\ p_userId p = u)
                    (participants db)) = Some p
    /\ head (filter (fun x => w_id x = w) (weeks db)) = Some wk
    /\ w_challengeId wk = c /\ w_status wk = OPEN
    /\ head (filter (fun x => tt_id x = t /\ tt_challengeId x = c)
                    (taskTemplates db)) = Some task
    /\ tt_active task = true
    /\ POST_completions db session c w t completed
       = if completed
         then (Json 200 (Completed (fst (completionUpsert c w t u db))),
               snd (completionUpsert c w t u db))
         else match completionDelete w t u db with
              | Throw _ => (ErrorJson 500 "Failed to update completion", db)
              | Return db' => (Json 200 Removed, db')
              end.
Proof.
  unfold POST_completions. destruct session as [u|]; [|discriminate].
  destruct (decide (t = "")) as [|Ht]; [discriminate|].
  destruct (head (filter _ (participants db))) as [p|] eqn:Hp;
    [|discriminate].
  destruct (head (filter _ (weeks db))) as [wk|] eqn:Hwk; [|discriminate].
  destruct (decide (w_challengeId wk <> c)) as [|Hc]; [discriminate|].
  destruct (decide (w_status wk <> OPEN)) as [|Hs]; [discriminate|].
  destruct (head (filter _ (taskTemplates db))) as [task|] eqn:Htask;
    [|discriminate].
  destruct (tt_active task) eqn:Hact; [|discriminate].
  cbn [negb]. intros _. exists u, p, wk, task.
  apply dec_stable in Hc, Hs.
  repeat (split; [first [reflexivity | assumption]|]).
  destruct completed; [|reflexivity].
  destruct (completionUpsert c w t u db). reflexivity.
Qed.

(** X17.  A participant can change completions only while the week is
    OPEN.  A toggle that is answered 200 came from a signed-in user with a
    participant row for the competition, for a week of that competition
    whose status is OPEN and an active task template of that competition;
    in particular, for a week that is UPCOMING or LOCKED, or that belongs
    to another competition, the handler answers with an error, and an
    error response leaves the store as it was. *)
Theorem participant_edits_need_an_open_week (db : DB)
    (session : option Id) (c w : Id) (t : string) (completed : bool) :
  (forall body,
     fst (POST_completions db session c w t completed) = Json 200 body ->
     exists u p wk task,
       session = Some u
       /\ p ∈ participants db /\ p_challengeId p = c /\ p_userId p = u
       /\ wk ∈ weeks db /\ w_id wk = w /\ w_challengeId wk = c
       /\ w_status wk = OPEN
       /\ task ∈ taskTemplates db /\ tt_id task = t
       /\ tt_challengeId task = c /\ tt_active task = true)
  /\ (forall wk,
        head (filter (fun x => w_id x = w) (weeks db)) = Some wk ->
        w_status wk <> OPEN \/ w_challengeId wk <> c ->
        exists st e,
          fst (POST_completions db session c w t completed) = ErrorJson st e)
  /\ (forall st e,
        fst (POST_completions db session c w t completed) = ErrorJson st e ->
        snd (POST_completions db session c w t completed) = db).
Proof.
  split; [|split].
  - intros body Hok.
    apply POST_completions_ok in Hok
      as (u & p & wk & task & -> & _ & Hp & Hwk & Hc & Hs & Htask & Hact & _).
    apply head_filter_Some in Hp as (Hp & Hpc & Hpu).
    apply head_filter_Some in Hwk as (Hwk & Hid).
    apply head_filter_Some in Htask as (Htask & Htid & Htc).
    exists u, p, wk, task. auto 15.
  - intros wk Hwk Hbad. unfold POST_completions.
    destruct session as [u|]; [|eexists _, _; reflexivity].
    destruct (decide (t = "")); [eexists _, _; reflexivity|].
    destruct (head (filter _ (participants db)));
      [|eexists _, _; reflexivity].
    rewrite Hwk.
    destruct (decide (w_challengeId wk <> c)); [eexists _, _; reflexivity|].
    destruct (decide (w_status wk <> OPEN)); [eexists _, _; reflexivity|].
    exfalso. destruct Hbad; contradiction.
  - intros st e. unfold POST_completions.
    repeat match goal with
           | |- context [match ?x with _ => _ end] =>
               lazymatch x with
               | negb ?b => destruct b eqn:?
               | completionUpsert _ _ _ _ _ => destruct x eqn:?
               | _ => destruct x eqn:?
               end; cbn [negb fst snd]
           end; try reflexivity; discriminate.
Qed.

Lemma completionUpsert_new (db : DB) (c w : Id) (t u : string) :
  (forall y, y ∈ completions db -> ~ completionKey w t u y) ->
  completionUpsert c w t u db
  = (mkCompletion c w t u,
     with_completions (completions db ++ [mkCompletion c w t u]) db).
Proof.
  intros Hnew. unfold completionUpsert.
  destruct (head (filter _ (completions db))) as [y|] eqn:Hy; [|reflexivity].
  apply head_filter_Some in Hy as [Hin Hk]. exfalso. exact (Hnew y Hin Hk).
Qed.

Lemma completionUpsert_old (db : DB) (c w : Id) (t u : string)
    (y : Completion) :
  y ∈ completions db -> completionKey w t u y ->
  exists x, x ∈ completions db /\ completionKey w t u x
            /\ completionUpsert c w t u db = (x, db).
Proof.
  intros Hin Hk. unfold completionUpsert.
  destruct (head (filter _ (completions db))) as [x|] eqn:Hx.
  - apply head_filter_Some in Hx as [Hx Hkx]. exists x. auto.
  - exfalso. eapply head_filter_None; [exact Hx|exact Hin|exact Hk].
Qed.

Lemma toggle_checks_keep (db : DB) (l : list Completion)
    (session : option Id) (c w : Id) (t : string) (completed : bool)
    (body : ToggleBody) (u : Id) :
  session = Some u ->
  fst (POST_completions db session c w t completed) = Json 200 body ->
  forall completed',
    POST_completions (with_completions l db) session c w t completed'
    = if completed'
      then (Json 200 (Completed
                        (fst (completionUpsert c w t u
                                (with_completions l db)))),
            snd (completionUpsert c w t u (with_completions l db)))
      else match completionDelete w t u (with_completions l db) with
           | Throw _ => (ErrorJson 500 "Failed to update completion",
                         with_completions l db)
           | Return db' => (Json 200 Removed, db')
           end.
Proof.
  intros Hu Hok completed'.
  apply POST_completions_ok in Hok
    as (u' & p & wk & task & Hu' & Ht & Hp & Hwk & Hc & Hs & Htask & Hact
        & _).
  rewrite Hu in Hu'. injection Hu' as <-. subst session.
  unfold POST_completions.
  cbn [participants weeks taskTemplates with_completions].
  rewrite decide_False by exact Ht. rewrite Hp, Hwk.
  rewrite decide_False by (intros Hne; apply Hne; exact Hc).
  rewrite decide_False by (intros Hne; apply Hne; exact Hs).
  rewrite Htask, Hact. cbn [negb].
  destruct completed'; [|reflexivity].
  destruct (completionUpsert c w t u _). reflexivity.
Qed.

(** X18.  Ticking a task and unticking it.  A tick that is answered 200
    leaves exactly one more completion, the user's for that week and
    task, when there was none, and adds no row when there was one already
    (the existing row is kept; its completion time and source, which are
    not carried here, are rewritten); ticking again right after adds
    nothing either; and after a tick that created the completion, the
    untick is answered 200 and puts the store back exactly as it was
    before the tick. *)
Theorem tick_and_untick (db : DB) (u c w : Id) (t : string)
    (x : Completion) :
  fst (POST_completions db (Some u) c w t true) = Json 200 (Completed x) ->
  let db1 := snd (POST_completions db (Some u) c w t true) in
  (x ∈ completions db1 /\ completionKey w t u x)
  /\ ((forall y, y ∈ completions db -> ~ completionKey w t u y) ->
      x = mkCompletion c w t u
      /\ completions db1 = completions db ++ [x]
      /\ POST_completions db1 (Some u) c w t false = (Json 200 Removed, db))
  /\ ((exists y, y ∈ completions db /\ completionKey w t u y) -> db1 = db)
  /\ POST_completions db1 (Some u) c w t true = (Json 200 (Completed x), db1).
Proof.
  intros Hok. cbv zeta.
  pose proof (toggle_checks_keep db (completions db) (Some u) c w t true
                _ u eq_refl Hok) as Hagain.
  rewrite with_completions_same in Hagain.
  pose proof (Hagain true) as Hrun. cbv iota in Hrun.
  rewrite Hrun in Hok |- *. cbn [fst snd] in Hok |- *.
  injection Hok as Hx.
  destruct (head (filter (completionKey w t u) (completions db)))
    as [y|] eqn:Hhead.
  - apply head_filter_Some in Hhead as [Hy Hky].
    destruct (completionUpsert_old db c w t u y Hy Hky)
      as (x' & Hx' & Hkx' & Hup).
    rewrite Hup in Hx |- *. cbn [fst snd] in Hx |- *. subst x'.
    split; [auto|]. split.
    { intros Hnew. exfalso. exact (Hnew y Hy Hky). }
    split; [reflexivity|]. rewrite Hrun, Hup. reflexivity.
  - assert (Hnew : forall y, y ∈ completions db -> ~ completionKey w t u y)
      by (apply (head_filter_None (completionKey w t u)); exact Hhead).
    rewrite (completionUpsert_new db c w t u Hnew) in Hx |- *.
    cbn [fst snd] in Hx |- *. subst x.
    set (x := mkCompletion c w t u).
    assert (Hkx : completionKey w t u x) by (repeat split).
    assert (Hfirst : fst (POST_completions db (Some u) c w t true)
                     = Json 200
                         (Completed (fst (completionUpsert c w t u db))))
      by (rewrite Hrun; reflexivity).
    pose proof (toggle_checks_keep db (completions db ++ [x]) (Some u) c w
                  t true _ u eq_refl Hfirst) as Hrun1.
    split; [split; [|exact Hkx]|].
    { cbn [completions with_completions]. apply elem_of_app. right. left. }
    split; [|split].
    + intros _. split; [reflexivity|]. split; [reflexivity|].
      rewrite (Hrun1 false). unfold completionDelete.
      cbn [completions with_completions].
      rewrite filter_app, (filter_none _ (completions db))
        by (apply Forall_forall; exact Hnew).
      rewrite filter_cons_True by exact Hkx. cbn [app head].
      rewrite filter_app.
      rewrite (filter_all _ (completions db))
        by (apply Forall_forall; exact Hnew).
      rewrite filter_cons_False by (intros Hno; exact (Hno Hkx)).
      rewrite filter_nil, app_nil_r. f_equal.
      destruct db. reflexivity.
    + intros (y & Hy & Hk). exfalso. exact (Hnew y Hy Hk).
    + rewrite (Hrun1 true).
      destruct (completionUpsert_old
                  (with_completions (completions db ++ [x]) db) c w t u x)
        as (x' & Hx' & Hkx' & Hup); [|exact Hkx|].
      { cbn [completions with_completions]. apply elem_of_app.
        right. left. }
      rewrite Hup. cbn [fst snd]. f_equal. f_equal. f_equal.
      cbn [completions with_completions] in Hx'.
      apply elem_of_app in Hx' as [Hx'|Hx'].
      * exfalso. exact (Hnew x' Hx' Hkx').
      * apply list_elem_of_singleton in Hx'. exact Hx'.
Qed.

(** X19.  A new completion is worth the task's points on the weekly
    leaderboard: after a tick answered 200 for a task the user had not
    completed that week, the weekly leaderboard of the competition has a
    row for the same users as before, the user's row has the points it
    had plus the points of the task template, and every other row has the
    points it had. *)
Theorem tick_adds_the_task_points (db : DB) (u c w : Id) (t : string)
    (x : Completion) :
  fst (POST_completions db (Some u) c w t true) = Json 200 (Completed x) ->
  (forall y, y ∈ completions db -> ~ completionKey w t u y) ->
  let db1 := snd (POST_completions db (Some u) c w t true) in
  let before := getWeeklyLeaderboard db c w in
  let after := getWeeklyLeaderboard db1 c w in
  (forall v, v ∈ userId <$> after <-> v ∈ userId <$> before)
  /\ (forall e e', e ∈ before -> e' ∈ after -> userId e = userId e' ->
        points e'
        = points e + if decide (userId e' = u) then taskPoints db t else 0)
  /\ exists e e', e ∈ before /\ e' ∈ after /\ userId e = u
                  /\ userId e' = u
                  /\ points e' = points e + taskPoints db t.
Proof.
  intros Hok Hnew. cbv zeta.
  pose proof Hok as Hok'.
  apply POST_completions_ok in Hok'
    as (u' & p & wk & task & Hu' & _ & Hp & _ & _ & _ & _ & _ & Hrun).
  injection Hu' as <-.
  rewrite Hrun. cbn [snd]. rewrite (completionUpsert_new db c w t u Hnew).
  cbn [snd].
  set (xnew := mkCompletion c w t u).
  set (db1 := with_completions (completions db ++ [xnew]) db).
  set (cs := weekCompletions db c w).
  set (ps := filter (fun p => p_challengeId p = c) (participants db)).
  assert (Hcs1 : weekCompletions db1 c w = cs ++ [xnew]).
  { unfold weekCompletions, db1, cs.
    cbn [completions with_completions].
    rewrite filter_app, filter_cons_True by (split; reflexivity).
    reflexivity. }
  destruct (board_tallies db cs ps) as [Ht Hkeys].
  destruct (board_rows db cs _ Ht) as (Hnd & Hu & Hrows & _).
  destruct (board_tallies db1 (cs ++ [xnew]) ps) as [Ht1 Hkeys1].
  destruct (board_rows db1 (cs ++ [xnew]) _ Ht1) as (Hnd1 & Hu1 & Hrows1 & _).
  assert (Hb : getWeeklyLeaderboard db c w
               = assignRanks
                   (sortDesc (foldl (addParticipant db)
                                    (foldl (addPoints db) [] cs) ps)))
    by reflexivity.
  assert (Hb1 : getWeeklyLeaderboard db1 c w
                = assignRanks
                    (sortDesc (foldl (addParticipant db1)
                                     (foldl (addPoints db1) []
                                            (cs ++ [xnew])) ps))).
  { unfold getWeeklyLeaderboard, weeklyUserPoints.
    fold (weekCompletions db1 c w). rewrite Hcs1. reflexivity. }
  rewrite Hb, Hb1.
  apply head_filter_Some in Hp as (Hp & Hpc & Hpu).
  assert (Hpart : u ∈ p_userId <$> ps).
  { apply list_elem_of_fmap. exists p. split; [congruence|].
    apply list_elem_of_filter. auto. }
  assert (Husers : forall v,
            v ∈ userId <$> assignRanks
                             (sortDesc (foldl (addParticipant db1)
                                          (foldl (addPoints db1) []
                                                 (cs ++ [xnew])) ps))
            <-> v ∈ userId <$> assignRanks
                                 (sortDesc (foldl (addParticipant db)
                                              (foldl (addPoints db) [] cs)
                                              ps))).
  { intros v. rewrite Hu, Hu1, Hkeys, Hkeys1, fmap_app, elem_of_app.
    split; [|tauto]. intros [[Hv|Hv]|Hv]; [tauto| |tauto].
    apply list_elem_of_singleton in Hv. subst v. right. exact Hpart. }
  assert (Hpts : forall e e',
            e ∈ assignRanks (sortDesc (foldl (addParticipant db)
                                         (foldl (addPoints db) [] cs) ps)) ->
            e' ∈ assignRanks (sortDesc (foldl (addParticipant db1)
                                          (foldl (addPoints db1) []
                                                 (cs ++ [xnew])) ps)) ->
            userId e = userId e' ->
            points e'
            = points e
              + if decide (userId e' = u) then taskPoints db t else 0).
  { intros e e' He He' Hid.
    destruct (Hrows e He) as [Hpe _]. destruct (Hrows1 e' He') as [Hpe' _].
    rewrite Hpe, Hpe', Hid.
    change (earned db1 (cs ++ [xnew]) (userId e'))
      with (earned db (cs ++ [xnew]) (userId e')).
    rewrite earned_snoc. cbn [c_userId c_taskTemplateId xnew].
    repeat case_decide; try reflexivity; congruence. }
  split; [exact Husers|]. split; [exact Hpts|].
  assert (Hin : u ∈ userId <$> assignRanks
                                 (sortDesc (foldl (addParticipant db)
                                              (foldl (addPoints db) [] cs)
                                              ps))).
  { rewrite Hu, Hkeys. right. exact Hpart. }
  pose proof Hin as Hin1. apply Husers in Hin1.
  apply list_elem_of_fmap in Hin as (e & He1 & He).
  apply list_elem_of_fmap in Hin1 as (e' & He1' & He').
  exists e, e'. repeat (split; [first [assumption | congruence]|]).
  rewrite (Hpts e e' He He') by congruence.
  rewrite decide_True by congruence. reflexivity.
Qed.

(** X20.  The organizer's handler edits whatever the week's status.  It
    asks only that the caller is the organizer of the competition, that
    the week belongs to the competition, that the target user is one of
    its participants and that the task template is an active one of the
    competition; under these conditions, in a LOCKED week as in any other,
    a tick leaves the target user's completion in the store, and an untick
    is answered 200 and leaves none, also when there was none to remove;
    the user's own untick through the participants' handler is then an
    error, 500 in an OPEN week and 400 otherwise. *)
Theorem organizer_edits_any_week (db : DB) (g c w : Id) (u t : string)
    (p : Participant) (wk : Week) (task : TaskTemplate) :
  verifyOrganizer db c g = true -> u <> "" -> t <> "" ->
  head (filter (fun x => w_id x = w) (weeks db)) = Some wk ->
  w_challengeId wk = c ->
  head (filter (fun p => p_challengeId p = c /\ p_userId p = u)
               (participants db)) = Some p ->
  head (filter (fun x => tt_id x = t /\ tt_challengeId x = c)
               (taskTemplates db)) = Some task ->
  tt_active task = true ->
  (exists x, fst (POST_admin_completions db (Some g) c w u t true)
             = Json 200 (Completed x)
             /\ completionKey w t u x
             /\ x ∈ completions
                      (snd (POST_admin_completions db (Some g) c w u t true)))
  /\ fst (POST_admin_completions db (Some g) c w u t false)
     = Json 200 Removed
  /\ (forall y,
        y ∈ completions
              (snd (POST_admin_completions db (Some g) c w u t false)) ->
        y ∈ completions db /\ ~ completionKey w t u y)
  /\ ((forall y, y ∈ completions db -> ~ completionKey w t u y) ->
      snd (POST_admin_completions db (Some g) c w u t false) = db
      /\ exists e,
           fst (POST_completions db (Some u) c w t false)
           = ErrorJson (if decide (w_status wk = OPEN) then 500 else 400)
                       e).
Proof.
  intros Hg Hu Ht Hwk Hc Hp Htask Hact.
  assert (Hrun : forall completed,
            POST_admin_completions db (Some g) c w u t completed
            = if completed
              then (Json 200 (Completed (fst (completionUpsert c w t u db))),
                    snd (completionUpsert c w t u db))
              else match completionDelete w t u db with
                   | Throw _ => (Json 200 Removed, db)
                   | Return db' => (Json 200 Removed, db')
                   end).
  { intros completed. unfold POST_admin_completions.
    rewrite decide_False by tauto. rewrite Hg. cbn [negb]. rewrite Hwk.
    rewrite decide_False by (intros Hne; apply Hne; exact Hc).
    rewrite Hp, Htask, Hact. cbn [negb].
    destruct completed; [|reflexivity].
    destruct (completionUpsert c w t u db). reflexivity. }
  split; [|split; [|split]].
  - rewrite (Hrun true). cbn [fst snd]. eexists. split; [reflexivity|].
    unfold completionUpsert.
    destruct (head (filter _ (completions db))) as [x|] eqn:Hx.
    + apply head_filter_Some in Hx as [Hin Hk]. auto.
    + cbn [fst snd completions with_completions].
      split; [repeat split|]. apply elem_of_app. right. left.
  - rewrite (Hrun false). destruct (completionDelete w t u db); reflexivity.
  - intros y. rewrite (Hrun false). unfold completionDelete.
    destruct (head (filter _ (completions db))) as [x|] eqn:Hx.
    + cbn [snd completions with_completions]. intros Hy.
      apply list_elem_of_filter in Hy. tauto.
    + cbn [snd]. intros Hy. split; [exact Hy|].
      eapply (head_filter_None (completionKey w t u)); eauto.
  - intros Hnone.
    assert (Hh : head (filter (completionKey w t u) (completions db)) = None).
    { destruct (head (filter _ (completions db))) as [x|] eqn:Hx;
        [|reflexivity].
      apply head_filter_Some in Hx as [Hin Hk]. exfalso.
      exact (Hnone x Hin Hk). }
    split.
    + rewrite (Hrun false). unfold completionDelete. rewrite Hh.
      reflexivity.
    + unfold POST_completions.
      rewrite decide_False by exact Ht. rewrite Hp, Hwk.
      rewrite decide_False by (intros Hne; apply Hne; exact Hc).
      destruct (decide (w_status wk = OPEN)) as [Ho|Ho].
      * rewrite decide_False by (intros Hne; apply Hne; exact Ho).
        rewrite Htask, Hact. cbn [negb]. unfold completionDelete.
        rewrite Hh. eexists. reflexivity.
      * rewrite decide_True by exact Ho. eexists. reflexivity.
Qed.

End Completions.

(** ** Locking and unlocking a week *)

Section LockFacts.
Context `{NumberFormat} `{Schema}.
Import Authorization Tokens SideChallenges WeekRoutes.

Lemma weekUpdate_lookup (w : Id) (s : WeekStatus) (db : DB) :
  head (filter (fun x => w_id x = w) (weeks (weekUpdate w s db)))
  = (fun x => mkWeek (w_id x) (w_challengeId x) s)
      <$> head (filter (fun x => w_id x = w) (weeks db)).
Proof.
  unfold weekUpdate. cbn [weeks with_weeks].
  induction (weeks db) as [|x l IH]; [reflexivity|].
  cbn [fmap list_fmap]. rewrite !filter_cons.
  destruct (decide (w_id x = w)) as [Hx|Hx].
  - rewrite decide_True by exact Hx. reflexivity.
  - rewrite decide_False by exact Hx. exact IH.
Qed.

Lemma weekUpdate_status (w : Id) (s : WeekStatus) (db : DB) (x : Week) :
  x ∈ weeks (weekUpdate w s db) -> w_id x = w -> w_status x = s.
Proof.
  unfold weekUpdate. cbn [weeks with_weeks]. intros Hx Hw.
  apply list_elem_of_fmap in Hx as (y & -> & _).
  destruct (decide (w_id y = w)); [reflexivity|contradiction].
Qed.

Lemma weekUpdate_twice (w : Id) (s s' : WeekStatus) (db : DB) :
  weekUpdate w s (weekUpdate w s' db) = weekUpdate w s db.
Proof.
  unfold weekUpdate. cbn [weeks with_weeks]. unfold with_weeks.
  cbn [users challenges participants taskTemplates completions tokenLedger
       sideChallenges sideChallengeSubmissions].
  f_equal. rewrite <- list_fmap_compose. apply list_fmap_ext.
  intros i x _. cbn [compose].
  destruct (decide (w_id x = w)) as [Hx|Hx].
  - cbn [w_id w_challengeId]. rewrite decide_True by exact Hx. reflexivity.
  - rewrite decide_False by exact Hx. reflexivity.
Qed.

Lemma awardPerfectWeekTokensSafe_setup (db : DB) (c w : Id) :
  sameSetup db (snd (awardPerfectWeekTokensSafe db c w))
  /\ sideChallenges (snd (awardPerfectWeekTokensSafe db c w))
     = sideChallenges db
  /\ sideChallengeSubmissions (snd (awardPerfectWeekTokensSafe db c w))
     = sideChallengeSubmissions db.
Proof.
  destruct (awardPerfectWeekTokensSafe_effect db c w)
    as (rows & us & -> & _).
  repeat split.
Qed.

Lemma cleanupOne_setup (c w : Id) (now : Time) (st : CleanupResult * DB)
    (it : SideChallenge * list SideChallengeSubmission) :
  sameSetup (snd st) (snd (cleanupOne c w now st it)).
Proof.
  destruct st as [counts db], it as [ch subs]. unfold cleanupOne.
  cbn [snd].
  repeat case_match; cbn [snd]; unfold resolveSideChallengeTokens;
    repeat case_match; repeat split.
Qed.

Lemma cleanup_setup (db : DB) (c w : Id) (now : Time) :
  sameSetup db (snd (cleanupSideChallengesOnWeekLock db c w now)).
Proof.
  unfold cleanupSideChallengesOnWeekLock.
  generalize (mkCleanupResult O O). generalize (unfinished db c w).
  intros items. revert db. induction items as [|it items IH];
    intros db counts.
  - repeat split.
  - cbn [foldl].
    pose proof (cleanupOne_setup c w now (counts, db) it) as H1.
    destruct (cleanupOne c w now (counts, db) it) as [counts' db'] eqn:Hone.
    cbn [snd] in H1. pose proof (IH db' counts') as H2.
    destruct H1 as (? & ? & ? & ? & ? & ?).
    destruct H2 as (? & ? & ? & ? & ? & ?).
    repeat split; congruence.
Qed.

Lemma detectPerfectWeeks_setup (db db' : DB) (c w : Id) :
  sameSetup db db' ->
  detectPerfectWeeks db' c w = detectPerfectWeeks db c w.
Proof.
  intros (_ & _ & Hp & Ht & _ & Hc). unfold detectPerfectWeeks.
  rewrite Hp, Ht, Hc. reflexivity.
Qed.

Lemma verifyOrganizer_setup (db db' : DB) (c g : Id) :
  sameSetup db db' -> verifyOrganizer db' c g = verifyOrganizer db c g.
Proof.
  intros (_ & Hc & _). unfold verifyOrganizer. rewrite Hc. reflexivity.
Qed.

Lemma hasReceived_app (db db' : DB) (rows : list TokenLedger) (c w u : Id) :
  tokenLedger db' = tokenLedger db ++ rows ->
  hasReceivedPerfectWeekToken db c w u = true ->
  hasReceivedPerfectWeekToken db' c w u = true.
Proof.
  intros Hl Hr. apply hasReceived_iff in Hr as (e & He & Hp).
  apply hasReceived_iff. exists e. split; [|exact Hp].
  rewrite Hl. apply elem_of_app. left. exact He.
Qed.

Lemma award_received (db : DB) (c w u : Id) :
  u ∈ detectPerfectWeeks db c w ->
  hasReceivedPerfectWeekToken (snd (awardPerfectWeekTokensSafe db c w)) c w u
  = true.
Proof.
  intros Hu.
  destruct (awardPerfectWeekTokensSafe_twice db c w)
    as (_ & (rows & Hfirst & Hdata) & _).
  rewrite Hfirst. apply hasReceived_iff.
  cbn [tokenLedger with_tokenLedger].
  destruct (hasReceivedPerfectWeekToken db c w u) eqn:Hold.
  - apply hasReceived_iff in Hold as (e & He & Hp).
    exists e. split; [apply elem_of_app; left; exact He | exact Hp].
  - assert (Hin : perfectWeekData c w u ∈ dataOf <$> rows).
    { rewrite Hdata. apply list_elem_of_fmap. exists u.
      split; [reflexivity|]. apply list_elem_of_filter. auto. }
    apply list_elem_of_fmap in Hin as (e & He & Hin).
    exists e. split; [apply elem_of_app; right; exact Hin|].
    unfold isPerfectWeekEntry. destruct e. simpl in *.
    unfold dataOf, perfectWeekData in He. simpl in He.
    inversion He. auto.
Qed.

Lemma award_all_received (db : DB) (c w : Id) :
  (forall u, u ∈ detectPerfectWeeks db c w ->
     hasReceivedPerfectWeekToken db c w u = true) ->
  awardPerfectWeekTokensSafe db c w
  = (mkAwardResult O (length (detectPerfectWeeks db c w)), db).
Proof.
  intros Hhas. unfold awardPerfectWeekTokensSafe.
  case_decide as Hz.
  - rewrite Hz. reflexivity.
  - rewrite award_split. cbn [app Nat.add].
    rewrite (filter_none (fun u => hasReceivedPerfectWeekToken db c w u
                                   = false)).
    + rewrite (filter_all (fun u => hasReceivedPerfectWeekToken db c w u
                                    = true)).
      * reflexivity.
      * apply Forall_forall. exact Hhas.
    + apply Forall_forall. intros u Hu. rewrite (Hhas u Hu). discriminate.
Qed.

Lemma cleanup_nothing_open (db : DB) (c w : Id) (now : Time) :
  (forall ch, ch ∈ sideChallenges db -> sc_challengeId ch = c ->
     sc_weekId ch = w -> terminal (sc_status ch)) ->
  cleanupSideChallengesOnWeekLock db c w now = (mkCleanupResult O O, db).
Proof.
  intros Hall. unfold cleanupSideChallengesOnWeekLock, unfinished.
  rewrite (filter_none (fun x => sc_challengeId x = c /\ sc_weekId x = w
                                 /\ sc_status x
                                    ∈ [PROPOSED; ACCEPTED; PENDING_REVIEW])).
  - reflexivity.
  - apply Forall_forall. intros ch Hin (Hc & Hw & Hopen).
    exact (terminal_not_open _ (Hall ch Hin Hc Hw) Hopen).
Qed.

Lemma reachable_step (db db' : DB) :
  reachable db -> step db db' -> reachable db'.
Proof.
  intros (db0 & Hinit & Hr) Hs. exists db0. split; [exact Hinit|].
  eapply rtc_r; eauto.
Qed.

(** What the handler does for the organizer of the week's competition. *)
Lemma POST_admin_lock_run (db : DB) (now : Time) (g c w : Id) (wk : Week) :
  verifyOrganizer db c g = true ->
  head (filter (fun x => w_id x = w) (weeks db)) = Some wk ->
  w_challengeId wk = c ->
  let A := awardPerfectWeekTokensSafe (weekUpdate w LOCKED db) c w in
  let C := cleanupSideChallengesOnWeekLock (snd A) c w now in
  POST_admin_lock db now (Some g) c w "lock"
  = (Json 200 (mkLockBody LOCKED (Some (fst A)) (Some (fst C))), snd C)
  /\ POST_admin_lock db now (Some g) c w "unlock"
     = (Json 200 (mkLockBody OPEN None None), weekUpdate w OPEN db).
Proof.
  intros Hg Hwk Hc A C. unfold POST_admin_lock.
  rewrite !decide_False by (intros [? ?]; congruence).
  rewrite Hg. cbn [negb]. rewrite Hwk.
  rewrite !decide_False by (intros Hne; apply Hne; exact Hc).
  split.
  - rewrite !decide_True by reflexivity. fold A.
    destruct A as [a dbA] eqn:HA. cbn [snd] in C. fold C.
    destruct C as [k dbC]. reflexivity.
  - destruct (decide ("unlock" <> "lock" /\ "unlock" <> "unlock"))
      as [[_ E]|_]; [congruence|].
    destruct (decide (w_challengeId wk <> c)) as [E|_]; [congruence|].
    destruct (decide ("unlock" = "lock")) as [E|_]; [discriminate E|].
    reflexivity.
Qed.

Lemma lock_run_facts (db : DB) (now : Time) (g c w : Id) (wk : Week) :
  reachable db ->
  verifyOrganizer db c g = true ->
  head (filter (fun x => w_id x = w) (weeks db)) = Some wk ->
  w_challengeId wk = c ->
  let locked := snd (POST_admin_lock db now (Some g) c w "lock") in
  sameSetup (weekUpdate w LOCKED db) locked
  /\ (forall x, x ∈ weeks locked -> w_id x = w -> w_status x = LOCKED)
  /\ (forall u, u ∈ detectPerfectWeeks db c w ->
        hasReceivedPerfectWeekToken locked c w u = true)
  /\ (forall ch, ch ∈ sideChallenges locked -> sc_challengeId ch = c ->
        sc_weekId ch = w -> terminal (sc_status ch))
  /\ reachable locked.
Proof.
  intros Hreach Hg Hwk Hc.
  destruct (POST_admin_lock_run db now g c w wk Hg Hwk Hc) as [Hrun _].
  cbv zeta in Hrun. cbv zeta.
  set (db1 := weekUpdate w LOCKED db) in *.
  set (A := awardPerfectWeekTokensSafe db1 c w) in *.
  set (C := cleanupSideChallengesOnWeekLock (snd A) c w now) in *.
  assert (Hr1 : reachable db1)
    by (apply (reachable_step db); [exact Hreach|];
        apply step_other; reflexivity).
  assert (HrA : reachable (snd A))
    by (apply (reachable_step db1); [exact Hr1|]; apply step_award).
  assert (HrC : reachable (snd C))
    by (apply (reachable_step (snd A)); [exact HrA|]; apply step_week_lock).
  destruct (awardPerfectWeekTokensSafe_setup db1 c w) as (HsA & _ & _).
  fold A in HsA.
  pose proof (cleanup_setup (snd A) c w now) as HsC. fold C in HsC.
  assert (Hs : sameSetup db1 (snd C)).
  { destruct HsA as (? & ? & ? & ? & ? & ?).
    destruct HsC as (? & ? & ? & ? & ? & ?). repeat split; congruence. }
  assert (Hweeks : weeks (snd C) = weeks db1) by apply Hs.
  rewrite Hrun. cbn [fst snd].
  split; [exact Hs|].
  split.
  { intros x Hx. rewrite Hweeks in Hx. exact (weekUpdate_status w _ db x Hx). }
  split.
  { intros u Hu.
    destruct (cleanup_fold_tables c w now (unfinished (snd A) c w)
                (mkCleanupResult O O) (snd A)) as ((rows & Hl) & _).
    apply (hasReceived_app (snd A) (snd C) rows); [exact Hl|].
    apply award_received. exact Hu. }
  split; [|exact HrC].
  exact (cleanup_terminal (snd A) c w now (Sane_reachable _ HrA)).
Qed.


(** X22.  Unlocking gives nothing back and locking again gives nothing
    twice: after a lock, an unlock by the organizer changes the status of
    the week to OPEN and no other table, and a second lock right after it
    awards no token, closes no wager and leaves the store exactly as the
    first lock left it. *)
Theorem relock_changes_nothing (db : DB) (now now' : Time) (g c w : Id)
    (wk : Week) :
  reachable db ->
  verifyOrganizer db c g = true ->
  head (filter (fun x => w_id x = w) (weeks db)) = Some wk ->
  w_challengeId wk = c ->
  let locked := snd (POST_admin_lock db now (Some g) c w "lock") in
  let unlock := POST_admin_lock locked now' (Some g) c w "unlock" in
  let relock := POST_admin_lock (snd unlock) now' (Some g) c w "lock" in
  fst unlock = Json 200 (mkLockBody OPEN None None)
  /\ snd unlock = weekUpdate w OPEN locked
  /\ (forall x, x ∈ weeks (snd unlock) -> w_id x = w -> w_status x = OPEN)
  /\ fst relock
     = Json 200 (mkLockBody LOCKED
                   (Some (mkAwardResult O
                            (length (detectPerfectWeeks db c w))))
                   (Some (mkCleanupResult O O)))
  /\ snd relock = locked.
Proof.
  intros Hreach Hg Hwk Hc. cbv zeta.
  destruct (lock_run_facts db now g c w wk Hreach Hg Hwk Hc)
    as (Hs & Hst & Hhas & Hterm & _).
  set (locked := snd (POST_admin_lock db now (Some g) c w "lock")) in *.
  assert (Hg1 : verifyOrganizer locked c g = true).
  { rewrite (verifyOrganizer_setup (weekUpdate w LOCKED db) locked c g Hs).
    exact Hg. }
  assert (Hwk1 : head (filter (fun x => w_id x = w) (weeks locked))
                 = Some (mkWeek (w_id wk) (w_challengeId wk) LOCKED)).
  { destruct Hs as (_ & _ & _ & _ & -> & _).
    rewrite weekUpdate_lookup, Hwk. reflexivity. }
  destruct (POST_admin_lock_run locked now' g c w _ Hg1 Hwk1 Hc)
    as [_ Hun].
  rewrite Hun. cbn [fst snd].
  split; [reflexivity|]. split; [reflexivity|].
  split; [intros x; apply weekUpdate_status|].
  set (db2 := weekUpdate w OPEN locked).
  assert (Hg2 : verifyOrganizer db2 c g = true) by exact Hg1.
  assert (Hwk2 : head (filter (fun x => w_id x = w) (weeks db2))
                 = Some (mkWeek (w_id wk) (w_challengeId wk) OPEN)).
  { unfold db2. rewrite weekUpdate_lookup, Hwk1. reflexivity. }
  destruct (POST_admin_lock_run db2 now' g c w _ Hg2 Hwk2 Hc)
    as [Hre _].
  cbv zeta in Hre. rewrite Hre. clear Hre.
  assert (Hback : weekUpdate w LOCKED db2 = locked).
  { unfold db2. rewrite weekUpdate_twice.
    unfold weekUpdate.
    assert (Hw : (fun x => if decide (w_id x = w)
                           then mkWeek (w_id x) (w_challengeId x) LOCKED
                           else x) <$> weeks locked = weeks locked).
    { rewrite <- (list_fmap_id (weeks locked)) at 2.
      apply list_fmap_ext. intros i x Hx. cbn [id].
      apply list_elem_of_lookup_2 in Hx.
      destruct (decide (w_id x = w)) as [Hxw|]; [|reflexivity].
      pose proof (Hst x Hx Hxw) as Hl. destruct x. simpl in *.
      congruence. }
    rewrite Hw. destruct locked. reflexivity. }
  rewrite Hback.
  rewrite (award_all_received locked c w).
  2:{ intros u Hu. apply Hhas.
      rewrite (detectPerfectWeeks_setup (weekUpdate w LOCKED db) locked
                 c w Hs) in Hu. exact Hu. }
  cbn [fst snd].
  rewrite (cleanup_nothing_open locked c w now' Hterm). cbn [fst snd].
  rewrite (detectPerfectWeeks_setup (weekUpdate w LOCKED db) locked c w Hs).
  split; reflexivity.
Qed.

End LockFacts.

(** ** The handlers at work on the example competition *)

Lemma participant_edits_need_an_open_week_witness :
  exists st e,
    fst (WeekRoutes.POST_completions lifecycleStart (Some "bob") "c1" "w0"
           "t1" true)
    = ErrorJson st e.
Proof.
  apply (proj1 (proj2 (participant_edits_need_an_open_week lifecycleStart
                         (Some "bob") "c1" "w0" "t1" true))
               (mkWeek "w0" "c1" LOCKED)).
  - reflexivity.
  - left. discriminate.
Defined.

Lemma tick_and_untick_witness :
  let tick :=
    WeekRoutes.POST_completions lifecycleStart (Some "bob") "c1" "w1" "t1"
      true in
  fst tick
  = Json 200 (WeekRoutes.Completed (mkCompletion "c1" "w1" "t1" "bob"))
  /\ mkCompletion "c1" "w1" "t1" "bob" ∈ completions (snd tick)
  /\ WeekRoutes.POST_completions (snd tick) (Some "bob") "c1" "w1" "t1" true
     = (Json 200 (WeekRoutes.Completed (mkCompletion "c1" "w1" "t1" "bob")),
        snd tick).
Proof.
  assert (Hok : fst (WeekRoutes.POST_completions lifecycleStart (Some "bob")
                       "c1" "w1" "t1" true)
                = Json 200 (WeekRoutes.Completed
                              (mkCompletion "c1" "w1" "t1" "bob")))
    by (vm_compute; reflexivity).
  destruct (tick_and_untick lifecycleStart "bob" "c1" "w1" "t1"
              (mkCompletion "c1" "w1" "t1" "bob") Hok)
    as ((Hin & _) & _ & _ & Hagain).
  split; [exact Hok|]. split; [exact Hin | exact Hagain].
Defined.

Lemma tick_adds_the_task_points_witness :
  let tick :=
    WeekRoutes.POST_completions lifecycleStart (Some "bob") "c1" "w1" "t1"
      true in
  exists e e',
    e ∈ Leaderboard.getWeeklyLeaderboard lifecycleStart "c1" "w1"
    /\ e' ∈ Leaderboard.getWeeklyLeaderboard (snd tick) "c1" "w1"
    /\ Leaderboard.userId e = "bob" /\ Leaderboard.userId e' = "bob"
    /\ Leaderboard.points e'
       = Leaderboard.points e + Leaderboard.taskPoints lifecycleStart "t1".
Proof.
  assert (Hok : fst (WeekRoutes.POST_completions lifecycleStart (Some "bob")
                       "c1" "w1" "t1" true)
                = Json 200 (WeekRoutes.Completed
                              (mkCompletion "c1" "w1" "t1" "bob")))
    by (vm_compute; reflexivity).
  assert (Hnew : forall y, y ∈ completions lifecycleStart ->
                   ~ WeekRoutes.completionKey "w1" "t1" "bob" y).
  { intros y Hy [Hw _]. apply list_elem_of_In in Hy. simpl in Hy.
    destruct Hy as [<-|[<-|[]]]; discriminate Hw. }
  exact (proj2 (proj2 (tick_adds_the_task_points lifecycleStart "bob" "c1"
                         "w1" "t1" _ Hok Hnew))).
Defined.

Lemma organizer_edits_any_week_witness :
  fst (WeekRoutes.POST_admin_completions lifecycleStart (Some "ann") "c1"
         "w0" "bob" "t1" false)
  = Json 200 WeekRoutes.Removed
  /\ forall y,
       y ∈ completions
             (snd (WeekRoutes.POST_admin_completions lifecycleStart
                     (Some "ann") "c1" "w0" "bob" "t1" false)) ->
       y ∈ completions lifecycleStart
       /\ ~ WeekRoutes.completionKey "w0" "t1" "bob" y.
Proof.
  destruct (organizer_edits_any_week lifecycleStart "ann" "c1" "w0" "bob"
              "t1" (mkParticipant "c1" "bob") (mkWeek "w0" "c1" LOCKED)
              (mkTaskTemplate "t1" "c1" 5 true))
    as (_ & Hrm & Hleft & _);
    [reflexivity | discriminate | discriminate | reflexivity | reflexivity
    | reflexivity | reflexivity | reflexivity |].
  split; [exact Hrm | exact Hleft].
Defined.


Lemma relock_changes_nothing_witness :
  let locked :=
    snd (WeekRoutes.POST_admin_lock (H := exampleFormat)
           (H0 := exampleSchema) lifecycleAccepted 500 (Some "ann") "c1"
           "w1" "lock") in
  let unlock :=
    WeekRoutes.POST_admin_lock (H := exampleFormat) (H0 := exampleSchema)
      locked 600 (Some "ann") "c1" "w1" "unlock" in
  snd (WeekRoutes.POST_admin_lock (H := exampleFormat)
         (H0 := exampleSchema) (snd unlock) 600 (Some "ann") "c1" "w1"
         "lock")
  = locked.
Proof.
  destruct (relock_changes_nothing (H := exampleFormat)
              (H0 := exampleSchema) lifecycleAccepted 500 600 "ann" "c1"
              "w1" (mkWeek "w1" "c1" OPEN)
              lifecycleAccepted_reachable eq_refl eq_refl eq_refl)
    as (_ & _ & _ & _ & Hsame).
  exact Hsame.
Defined.

(** ** The rate limiter *)

Section RateLimitFacts.
Import RateLimit.
Variables MAX_ATTEMPTS WINDOW_MS : Z.
Implicit Type store : gmap string RateLimitEntry.


Lemma check_counted store (now : Z) (id : string) (k r : Z) :
  store !! id = Some (mkEntry k r None) -> now <= r -> k < MAX_ATTEMPTS ->
  checkRateLimit MAX_ATTEMPTS WINDOW_MS store now id
  = (mkResult true (MAX_ATTEMPTS - (k + 1)) r None,
     <[id := mkEntry (k + 1) r None]> store).
Proof.
  intros Hl Hr Hk. unfold checkRateLimit. rewrite Hl.
  cbn [locked lockedUntil resetAt count].
  repeat case_decide; first [lia | reflexivity].
Qed.

Lemma run_counted (id : string) (r : Z) (times : list Z) :
  Forall (fun t => t <= r) times ->
  forall store (k : Z),
    store !! id = Some (mkEntry k r None) ->
    k + Z.of_nat (length times) <= MAX_ATTEMPTS ->
    attempts MAX_ATTEMPTS WINDOW_MS store id times
    = (imap (fun i _ => mkResult true
                          (MAX_ATTEMPTS - (k + 1 + Z.of_nat i)) r None)
            times,
       <[id := mkEntry (k + Z.of_nat (length times)) r None]> store).
Proof.
  induction 1 as [|t times Ht _ IH]; intros store k Hl Hk.
  - cbn [attempts imap length]. change (Z.of_nat 0) with 0.
    rewrite Z.add_0_r. rewrite (insert_id store id _ Hl). reflexivity.
  - cbn [attempts]. cbn [length] in Hk.
    rewrite (check_counted store t id k r Hl Ht) by lia.
    rewrite (IH (<[id := mkEntry (k + 1) r None]> store) (k + 1));
      [|apply lookup_insert_eq|lia].
    rewrite (insert_insert_eq store id). cbn [imap]. f_equal.
    + f_equal; [do 2 f_equal; lia|].
      apply imap_ext. intros i x _. cbn [compose]. do 2 f_equal. lia.
    + do 2 f_equal. cbn [length]. lia.
Qed.

Lemma check_first store (now : Z) (id : string) :
  store !! id = None ->
  checkRateLimit MAX_ATTEMPTS WINDOW_MS store now id
  = (mkResult true (MAX_ATTEMPTS - 1) (now + WINDOW_MS) None,
     <[id := mkEntry 1 (now + WINDOW_MS) None]> store).
Proof. intros Hl. unfold checkRateLimit. rewrite Hl. reflexivity. Qed.

Lemma run_first store (id : string) (t1 : Z) (rest : list Z) :
  store !! id = None ->
  Forall (fun t => t <= t1 + WINDOW_MS) rest ->
  Z.of_nat (length (t1 :: rest)) <= MAX_ATTEMPTS ->
  attempts MAX_ATTEMPTS WINDOW_MS store id (t1 :: rest)
  = (imap (fun i _ => mkResult true (MAX_ATTEMPTS - (Z.of_nat i + 1))
                               (t1 + WINDOW_MS) None)
          (t1 :: rest),
     <[id := mkEntry (Z.of_nat (length (t1 :: rest))) (t1 + WINDOW_MS) None]>
       store).
Proof.
  intros Hl Hrest Hlen. cbn [attempts].
  rewrite (check_first store t1 id Hl).
  rewrite (run_counted id (t1 + WINDOW_MS) rest Hrest _ 1);
    [|apply lookup_insert_eq|cbn [length] in Hlen; lia].
  rewrite (insert_insert_eq store id). cbn [imap length]. f_equal.
  - f_equal. apply imap_ext. intros i x _. cbn [compose].
    do 2 f_equal. lia.
  - do 2 f_equal. lia.
Qed.

(** X23.  An identifier the store does not know may try MAX_ATTEMPTS times
    within the window that its first attempt opens: of such attempts, made
    at any times up to the first one's time plus WINDOW_MS, the k-th is
    allowed and reports MAX_ATTEMPTS - k attempts remaining and the end of
    the window as reset time, and the store then holds their number as the
    identifier's count. *)
Theorem attempts_within_the_window store (id : string) (t1 : Z)
    (rest : list Z) :
  store !! id = None ->
  Forall (fun t => t <= t1 + WINDOW_MS) rest ->
  Z.of_nat (length (t1 :: rest)) <= MAX_ATTEMPTS ->
  attempts MAX_ATTEMPTS WINDOW_MS store id (t1 :: rest)
  = (imap (fun i _ => mkResult true (MAX_ATTEMPTS - (Z.of_nat i + 1))
                               (t1 + WINDOW_MS) None)
          (t1 :: rest),
     <[id := mkEntry (Z.of_nat (length (t1 :: rest))) (t1 + WINDOW_MS) None]>
       store).
Proof. exact (run_first store id t1 rest). Qed.

Lemma check_locks store (now : Z) (id : string)
    (e : RateLimitEntry) :
  store !! id = Some e -> locked e = None -> now <= resetAt e ->
  MAX_ATTEMPTS <= count e ->
  checkRateLimit MAX_ATTEMPTS WINDOW_MS store now id
  = (mkResult false 0 (now + LOCKOUT_MS) (Some (now + LOCKOUT_MS)),
     <[id := mkEntry (count e + 1) (resetAt e) (Some (now + LOCKOUT_MS))]>
       store).
Proof.
  intros Hl Hno Hr Hk. unfold checkRateLimit. rewrite Hl, Hno.
  cbn [count resetAt].
  repeat case_decide; first [lia | reflexivity].
Qed.

Lemma check_while_locked store (now : Z) (id : string)
    (e : RateLimitEntry) (l : Z) :
  store !! id = Some e -> locked e = Some l -> now < l ->
  checkRateLimit MAX_ATTEMPTS WINDOW_MS store now id
  = (mkResult false 0 l (Some l), store).
Proof.
  intros Hl Hlock Hnow. unfold checkRateLimit. rewrite Hl, Hlock.
  repeat case_decide;
    first [lia | reflexivity
          | match goal with H : _ /\ Some _ = None |- _ =>
              destruct H as [_ H]; discriminate H end].
Qed.

Lemma check_lock_expired store (now : Z) (id : string)
    (e : RateLimitEntry) (l : Z) :
  store !! id = Some e -> locked e = Some l -> l <= now ->
  checkRateLimit MAX_ATTEMPTS WINDOW_MS store now id
  = (mkResult true (MAX_ATTEMPTS - 1) (now + WINDOW_MS) None,
     delete id store).
Proof.
  intros Hl Hlock Hnow. unfold checkRateLimit. rewrite Hl, Hlock.
  repeat case_decide;
    first [lia | reflexivity
          | match goal with H : _ /\ Some _ = None |- _ =>
              destruct H as [_ H]; discriminate H end].
Qed.

(** X24.  The attempt after the last allowed one locks the identifier: for
    an entry that is not locked, whose window has not ended and whose count
    has reached MAX_ATTEMPTS, the call is refused with nothing remaining
    and a lock until one hour after the call.  Every call before that time
    is refused with the same lock and leaves the store as it is, so that
    trying again does not make the lock longer. *)
Theorem lockout_lasts_one_hour store (now : Z) (id : string)
    (e : RateLimitEntry) :
  store !! id = Some e -> locked e = None -> now <= resetAt e ->
  MAX_ATTEMPTS <= count e -> 0 <= now ->
  let r := checkRateLimit MAX_ATTEMPTS WINDOW_MS store now id in
  fst r = mkResult false 0 (now + 3600000) (Some (now + 3600000))
  /\ forall times,
       Forall (fun t => t < now + 3600000) times ->
       attempts MAX_ATTEMPTS WINDOW_MS (snd r) id times
       = (const (fst r) <$> times, snd r).
Proof.
  intros Hl Hno Hr Hk Hnow r.
  pose proof (check_locks store now id e Hl Hno Hr Hk) as Hrun.
  fold r in Hrun. rewrite Hrun. cbn [fst snd].
  split; [reflexivity|].
  set (st := <[id := _]> store).
  induction 1 as [|t times Ht _ IH]; [reflexivity|].
  cbn [attempts].
  rewrite (check_while_locked st t id
             (mkEntry (count e + 1) (resetAt e) (Some (now + LOCKOUT_MS)))
             (now + LOCKOUT_MS)).
  - rewrite IH. reflexivity.
  - apply lookup_insert_eq.
  - unfold locked. cbn [lockedUntil]. unfold LOCKOUT_MS.
    rewrite decide_False by lia. reflexivity.
  - exact Ht.
Qed.

(** X25.  The first attempt after a lock has run out is not counted: it is
    allowed and removes the entry, so that the identifier then has the
    MAX_ATTEMPTS attempts of an unknown identifier as well.  After a lock,
    MAX_ATTEMPTS + 1 attempts in a row are allowed where an unknown
    identifier has MAX_ATTEMPTS. *)
Theorem attempt_after_lockout_is_free store (now : Z)
    (id : string) (e : RateLimitEntry) (l t1 : Z) (rest : list Z) :
  store !! id = Some e -> locked e = Some l -> l <= now ->
  Forall (fun t => t <= t1 + WINDOW_MS) rest ->
  Z.of_nat (length (t1 :: rest)) <= MAX_ATTEMPTS ->
  checkRateLimit MAX_ATTEMPTS WINDOW_MS store now id
  = (mkResult true (MAX_ATTEMPTS - 1) (now + WINDOW_MS) None,
     delete id store)
  /\ allowed <$> fst (attempts MAX_ATTEMPTS WINDOW_MS store id
                        (now :: t1 :: rest))
     = replicate (S (length (t1 :: rest))) true
  /\ snd (attempts MAX_ATTEMPTS WINDOW_MS store id (now :: t1 :: rest))
     = <[id := mkEntry (Z.of_nat (length (t1 :: rest))) (t1 + WINDOW_MS)
                       None]> store.
Proof.
  intros Hl Hlock Hnow Hrest Hlen.
  pose proof (check_lock_expired store now id e l Hl Hlock Hnow) as Hrun.
  split; [exact Hrun|].
  change (attempts MAX_ATTEMPTS WINDOW_MS store id (now :: t1 :: rest))
    with (let '(r, store) := checkRateLimit MAX_ATTEMPTS WINDOW_MS store now
                               id in
          let '(rs, store) := attempts MAX_ATTEMPTS WINDOW_MS store id
                                (t1 :: rest) in
          (r :: rs, store)).
  rewrite Hrun. cbv beta iota.
  pose proof (run_first (delete id store) id t1 rest
                (lookup_delete_eq store id) Hrest Hlen) as Hgo.
  rewrite Hgo. cbn [fst snd].
  split.
  - assert (Hg : forall (f : nat -> Z -> RateLimitResult) ts,
              (forall i x, allowed (f i x) = true) ->
              allowed <$> imap f ts = replicate (length ts) true).
    { clear. intros f ts. revert f. induction ts as [|y ts IH]; intros f Hf;
        [reflexivity|].
      cbn [imap fmap list_fmap length replicate]. rewrite Hf. f_equal.
      apply IH. intros i x. apply Hf. }
    rewrite fmap_cons. cbn [allowed]. rewrite Hg by reflexivity.
    reflexivity.
  - apply insert_delete_eq.
Qed.

(** X26.  Identifiers do not touch each other: a call for one identifier,
    and its reset, leave the entry of every other identifier as it is, and
    therefore the answer that the other identifier gets next.  After a
    reset the identifier is unknown again, whatever its count or lock
    was. *)
Theorem identifiers_are_independent store (now now' : Z)
    (id id' : string) :
  id <> id' ->
  let after := snd (checkRateLimit MAX_ATTEMPTS WINDOW_MS store now id) in
  after !! id' = store !! id'
  /\ resetRateLimit store id !! id' = store !! id'
  /\ fst (checkRateLimit MAX_ATTEMPTS WINDOW_MS after now' id')
     = fst (checkRateLimit MAX_ATTEMPTS WINDOW_MS store now' id')
  /\ checkRateLimit MAX_ATTEMPTS WINDOW_MS (resetRateLimit store id) now id
     = (mkResult true (MAX_ATTEMPTS - 1) (now + WINDOW_MS) None,
        <[id := mkEntry 1 (now + WINDOW_MS) None]> store).
Proof.
  intros Hne after.
  assert (Hframe : after !! id' = store !! id').
  { unfold after, checkRateLimit.
    destruct (store !! id) as [e|] eqn:Hl;
      [|cbn [snd]; apply lookup_insert_ne; exact Hne].
    assert (Hs : (if decide (resetAt e < now /\ locked e = None)
                  then delete id store else store) !! id' = store !! id').
    { case_decide; [apply lookup_delete_ne; exact Hne|reflexivity]. }
    set (st := if decide (resetAt e < now /\ locked e = None)
               then delete id store else store) in *.
    clearbody st.
    destruct (locked e) as [l|]; repeat case_decide; cbn [snd];
      rewrite ?lookup_insert_ne, ?lookup_delete_ne by exact Hne;
      exact Hs. }
  split; [exact Hframe|].
  split; [apply lookup_delete_ne; exact Hne|].
  split.
  - unfold checkRateLimit. rewrite Hframe.
    destruct (store !! id') as [e|]; [|reflexivity].
    destruct (locked e); repeat case_decide; reflexivity.
  - pose proof (check_first (resetRateLimit store id) now id
                  (lookup_delete_eq store id)) as Hrun.
    rewrite Hrun. f_equal.
    apply insert_delete_eq.
Qed.

(** X27.  The periodic cleanup is not seen in the next answer: a check that
    is made at or after the time of a cleanup gets the answer it would
    have got without that cleanup. *)
Theorem cleanup_keeps_the_next_answer store (now now' : Z)
    (id : string) :
  now <= now' ->
  fst (checkRateLimit MAX_ATTEMPTS WINDOW_MS (cleanup now store) now' id)
  = fst (checkRateLimit MAX_ATTEMPTS WINDOW_MS store now' id).
Proof.
  intros Hle. unfold checkRateLimit, cleanup.
  destruct (store !! id) as [e|] eqn:Hl.
  - destruct (decide (expired now e)) as [Hx|Hx].
    + assert (Hnone : filter (fun kv : string * RateLimitEntry =>
                                ~ expired now (snd kv)) store !! id = None).
      { apply map_lookup_filter_None. right. intros x Hx'. cbn [snd].
        rewrite Hl in Hx'. injection Hx' as <-. tauto. }
      rewrite Hnone. destruct Hx as [Hr Hlock].
      destruct (locked e) as [l|].
      * rewrite decide_False by lia. reflexivity.
      * rewrite decide_True by lia. reflexivity.
    + assert (Hsome : filter (fun kv : string * RateLimitEntry =>
                                ~ expired now (snd kv)) store !! id = Some e).
      { apply map_lookup_filter_Some. split; [exact Hl|exact Hx]. }
      rewrite Hsome.
      destruct (locked e); repeat case_decide; reflexivity.
  - assert (Hnone : filter (fun kv : string * RateLimitEntry =>
                              ~ expired now (snd kv)) store !! id = None).
    { apply map_lookup_filter_None. left. exact Hl. }
    rewrite Hnone. reflexivity.
Qed.

End RateLimitFacts.

(** ** The rate limiter with the default limits *)

Lemma attempts_within_the_window_witness :
  RateLimit.allowed
    <$> fst (RateLimit.attempts 5 900000 ∅ "login:ann@example.com"
               [1000; 2000; 3000; 4000; 5000])
  = [true; true; true; true; true].
Proof.
  rewrite (attempts_within_the_window 5 900000 ∅ "login:ann@example.com"
             1000 [2000; 3000; 4000; 5000]).
  - reflexivity.
  - apply lookup_empty.
  - repeat constructor; lia.
  - simpl. lia.
Defined.

Lemma lockout_lasts_one_hour_witness :
  fst (RateLimit.checkRateLimit 5 900000
         (<[ "login:ann@example.com" := RateLimit.mkEntry 5 901000 None ]> ∅)
         6000 "login:ann@example.com")
  = RateLimit.mkResult false 0 3606000 (Some 3606000).
Proof.
  apply (lockout_lasts_one_hour 5 900000 _ 6000 "login:ann@example.com"
           (RateLimit.mkEntry 5 901000 None)).
  - apply lookup_insert_eq.
  - reflexivity.
  - simpl. lia.
  - simpl. lia.
  - lia.
Defined.

Lemma attempt_after_lockout_is_free_witness :
  RateLimit.allowed
    <$> fst (RateLimit.attempts 5 900000
               (<[ "login:ann@example.com"
                   := RateLimit.mkEntry 6 901000 (Some 3606000) ]> ∅)
               "login:ann@example.com"
               [3606000; 3607000; 3608000; 3609000; 3610000; 3611000])
  = [true; true; true; true; true; true].
Proof.
  apply (attempt_after_lockout_is_free 5 900000 _ 3606000
           "login:ann@example.com"
           (RateLimit.mkEntry 6 901000 (Some 3606000)) 3606000 3607000
           [3608000; 3609000; 3610000; 3611000]).
  - apply lookup_insert_eq.
  - reflexivity.
  - lia.
  - repeat constructor; lia.
  - simpl. lia.
Defined.

Lemma identifiers_are_independent_witness :
  snd (RateLimit.checkRateLimit 5 900000 ∅ 1000 "login:ann@example.com")
    !! "login:bob@example.com"
  = (∅ : gmap string RateLimit.RateLimitEntry) !! "login:bob@example.com".
Proof.
  apply (identifiers_are_independent 5 900000 ∅ 1000 2000
           "login:ann@example.com" "login:bob@example.com").
  discriminate.
Defined.

Lemma cleanup_keeps_the_next_answer_witness :
  fst (RateLimit.checkRateLimit 5 900000
         (RateLimit.cleanup 902000
            (<[ "login:ann@example.com"
                := RateLimit.mkEntry 3 901000 None ]> ∅))
         903000 "login:ann@example.com")
  = fst (RateLimit.checkRateLimit 5 900000
           (<[ "login:ann@example.com"
               := RateLimit.mkEntry 3 901000 None ]> ∅)
           903000 "login:ann@example.com").
Proof.
  apply (cleanup_keeps_the_next_answer 5 900000 _ 902000 903000
           "login:ann@example.com").
  lia.
Defined.

(** ** The overview's statistics *)

Section OverviewFacts.
Import Authorization Tokens Leaderboard Overview.

Lemma sumZ_perm (l l' : list Z) : l ≡ₚ l' -> sumZ l = sumZ l'.
Proof.
  induction 1 as [|x l l' _ IH|x y l|l l' l'' _ IH1 _ IH2];
    cbn [sumZ]; lia.
Qed.

Lemma sum_values_insert (m : gmap Id Z) (k : Id) (v : Z) :
  sumZ (snd <$> map_to_list (<[k := v]> m))
  = sumZ (snd <$> map_to_list m) - default 0 (m !! k) + v.
Proof.
  destruct (m !! k) as [old|] eqn:Hk.
  - rewrite <- (insert_delete_eq m k v).
    rewrite (sumZ_perm _ _ (fmap_Permutation snd _ _
                              (map_to_list_insert (delete k m) k v
                                 (lookup_delete_eq m k)))).
    rewrite <- (sumZ_perm _ _ (fmap_Permutation snd _ _
                                 (map_to_list_delete m k old Hk))).
    cbn [fmap list_fmap sumZ snd default from_option id]. lia.
  - rewrite (sumZ_perm _ _ (fmap_Permutation snd _ _
                              (map_to_list_insert m k v Hk))).
    cbn [fmap list_fmap sumZ snd default from_option id]. lia.
Qed.

Lemma pointsByUser_sum (db : DB) (cs : list Completion) :
  forall m : gmap Id Z,
    sumZ (snd <$> map_to_list (foldl (addUserPoints db) m cs))
    = sumZ (snd <$> map_to_list m)
      + sumZ ((fun c => taskPoints db (c_taskTemplateId c)) <$> cs).
Proof.
  induction cs as [|c cs IH]; intros m; [simpl; lia|].
  cbn [foldl fmap list_fmap sumZ]. rewrite IH. unfold addUserPoints.
  rewrite sum_values_insert. lia.
Qed.

Lemma length_filter_values {A} (P : A -> Prop) `{forall x, Decision (P x)}
    (l : list (Id * A)) :
  length (filter P (snd <$> l))
  = length (fst <$> filter (fun kv => P (snd kv)) l).
Proof.
  induction l as [|[k v] l IH]; [reflexivity|].
  cbn [fmap list_fmap]. rewrite !filter_cons. cbn [snd].
  destruct (decide (P v)); cbn [fmap list_fmap length]; rewrite ?IH;
    reflexivity.
Qed.

(** The users the overview counts: those with a completion in the week
    whose completed task templates are as many as the active tasks. *)
Lemma counted_users (db : DB) (c w : Id) :
  let cs := filter (fun x => c_weekId x = w) (completions db) in
  let us :=
    fst <$> filter (fun kv : Id * gset Id =>
                      size (snd kv) = length (activeTasks db c))
                   (map_to_list (completionsByUser cs)) in
  NoDup us
  /\ forall u, u ∈ us
               <-> u ∈ c_userId <$> cs
                   /\ size (completedTasks db w u)
                      = length (activeTasks db c).
Proof.
  intros cs us. split.
  - eapply sublist_NoDup; [apply (NoDup_fst_map_to_list (completionsByUser cs))|].
    apply fmap_sublist, sublist_filter.
  - intros u. unfold us. rewrite list_elem_of_fmap. split.
    + intros ([k s] & -> & Hin). apply list_elem_of_filter in Hin as [Hs Hin].
      apply elem_of_map_to_list in Hin. cbn [fst snd] in *.
      rewrite completionsByUser_lookup in Hin. unfold cs in Hin.
      rewrite tasksIn_week in Hin.
      case_decide as Hu; [|discriminate]. injection Hin as <-.
      split; [exact Hu | exact Hs].
    + intros [Hu Hs]. exists (u, completedTasks db w u).
      split; [reflexivity|]. apply list_elem_of_filter. split; [exact Hs|].
      apply elem_of_map_to_list. rewrite completionsByUser_lookup.
      fold cs. rewrite decide_True by exact Hu. unfold cs.
      rewrite tasksIn_week. reflexivity.
Qed.

Lemma completedTasks_nonempty (db : DB) (w u : Id) :
  size (completedTasks db w u) <> O ->
  u ∈ c_userId <$> filter (fun x => c_weekId x = w) (completions db).
Proof.
  intros Hsize.
  destruct (decide (u ∈ c_userId <$> filter (fun x => c_weekId x = w)
                                         (completions db))) as [|Hno];
    [assumption|]. exfalso. apply Hsize.
  assert (Hempty : completedTasks db w u = ∅).
  { unfold completedTasks. rewrite filter_none; [reflexivity|].
    apply Forall_forall. intros x Hx [Hw Hu]. apply Hno.
    apply list_elem_of_fmap. exists x. split; [congruence|].
    apply list_elem_of_filter. split; assumption. }
  rewrite Hempty. apply size_empty.
Qed.

Lemma completedTasks_member (db : DB) (w u : Id) :
  u ∈ c_userId <$> filter (fun x => c_weekId x = w) (completions db) ->
  size (completedTasks db w u) <> O.
Proof.
  intros Hu Hz. apply list_elem_of_fmap in Hu as (x & -> & Hx).
  apply list_elem_of_filter in Hx as [Hw Hx].
  apply size_empty_inv in Hz.
  assert (Hin : c_taskTemplateId x ∈ completedTasks db w (c_userId x)).
  { unfold completedTasks. apply elem_of_list_to_set.
    apply list_elem_of_fmap. exists x. split; [reflexivity|].
    apply list_elem_of_filter. auto. }
  rewrite Hz in Hin. set_solver.
Qed.

(** X28.  The statistics of the organizer's overview.  The handler asks
    that the caller organizes the competition in the URL, that the week
    exists and that the competition has a participant; it does not ask
    that the week belongs to the competition.  When it answers 200, the
    total is the number of completions of the week, the average is the
    sum of the task points of these completions divided by the number of
    participants of the competition, and the perfect weeks are the users
    with a completion in the week who have completed as many task
    templates in it as the competition has active tasks.  If no user takes
    part twice, every user that [detectPerfectWeeks] detects is counted,
    and if moreover every completion of the week was made by a participant
    the count is the number of detected users. *)
Theorem overview_statistics (db : DB) (session : option Id) (c w : Id) :
  let ps := filter (fun p => p_challengeId p = c) (participants db) in
  let cs := filter (fun x => c_weekId x = w) (completions db) in
  ((exists stats, GET_overview db session c w = Json 200 stats)
   <-> exists g wk, session = Some g /\ verifyOrganizer db c g = true
                    /\ head (filter (fun x => w_id x = w) (weeks db))
                       = Some wk
                    /\ ps <> [])
  /\ forall stats,
       GET_overview db session c w = Json 200 stats ->
       totalCompletions stats = length cs
       /\ averagePoints stats
          = (inject_Z (sumZ ((fun x => taskPoints db (c_taskTemplateId x))
                               <$> cs))
             / inject_Z (Z.of_nat (length ps)))%Q
       /\ (exists us, NoDup us /\ perfectWeeks stats = length us
                      /\ forall u, u ∈ us
                                   <-> u ∈ c_userId <$> cs
                                       /\ size (completedTasks db w u)
                                          = length (activeTasks db c))
       /\ (NoDup (p_userId <$> ps) ->
           (length (detectPerfectWeeks db c w) <= perfectWeeks stats)%nat
           /\ ((forall x, x ∈ cs -> c_userId x ∈ p_userId <$> ps) ->
               perfectWeeks stats = length (detectPerfectWeeks db c w))).
Proof.
  intros ps cs. split.
  { unfold GET_overview. fold ps. split.
    - intros [stats Hok].
      destruct session as [g|]; [|discriminate].
      destruct (verifyOrganizer db c g) eqn:Hg; [|discriminate].
      cbn [negb] in Hok.
      destruct (head (filter (fun x => w_id x = w) (weeks db)))
        as [wk|] eqn:Hwk; [|discriminate].
      case_decide as Hps; [discriminate|].
      exists g, wk. split; [reflexivity|]. split; [exact Hg|].
      split; [reflexivity|]. intros Hnil. apply Hps. rewrite Hnil.
      reflexivity.
    - intros (g & wk & -> & Hg & Hwk & Hps). rewrite Hg, Hwk. cbn [negb].
      rewrite decide_False by (destruct ps; [congruence|discriminate]).
      eexists. reflexivity. }
  intros stats Hok. unfold GET_overview in Hok.
  destruct session as [g|]; [|discriminate].
  destruct (verifyOrganizer db c g) eqn:Hg; [|discriminate].
  cbn [negb] in Hok.
  destruct (head (filter (fun x => w_id x = w) (weeks db))) as [wk|] eqn:Hwk;
    [|discriminate].
  fold ps cs in Hok. fold (activeTasks db c) in Hok.
  case_decide as Hps; [discriminate|].
  rewrite decide_True in Hok by lia.
  injection Hok as <-. cbn [totalCompletions averagePoints perfectWeeks].
  destruct (counted_users db c w) as [Hnd Hmem]. fold cs in Hnd, Hmem.
  rewrite length_filter_values.
  set (us := fst <$> filter _ (map_to_list (completionsByUser cs))) in *.
  split; [reflexivity|].
  split.
  { rewrite pointsByUser_sum, map_to_list_empty. reflexivity. }
  split; [exists us; auto|].
  intros Hpart.
  assert (Hdnd : NoDup (detectPerfectWeeks db c w)).
  { unfold detectPerfectWeeks. case_decide; [constructor|].
    apply NoDup_fmap_filter. exact Hpart. }
  assert (Hsub : forall u, u ∈ detectPerfectWeeks db c w -> u ∈ us).
  { intros u Hu. apply detectPerfectWeeks_criterion in Hu as (Hn & _ & Hs).
    apply Hmem. split; [|exact Hs].
    apply completedTasks_nonempty. rewrite Hs. exact Hn. }
  split.
  - apply submseteq_length, NoDup_submseteq; assumption.
  - intros Hall. symmetry. apply Permutation_length.
    apply NoDup_Permutation; [exact Hdnd | exact Hnd|].
    intros u. split; [apply Hsub|]. intros Hu.
    apply Hmem in Hu as [Hu Hs].
    apply detectPerfectWeeks_criterion.
    split; [rewrite <- Hs; apply completedTasks_member; exact Hu|].
    split; [|exact Hs].
    apply list_elem_of_fmap in Hu as (x & -> & Hx).
    pose proof (Hall x Hx) as Hp.
    apply list_elem_of_fmap in Hp as (p & Hpu & Hp).
    apply list_elem_of_filter in Hp as [Hpc Hp]. exists p. auto.
Qed.

End OverviewFacts.

Lemma overview_statistics_witness :
  exists stats,
    Overview.GET_overview perfectWeekExample (Some "ann") "c1" "w1"
    = Json 200 stats
    /\ Overview.totalCompletions stats = 5%nat
    /\ Overview.perfectWeeks stats
       = length (Tokens.detectPerfectWeeks perfectWeekExample "c1" "w1").
Proof.
  eexists. split; [reflexivity|].
  destruct (proj2 (overview_statistics perfectWeekExample (Some "ann")
                     "c1" "w1") _ eq_refl)
    as (Htotal & _ & _ & Hperfect).
  split; [exact Htotal|].
  apply Hperfect.
  - apply (bool_decide_unpack _). vm_compute. exact I.
  - intros x Hx. apply list_elem_of_In in Hx. simpl in Hx.
    destruct Hx as [<-|[<-|[<-|[<-|[<-|[]]]]]];
      apply (bool_decide_unpack _); vm_compute; exact I.
Defined.
(** ** Where the week lock and the ledger go wrong *)

(** C2 fails on the code.  Ann and Bob have a wager, ACCEPTED, and both
    have their values in, 1000 and 1500 (the store two submit requests
    running at the same time leave; submitted one after the other, the
    second request resolves the wager for Bob).  The week lock does not
    resolve it: the cleanup takes the resolve branch for status
    PENDING_REVIEW only, a status that no handler sets, so the wager is
    voided with the note for incomplete submissions and both stakes are
    refunded. *)
Theorem week_lock_voids_complete_wager :
  sideChallenges lifecycleBothSubmitted
  = [mkSideChallenge "c" "c1" "w1" "ann" "bob" ACCEPTED "HIGHER_WINS" None 1
       (Some 200) 172800100 None None None]
  /\ SideChallenges.submissionsOf lifecycleBothSubmitted "c"
     = [mkSubmission "c" "ann" 1000; mkSubmission "c" "bob" 1500]
  /\ SideChallenges.calculateWinner (H := exampleFormat) "HIGHER_WINS" None
       (toNumber 1000) (toNumber 1500) "ann" "bob"
     = Return (SideChallenges.mkWinnerCalculation SideChallenges.opponent
                 "Higher value wins: 1500 > 1000" (Some "bob"))
  /\ sideChallenges lifecycleResolved = [resolvedWager]
  /\ fst lifecycleBothLock
     = Json 200 (WeekRoutes.mkLockBody LOCKED
                   (Some (Tokens.mkAwardResult 0 0))
                   (Some (SideChallenges.mkCleanupResult 0 1)))
  /\ wagerView (snd lifecycleBothLock) "c"
     = ([mkSideChallenge "c" "c1" "w1" "ann" "bob" VOID "HIGHER_WINS" None 1
           (Some 200) 172800100 None None
           (Some "Voided due to week lock with incomplete submissions")],
        [mkLedgerData "c1" "ann" (Some "w1") (-1) SIDE_CHALLENGE_STAKE
                      (Some "c");
         mkLedgerData "c1" "bob" (Some "w1") (-1) SIDE_CHALLENGE_STAKE
                      (Some "c");
         mkLedgerData "c1" "ann" (Some "w1") 1 SIDE_CHALLENGE_VOID_REFUND
                      (Some "c");
         mkLedgerData "c1" "bob" (Some "w1") 1 SIDE_CHALLENGE_VOID_REFUND
                      (Some "c")])
  /\ ~ (exists row, row ∈ sideChallenges (snd lifecycleBothLock)
                    /\ sc_status row = RESOLVED).
Proof.
  repeat match goal with
         | |- _ /\ _ => split; [vm_compute; reflexivity|]
         end.
  intros (row & Hin & Hst).
  apply list_elem_of_In in Hin. vm_compute in Hin.
  destruct Hin as [<-|[]]. discriminate.
Qed.

Lemma crossDeleted_reachable :
  reachable (H := exampleFormat) (H0 := exampleSchema) crossDeleted.
Proof.
  exists crossStart. split; [split; [reflexivity | split; reflexivity]|].
  apply (rtc_l _ _ crossAwarded1);
    [exact (step_award crossStart "c1" "w0")|].
  apply (rtc_l _ _ crossAwarded);
    [exact (step_award crossAwarded1 "c2" "v0")|].
  apply (rtc_l _ _ crossProposed);
    [exact (step_propose crossAwarded 100 (Some "ann") "c1" "w1"
              (Routes.mkProposeBody "bob" "Steps" "Most steps this week"
                 "HIGHER_WINS" "steps" None 1 None))|].
  apply (rtc_l _ _ crossAccepted);
    [exact (step_accept crossProposed 200 (Some "bob") "c2" "v1" "c")|].
  apply rtc_once.
  exact (step_delete_challenge crossAccepted (Some "cy") "c2").
Qed.

Lemma crossLocked_reachable :
  reachable (H := exampleFormat) (H0 := exampleSchema) crossLocked.
Proof.
  apply (lock_run_facts (H := exampleFormat) (H0 := exampleSchema)
           crossDeleted 500 "ann" "c1" "w1" (mkWeek "w1" "c1" OPEN)
           crossDeleted_reachable);
    vm_compute; reflexivity.
Qed.

(** C1 fails on the code.  The accept handler takes the competition and
    the week of the stake from the URL and never compares them with the
    wager's own, where the lock, completion and recalculation handlers
    answer 404 for a week of another competition.  Bob accepts Ann's wager
    of competition c1 through the URL of competition c2: the handler
    answers 200 and debits his stake in the ledger of c2.  The organizer of
    c2 deletes it, which takes its ledger rows along and leaves the wager,
    which is of c1, ACCEPTED with the creator's debit only.  The lock of
    the wager's week then voids the wager after acceptance and refunds both
    parties in c1.  In this reachable state the rows that name the wager
    are, for Bob, the refund alone: his net from the wager is +1 where
    conservation has 0, and his balance in c1 is 2 with one token earned.
    Without the deletion the lock leaves Bob's debit in the ledger of c2
    and his refund in the ledger of c1: a token has moved from one
    competition to the other. *)
Theorem foreign_accept_breaks_conservation :
  fst crossAccept = Json 200 ()
  /\ wagerData crossAccepted "c"
     = [mkLedgerData "c1" "ann" (Some "w1") (-1) SIDE_CHALLENGE_STAKE
                     (Some "c");
        mkLedgerData "c2" "bob" (Some "v1") (-1) SIDE_CHALLENGE_STAKE
                     (Some "c")]
  /\ fst crossDelete = Json 200 ()
  /\ wagerView crossDeleted "c"
     = ([mkSideChallenge "c" "c1" "w1" "ann" "bob" ACCEPTED "HIGHER_WINS"
           None 1 (Some 200) 172800100 None None None],
        [mkLedgerData "c1" "ann" (Some "w1") (-1) SIDE_CHALLENGE_STAKE
                      (Some "c")])
  /\ fst crossLock
     = Json 200 (WeekRoutes.mkLockBody LOCKED
                   (Some (Tokens.mkAwardResult 0 0))
                   (Some (SideChallenges.mkCleanupResult 0 1)))
  /\ reachable (H := exampleFormat) (H0 := exampleSchema) crossLocked
  /\ wagerView crossLocked "c"
     = ([mkSideChallenge "c" "c1" "w1" "ann" "bob" VOID "HIGHER_WINS" None 1
           (Some 200) 172800100 None None
           (Some "Voided due to week lock with incomplete submissions")],
        [mkLedgerData "c1" "ann" (Some "w1") (-1) SIDE_CHALLENGE_STAKE
                      (Some "c");
         mkLedgerData "c1" "ann" (Some "w1") 1 SIDE_CHALLENGE_VOID_REFUND
                      (Some "c");
         mkLedgerData "c1" "bob" (Some "w1") 1 SIDE_CHALLENGE_VOID_REFUND
                      (Some "c")])
  /\ wagerRows crossLocked "c" "bob" = [(1, SIDE_CHALLENGE_VOID_REFUND)]
  /\ net crossLocked "c" "bob" = 1
  /\ net crossLocked "c" "ann" = 0
  /\ Tokens.getTokenBalance crossAwarded "c1" "bob" = 1
  /\ Tokens.getTokenBalance crossLocked "c1" "bob" = 2
  /\ wagerData crossLockedEarly "c"
     = [mkLedgerData "c1" "ann" (Some "w1") (-1) SIDE_CHALLENGE_STAKE
                     (Some "c");
        mkLedgerData "c2" "bob" (Some "v1") (-1) SIDE_CHALLENGE_STAKE
                     (Some "c");
        mkLedgerData "c1" "ann" (Some "w1") 1 SIDE_CHALLENGE_VOID_REFUND
                     (Some "c");
        mkLedgerData "c1" "bob" (Some "w1") 1 SIDE_CHALLENGE_VOID_REFUND
                     (Some "c")]
  /\ Tokens.getTokenBalance crossAwarded "c2" "bob" = 1
  /\ Tokens.getTokenBalance crossLockedEarly "c1" "bob" = 2
  /\ Tokens.getTokenBalance crossLockedEarly "c2" "bob" = 0.
Proof.
  repeat match goal with
         | |- reachable _ /\ _ => split; [exact crossLocked_reachable|]
         | |- _ /\ _ => split; [vm_compute; reflexivity|]
         end.
  vm_compute. reflexivity.
Qed.
